(* ===== verification/_CoqProject ===== *)
-Q . S2P
Prelude.v
Findmatch.v
ZcString.v
Buffer.v
HttpParse.v
Numerals.v
Transform.v
Regex.v
OptionParse.v
Uri.v
Config.v
ConfigSpec.v
HttpReply.v
Formatting.v
JsonWriter.v
Interfaces.v
Server.v
RequestImpl.v
SyncQueue.v
SyncQueueSpec.v
Broker.v
SyncQueueConc.v
Interleave.v
RelyGuarantee.v
QueueProg.v
BrokerConc.v
QueueInit.v
SyncSapi.v
Router.v
RouterProg.v
NoLoss.v
Defined.v
Wellformed.v
EndToEnd.v
ThreadPool.v
ThreadPoolConc.v
PoolJoin.v
CmdLine.v
StartUp.v
Kernel.v
PoolProg.v
KernelConc.v
Delivery.v
Safety.v
Descriptors.v
KernelRun.v
Shutdown.v
