(* ===== verification/Prelude.v ===== *)
(** * NavekFiber: a verification development

    NavekFiber is a message broker over HTTP.  A kernel process listens on
    sockets, hands each connection to a pool of workers, parses the request,
    routes it by its path to a queue module, and the module answers it, now or
    when another request brings the answer.  This library models that path from
    the bytes of a socket to the bytes of the answer, the thread pool it runs
    on, the start-up that sets it up from the command line and the configuration
    file, and the main loop that holds all of it together until a signal ends it.

    ** The parts, the files and the sources

    - [Prelude] (this file): byte strings, machine integers modulo [2^64], the
      outcome of C++ code ([Ret], [Throw], [Terminate], and [Undef] for undefined
      behaviour), the state monad [M], invariants of stateful code
      ([preserves]), transition sequences ([star]), tactics and the hint
      database [fiber].
    - [Findmatch]: [src/ci/utils/ascii.h] and [findmatch.h]: the case table and
      the scanners [match_values], [find_values], [find_char], with every memory
      access, and the text functions they compute.
    - [ZcString]: [src/ci/utils/str.h]: views of foreign memory, both trims,
      [explode] with its static needles, hash and equality up to case.
    - [Buffer]: [src/kernel/net/impl/bufferimpl.h]: the loop around [recv].
    - [HttpParse]: [http_parse_request] of [src/kernel/net/impl/httpimpl.cpp].
    - [Numerals]: [std::to_string], [std::stoul], [std::stol], [std::strlen].
    - [Regex]: the part of [std::regex] that the sources use, as a backtracking
      matcher with the equations its clients compute with.
    - [Transform], [OptionParse], [Uri]: [src/ci/utils/transform.h] and
      [option.h], and the address parsers of [init-channels.hpp] and
      [sync-sapi.cpp].
    - [Config]: [src/kernel/main/config.cpp] and [impl/cfgimpl.h];
      [ConfigSpec] has the tree a file denotes and the proof that it is built.
    - [HttpReply]: the rest of [httpimpl.cpp] ([HttpImpl::Process],
      [HttpImpl::Reply], closing), [httpcodes.hpp], and [RuntimeException] of
      [src/ci/coreexcept.h].
    - [Formatting]: letter case and [format] of [transform.h], and
      [SystemException]; [JsonWriter]: [src/ci/json/writer.hpp].
    - [Interfaces]: [src/ci/interface/IRequest.h] and [IMQ.h] as type classes,
      with the laws their clients rely on.
    - [RequestImpl]: [src/kernel/main/impl/requestimpl.cpp], request objects in
      a store shared by the workers; it implements [IRequest] and its laws.
    - [SyncQueue]: [src/mq/mq-sync/src/sync-queue.cpp], handler by handler, each
      critical section a function of its own; it implements [IMQ].
      [SyncQueueSpec] has its invariants, [Broker] the abstract broker it
      refines, [SyncQueueConc] the interleavings of its critical sections,
      [QueueInit] its start and stop and the kernel's [Write] and [Read].
    - [Interleave]: code as a program of atomic actions (a free monad over [M]),
      threads that run such programs, and the invariants and bounds of their
      interleavings; [RelyGuarantee]: a logic for threads that promise each other
      different things.  [QueueProg] has the handlers of [SyncQueue] as programs,
      [BrokerConc] their linearizability, [NoLoss] that they leave each request
      answered or stored, [Defined] that they have no undefined behaviour,
      [RouterProg] the programs of [requestimpl.cpp] and [routerimpl.cpp] around
      them, and [Wellformed] what reading and parsing keep true of a request.
    - [SyncSapi]: [src/mq/mq-sync/src/sync-sapi.cpp], with its threads.
    - [Server]: [src/kernel/net/server.cpp] and [Socket::Open] of
      [socketimpl.h].
    - [Router]: [src/kernel/main/impl/routerimpl.h] and [routerimpl.cpp].
      [EndToEnd] puts router, requests and queue together.
    - [ThreadPool]: [src/kernel/mt/threadpool.cpp] and [threadpool.h];
      [ThreadPoolConc] is the transition system of its workers and callers,
      [PoolJoin] adds [Join] and the entry of [IThreadJob] objects.
    - [CmdLine]: [src/ci/sys/cmdline.h], [path.h] and
      [src/kernel/main/init-cmd.hpp].
    - [StartUp]: the other [src/kernel/main/init-*.hpp] and the start-up block
      of [Kernel::Run] in [run.cpp].
    - [Kernel]: the main loop and the end of [Kernel::Run], with the server, the
      pool, the workers and the signals.  [PoolProg] has workers whose tasks are
      programs, [KernelConc] the program of a connection and the service that it
      works on, [Delivery] what has become of each connection when its program has
      returned, [Safety] that it returns.  [Descriptors]: the code of [HttpImpl]
      action by action, and the descriptors that the system hands out again.
      [KernelRun]: [Kernel::Run] as a whole with workers that act action by
      action, [main] of [src/kernel/bus.cpp], and a small machine on which whole
      runs are computed; [Shutdown]: that the end of [Kernel::Run] is reached.

    ** How code becomes definitions

    A struct is a [Record], an enum an [Inductive].  A method is a function in
    the monad [M] over the state it can change, with its guards, early returns
    and exceptions in the order of the source; an exception keeps the state it
    was thrown in.  [RuntimeException] is kept apart from [std::exception],
    because it inherits it privately and handlers for the latter do not catch
    it.  Pointers into a block are indices, and a read outside is [Undef]; a
    pointer into a destroyed string is [Dangling].  Objects shared by several
    handlers live in a store indexed by address.  Blocks under a lock are
    functions on the shared state, so that a concurrent run is a sequence of
    blocks ([SyncQueueConc], [ThreadPoolConc], [PoolJoin], [SyncSapi]).  In
    [Kernel] the main thread is a function, and before each of its actions the
    workers take any number of their own steps; the function that says which
    they take belongs to the class [Scheduling], whose only laws are that these
    are steps of the workers and that new threads have new identifiers.  What
    the steps of the workers are is an argument of [Kernel] ([WorkerSteps]); in
    [KernelRun] and [Shutdown] a step is one action of the program of one
    connection ([conc_step]).

    A handler is written twice: as a function in [M], and as a program whose
    actions are the critical sections and the calls of request objects, with
    everything else that threads can do in between.  The program run alone, while
    nobody else is working on its requests, is the function ([call_prog_run_call]).
    The operations of a handler on the request of another connection
    ([SetTelemetry] in [Get] and [Post], [Reply] in [Post]) take no lock, so each of
    them has a beginning and an end ([shared_request]): a field of the model
    ([mq_writing]) holds the fields of the telemetry that are being worked on, and
    a second operation that begins on one of them is a data race, [Undef], which
    is recorded for good.  A run of threads is a sequence
    of [pstep]s; what each action keeps of the shared state, knowing what the
    thread has learned before, every run keeps ([keeps_inv], [ends_in]).  Where
    a thread relies on others not to do what it does itself (make a request with
    its identifier, erase its request), it has a rely and a guarantee of its own
    ([rg]), and threads that start apart keep to both ([interleaving_sound]).

    System calls ([recv], [ioctl], [send], the clock, the socket calls of
    [SocketOS]), the configuration file, the contents of fresh memory, thread
    identifiers, [getopt_long] and [getcwd], the schedule of the workers and the
    arrival of signals, the order of hash tables, the objects that the registry
    makes (told apart by the number of routes there were before), what a stale
    pointer denotes ([StaleText]), what follows the table of methods in memory
    ([PastEnd]) and what a moved-from interface holds ([MovedFrom]) are
    parameters.  [Dom::Interface] and reference counting belong to the Dom
    submodule, which is not part of the sources: an interface pointer is an
    [option] that is [Some] when [QueryInterface] succeeds.

    Loops whose end is not visible in their arguments take fuel, and run out as
    [Undef] or [None]: the scanners get (needles + 1) * (length + 1) or more
    steps, [Read] one step for each byte of the buffer, [explode] one for each
    character.  Their theorems give the result for that fuel, so that the fuel
    is never what ends them.  A repetition of [Regex] gets one round more than
    there are characters, and each round advances; [initConfig] gets one round
    more than the file has bytes, and more changes nothing ([initConfig_fuel]).
    [Listen], [ExecuteThread], the loop around [getopt_long], the main loop and
    [Join] in [Kernel] take their fuel from the caller: [None] is a run that has
    not returned.  For the first three theorems name the fuel with which they
    return.  The main loop need not return, and what is shown of its result is
    for every fuel.  [Join] waits for workers, and returns when the scheduler
    lets them work ([Fair] in [Shutdown], with the fuel that is enough); that it
    cannot be stuck is shown of its steps ([PoolJoin]), and the witnesses of
    [KernelRun] compute whole runs that return.

    ** What is shown

    - Parsing ([Buffer], [HttpParse], [ZcString], [RequestImpl]): reading and
      parsing are total and stay inside the buffer; the method, target, headers
      and body stored are those of the text; header lookup takes the first
      header of a name up to case.
    - Answering ([HttpReply]): the exact sends of a reply; a failed send throws
      and closes; a descriptor is closed exactly once.  Answering at the same
      time ([Descriptors]): an object that one thread uses behaves as if its
      calls were atomic and reaches nobody else's connection; an object that two
      threads answer on can close the connection of a third.
    - Routing ([Router], [EndToEnd]): the comparison of keys is a pattern
      matcher; unknown routes get 404; every path, exceptions included, keeps
      the account of descriptors; a job goes through the whole kernel.
    - Queueing ([SyncQueueSpec], [Broker], [SyncQueueConc]): storage and capacity
      invariants, no request dropped unless the same call has answered it before,
      refinement of the abstract broker answer by answer, first in first out and
      at most one consumer under every interleaving of the critical sections.
    - Queueing by many workers ([QueueProg], [BrokerConc]): the invariants under
      every interleaving of the handlers with their requests, and, for calls that
      start properly ([proper_start]), linearizability with respect to the
      abstract broker as long as no two handlers work on the same field of one
      request at once: a linearization of a run is never revised, only extended.
      Two POSTs for one job can always come to that race ([two_posts_race]).
    - Running ([KernelRun], [Kernel], [PoolProg], [KernelConc]): the whole program
      from its command line to its return: its routes, every accepted connection
      processed once or left waiting at the end, no thread left, the signals that
      end it; with workers that interleave inside the requests, that every
      descriptor is still owned or was closed once and the queues are sound at
      the end ([Run_serves_at_once]), and that every processed connection has been
      closed once or has its request stored in a queue ([Run_loses_nothing]).  Both
      are about runs that return, in which there has been no such race.
    - Withstanding ([Defined], [Wellformed], [Safety]): whatever bytes clients
      send and however the workers interleave, no task ends the process or has
      undefined behaviour other than a data race on a request
      ([connections_never_fail]), as long as each buffer has room for a zero byte,
      the limits of the listeners are in order, the texts of destroyed temporaries
      are still there and the pointer after the table of methods can be loaded;
      small cases show what happens without.
    - Ending ([Shutdown]): told to stop, [Kernel::Run] returns with no thread
      left, or there has been a data race on a request ([Run_main_returns]).
    - Working ([ThreadPool], [ThreadPoolConc], [PoolJoin]): the sizing arithmetic,
      the limit, conservation of tasks, the table of workers, that tasks can
      always be served, and that [Join] returns.
    - Executing ([SyncSapi]): the limit of its threads, the answers of a thread,
      that the threads end, and a message that is left behind.
    - Listening ([Server]): what one call of [Listen] accepts, when it blocks,
      and the uniqueness of identifiers.
    - Starting ([CmdLine], [Config], [ConfigSpec], [StartUp], [QueueInit]): the
      command line is read to its end, first occurrence first; a file denotes a
      tree and the views read it; which modules, channels and routes exist
      afterwards, and what ends the process.
    - Text helpers ([Transform], [Formatting], [OptionParse], [Numerals], [Uri],
      [ZcString], [JsonWriter]): round trips and exact results.
    - Where the code does something its authors did not mean, a theorem shows
      it: a POST for a waiting request, two POSTs at once, a refused request, the
      keys of the route table, a release build of the thread pool, uninitialised
      memory under the parser, two listeners that are ready at once, queue
      options that are never read, and others stated next to the definitions.

    ** What is not modelled

    Above [Descriptors] a call of a request object is one action, and so is
    [HttpImpl::Process]; for an object that one thread uses at a time this is
    shown to be enough ([exclusive_use_is_atomic]).  Operations of queue handlers
    on the request of another connection that overlap on a field are undefined
    behaviour in the model ([Undef]), so nothing is said of what happens after
    such a race.  A handler that writes to a request of another connection while
    the worker of that connection still works on it (its PUT has stored it and has
    not returned) is not counted as a race: after [Put] has stored the request its
    worker does not touch it again.  The threads of [SyncSapi] have a transition
    system of their own, which is not composed with [Kernel]: no route leads to
    that module.  Reference counts and the loading of modules belong to the Dom
    submodule.  The tracing macros of [trace.h], the wrapper of [signals.h] and
    the class of [mqimpl.h] (which nothing uses), the empty WebSocket class, the
    module registration of [main.cpp] and the test program of the pool are left
    out.*)
From Stdlib Require Export ZArith Lia.
From Stdlib Require Import Ascii String.
From stdpp Require Export base list gmap sets strings.
From stdpp Require Import options.

(** ** Characters and byte strings

    [char], [uint8_t] and the elements of a [std::string] are all [ascii];
    a [std::string], a C literal (without its terminator) and a block of
    memory are [list ascii]. *)

Abbreviation bytes := (list ascii).

(** A C string literal, without the terminating NUL. *)
Definition str (s : string) : bytes := list_ascii_of_string s.

Definition NUL : ascii := "000"%char.
Definition TAB : ascii := "009"%char.
Definition LF : ascii := "010"%char.
Definition CR : ascii := "013"%char.
Definition CRLF : bytes := [CR; LF].

(** The unsigned value of a byte, and its value as a (signed) [char]. *)
Definition u8 (c : ascii) : Z := Z.of_nat (nat_of_ascii c).
Definition i8 (c : ascii) : Z := if decide (u8 c < 128)%Z then u8 c else (u8 c - 256)%Z.

(** [std::isspace] in the "C" locale. *)
Definition isspace (c : ascii) : bool :=
  bool_decide (c = " "%char) || (bool_decide (9 <= u8 c)%Z && bool_decide (u8 c <= 13)%Z).

Definition isdigit (c : ascii) : bool :=
  bool_decide (48 <= u8 c)%Z && bool_decide (u8 c <= 57)%Z.

(** ** Machine integers: [size_t] and [uint64_t] are [Z] modulo [2^64],
    [long] and [ssize_t] are [Z] in the signed 64-bit range. *)
Definition u64_modulus : Z := 2 ^ 64.
Definition u64 (z : Z) : Z := z `mod` u64_modulus.
Definition in_u64 (z : Z) : Prop := (0 <= z < u64_modulus)%Z.
Definition in_i64 (z : Z) : Prop := (- 2 ^ 63 <= z < 2 ^ 63)%Z.
Definition in_i64b (z : Z) : bool := ((- 2 ^ 63 <=? z) && (z <? 2 ^ 63))%Z.

Lemma u64_range z : in_u64 (u64 z).
Proof. unfold in_u64, u64. apply Z.mod_pos_bound. reflexivity. Qed.

Lemma u64_small z : in_u64 z → u64 z = z.
Proof. intros H. apply Z.mod_small. exact H. Qed.

Lemma u64_idemp z : u64 (u64 z) = u64 z.
Proof. apply u64_small, u64_range. Qed.

(** ** Outcomes of C++ code

    A call returns, throws, ends the process through [std::terminate], or has
    undefined behaviour.  [RuntimeException] is the program's own class; it
    inherits [std::exception] privately, so that a handler for
    [std::exception] does not catch it. *)
Inductive exn :=
  | RuntimeException (what : bytes)
  | StdException (what : bytes).

Inductive outcome (A : Type) :=
  | Ret (a : A)
  | Throw (e : exn)
  | Terminate
  | Undef.
Arguments Ret {A} a.
Arguments Throw {A} e.
Arguments Terminate {A}.
Arguments Undef {A}.

#[export] Instance exn_eq_dec : EqDecision exn.
Proof. solve_decision. Defined.
#[export] Instance outcome_eq_dec {A} `{!EqDecision A} : EqDecision (outcome A).
Proof. solve_decision. Defined.

#[export] Instance outcome_ret : MRet outcome := @Ret.
#[export] Instance outcome_bind : MBind outcome := λ A B f m,
  match m with
  | Ret a => f a
  | Throw e => Throw e
  | Terminate => Terminate
  | Undef => Undef
  end.
#[export] Instance outcome_fmap : FMap outcome := λ A B f m, m ≫= λ a, Ret (f a).

(** [slice mem i j] is the content of the range [[i, j)] of a block. *)
Definition slice (mem : bytes) (i j : nat) : bytes := take (j - i) (drop i mem).

Lemma slice_nil mem i j : j ≤ i → slice mem i j = [].
Proof. intros H. unfold slice. by replace (j - i) with 0 by lia. Qed.

Lemma slice_cons mem i j c :
  i < j → mem !! i = Some c → slice mem i j = c :: slice mem (S i) j.
Proof.
  intros Hij Hc. unfold slice. rewrite (drop_S mem c i Hc).
  replace (j - i) with (S (j - S i)) by lia. done.
Qed.

Lemma slice_all mem : slice mem 0 (length mem) = mem.
Proof. unfold slice. rewrite Nat.sub_0_r. by rewrite drop_0, firstn_all. Qed.

Lemma slice_length mem i j : j ≤ length mem → length (slice mem i j) = j - i.
Proof. intros H. unfold slice. rewrite length_take, length_drop. lia. Qed.


Lemma slice_uncons m i j c t : slice m i j = c :: t → slice m (S i) j = t.
Proof.
  unfold slice. intros Ht. destruct (j - i) as [|k] eqn:Hk; [done|].
  destruct (drop i m) as [|d l] eqn:Hd; [done|]. simpl in Ht.
  replace (j - S i) with k by lia. injection Ht as -> <-.
  replace (S i) with (i + 1) by lia. by rewrite <- drop_drop, Hd.
Qed.

Lemma slice_drop m i j n : slice m (i + n) j = drop n (slice m i j).
Proof. unfold slice. rewrite skipn_firstn_comm, drop_drop. f_equal. lia. Qed.

Lemma slice_prefix m i j n : i + n ≤ j → slice m i (i + n) = take n (slice m i j).
Proof. intros H. unfold slice. rewrite take_take. f_equal. lia. Qed.

(** The two parts of a range whose text is known. *)
Lemma slice_app_l m i j a b :
  slice m i j = a ++ b → j ≤ length m → slice m i (i + length a) = a.
Proof.
  intros H Hj. apply (f_equal length) in H as Hl. rewrite slice_length, length_app in Hl by done.
  destruct (decide (length a = 0)) as [Ha|Ha].
  - rewrite slice_nil by lia. by destruct a.
  - rewrite slice_prefix with (j := j) by lia. by rewrite H, take_app_length.
Qed.

Lemma slice_app_r m i j a b : slice m i j = a ++ b → slice m (i + length a) j = b.
Proof. intros H. by rewrite slice_drop, H, drop_app_length. Qed.

(** Reading a location that has no value is undefined behaviour. *)
Definition or_undef {A} (o : option A) : outcome A :=
  match o with Some a => Ret a | None => Undef end.

Definition returns {A} (m : outcome A) : Prop := ∃ a, m = Ret a.

(** ** Stateful code: a state is threaded through and survives exceptions. *)
Definition M (S A : Type) : Type := S → outcome A * S.

#[export] Instance M_ret {S} : MRet (M S) := λ A a s, (Ret a, s).
#[export] Instance M_bind {S} : MBind (M S) := λ A B f m s,
  match m s with
  | (Ret a, s') => f a s'
  | (Throw e, s') => (Throw e, s')
  | (Terminate, s') => (Terminate, s')
  | (Undef, s') => (Undef, s')
  end.

Definition lift {S A} (m : outcome A) : M S A := λ s, (m, s).
Definition throw {S A} (e : exn) : M S A := λ s, (Throw e, s).
Definition get {S} : M S S := λ s, (Ret s, s).
Definition gets {S A} (f : S → A) : M S A := λ s, (Ret (f s), s).
Definition modify {S} (f : S → S) : M S unit := λ s, (Ret tt, f s).

(** [try { m } catch (std::exception &ex) { h }]: a [RuntimeException] passes. *)
Definition catch_std {S A} (m : M S A) (h : bytes → M S A) : M S A := λ s,
  match m s with
  | (Throw (StdException w), s') => h w s'
  | r => r
  end.

(** [try { m } catch (RuntimeException &ex) { h }]. *)
Definition catch_runtime {S A} (m : M S A) (h : bytes → M S A) : M S A := λ s,
  match m s with
  | (Throw (RuntimeException w), s') => h w s'
  | r => r
  end.

(** [try { m } catch (...) { h }]. *)
Definition catch_all {S A} (m : M S A) (h : M S A) : M S A := λ s,
  match m s with
  | (Throw _, s') => h s'
  | r => r
  end.

(** A bind that returned: both parts returned. *)
Lemma bind_ret_inv {S A B} (m : M S A) (f : A → M S B) s b s' :
  (m ≫= f) s = (Ret b, s') → ∃ a s1, m s = (Ret a, s1) ∧ f a s1 = (Ret b, s').
Proof. unfold mbind, M_bind. destruct (m s) as [[a|e| |] s1]; [|done..]. by exists a, s1. Qed.

Lemma bind_returns {S A B} (m : M S A) (f : A → M S B) s a s' : m s = (Ret a, s') → (m ≫= f) s = f a s'.
Proof. intros Hm. unfold mbind, M_bind. by rewrite Hm. Qed.

Lemma lift_ret_inv {S A} (o : outcome A) (s s' : S) a : lift o s = (Ret a, s') → o = Ret a ∧ s' = s.
Proof. unfold lift. by intros [= -> ->]. Qed.

(** ** Invariants of stateful code, exceptions included *)
Section preserves.
Context {S : Type} (I : S → Prop).

Definition preserves {A} (m : M S A) : Prop := ∀ s, I s → I (m s).2.

Lemma preserves_ret {A} (a : A) : preserves (mret a).
Proof. by intros s. Qed.

Lemma preserves_lift {A} (m : outcome A) : preserves (lift m).
Proof. by intros s. Qed.

Lemma preserves_throw {A} e : preserves (throw (A := A) e).
Proof. by intros s. Qed.

Lemma preserves_get : preserves get.
Proof. by intros s. Qed.

Lemma preserves_gets {A} (f : S → A) : preserves (gets f).
Proof. by intros s. Qed.

Lemma preserves_modify f : (∀ s, I s → I (f s)) → preserves (modify f).
Proof. intros H s Hs. by apply H. Qed.

Lemma preserves_bind {A B} (m : M S A) (f : A → M S B) :
  preserves m → (∀ a, preserves (f a)) → preserves (m ≫= f).
Proof.
  intros Hm Hf s Hs. specialize (Hm s Hs). unfold mbind, M_bind.
  destruct (m s) as [[a|e| |] s']; simpl in *; [by apply Hf|done..].
Qed.

(** The continuation may use the value the first computation returned. *)
Lemma preserves_bind_strong {A B} (m : M S A) (f : A → M S B) :
  preserves m → (∀ s a s', I s → m s = (Ret a, s') → I s' → I (f a s').2) → preserves (m ≫= f).
Proof.
  intros Hm Hf s Hs. specialize (Hm s Hs). unfold mbind, M_bind.
  destruct (m s) as [[a|e| |] s'] eqn:Hms; simpl in *; [by eapply Hf|done..].
Qed.

Lemma preserves_catch_std {A} (m : M S A) h :
  preserves m → (∀ w, preserves (h w)) → preserves (catch_std m h).
Proof.
  intros Hm Hh s Hs. specialize (Hm s Hs). unfold catch_std.
  destruct (m s) as [[a|[]| |] s']; simpl in *; try done. by apply Hh.
Qed.

Lemma preserves_catch_runtime {A} (m : M S A) h :
  preserves m → (∀ w, preserves (h w)) → preserves (catch_runtime m h).
Proof.
  intros Hm Hh s Hs. specialize (Hm s Hs). unfold catch_runtime.
  destruct (m s) as [[a|[]| |] s']; simpl in *; try done. by apply Hh.
Qed.

Lemma preserves_if {A} (b : bool) (m n : M S A) :
  preserves m → preserves n → preserves (if b then m else n).
Proof. by destruct b. Qed.

Lemma preserves_decide {A} P `{!Decision P} (m n : M S A) :
  preserves m → preserves n → preserves (if decide P then m else n).
Proof. by case_decide. Qed.
End preserves.

(** *** Invariants of the calls that return: a call that throws ends its caller,
    so that only the state of a return matters. *)
Section keeps.
Context {S : Type} (I : S → Prop).

Definition keeps {A} (m : M S A) : Prop := ∀ s a s', I s → m s = (Ret a, s') → I s'.

Lemma keeps_ret {A} (a : A) : keeps (mret a).
Proof. intros s a' s' Hs [= _ <-]. exact Hs. Qed.

Lemma keeps_lift {A} (m : outcome A) : keeps (lift m).
Proof. intros s a' s' Hs [= _ <-]. exact Hs. Qed.

Lemma keeps_throw {A} e : keeps (throw (A := A) e).
Proof. by intros s a' s' Hs. Qed.

Lemma keeps_gets {A} (f : S → A) : keeps (gets f).
Proof. intros s a' s' Hs [= _ <-]. exact Hs. Qed.

Lemma keeps_bind {A B} (m : M S A) (f : A → M S B) : keeps m → (∀ a, keeps (f a)) → keeps (m ≫= f).
Proof. intros Hm Hf s b s' Hs Hrun. apply bind_ret_inv in Hrun as (a & s1 & H1 & H2). eapply Hf; [|exact H2]. by eapply Hm. Qed.

Lemma keeps_decide {A} P `{!Decision P} (m n : M S A) : keeps m → keeps n → keeps (if decide P then m else n).
Proof. by case_decide. Qed.
End keeps.

(** ** Sequences of steps of a transition relation *)
Section star.
Context {A : Type} (R : A → A → Prop).

Inductive star : A → A → Prop :=
  | star_refl a : star a a
  | star_step a b c : R a b → star b c → star a c.

Lemma star_one a b : R a b → star a b.
Proof. intros H. eapply star_step; [exact H | apply star_refl]. Qed.

(** A sequence can be extended at its end. *)
Lemma star_snoc a b c : star a b → R b c → star a c.
Proof. induction 1; intros; eapply star_step; eauto using star_refl. Qed.

Lemma star_trans a b c : star a b → star b c → star a c.
Proof. induction 1; [done |]. intros. eapply star_step; eauto. Qed.

(** Rule induction for invariants: what every step preserves, every
    reachable state has. *)
Lemma star_invariant (I : A → Prop) :
  (∀ a b, I a → R a b → I b) → ∀ a b, star a b → I a → I b.
Proof. intros Hstep a b Hs. induction Hs; eauto. Qed.
End star.

(** ** Tactics *)

(** Run the binds whose first computation is already a value. *)
Ltac outcome_simpl :=
  cbn [mbind mret fmap outcome_bind outcome_ret outcome_fmap or_undef
       M_bind M_ret lift throw get gets modify].

(** Split on the innermost test of a [match] or [if] in the goal. *)
Ltac split_match :=
  match goal with
  | |- context [match ?x with _ => _ end] => destruct x eqn:?
  end.

(** A decidable closed proposition, by evaluation. *)
Ltac decided :=
  first [refine (bool_decide_unpack (_ ∉ _) _) | apply (bool_decide_unpack _)]; vm_compute; exact I.

(** Destruct a tuple of pairs and conjunctions in the context. *)
Ltac split_hyps :=
  repeat match goal with
  | H : _ ∧ _ |- _ => destruct H
  | H : ∃ _, _ |- _ => destruct H
  end.

Create HintDb fiber discriminated.
#[export] Hint Constructors star : fiber.
#[export] Hint Resolve preserves_ret preserves_lift preserves_throw preserves_get preserves_gets
  preserves_bind preserves_catch_std preserves_catch_runtime preserves_if preserves_decide : fiber.
#[export] Hint Resolve keeps_ret keeps_lift keeps_throw keeps_gets keeps_bind keeps_decide : fiber.
#[export] Hint Resolve star_one star_trans u64_range : fiber.
