(* ===== verification/Findmatch.v ===== *)
(** * Findmatch: the scanning primitives of [ci/utils/ascii.h] and
    [ci/utils/findmatch.h]

    The C++ functions walk raw pointers; here a pointer is an index into a
    block, every dereference is checked, and the loops are written with the
    loop variables of the source and fuel.  Each of the three functions is
    proved equal to a specification on the content of the range it scans. *)
From Stdlib Require Import Ascii String.
From stdpp Require Import options.
From S2P Require Import Prelude.

(** ** [ascii.h] *)
Definition icase_ascii_table : list Z :=
  [0x00; 0x01; 0x02; 0x03; 0x04; 0x05; 0x06; 0x07; 0x08; 0x09; 0x0a; 0x0b; 0x0c; 0x0d; 0x0e; 0x0f;
   0x10; 0x11; 0x12; 0x13; 0x14; 0x15; 0x16; 0x17; 0x18; 0x19; 0x1a; 0x1b; 0x1c; 0x1d; 0x1e; 0x1f;
   0x20; 0x21; 0x22; 0x23; 0x24; 0x25; 0x26; 0x27; 0x28; 0x29; 0x2a; 0x2b; 0x2c; 0x2d; 0x2e; 0x2f;
   0x30; 0x31; 0x32; 0x33; 0x34; 0x35; 0x36; 0x37; 0x38; 0x39; 0x3a; 0x3b; 0x3c; 0x3d; 0x3e; 0x3f;
   0x40; 0x41; 0x42; 0x43; 0x44; 0x45; 0x46; 0x47; 0x48; 0x49; 0x4a; 0x4b; 0x4c; 0x4d; 0x4e; 0x4f;
   0x50; 0x51; 0x52; 0x53; 0x54; 0x55; 0x56; 0x57; 0x58; 0x59; 0x5a; 0x5b; 0x5c; 0x5d; 0x5e; 0x5f;
   0x60; 0x41; 0x42; 0x43; 0x44; 0x45; 0x46; 0x47; 0x48; 0x49; 0x4a; 0x4b; 0x4c; 0x4d; 0x4e; 0x4f;
   0x50; 0x51; 0x52; 0x53; 0x54; 0x55; 0x56; 0x57; 0x58; 0x59; 0x5a; 0x7b; 0x7c; 0x7d; 0x7e; 0x7f;
   0x80; 0x81; 0x82; 0x83; 0x84; 0x85; 0x86; 0x87; 0x88; 0x89; 0x8a; 0x8b; 0x8c; 0x8d; 0x8e; 0x8f;
   0x90; 0x91; 0x92; 0x93; 0x94; 0x95; 0x96; 0x97; 0x98; 0x99; 0x9a; 0x9b; 0x9c; 0x9d; 0x9e; 0x9f;
   0xa0; 0xa1; 0xa2; 0xa3; 0xa4; 0xa5; 0xa6; 0xa7; 0xa8; 0xa9; 0xaa; 0xab; 0xac; 0xad; 0xae; 0xaf;
   0xb0; 0xb1; 0xb2; 0xb3; 0xb4; 0xb5; 0xb6; 0xb7; 0xb8; 0xb9; 0xba; 0xbb; 0xbc; 0xbd; 0xbe; 0xbf;
   0xc0; 0xc1; 0xc2; 0xc3; 0xc4; 0xc5; 0xc6; 0xc7; 0xc8; 0xc9; 0xca; 0xcb; 0xcc; 0xcd; 0xce; 0xcf;
   0xd0; 0xd1; 0xd2; 0xd3; 0xd4; 0xd5; 0xd6; 0xd7; 0xd8; 0xd9; 0xda; 0xdb; 0xdc; 0xdd; 0xde; 0xdf;
   0xe0; 0xe1; 0xe2; 0xe3; 0xe4; 0xe5; 0xe6; 0xe7; 0xe8; 0xe9; 0xea; 0xeb; 0xec; 0xed; 0xee; 0xef;
   0xf0; 0xf1; 0xf2; 0xf3; 0xf4; 0xf5; 0xf6; 0xf7; 0xf8; 0xf9; 0xfa; 0xfb; 0xfc; 0xfd; 0xfe; 0xff]%Z.

(** [icase_ascii_table[c]] *)
Definition icase (c : ascii) : Z := nth (nat_of_ascii c) icase_ascii_table 0%Z.

(** [table.fill('\0')], then [table[*ptr] = *ptr] for each character of the
    mask; the index is the signed [char] converted to [size_t], so a character
    from 128 on indexes far outside the array. *)
Definition ascii_mask (character_mask : bytes) : outcome (list Z) :=
  foldl (λ table ptr,
    t ← table;
    if decide (0 ≤ i8 ptr)%Z then Ret (<[nat_of_ascii ptr := u8 ptr]> t) else Undef)
  (Ret (replicate 256 0%Z)) character_mask.

(** ** [findmatch.h] *)
Record match_result := MatchResult {
  result : Z;        (* 0 is "no match" *)
  mr_begin : nat;
  mr_end : nat
}.

(** [match_result()]: the null pointers of this value are never dereferenced
    nor compared by the callers; they are written as index 0. *)
Definition no_match : match_result := MatchResult 0 0 0.

(** [*p] *)
Definition deref (mem : bytes) (p : nat) : outcome ascii := or_undef (mem !! p).

(** What a load of the pointer behind the last of an array gives: [None] for the
    C++ standard, which makes the load undefined; a given compiler reads
    whatever lies there.  The theorems hold for every choice. *)
Class PastEnd := past_end : option bytes.

(** A compiler that reads some pointer there. *)
Definition readable_past_end : PastEnd := Some [].

(** [*needle_list] *)
Definition load_needle `{PAST : !PastEnd} (needle_values : list bytes) (needle_list : nat) : outcome bytes :=
  match needle_values !! needle_list with Some n => Ret n | None => or_undef past_end end.

(** The loop of [match_values].  [needle_it] is the rest of the current
    needle (its NUL is the empty list); [needle_list] indexes the array of
    needles.  When the last needle does not match, the code loads
    [needle_values[needle_size]], which is one past the end, and then stops
    without following that pointer. *)
Fixpoint match_loop `{PAST : !PastEnd} (fuel : nat) (mem : bytes) (haystack_from haystack_to : nat)
    (needle_values : list bytes) (needle_index needle_list : nat)
    (needle_it : bytes) (haystack_it : nat) : outcome (bool * nat * nat) :=
  match fuel with
  | O => Undef
  | S fuel =>
      if decide (needle_index = 0) then Ret (false, needle_index, haystack_it) else
      match needle_it with
      | [] => Ret (true, needle_index, haystack_it)
      | n :: needle_rest =>
          if decide (haystack_it < haystack_to) then
            h ← deref mem haystack_it;
            if decide (icase h = icase n) then
              match_loop fuel mem haystack_from haystack_to needle_values
                needle_index needle_list needle_rest (S haystack_it)
            else
              needle_it ← load_needle needle_values (S needle_list);
              match_loop fuel mem haystack_from haystack_to needle_values
                (needle_index - 1) (S needle_list) needle_it haystack_from
          else Ret (false, needle_index, haystack_it)
      end
  end.

Definition match_fuel (haystack_from haystack_to needle_size : nat) : nat :=
  S (needle_size * S (haystack_to - haystack_from) + (haystack_to - haystack_from)).

Definition match_values `{PAST : !PastEnd} (haystack : option bytes) (haystack_from haystack_to : nat)
    (needle_values : list bytes) (needle_size : nat) : outcome match_result :=
  needle_it ← load_needle needle_values 0;
  match haystack with
  | None => Ret no_match
  | Some mem =>
      '(found, needle_index, haystack_it) ←
        match_loop (match_fuel haystack_from haystack_to needle_size) mem
          haystack_from haystack_to needle_values needle_size 0 needle_it haystack_from;
      if found : bool then
        Ret (MatchResult (1 + Z.of_nat needle_size - Z.of_nat needle_index)
               haystack_from haystack_it)
      else Ret no_match
  end.

(** The inner loop of [find_values]: [Some h_it] is [match = true].  An empty
    needle whose NUL equals the haystack reads one past its terminator. *)
Fixpoint needle_at (mem : bytes) (haystack_to : nat) (n_it : bytes) (h_it : nat)
    : outcome (option nat) :=
  if decide (h_it < haystack_to) then
    h ← deref mem h_it;
    match n_it with
    | [] => if decide (icase h = icase NUL) then Undef else Ret None
    | n :: n_rest =>
        if decide (icase h = icase n) then
          match n_rest with
          | [] => Ret (Some h_it)
          | _ => needle_at mem haystack_to n_rest (S h_it)
          end
        else Ret None
    end
  else Ret None.

(** The outer loop of [find_values]: the needles are tried in turn at each
    position, [needle_index % needle_size] being the current one. *)
Fixpoint find_loop (fuel : nat) (mem : bytes) (haystack_to : nat)
    (needle_values : list bytes) (needle_size needle_index : nat)
    (needle_it : bytes) (haystack_it : nat) : outcome match_result :=
  match fuel with
  | O => Undef
  | S fuel =>
      if decide (haystack_it < haystack_to) then
        r ← needle_at mem haystack_to needle_it haystack_it;
        match r with
        | Some h_it =>
            Ret (MatchResult (1 + Z.of_nat (needle_index mod needle_size))
                   haystack_it (h_it + 1))
        | None =>
            let needle_index := S needle_index in
            find_loop fuel mem haystack_to needle_values needle_size needle_index
              (default [] (needle_values !! (needle_index mod needle_size)))
              (if decide (needle_index mod needle_size = 0)
               then S haystack_it else haystack_it)
        end
      else Ret no_match
  end.

Definition find_values (haystack : option bytes) (haystack_from haystack_to : nat)
    (needle_values : list bytes) (needle_size : nat) : outcome match_result :=
  match haystack with
  | None => Ret no_match
  | Some mem =>
      find_loop (S ((haystack_to - haystack_from) * needle_size)) mem haystack_to
        needle_values needle_size 0 (default [] (needle_values !! 0)) haystack_from
  end.

(** [find_char]: [ch] cycles through the character list.  The result code is
    [(size_t)(charlist - ch) + 1]: 1 for the first character of the list, 0 for
    the second, and wraps below zero from the third on. *)
Fixpoint find_char_loop (fuel : nat) (mem : bytes) (haystack_from haystack_to : nat)
    (charlist : bytes) (ch it : nat) : outcome match_result :=
  match fuel with
  | O => Undef
  | S fuel =>
      if decide (it < haystack_to) then
        x ← deref mem it;
        c ← or_undef ((charlist ++ [NUL]) !! ch);
        if decide (x = c) then
          Ret (MatchResult (u64 (u64 (- Z.of_nat ch) + 1)) haystack_from (it + 1))
        else
          c' ← or_undef ((charlist ++ [NUL]) !! S ch);
          if decide (c' = NUL) then
            find_char_loop fuel mem haystack_from haystack_to charlist 0 (S it)
          else
            find_char_loop fuel mem haystack_from haystack_to charlist (S ch) it
      else Ret (MatchResult 0 haystack_from it)
  end.

Definition find_char (mem : bytes) (haystack_from haystack_to : nat)
    (charlist : bytes) : outcome match_result :=
  find_char_loop (S ((haystack_to - haystack_from) * length charlist)) mem
    haystack_from haystack_to charlist 0 haystack_from.

(** ** Specifications on the content of a range *)

(** [n] is a prefix of [h], up to ASCII case. *)
Fixpoint icase_prefix (n h : bytes) : bool :=
  match n, h with
  | [], _ => true
  | _ :: _, [] => false
  | c :: n, d :: h => bool_decide (icase d = icase c) && icase_prefix n h
  end.

(** The first needle that decides: one that is a prefix of the haystack, or
    one the haystack ends inside of. *)
Fixpoint match_first (needles : list bytes) (h : bytes) (i : nat) : option (nat * nat) :=
  match needles with
  | [] => None
  | n :: ns =>
      if icase_prefix n h then Some (i, length n)
      else if icase_prefix h n then None
      else match_first ns h (S i)
  end.

(** None of the needles decides. *)
Fixpoint runs_out (needles : list bytes) (h : bytes) : bool :=
  match needles with
  | [] => true
  | n :: ns => negb (icase_prefix n h) && negb (icase_prefix h n) && runs_out ns h
  end.

Fixpoint first_needle (needles : list bytes) (h : bytes) (i : nat) : option (nat * nat) :=
  match needles with
  | [] => None
  | n :: ns => if icase_prefix n h then Some (i, length n) else first_needle ns h (S i)
  end.

(** The first position where some needle occurs: needle, offset, length. *)
Fixpoint find_first (needles : list bytes) (h : bytes) (pos : nat) : option (nat * nat * nat) :=
  match h with
  | [] => None
  | _ :: t =>
      match first_needle needles h 0 with
      | Some (i, len) => Some (i, pos, len)
      | None => find_first needles t (S pos)
      end
  end.

Fixpoint index_of (c : ascii) (l : bytes) (i : nat) : option nat :=
  match l with
  | [] => None
  | d :: l => if decide (c = d) then Some i else index_of c l (S i)
  end.

(** The first character of [h] that is in the list: its index there, its
    position. *)
Fixpoint find_char_first (charlist h : bytes) (pos : nat) : option (nat * nat) :=
  match h with
  | [] => None
  | c :: t =>
      match index_of c charlist 0 with
      | Some i => Some (i, pos)
      | None => find_char_first charlist t (S pos)
      end
  end.

(** ** [match_values] meets its specification *)

Lemma icase_prefix_nil_r n : icase_prefix n [] = bool_decide (n = []).
Proof. by destruct n. Qed.

Lemma deref_ok mem p c : mem !! p = Some c → deref mem p = Ret c.
Proof. intros H. unfold deref. by rewrite H. Qed.

(** What remains to be decided in the middle of a needle. *)
Definition match_rest (size from : nat) (needles : list bytes) (k : nat) (h0 : bytes)
    (n hs : bytes) (hit : nat) : option (nat * nat) :=
  if icase_prefix n hs then Some (size - k, hit + length n)
  else if icase_prefix hs n then None
  else match match_first (drop (S k) needles) h0 (S k) with
       | Some (i, len) => Some (size - i, from + len)
       | None => None
       end.

(** No needle from here on decides. *)
Definition out_rest (needles : list bytes) (k : nat) (h0 n hs : bytes) : bool :=
  negb (icase_prefix n hs) && negb (icase_prefix hs n) && runs_out (drop (S k) needles) h0.

Lemma out_rest_cons needles k h0 c n d hs :
  icase d = icase c → out_rest needles k h0 (c :: n) (d :: hs) = out_rest needles k h0 n hs.
Proof. intros E. unfold out_rest. simpl. by rewrite E, !bool_decide_eq_true_2 by done. Qed.

Lemma out_rest_next needles k h0 c n d hs :
  icase d ≠ icase c →
  out_rest needles k h0 (c :: n) (d :: hs)
  = match needles !! S k with Some n' => out_rest needles (S k) h0 n' h0 | None => true end.
Proof.
  intros E. unfold out_rest at 1. simpl. rewrite !bool_decide_eq_false_2 by congruence. simpl.
  destruct (needles !! S k) as [n'|] eqn:Hk; [by rewrite (drop_S _ _ _ Hk)|].
  by rewrite drop_ge by by apply lookup_ge_None.
Qed.

Lemma runs_out_match needles h i : runs_out needles h = true → match_first needles h i = None.
Proof.
  revert i. induction needles as [|n ns IH]; intros i; [done|]. cbn [runs_out match_first].
  destruct (icase_prefix n h); [done|]. destruct (icase_prefix h n); [done|]. apply IH.
Qed.

Lemma match_rest_cons size from needles k h0 c n d hs hit :
  icase d = icase c →
  match_rest size from needles k h0 (c :: n) (d :: hs) hit
  = match_rest size from needles k h0 n hs (S hit).
Proof.
  intros E. unfold match_rest. simpl. rewrite E, !bool_decide_eq_true_2 by done.
  simpl. by rewrite Nat.add_succ_r.
Qed.

Lemma match_rest_next size from needles k h0 c n d hs hit :
  icase d ≠ icase c →
  match_rest size from needles k h0 (c :: n) (d :: hs) hit
  = match needles !! S k with
    | Some n' => match_rest size from needles (S k) h0 n' h0 from
    | None => None
    end.
Proof.
  intros E. unfold match_rest at 1. simpl.
  rewrite !bool_decide_eq_false_2 by congruence. simpl.
  destruct (needles !! S k) as [n'|] eqn:Hk.
  - rewrite (drop_S _ _ _ Hk). simpl. unfold match_rest.
    repeat case_match; simplify_eq; done.
  - rewrite drop_ge; [done |]. by apply lookup_ge_None.
Qed.

Lemma match_loop_spec `{PAST : !PastEnd} fuel mem from to needles idx k n hit :
  from ≤ hit → hit ≤ to → to ≤ length mem → idx + k = length needles → idx ≠ 0 →
  idx * S (to - from) + (to - hit) < fuel →
  if out_rest needles k (slice mem from to) n (slice mem hit to)
  then match_loop fuel mem from to needles idx k n hit = (_ ← or_undef past_end; Ret (false, 0, from))
  else ∃ b i h, match_loop fuel mem from to needles idx k n hit = Ret (b, i, h) ∧
    (if b : bool then Some (i, h) else None)
    = match_rest (length needles) from needles k (slice mem from to) n (slice mem hit to) hit.
Proof.
  revert idx k n hit. induction fuel as [|fuel IH]; intros idx k n hit Hf Ht Hm Hk Hi Hfuel; [by apply Nat.nlt_0_r in Hfuel|].
  simpl. rewrite decide_False by done. destruct n as [|c n].
  { eexists _, _, _. split; [done|]. unfold match_rest. simpl.
    by replace (length needles - k) with idx by lia; rewrite Nat.add_0_r. }
  case_decide as Hlt.
  2: { rewrite (slice_nil mem hit to) by lia. eexists _, _, _. by split. }
  destruct (lookup_lt_is_Some_2 mem hit) as [d Hd]; [lia|].
  rewrite (deref_ok _ _ _ Hd), (slice_cons _ _ _ _ Hlt Hd). outcome_simpl.
  case_decide as Hc.
  - rewrite match_rest_cons, out_rest_cons by done. apply IH; lia.
  - rewrite match_rest_next, out_rest_next by done. unfold load_needle.
    destruct (decide (idx = 1)) as [->|Hne].
    + destruct fuel; [lia|]. rewrite !(lookup_ge_None_2 needles) by lia. by destruct past_end.
    + destruct (lookup_lt_is_Some_2 needles (S k)) as [n' Hn']; [lia|].
      rewrite Hn'. outcome_simpl. apply IH; nia.
Qed.

Definition match_result_of (from : nat) (o : option (nat * nat)) : match_result :=
  match o with
  | Some (i, len) => MatchResult (1 + Z.of_nat i) from (from + len)
  | None => no_match
  end.

Lemma match_first_bound needles h i j len :
  match_first needles h i = Some (j, len) → i ≤ j < i + length needles.
Proof.
  revert i. induction needles as [|n ns IH]; intros i; simpl; [done|].
  repeat case_match; intros Hm; simplify_eq; [lia|]. apply IH in Hm. lia.
Qed.

Lemma match_values_cases `{PAST : !PastEnd} mem from to needles :
  from ≤ to → to ≤ length mem → needles ≠ [] →
  match_values (Some mem) from to needles (length needles)
  = if runs_out needles (slice mem from to) then _ ← or_undef past_end; Ret no_match
    else Ret (match_result_of from (match_first needles (slice mem from to) 0)).
Proof.
  intros Hft Hto Hne. unfold match_values, match_fuel. destruct needles as [|n ns]; [done|].
  change (load_needle (n :: ns) 0) with (Ret n). outcome_simpl.
  pose proof (match_loop_spec (S (length (n :: ns) * S (to - from) + (to - from)))
    mem from to (n :: ns) (length (n :: ns)) 0 n from) as Hloop.
  change (out_rest _ 0 _ n _) with (runs_out (n :: ns) (slice mem from to)) in Hloop.
  destruct (runs_out (n :: ns) (slice mem from to)).
  { rewrite Hloop by (try (cbn [length]; lia); apply Nat.lt_succ_diag_r). by destruct past_end. }
  destruct Hloop as (b & i & h & Hl & Hs); [try (cbn [length]; lia); try apply Nat.lt_succ_diag_r.. |].
  rewrite Hl. outcome_simpl.
  assert (Hr : match_rest (length (n :: ns)) from (n :: ns) 0 (slice mem from to) n
      (slice mem from to) from
    = match match_first (n :: ns) (slice mem from to) 0 with
      | Some (i, len) => Some (length (n :: ns) - i, from + len)
      | None => None
      end).
  { unfold match_rest. cbn [match_first]. change (drop 1 (n :: ns)) with ns.
    destruct (icase_prefix n _); [do 2 f_equal; lia|]. by destruct (icase_prefix _ n). }
  rewrite Hr in Hs. clear Hr Hl. f_equal.
  destruct (match_first (n :: ns) (slice mem from to) 0) as [[j len]|] eqn:Hj;
    destruct b; simplify_eq; [| done].
  apply match_first_bound in Hj. cbn [match_result_of]. do 2 f_equal; lia.
Qed.

(** A needle that is found, or a pointer behind the last one that can be
    loaded. *)
Lemma match_values_spec `{PAST : !PastEnd} mem from to needles :
  from ≤ to → to ≤ length mem → needles ≠ [] →
  is_Some past_end ∨ runs_out needles (slice mem from to) = false →
  match_values (Some mem) from to needles (length needles)
  = Ret (match_result_of from (match_first needles (slice mem from to) 0)).
Proof.
  intros Hft Hto Hne Hpe. rewrite match_values_cases by done. destruct (runs_out needles _) eqn:Hr; [|done].
  destruct Hpe as [[p ->]|]; [|done]. by rewrite (runs_out_match _ _ 0 Hr).
Qed.

(** ** [find_values] meets its specification *)

Lemma needle_at_spec mem to n h :
  to ≤ length mem → n ≠ [] →
  needle_at mem to n h
  = Ret (if icase_prefix n (slice mem h to) then Some (h + length n - 1) else None).
Proof.
  intros Hto. revert h. induction n as [|c n IH]; intros h Hne; [done|].
  cbn [needle_at]. case_decide as Hlt.
  2: { by rewrite slice_nil by lia. }
  destruct (lookup_lt_is_Some_2 mem h) as [d Hd]; [lia|].
  rewrite (deref_ok _ _ _ Hd), (slice_cons _ _ _ _ Hlt Hd). outcome_simpl; cbn [icase_prefix].
  case_decide as Hc; [| by rewrite bool_decide_eq_false_2].
  rewrite bool_decide_eq_true_2 by done. cbn [andb].
  destruct n as [|c' n'].
  - simpl. f_equal. f_equal. lia.
  - rewrite IH by done. cbn [length].
    destruct (icase_prefix (c' :: n') _); do 2 f_equal; simpl; lia.
Qed.

Lemma first_needle_inv needles h i j len :
  first_needle needles h i = Some (j, len) →
  i ≤ j ∧ ∃ n, needles !! (j - i) = Some n ∧ len = length n ∧ icase_prefix n h = true.
Proof.
  revert i. induction needles as [|n ns IH]; intros i; simpl; [done|].
  case_match; intros Hm; simplify_eq.
  - split; [lia|]. exists n. by rewrite Nat.sub_diag.
  - apply IH in Hm as [Hb (n' & Hn & Hlen & Hp)]. split; [lia|]. exists n'.
    by replace (j - i) with (S (j - S i)) by lia.
Qed.

Definition find_result_of (o : option (nat * nat * nat)) : match_result :=
  match o with
  | Some (i, pos, len) => MatchResult (1 + Z.of_nat i) pos (pos + len)
  | None => no_match
  end.

(** From needle [j] of position [hit] on. *)
Definition find_rest (needles : list bytes) (mem : bytes) (to j hit : nat) : match_result :=
  match first_needle (drop j needles) (slice mem hit to) j with
  | Some (i, len) => find_result_of (Some (i, hit, len))
  | None => find_result_of (find_first needles (slice mem (S hit) to) (S hit))
  end.

Lemma find_rest_first needles mem hit to :
  hit < to → to ≤ length mem →
  find_rest needles mem to 0 hit = find_result_of (find_first needles (slice mem hit to) hit).
Proof.
  intros Hlt Hto. unfold find_rest. rewrite drop_0.
  destruct (lookup_lt_is_Some_2 mem hit) as [d Hd]; [lia|].
  rewrite (slice_cons _ _ _ _ Hlt Hd). cbn [find_first].
  by destruct (first_needle _ _ _) as [[i len]|].
Qed.

Lemma find_rest_cons needles mem to j hit n :
  needles !! j = Some n →
  find_rest needles mem to j hit
  = if icase_prefix n (slice mem hit to) then find_result_of (Some (j, hit, length n))
    else find_rest needles mem to (S j) hit.
Proof.
  intros Hn. unfold find_rest at 1. rewrite (drop_S _ _ _ Hn). cbn [first_needle].
  by destruct (icase_prefix n (slice mem hit to)).
Qed.

Lemma find_loop_spec fuel mem to needles q j hit n :
  to ≤ length mem → Forall (λ n, n ≠ []) needles → needles !! j = Some n → hit < to →
  (to - hit) * length needles < fuel + j →
  find_loop fuel mem to needles (length needles) (q * length needles + j) n hit
  = Ret (find_rest needles mem to j hit).
Proof.
  intros Hto Hne. revert q j hit n.
  induction fuel as [|fuel IH]; intros q j hit n Hj Hlt Hfuel;
    pose proof (lookup_lt_Some _ _ _ Hj) as Hjl; [nia|].
  cbn [find_loop]. rewrite decide_True by done.
  assert (Hn0 : n ≠ []) by exact (Forall_lookup_1 _ _ _ _ Hne Hj).
  rewrite needle_at_spec by done.
  rewrite (find_rest_cons _ _ _ _ _ _ Hj). outcome_simpl.
  assert (Hmod : (q * length needles + j) mod length needles = j).
  { rewrite Nat.add_comm, Nat.Div0.mod_add, Nat.mod_small; lia. }
  destruct (icase_prefix n (slice mem hit to)) eqn:Hp.
  { cbn [find_result_of]. rewrite Hmod. do 2 f_equal.
    destruct n; simpl in *; [done|lia]. }
  destruct (decide (S j = length needles)) as [Hlast|Hlast].
  - replace (S (q * length needles + j)) with (S q * length needles + 0) by lia.
    assert (Hmod0 : (S q * length needles + 0) mod length needles = 0).
    { rewrite Nat.add_0_r. apply Nat.Div0.mod_mul. }
    rewrite Hmod0, decide_True by done.
    destruct (lookup_lt_is_Some_2 needles 0) as [n0 Hn00]; [lia|]. rewrite Hn00. cbn [default].
    assert (Hr : find_rest needles mem to (S j) hit
      = find_result_of (find_first needles (slice mem (S hit) to) (S hit))).
    { unfold find_rest. by rewrite drop_ge by lia. }
    rewrite Hr. destruct (decide (S hit < to)) as [Hs|Hs].
    + rewrite <- find_rest_first by done. apply IH; [done..| nia].
    + rewrite slice_nil by lia. destruct fuel; [nia|]. cbn [find_loop].
      by rewrite decide_False by lia.
  - replace (S (q * length needles + j)) with (q * length needles + S j) by lia.
    assert (Hmod1 : (q * length needles + S j) mod length needles = S j).
    { rewrite Nat.add_comm, Nat.Div0.mod_add, Nat.mod_small; lia. }
    rewrite Hmod1, decide_False by done.
    destruct (lookup_lt_is_Some_2 needles (S j)) as [n1 Hn1]; [lia|]. rewrite Hn1. cbn [default].
    apply IH; [done..| nia].
Qed.

Lemma find_values_spec mem from to needles :
  to ≤ length mem → needles ≠ [] → Forall (λ n, n ≠ []) needles →
  find_values (Some mem) from to needles (length needles)
  = Ret (find_result_of (find_first needles (slice mem from to) from)).
Proof.
  intros Hto Hne Hall. unfold find_values.
  destruct (decide (from < to)) as [Hlt|Hlt].
  - destruct (lookup_lt_is_Some_2 needles 0) as [n Hn]; [destruct needles; simpl; [done|lia]|].
    rewrite Hn. cbn [default]. rewrite <- find_rest_first by done.
    apply (find_loop_spec _ mem to needles 0 0 from n Hto Hall Hn Hlt). lia.
  - cbn [find_loop]. rewrite decide_False by done. by rewrite slice_nil by lia.
Qed.

(** ** [find_char] meets its specification *)

Definition find_char_code (i : nat) : Z := u64 (u64 (- Z.of_nat i) + 1).

Definition find_char_result (from to : nat) (o : option (nat * nat)) : match_result :=
  match o with
  | Some (i, pos) => MatchResult (find_char_code i) from (pos + 1)
  | None => MatchResult 0 from (from `max` to)
  end.

(** At list index [ch] of position [it]. *)
Definition find_char_rest (mem charlist : bytes) (from to ch it : nat) : match_result :=
  match slice mem it to with
  | [] => MatchResult 0 from it
  | c :: _ =>
      match index_of c (drop ch charlist) ch with
      | Some i => MatchResult (find_char_code i) from (it + 1)
      | None =>
          match find_char_first charlist (slice mem (S it) to) (S it) with
          | Some (i, pos) => MatchResult (find_char_code i) from (pos + 1)
          | None => MatchResult 0 from to
          end
      end
  end.

Lemma find_char_rest_0 mem charlist from to it :
  it < to → to ≤ length mem →
  find_char_rest mem charlist from to 0 it
  = match find_char_first charlist (slice mem it to) it with
    | Some (i, pos) => MatchResult (find_char_code i) from (pos + 1)
    | None => MatchResult 0 from to
    end.
Proof.
  intros Hlt Hto. unfold find_char_rest.
  destruct (lookup_lt_is_Some_2 mem it) as [d Hd]; [lia|].
  rewrite (slice_cons _ _ _ _ Hlt Hd), drop_0. cbn [find_char_first]. by repeat case_match.
Qed.

Lemma find_char_loop_spec fuel mem from to charlist ch it :
  to ≤ length mem → Forall (λ c, c ≠ NUL) charlist → ch < length charlist → it < to →
  (to - it) * length charlist < fuel + ch →
  find_char_loop fuel mem from to charlist ch it = Ret (find_char_rest mem charlist from to ch it).
Proof.
  intros Hto Hnul. revert ch it.
  induction fuel as [|fuel IH]; intros ch it Hch Hlt Hfuel; [nia|].
  cbn [find_char_loop]. unfold find_char_rest. rewrite decide_True by done.
  destruct (lookup_lt_is_Some_2 mem it) as [d Hd]; [lia|].
  rewrite (deref_ok _ _ _ Hd), (slice_cons _ _ _ _ Hlt Hd).
  destruct (lookup_lt_is_Some_2 charlist ch Hch) as [c Hc].
  rewrite (lookup_app_l charlist [NUL] ch) by done. rewrite Hc, (drop_S _ _ _ Hc).
  outcome_simpl; cbn [index_of].
  case_decide as Hdc; [done|].
  destruct (decide (S ch = length charlist)) as [Hlast|Hlast].
  - rewrite (lookup_app_r charlist [NUL] (S ch)), Hlast, Nat.sub_diag by lia. cbn [lookup list_lookup]; outcome_simpl.
    rewrite decide_True by done. rewrite drop_ge by lia. cbn [index_of].
    destruct (decide (S it < to)) as [Hs|Hs].
    + rewrite <- find_char_rest_0 by done. apply IH; nia.
    + rewrite slice_nil by lia. destruct fuel; [nia|]. cbn [find_char_loop].
      rewrite decide_False by done. cbn [find_char_first]. do 2 f_equal. lia.
  - destruct (lookup_lt_is_Some_2 charlist (S ch)) as [c' Hc']; [lia|].
    rewrite (lookup_app_l charlist [NUL] (S ch)) by lia. rewrite Hc'. outcome_simpl.
    rewrite decide_False by exact (Forall_lookup_1 _ _ _ _ Hnul Hc').
    rewrite IH by nia. unfold find_char_rest. by rewrite (slice_cons _ _ _ _ Hlt Hd).
Qed.

Lemma find_char_spec mem from to charlist :
  to ≤ length mem → Forall (λ c, c ≠ NUL) charlist → charlist ≠ [] →
  find_char mem from to charlist
  = Ret (find_char_result from to (find_char_first charlist (slice mem from to) from)).
Proof.
  intros Hto Hnul Hne. unfold find_char. assert (0 < length charlist) by (destruct charlist; simpl; [done|lia]).
  destruct (decide (from < to)) as [Hlt|Hlt].
  - rewrite find_char_loop_spec by lia || done. rewrite find_char_rest_0 by done.
    unfold find_char_result. repeat case_match; do 2 f_equal; lia.
  - cbn [find_char_loop]. rewrite decide_False by done. rewrite slice_nil by lia.
    cbn [find_char_first find_char_result]. do 2 f_equal. lia.
Qed.
