(* ===== verification/ZcString.v ===== *)
(** * ZcString: the non-owning string view of [ci/utils/str.h]

    A [zcstring] is a pair of pointers into a block it does not own; it is
    modelled by the block and two indices, the null view having no block: its
    accessors, both trims, [explode] with the static needle array of
    [utils::find], hash and equality.
    [zview] is the text of a view, used by the specifications. *)
From Stdlib Require Import Ascii String.
From stdpp Require Import options.
From S2P Require Import Prelude Findmatch.

Record zcstring := ZcString {
  zmem : option bytes;
  zbegin : nat;
  zend : nat
}.

(** [zcstring(nullptr, nullptr)] *)
Definition znull : zcstring := ZcString None 0 0.

(** [zcstring(const std::string &s)]: the block is [s.c_str()]. *)
Definition zc_of_string (s : bytes) : zcstring :=
  ZcString (Some (s ++ [NUL])) 0 (length s).

(** A view whose range lies in its block. *)
Definition zc_wf (z : zcstring) : Prop :=
  match zmem z with
  | None => zbegin z = 0 ∧ zend z = 0
  | Some m => zbegin z ≤ zend z ∧ zend z ≤ length m
  end.

#[export] Instance zc_wf_dec z : Decision (zc_wf z).
Proof. unfold zc_wf. destruct (zmem z); apply _. Defined.

Definition zview (z : zcstring) : bytes :=
  match zmem z with
  | None => []
  | Some m => slice m (zbegin z) (zend z)
  end.

(** [*p] for a pointer into the block of the view; a negative index is a
    pointer before the block. *)
Definition zderef (z : zcstring) (p : Z) : outcome ascii :=
  match zmem z with
  | None => Undef
  | Some m => if decide (0 ≤ p)%Z then deref m (Z.to_nat p) else Undef
  end.

(** [str()]: [std::string(_begin, _end)]. *)
Definition zstr (z : zcstring) : outcome bytes :=
  if decide (zc_wf z) then Ret (zview z) else Undef.

(** [length()]: [_end - _begin] as a [size_t]. *)
Definition zlength (z : zcstring) : Z := u64 (Z.of_nat (zend z) - Z.of_nat (zbegin z)).

Definition zempty (z : zcstring) : bool := bool_decide (zbegin z = zend z).

(** [trim(at)].  The second loop tests [isspace] on the character at [ite] before it compares [ite] with
    [_begin]. *)
Inductive trim_at := both | left | right.
#[export] Instance trim_at_eq_dec : EqDecision trim_at.
Proof. solve_decision. Defined.

Fixpoint trim_left_loop (fuel : nat) (space : ascii → bool) (z : zcstring) (itb : nat) : outcome nat :=
  match fuel with
  | O => Undef
  | S fuel =>
      if decide (itb < zend z) then
        c ← zderef z (Z.of_nat itb);
        if space c then trim_left_loop fuel space z (S itb) else Ret itb
      else Ret itb
  end.

Fixpoint trim_right_loop (fuel : nat) (space : ascii → bool) (z : zcstring) (ite : Z) : outcome Z :=
  match fuel with
  | O => Undef
  | S fuel =>
      c ← zderef z ite;
      if space c && bool_decide (Z.of_nat (zbegin z) ≤ ite)%Z
      then trim_right_loop fuel space z (ite - 1)%Z
      else Ret ite
  end.

(** The result [{itb, ite + 1}] as two indices: a text of spaces only gives an
    end before the begin. *)
Definition trim (z : zcstring) (at_ : trim_at) : outcome (nat * Z) :=
  itb ← (if decide (at_ = right) then Ret (zbegin z)
         else trim_left_loop (S (zend z - zbegin z)) isspace z (zbegin z));
  ite ← (if decide (at_ = left) then Ret (Z.of_nat (zend z) - 1)%Z
         else trim_right_loop (S (S (zend z - zbegin z))) isspace z (Z.of_nat (zend z) - 1)%Z);
  Ret (itb, (ite + 1)%Z).

(** [trim(characters, at)]: the second loop tests the character at [itb], which
    it does not move, instead of the one at [ite]. *)
Fixpoint trim_mask_right_loop (fuel : nat) (characters : ascii → bool) (z : zcstring) (itb : nat) (ite : Z) : outcome Z :=
  match fuel with
  | O => Undef
  | S fuel =>
      c ← zderef z (Z.of_nat itb);
      if characters c && bool_decide (Z.of_nat (zbegin z) ≤ ite)%Z
      then trim_mask_right_loop fuel characters z itb (ite - 1)%Z
      else Ret ite
  end.

Definition trim_mask (z : zcstring) (characters : ascii → bool) (at_ : trim_at) : outcome (nat * Z) :=
  itb ← (if decide (at_ = right) then Ret (zbegin z)
         else trim_left_loop (S (zend z - zbegin z)) characters z (zbegin z));
  ite ← (if decide (at_ = left) then Ret (Z.of_nat (zend z) - 1)%Z
         else trim_mask_right_loop (S (S (zend z - zbegin z))) characters z itb (Z.of_nat (zend z) - 1)%Z);
  Ret (itb, (ite + 1)%Z).

(** [explode(delimiter, limit)].  [utils::find] keeps its needles in a static
    array, which is filled by the first call: the state says whether there was
    one.  A later call that looks at a character follows the pointer into the
    delimiter of the first. *)
Definition explode_find (first_call : bool) (z : zcstring) (start : nat) (delimiter : bytes) : outcome match_result :=
  if first_call then find_values (zmem z) start (zend z) [delimiter] 1
  else match zmem z with
  | None => Ret no_match
  | Some _ => if decide (start < zend z) then Undef else Ret no_match
  end.

Fixpoint zc_explode_loop (fuel : nat) (first_call : bool) (z : zcstring) (delimiter : bytes) (limit : Z) (start : nat)
    (part : match_result) (parts : list zcstring) : outcome (list zcstring) :=
  match fuel with
  | O => Undef
  | S fuel =>
      if decide (limit - 1 ≠ 0 ∧ result part ≠ 0)%Z then
        let parts := parts ++ [ZcString (zmem z) start (mr_begin part)] in
        let start := mr_begin part + length delimiter in
        part ← explode_find first_call z start delimiter;
        zc_explode_loop fuel first_call z delimiter (limit - 1) start part parts
      else Ret (if decide (start < zend z) then parts ++ [ZcString (zmem z) start (zend z)] else parts)
  end.

Definition zc_explode (z : zcstring) (delimiter : bytes) (limit : Z) : M bool (list zcstring) := λ called,
  (part ← explode_find (negb called) z (zbegin z) delimiter;
   zc_explode_loop (S (zend z - zbegin z)) (negb called) z delimiter limit (zbegin z) part [], true).

(** ** Hashing and comparison up to ASCII case *)

(** [zcstring_ifasthash] *)
Fixpoint ifasthash_loop (n : nat) (z : zcstring) (it : nat) (hash : Z) : outcome Z :=
  match n with
  | O => Ret hash
  | S n =>
      c ← zderef z (Z.of_nat it);
      ifasthash_loop n z (S it) (u64 (Z.shiftl (Z.lor hash (icase c)) 8))
  end.

Definition zcstring_ifasthash (v : zcstring) : outcome Z :=
  ifasthash_loop (Z.to_nat (if decide (zlength v < 8)%Z then zlength v else 8)) v (zbegin v) 0.

(** [zcstring_iequal] *)
Fixpoint iequal_loop (n : nat) (a b : zcstring) (it_a it_b : nat) (is_equal : bool) : outcome bool :=
  match n with
  | O => Ret is_equal
  | S n =>
      ca ← zderef a (Z.of_nat it_a);
      cb ← zderef b (Z.of_nat it_b);
      if decide (icase ca = icase cb) then iequal_loop n a b (S it_a) (S it_b) true
      else Ret false
  end.

Definition zcstring_iequal (a b : zcstring) : outcome bool :=
  if decide (zlength a = zlength b) then
    if decide (zlength a ≠ 0%Z) then
      iequal_loop (Z.to_nat (zlength a)) a b (zbegin a) (zbegin b) false
    else Ret true
  else Ret false.

(** ** Lemmas *)

Lemma zstr_view z : zc_wf z → zstr z = Ret (zview z).
Proof. intros H. unfold zstr. by rewrite decide_True. Qed.

Lemma zlength_view z :
  zc_wf z → (Z.of_nat (zend z) < u64_modulus)%Z → zlength z = Z.of_nat (length (zview z)).
Proof.
  unfold zc_wf, zlength, zview. destruct (zmem z) as [m|]; intros [Hb He] Hm.
  - rewrite slice_length by lia. rewrite u64_small; [lia|]. unfold in_u64. lia.
  - rewrite Hb, He. reflexivity.
Qed.

Lemma zempty_view z : zc_wf z → zempty z = bool_decide (zview z = []).
Proof.
  unfold zc_wf, zempty, zview. destruct (zmem z) as [m|]; intros [Hb He].
  - apply bool_decide_ext. rewrite <- length_zero_iff_nil, slice_length by lia. lia.
  - rewrite Hb, He. done.
Qed.

Lemma zderef_lookup z p c m :
  zmem z = Some m → m !! p = Some c → zderef z (Z.of_nat p) = Ret c.
Proof.
  intros Hm Hc. unfold zderef. rewrite Hm, decide_True, Nat2Z.id by lia. by apply deref_ok.
Qed.

(** What the loops read of a well-formed view. *)
Lemma zderef_view z p k c :
  zc_wf z → slice (default [] (zmem z)) p (zend z) !! k = Some c →
  zderef z (Z.of_nat (p + k)) = Ret c.
Proof.
  unfold zc_wf. destruct z as [[m|] b e]; simpl; intros Hwf Hk.
  - eapply zderef_lookup; [done|]. unfold slice in Hk.
    apply lookup_take_Some in Hk as [Hk _]. by rewrite lookup_drop in Hk.
  - unfold slice in Hk. rewrite drop_nil, take_nil in Hk. done.
Qed.

Definition hash_step (h : Z) (c : ascii) : Z := u64 (Z.shiftl (Z.lor h (icase c)) 8).

Lemma ifasthash_loop_spec n z it h t :
  zc_wf z → slice (default [] (zmem z)) it (zend z) = t → n ≤ length t →
  ifasthash_loop n z it h = Ret (foldl hash_step h (take n t)).
Proof.
  intros Hwf. revert it h t. induction n as [|n IH]; intros it h t Ht Hn; [done|].
  destruct t as [|c t]; simpl in Hn; [lia|]. cbn [ifasthash_loop].
  assert (Hc : zderef z (Z.of_nat (it + 0)) = Ret c) by (eapply zderef_view; [done|]; by rewrite Ht).
  rewrite Nat.add_0_r in Hc. rewrite Hc. outcome_simpl.
  erewrite IH; [done| |lia].
  by apply slice_uncons in Ht.
Qed.

Lemma zview_default z : zview z = slice (default [] (zmem z)) (zbegin z) (zend z).
Proof.
  unfold zview. destruct (zmem z) as [m|]; [done|]. simpl. unfold slice.
  by rewrite drop_nil, take_nil.
Qed.

Lemma zlength_pos z :
  zc_wf z → (Z.of_nat (zend z) < u64_modulus)%Z → Z.to_nat (zlength z) = length (zview z).
Proof. intros Hwf Hb. rewrite zlength_view by done. apply Nat2Z.id. Qed.

Lemma zcstring_ifasthash_spec z :
  zc_wf z → (Z.of_nat (zend z) < u64_modulus)%Z →
  zcstring_ifasthash z = Ret (foldl hash_step 0%Z (take 8 (zview z))).
Proof.
  intros Hwf Hb. unfold zcstring_ifasthash. rewrite zlength_view by done.
  case_decide as H8.
  - rewrite Nat2Z.id. erewrite ifasthash_loop_spec; [|done|by symmetry; apply zview_default|lia].
    by rewrite !take_ge by lia.
  - erewrite ifasthash_loop_spec; [|done|by symmetry; apply zview_default|lia]. done.
Qed.

Lemma iequal_loop_spec n a b ia ib ta tb eq :
  zc_wf a → zc_wf b →
  slice (default [] (zmem a)) ia (zend a) = ta → slice (default [] (zmem b)) ib (zend b) = tb →
  length ta = n → length tb = n →
  iequal_loop n a b ia ib eq
  = Ret (if decide (n = 0) then eq else bool_decide (icase <$> ta = icase <$> tb)).
Proof.
  intros Ha Hb. revert ia ib ta tb eq.
  induction n as [|n IH]; intros ia ib ta tb eq Hta Htb Hla Hlb; [done|].
  destruct ta as [|ca ta]; [done|]. destruct tb as [|cb tb]; [done|].
  cbn [iequal_loop].
  assert (Hca : zderef a (Z.of_nat (ia + 0)) = Ret ca) by (eapply zderef_view; [done|]; by rewrite Hta).
  assert (Hcb : zderef b (Z.of_nat (ib + 0)) = Ret cb) by (eapply zderef_view; [done|]; by rewrite Htb).
  rewrite Nat.add_0_r in Hca, Hcb. rewrite Hca, Hcb. outcome_simpl.
  apply slice_uncons in Hta, Htb. simpl in Hla, Hlb.
  rewrite (decide_False (P := S n = 0)) by lia.
  destruct (decide (icase ca = icase cb)) as [Hc|Hc].
  - rewrite (IH _ _ ta tb) by (lia || done). destruct (decide (n = 0)) as [Hn|Hn].
    + destruct ta, tb; simpl in *; try lia. by rewrite Hc, bool_decide_eq_true_2.
    + f_equal. apply bool_decide_ext. csimpl. rewrite Hc. split; [by intros -> | by intros [=]].
  - f_equal. rewrite bool_decide_eq_false_2; [done|]. csimpl. congruence.
Qed.

Lemma zcstring_iequal_spec a b :
  zc_wf a → zc_wf b →
  (Z.of_nat (zend a) < u64_modulus)%Z → (Z.of_nat (zend b) < u64_modulus)%Z →
  zcstring_iequal a b = Ret (bool_decide (icase <$> zview a = icase <$> zview b)).
Proof.
  intros Ha Hb Hba Hbb. unfold zcstring_iequal. rewrite !zlength_view by done.
  case_decide as Hl.
  - case_decide as Hz.
    + erewrite Nat2Z.id, iequal_loop_spec;
        [| done | done | by symmetry; apply zview_default | by symmetry; apply zview_default | done | lia].
      by rewrite decide_False by lia.
    + destruct (zview a), (zview b); simpl in *; try lia. done.
  - f_equal. rewrite bool_decide_eq_false_2; [done|]. intros Heq.
    apply (f_equal length) in Heq. rewrite !length_fmap in Heq. lia.
Qed.

(** ** Properties *)

(** The key comparison of the header map is an equivalence that agrees
    with its hash, as [std::unordered_map] requires: on well-formed views the
    two functions return, [zcstring_iequal] decides equality of the texts up to
    ASCII case, and equal keys have equal hashes. *)
Theorem zcstring_hash_equal_lawful (a b : zcstring) :
  zc_wf a → zc_wf b →
  (Z.of_nat (zend a) < u64_modulus)%Z → (Z.of_nat (zend b) < u64_modulus)%Z →
  ∃ eq h k, zcstring_iequal a b = Ret eq ∧
    zcstring_ifasthash a = Ret h ∧ zcstring_ifasthash b = Ret k ∧
    (eq = true ↔ icase <$> zview a = icase <$> zview b) ∧ (eq = true → h = k).
Proof.
  intros Ha Hb Hba Hbb. do 3 eexists.
  split; [by apply zcstring_iequal_spec|]. split; [by apply zcstring_ifasthash_spec|].
  split; [by apply zcstring_ifasthash_spec|]. split; [by rewrite bool_decide_eq_true|].
  rewrite bool_decide_eq_true. intros Heq.
  assert (Hf : ∀ t h, foldl hash_step h t = foldl (λ h z, u64 (Z.shiftl (Z.lor h z) 8)) h (icase <$> t)).
  { induction t as [|c t IH]; intros h; [done|]. cbn. apply IH. }
  rewrite !Hf, !fmap_take, Heq. done.
Qed.

Lemma zcstring_hash_equal_lawful_witness :
  let a := zc_of_string (str "Content-Type") in
  let b := zc_of_string (str "CONTENT-type") in
  ∃ eq h k, zcstring_iequal a b = Ret eq ∧
    zcstring_ifasthash a = Ret h ∧ zcstring_ifasthash b = Ret k ∧
    (eq = true ↔ icase <$> zview a = icase <$> zview b) ∧ (eq = true → h = k).
Proof.
  intros a b.
  assert (Ha : zc_wf a) by decided. assert (Hb : zc_wf b) by decided.
  exact (zcstring_hash_equal_lawful a b Ha Hb eq_refl eq_refl).
Defined.

(** ** Splitting a view *)

(** Splitting a text at separators that spell the delimiter in any case; a
    rest that is empty is no part. *)
Inductive split_at (d : bytes) : bytes → list bytes → Prop :=
  | split_end t : split_at d t (if decide (t = []) then [] else [t])
  | split_cut a s t parts : icase <$> s = icase <$> d → split_at d t parts → split_at d (a ++ s ++ t) (a :: parts).

Lemma icase_prefix_split d t : icase_prefix d t = true → ∃ s u, t = s ++ u ∧ icase <$> s = icase <$> d.
Proof.
  revert t. induction d as [|c d IH]; intros t; [by exists [], t|]. destruct t as [|e t]; [done|]. cbn [icase_prefix].
  intros [He%bool_decide_eq_true Hp]%andb_true_iff. destruct (IH t Hp) as (s & u & -> & Hs).
  exists (e :: s), u. split; [done|]. csimpl. by rewrite He, Hs.
Qed.

Lemma find_first_one d h pos i p len :
  find_first [d] h pos = Some (i, p, len) →
  ∃ a t, h = a ++ t ∧ p = pos + length a ∧ len = length d ∧ icase_prefix d t = true.
Proof.
  revert pos. induction h as [|c h IH]; intros pos; cbn [find_first first_needle]; [done|].
  destruct (icase_prefix d (c :: h)) eqn:Hp.
  - intros [= _ <- <-]. exists [], (c :: h). split_and!; [done|simpl; lia|done|done].
  - intros (a & t & -> & -> & -> & Ht)%IH. exists (c :: a), t. split_and!; [done|simpl; lia|done|done].
Qed.

Lemma find_one_spec m from to d :
  d ≠ [] → to ≤ length m → find_values (Some m) from to [d] 1 = Ret (find_result_of (find_first [d] (slice m from to) from)).
Proof. intros Hd Hto. by apply (find_values_spec m from to [d]); [done|done|apply Forall_singleton]. Qed.

Lemma zc_explode_loop_spec m b e d : d ≠ [] → e ≤ length m →
  ∀ fuel limit start acc, start ≤ e → e - start < fuel →
  ∃ parts, zc_explode_loop fuel true (ZcString (Some m) b e) d limit start
      (find_result_of (find_first [d] (slice m start e) start)) acc = Ret (acc ++ parts) ∧
    split_at d (slice m start e) (zview <$> parts) ∧
    Forall (λ z, zmem z = Some m ∧ start ≤ zbegin z ∧ zbegin z ≤ zend z ∧ zend z ≤ e) parts.
Proof.
  intros Hd He. induction fuel as [|fuel IH]; intros limit start acc Hs Hf; [lia|]. cbn [zc_explode_loop].
  case_decide as Hgo; cycle 1.
  - cbn [zend zmem]. assert (Hlen := slice_length m start e He). case_decide as Hlt.
    + exists [ZcString (Some m) start e]. split_and!; [done| |by apply Forall_singleton; cbn; split_and!; [done|lia..]].
      assert (Hne : slice m start e ≠ []) by (intros Hn; rewrite Hn in Hlen; simpl in Hlen; lia).
      pose proof (split_end d (slice m start e)) as Hse. by rewrite decide_False in Hse.
    + exists []. rewrite app_nil_r, slice_nil by lia. split_and!; [done| |constructor]. apply (split_end d []).
  - destruct (find_first [d] (slice m start e) start) as [[[i p] len]|] eqn:Hff; [|by destruct Hgo].
    cbn [find_result_of mr_begin]. pose proof Hff as (a & t & Hsl & -> & -> & Hp)%find_first_one.
    destruct (icase_prefix_split d t Hp) as (s & u & -> & Hsd).
    assert (Hlens : length s = length d) by (apply (f_equal length) in Hsd; by rewrite !length_fmap in Hsd).
    assert (Hlen := slice_length m start e He). rewrite Hsl, !length_app in Hlen. cbn [zmem].
    set (start' := start + length a + length d).
    assert (Hst : start' ≤ e ∧ e - start' < fuel) by (unfold start'; destruct d; [done|]; simpl in *; lia).
    unfold explode_find. cbn [zmem zend]. rewrite find_one_spec by done.
    outcome_simpl. destruct (IH (limit - 1)%Z start' (acc ++ [ZcString (Some m) start (start + length a)])) as (parts & -> & Hsp & Hall); [lia..|].
    exists (ZcString (Some m) start (start + length a) :: parts). rewrite <- app_assoc. split_and!; [done| |].
    + rewrite fmap_cons. change (zview (ZcString (Some m) start (start + length a))) with (slice m start (start + length a)).
      rewrite (slice_app_l m start e a (s ++ u) Hsl He). rewrite Hsl. apply split_cut; [done|].
      replace u with (slice m start' e); [done|].
      unfold start'. rewrite <- Hlens. rewrite (slice_app_r m (start + length a) e s u); [done|].
      by apply (slice_app_r m start e a).
    + constructor; [cbn; split_and!; [done|lia..]|]. eapply Forall_impl; [exact Hall|]. cbn. unfold start'. intros z (? & ? & ? & ?). split_and!; [done|lia..].
Qed.

(** The first call of [explode] splits the view at the delimiter, in any case,
    into views of the same block inside its range; every later call on a text
    that is not empty follows a pointer to a delimiter that is gone. *)
Theorem zc_explode_spec (m : bytes) (b e : nat) (delimiter : bytes) (limit : Z) :
  b ≤ e → e ≤ length m → delimiter ≠ [] →
  (∃ parts, zc_explode (ZcString (Some m) b e) delimiter limit false = (Ret parts, true) ∧
     split_at delimiter (slice m b e) (zview <$> parts) ∧
     Forall (λ z, zmem z = Some m ∧ b ≤ zbegin z ∧ zbegin z ≤ zend z ∧ zend z ≤ e) parts) ∧
  (b < e → (zc_explode (ZcString (Some m) b e) delimiter limit true).1 = Undef).
Proof.
  intros Hbe He Hd. split.
  - unfold zc_explode. cbn [negb]. unfold explode_find. cbn [zmem zend zbegin].
    rewrite find_one_spec by done. outcome_simpl.
    destruct (zc_explode_loop_spec m b e delimiter Hd He (S (e - b)) limit b []) as (parts & -> & H); [lia..|]. by exists parts.
  - intros Hlt. unfold zc_explode, explode_find. cbn [negb zmem zend zbegin fst]. by rewrite decide_True.
Qed.

Lemma zc_explode_spec_witness :
  (∃ parts, zc_explode (ZcString (Some (str "aXbxc")) 0 5) (str "x") (-1) false = (Ret parts, true) ∧
     split_at (str "x") (slice (str "aXbxc") 0 5) (zview <$> parts) ∧
     Forall (λ z, zmem z = Some (str "aXbxc") ∧ 0 ≤ zbegin z ∧ zbegin z ≤ zend z ∧ zend z ≤ 5) parts) ∧
  (zc_explode (ZcString (Some (str "aXbxc")) 0 5) (str "x") (-1) true).1 = Undef.
Proof.
  destruct (zc_explode_spec (str "aXbxc") 0 5 (str "x") (-1)) as [H1 H2]; [lia|simpl; lia|done|]. split; [exact H1|apply H2; lia].
Defined.

Example explode_examples :
  ∃ parts, (zc_explode (zc_of_string (str "a,b,,c,")) (str ",") (-1) false).1 = Ret parts ∧
    zview <$> parts = [str "a"; str "b"; str ""; str "c"].
Proof. eexists. split; reflexivity. Qed.

(** ** The trim with a mask *)

Lemma trim_left_loop_stop space z m b e c p :
  z = ZcString (Some m) b e → p < e → m !! p = Some c → space c = false → ∀ fuel, trim_left_loop (S fuel) space z p = Ret p.
Proof. intros -> Hp Hc Hs fuel. cbn [trim_left_loop zend]. rewrite decide_True by done.
  rewrite (zderef_lookup _ p c m) by done. outcome_simpl. by rewrite Hs. Qed.

(** The trim with a mask never removes anything at the end, unless the first
    character is in the mask: then [trim(mask, right)] removes the whole text. *)
Theorem trim_mask_right (m : bytes) (b e : nat) (c : ascii) (characters : ascii → bool) :
  b < e → m !! b = Some c →
  let z := ZcString (Some m) b e in
  (characters c = false → trim_mask z characters both = Ret (b, Z.of_nat e) ∧ trim_mask z characters right = Ret (b, Z.of_nat e)) ∧
  (characters c = true → trim_mask z characters right = Ret (b, Z.of_nat b)).
Proof.
  intros Hbe Hc z.
  assert (Hread : zderef z (Z.of_nat b) = Ret c) by by eapply zderef_lookup.
  split; intros Hm; unfold trim_mask.
  - assert (Hstop : ∀ fuel, trim_mask_right_loop (S fuel) characters z b (Z.of_nat e - 1) = Ret (Z.of_nat e - 1)%Z).
    { intros fuel. cbn [trim_mask_right_loop]. rewrite Hread. outcome_simpl. by rewrite Hm. }
    split.
    + rewrite decide_False, (trim_left_loop_stop characters z m b e c b) by done. outcome_simpl.
      rewrite decide_False by done. change (zend z) with e; change (zbegin z) with b; rewrite (Hstop (S (e - b))). outcome_simpl. do 2 f_equal. lia.
    + rewrite decide_True by done. outcome_simpl. rewrite decide_False by done. change (zend z) with e; change (zbegin z) with b; rewrite (Hstop (S (e - b))). outcome_simpl. do 2 f_equal. lia.
  - rewrite decide_True by done. outcome_simpl. rewrite decide_False by done. change (zbegin z) with b. change (zend z) with e.
    assert (Hloop : ∀ fuel ite, (Z.of_nat b - 1 ≤ ite)%Z → (ite + 1 < Z.of_nat fuel + Z.of_nat b)%Z →
      trim_mask_right_loop fuel characters z b ite = Ret (Z.of_nat b - 1)%Z).
    { induction fuel as [|fuel IH]; intros ite Hlo Hf; [lia|]. cbn [trim_mask_right_loop]. rewrite Hread. outcome_simpl. rewrite Hm. cbn [andb].
      change (zbegin z) with b. case_bool_decide; [apply IH; lia|]. f_equal. lia. }
    rewrite Hloop by lia. outcome_simpl. do 2 f_equal. lia.
Qed.

Lemma trim_mask_right_witness :
  trim_mask (ZcString (Some (str "ab  ")) 0 4) isspace both = Ret (0, 4%Z) ∧
  trim_mask (ZcString (Some (str " ab")) 0 3) isspace right = Ret (0, 0%Z).
Proof.
  split.
  - apply (trim_mask_right (str "ab  ") 0 4 "a"%char isspace); [lia|done|done].
  - apply (trim_mask_right (str " ab") 0 3 " "%char isspace); [lia|done|done].
Defined.
