(* ===== verification/Buffer.v ===== *)
(** * Buffer: the receive buffer of [kernel/net/impl/bufferimpl.h]

    The socket is a parameter: the outcome of the [i]-th [recv] for a given
    size, and of the [i]-th [ioctl(FIONREAD)].  The content of the freshly
    allocated block is a parameter as well, because [new uint8_t[MaxLength]]
    leaves it indeterminate and [Head] exposes it. *)
From Stdlib Require Import Ascii String.
From stdpp Require Import options.
From S2P Require Import Prelude Findmatch ZcString.

Inductive recv_result :=
  | RecvData (data : bytes)     (* nread = length data > 0 *)
  | RecvEof                     (* nread = 0 *)
  | RecvErr (errno : Z).        (* nread < 0 *)

Record ReadBufferImpl := ReadBuffer {
  dataLength : nat;
  dataPartLength : nat;
  dataBuffer : option bytes
}.

(** The constructor; it leaves [dataPartLength] unset. *)
Definition ReadBufferImpl_new (part0 : nat) : ReadBufferImpl := ReadBuffer 0 part0 None.

(** What the kernel writes at [dataBuffer + noffset]. *)
Definition blit (buf : bytes) (noffset : nat) (data : bytes) : outcome bytes :=
  if decide (noffset + length data ≤ length buf) then
    Ret (take noffset buf ++ data ++ drop (noffset + length data) buf)
  else Undef.

Section socket.
(** [recv(fd, _, size, 0)] and [ioctl(fd, FIONREAD, &ncount)], the [i]-th
    calls on this connection; [None] is a failing [ioctl]. *)
Context (recv : nat → nat → recv_result) (ioctl : nat → option nat).

(** The [do ... while] of [Read]; the loop ends with the return value. *)
Fixpoint read_loop (fuel : nat) (i : nat) (buf : bytes) (len noffset MaxLength : nat)
    : outcome (Z * bytes * nat) :=
  match fuel with
  | O => Undef
  | S fuel =>
      match recv i (MaxLength - noffset) with
      | RecvErr errno => Ret (errno, buf, len)
      | RecvEof => Ret (0%Z, buf, len)
      | RecvData data =>
          buf ← blit buf noffset data;
          let nread := length data in
          let len := len + nread in
          match ioctl i with
          | None => Ret (0%Z, buf, len)
          | Some ncount =>
              if decide (0 < ncount) then
                let noffset := noffset + nread in
                if decide (noffset + ncount < MaxLength) then
                  read_loop fuel (S i) buf len noffset MaxLength
                else Ret (0%Z, buf, len)
              else Ret (0%Z, buf, len)
          end
      end
  end.

(** [Read]: the result is [errno] of the failing [recv], or 0.  Every
    iteration but the last one moves [noffset] forward, so [MaxLength + 1]
    iterations are enough. *)
Definition Read (b : ReadBufferImpl) (fresh : bytes) (MaxLength PartLength : nat)
    : outcome (Z * ReadBufferImpl) :=
  '(rc, buf, len) ← read_loop (S MaxLength) 0 fresh (dataLength b) 0 MaxLength;
  Ret (rc, ReadBuffer len PartLength (Some buf)).
End socket.

Definition buf_empty (b : ReadBufferImpl) : bool := bool_decide (dataLength b = 0).

(** [Head]: the first [dataPartLength] bytes of the block, whatever was
    received. *)
Definition Head (b : ReadBufferImpl) : zcstring :=
  match dataBuffer b with
  | Some mem => ZcString (Some mem) 0 (dataPartLength b)
  | None => znull
  end.

Definition Content (b : ReadBufferImpl) (HeadOffset : nat) : zcstring :=
  match dataBuffer b with
  | Some mem =>
      ZcString (Some mem)
        (if decide (HeadOffset < dataLength b) then HeadOffset else dataLength b)
        (dataLength b)
  | None => znull
  end.

(** ** Lemmas *)

(** The documented contract of [recv] on a stream socket: it stores at most
    the requested number of bytes, and a positive result stores that many. *)
Definition recv_ok (recv : nat → nat → recv_result) : Prop :=
  ∀ i size data, recv i size = RecvData data → data ≠ [] ∧ length data ≤ size.

Lemma blit_ok buf off data :
  off + length data ≤ length buf →
  ∃ buf', blit buf off data = Ret buf' ∧ length buf' = length buf ∧
    take (off + length data) buf' = take off buf ++ data ∧
    drop (off + length data) buf' = drop (off + length data) buf.
Proof.
  intros H. unfold blit. rewrite decide_True by done. eexists. split; [done|].
  assert (Hl : length (take off buf ++ data) = off + length data).
  { rewrite length_app, length_take. lia. }
  rewrite app_assoc. split; [|split].
  - rewrite length_app, Hl, length_drop. lia.
  - by rewrite take_app_length'.
  - by rewrite drop_app_length'.
Qed.

(** A received stream: the chunks the successive [recv] calls delivered. *)
Inductive received (recv : nat → nat → recv_result) : nat → nat → nat → list bytes → Prop :=
  | received_nil max i off : received recv max i off []
  | received_cons max i off data rest :
      recv i (max - off) = RecvData data →
      received recv max (S i) (off + length data) rest →
      received recv max i off (data :: rest).

Lemma read_loop_spec recv ioctl fuel i buf len max :
  recv_ok recv → length buf = max → len ≤ max → max - len < fuel →
  ∃ rc buf' len' chunks,
    read_loop recv ioctl fuel i buf len len max = Ret (rc, buf', len') ∧
    received recv max i len chunks ∧
    length buf' = max ∧ len' = len + length (concat chunks) ∧ len' ≤ max ∧
    take len' buf' = take len buf ++ concat chunks ∧ drop len' buf' = drop len' buf.
Proof.
  intros Hok. revert i buf len.
  induction fuel as [|fuel IH]; intros i buf len Hbuf Hlen Hfuel; [lia|].
  cbn [read_loop].
  assert (Hstop : ∀ rc : Z, ∃ rc' buf' len' chunks,
      Ret (rc, buf, len) = Ret (rc', buf', len') ∧ received recv max i len chunks ∧
      length buf' = max ∧ len' = len + length (concat chunks) ∧ len' ≤ max ∧
      take len' buf' = take len buf ++ concat chunks ∧ drop len' buf' = drop len' buf).
  { intros rc. exists rc, buf, len, []. simpl. rewrite app_nil_r, Nat.add_0_r.
    repeat split; [constructor | done..]. }
  destruct (recv i (max - len)) as [data| |errno] eqn:Hr; [| apply Hstop..].
  destruct (Hok _ _ _ Hr) as [Hne Hdata].
  destruct (blit_ok buf len data) as (buf1 & Hb1 & Hl1 & Ht1 & Hd1); [lia|].
  rewrite Hb1. outcome_simpl.
  assert (Hone : ∀ rc : Z, ∃ rc' buf' len' chunks,
      Ret (rc, buf1, len + length data) = Ret (rc', buf', len') ∧ received recv max i len chunks ∧
      length buf' = max ∧ len' = len + length (concat chunks) ∧ len' ≤ max ∧
      take len' buf' = take len buf ++ concat chunks ∧ drop len' buf' = drop len' buf).
  { intros rc. exists rc, buf1, (len + length data), [data]. simpl. rewrite app_nil_r.
    repeat split; [by econstructor; [|constructor] | lia..| done | done]. }
  destruct (ioctl i) as [ncount|]; [| apply Hone].
  case_decide; [| apply Hone]. case_decide; [| apply Hone].
  assert (0 < length data) by (destruct data; simpl; [done|lia]).
  destruct (IH (S i) buf1 (len + length data)) as (rc & buf' & len' & chunks & Hrun & Hrec & Hl & Hlen' & Hmax & Ht & Hd);
    [lia..|].
  exists rc, buf', len', (data :: chunks). rewrite Hrun. cbn [concat].
  rewrite length_app, app_assoc, <- Ht1.
  repeat split; [by econstructor | lia.. | done |].
  assert (Hk : ∀ l : bytes, drop len' l = drop (len' - (len + length data)) (drop (len + length data) l)).
  { intros l. rewrite drop_drop. f_equal. lia. }
  by rewrite Hd, !Hk, Hd1.
Qed.

(** ** Properties *)

(** C21: reading a request is total and memory safe: for a socket that keeps the
    contract of [recv], [Read] returns after at most [MaxLength + 1] receives
    without touching memory outside its block; the number of bytes it reports
    never exceeds [MaxLength], the block starts with exactly the received
    chunks in order, and the rest of the block keeps its indeterminate
    content. *)
Theorem Read_total_safe recv ioctl part0 fresh MaxLength PartLength :
  recv_ok recv → length fresh = MaxLength →
  ∃ rc b chunks, Read recv ioctl (ReadBufferImpl_new part0) fresh MaxLength PartLength = Ret (rc, b) ∧
    received recv MaxLength 0 0 chunks ∧
    dataLength b = length (concat chunks) ∧ dataLength b ≤ MaxLength ∧
    dataPartLength b = PartLength ∧
    dataBuffer b = Some (concat chunks ++ drop (dataLength b) fresh).
Proof.
  intros Hok Hf. unfold Read, ReadBufferImpl_new. cbn [dataLength].
  destruct (read_loop_spec recv ioctl (S MaxLength) 0 fresh 0 MaxLength)
    as (rc & buf & len & chunks & Hrun & Hrec & Hl & Hlen & Hmax & Ht & Hd); [done|lia..|].
  rewrite Hrun. outcome_simpl. eexists _, _, chunks. split; [done|]. simpl in *.
  repeat split; [done | lia | done |]. by rewrite <- Hd, <- Ht, take_drop.
Qed.

(** A socket that delivers the given segments, one per [recv], as far as the
    buffer has room. *)
Definition segment_recv (segments : list bytes) (i size : nat) : recv_result :=
  match take size (default [] (segments !! i)) with
  | [] => RecvEof
  | d => RecvData d
  end.

Lemma segment_recv_ok segments : recv_ok (segment_recv segments).
Proof.
  intros i size data. unfold segment_recv.
  destruct (take size (default [] (segments !! i))) as [|c t] eqn:Ht; intros [= <-].
  split; [done|]. rewrite <- Ht, length_take. lia.
Qed.

Lemma Read_total_safe_witness :
  let recv := segment_recv [str "GET /a"; str " HTTP"] in
  recv_ok recv ∧ length (replicate 16 "x"%char) = 16 ∧
  ∃ rc b chunks,
    Read recv (λ _, Some 5) (ReadBufferImpl_new 0) (replicate 16 "x"%char) 16 8 = Ret (rc, b) ∧
    received recv 16 0 0 chunks ∧
    dataLength b = length (concat chunks) ∧ dataLength b ≤ 16 ∧ dataPartLength b = 8 ∧
    dataBuffer b = Some (concat chunks ++ drop (dataLength b) (replicate 16 "x"%char)).
Proof.
  split; [apply segment_recv_ok|]. split; [reflexivity|].
  apply Read_total_safe; [apply segment_recv_ok | reflexivity].
Defined.

Example Read_two_segments :
  Read (segment_recv [str "GET /a"; str " HTTP"]) (λ i, if decide (i = 0) then Some 5 else Some 0)
    (ReadBufferImpl_new 0) (replicate 16 "x"%char) 16 8
  = Ret (0%Z, ReadBuffer 11 8 (Some (str "GET /a HTTPxxxxx"))).
Proof. reflexivity. Qed.
