(* ===== verification/HttpParse.v ===== *)
(** * HttpParse: the request parser of [kernel/net/impl/httpimpl.cpp] with the
    method table of [kernel/net/impl/protoimpl.h]

    [http_parse_request] is the C++ function: it scans the head of the receive
    buffer line by line and fills the request in place.  The theorems say what
    it accepts, what it stores, what it drops, and that it terminates without
    reading outside the head. *)
From Stdlib Require Import Ascii String.
From stdpp Require Import options.
From S2P Require Import Prelude Findmatch ZcString Buffer.

(** ** [protoimpl.h] *)
Definition RequestMethods : list bytes :=
  [str "GET "; str "POST "; str "PUT "; str "HEAD "; str "OPTIONS "; str "DELETE ";
   str "TRACE "; str "CONNECT "; str "PATCH "].

Inductive RequestMethod :=
  | UNSUPPORTED | GET | POST | PUT | HEAD | OPTIONS | DELETE | TRACE | CONNECT | PATCH.

#[export] Instance RequestMethod_eq_dec : EqDecision RequestMethod.
Proof. solve_decision. Defined.

(** The enumerators are numbered from 0 in this order. *)
Definition all_methods : list RequestMethod :=
  [UNSUPPORTED; GET; POST; PUT; HEAD; OPTIONS; DELETE; TRACE; CONNECT; PATCH].

(** [(RequestMethod)method.result()] *)
Definition method_of_result (z : Z) : outcome RequestMethod :=
  if decide (0 ≤ z)%Z then or_undef (all_methods !! Z.to_nat z) else Undef.

(** ** [httpimpl.cpp] *)
Definition HttpLineEndians : list bytes :=
  [CRLF ++ CRLF; [LF; LF]; [LF]; CRLF].

(** The parts of [CRequest] the parser writes. *)
Record CRequest := MkRequest {
  Method : RequestMethod;
  Uri : zcstring;
  ReqContent : zcstring;
  Params : zcstring;
  Headers : list (zcstring * zcstring)
}.

Definition set_method (m : RequestMethod) (r : CRequest) : CRequest :=
  MkRequest m (Uri r) (ReqContent r) (Params r) (Headers r).
Definition set_uri (u : zcstring) (r : CRequest) : CRequest :=
  MkRequest (Method r) u (ReqContent r) (Params r) (Headers r).
Definition set_content (c : zcstring) (r : CRequest) : CRequest :=
  MkRequest (Method r) (Uri r) c (Params r) (Headers r).
Definition set_params (p : zcstring) (r : CRequest) : CRequest :=
  MkRequest (Method r) (Uri r) (ReqContent r) p (Headers r).
Definition push_header (h : zcstring * zcstring) (r : CRequest) : CRequest :=
  MkRequest (Method r) (Uri r) (ReqContent r) (Params r) (Headers r ++ [h]).

(** The body of the loop for a header line. *)
Definition parse_header_line (mem : bytes) (line_begin line_end : nat) (r : CRequest)
    : outcome CRequest :=
  name ← find_char mem line_begin line_end [":"%char; " "%char; LF];
  if decide (result name = 1%Z) then
    value ← find_char mem (mr_end name) line_end CRLF;
    if decide (result value ≠ 0%Z) then
      Ret (push_header
             (ZcString (Some mem) (mr_begin name) (mr_end name - 1),
              ZcString (Some mem) (mr_begin value) (mr_end value - 1)) r)
    else Ret r
  else Ret r.

(** The body of the loop for the first line; [None] is [return 400].  The
    search for [?] is over the empty range [[path.end(), path.end())]. *)
Definition parse_first_line (mem : bytes) (method_end line_end : nat) (r : CRequest)
    : outcome (option CRequest) :=
  path ← find_char mem method_end line_end [" "%char; TAB; LF; CR];
  if decide (result path ≠ 0%Z) then
    let r := set_uri (ZcString (Some mem) (mr_begin path) (mr_end path - 1)) r in
    params ← find_char mem (mr_end path) (mr_end path) ["?"%char];
    if decide (result params ≠ 0%Z) then
      let r := set_params (ZcString (Some mem) (mr_begin params + 1) (mr_end path - 1)) r in
      Ret (Some (set_uri (ZcString (Some mem) (mr_begin path) (mr_end params - 1)) r))
    else Ret (Some r)
  else Ret None.

(** The [for] loop over the lines.  [find_values] is called for the next line
    in the loop increment, after [line_begin] moved to the end of this one. *)
Fixpoint parse_lines (fuel : nat) (data : ReadBufferImpl) (mem : bytes) (head_end method_end : nat)
    (line : match_result) (line_begin line_no : nat) (r : CRequest) : outcome (Z * CRequest) :=
  match fuel with
  | O => Undef
  | S fuel =>
      let next r :=
        line' ← find_values (Some mem) (mr_end line) head_end HttpLineEndians 4;
        parse_lines fuel data mem head_end method_end line' (mr_end line) (S line_no) r in
      if decide (result line = 0%Z) then Ret (431%Z, r)
      else if decide (2 < result line)%Z then
        if decide (line_no ≠ 0) then
          r ← parse_header_line mem line_begin (mr_end line) r;
          next r
        else
          o ← parse_first_line mem method_end (mr_end line) r;
          match o with
          | Some r => next r
          | None => Ret (400%Z, r)
          end
      else Ret (0%Z, set_content (Content data (mr_end line)) r)
  end.

(** The result code (0 is success) and the request as the function leaves it. *)
Definition http_parse_request `{PAST : !PastEnd} (data : ReadBufferImpl) (r : CRequest) : outcome (Z * CRequest) :=
  if buf_empty data then Ret (400%Z, r) else
  let head := Head data in
  method ← match_values (zmem head) (zbegin head) (zend head) RequestMethods 9;
  if decide (result method ≠ 0%Z) then
    m ← method_of_result (result method);
    let r := set_method m r in
    match zmem head with
    | None => Undef
    | Some mem =>
        line ← find_values (Some mem) (zbegin head) (zend head) HttpLineEndians 4;
        parse_lines (S (length mem)) data mem (zend head) (mr_end method) line (zbegin head) 0 r
    end
  else Ret (405%Z, r).

(** ** Safety, termination and result codes *)

(** A buffer as [Read] leaves it, with a head limit within the block. *)
Definition buf_ok (data : ReadBufferImpl) : Prop :=
  match dataBuffer data with
  | Some mem => dataLength data ≤ length mem ∧ dataPartLength data ≤ length mem
  | None => dataLength data = 0
  end.

Lemma endians_nonempty : Forall (λ n, n ≠ []) HttpLineEndians.
Proof. repeat constructor; done. Qed.

Lemma find_first_inv needles h pos i p len :
  Forall (λ n, n ≠ []) needles → find_first needles h pos = Some (i, p, len) →
  i < length needles ∧ pos ≤ p ∧ 0 < len ∧ p + len ≤ pos + length h.
Proof.
  intros Hne. revert pos. induction h as [|c h IH]; intros pos; cbn [find_first]; [done|].
  destruct (first_needle needles (c :: h) 0) as [[j l]|] eqn:Hf; intros Heq; simplify_eq.
  - apply first_needle_inv in Hf as [_ (n & Hn & -> & Hp)]. rewrite Nat.sub_0_r in Hn.
    pose proof (lookup_lt_Some _ _ _ Hn). pose proof (Forall_lookup_1 _ _ _ _ Hne Hn).
    assert (Hlen : ∀ n h, icase_prefix n h = true → length n ≤ length h).
    { clear. induction n as [|c n IH]; intros [|d h]; simpl; try done; [lia|].
      intros [_ Hp]%andb_prop. apply IH in Hp. lia. }
    apply Hlen in Hp. destruct n; simpl in *; [done|lia].
  - apply IH in Heq. simpl. lia.
Qed.

(** What [find_values] returns for the line ends: nothing, or a line end inside
    the range. *)
Lemma find_line_cases mem from to :
  from ≤ to → to ≤ length mem →
  find_values (Some mem) from to HttpLineEndians 4 = Ret no_match ∨
  ∃ i p len, find_values (Some mem) from to HttpLineEndians 4 = Ret (MatchResult (1 + Z.of_nat i) p (p + len)) ∧
    i < 4 ∧ from ≤ p ∧ 0 < len ∧ p + len ≤ to.
Proof.
  intros Hft Hto. change 4 with (length HttpLineEndians).
  rewrite find_values_spec by (done || apply endians_nonempty).
  destruct (find_first HttpLineEndians (slice mem from to) from) as [[[i p] len]|] eqn:Hf; [|by left].
  right. exists i, p, len. split; [done|].
  apply find_first_inv in Hf; [|apply endians_nonempty]. rewrite slice_length in Hf by done. lia.
Qed.

Lemma find_line_returns mem from to :
  from ≤ to → to ≤ length mem →
  ∃ line, find_values (Some mem) from to HttpLineEndians 4 = Ret line.
Proof. intros Hft Hto. destruct (find_line_cases mem from to) as [->|(? & ? & ? & -> & _)]; eauto. Qed.

(** [find_char] on a range of the block returns a result that stays in it. *)
Lemma find_char_first_bound cl h pos i p :
  find_char_first cl h pos = Some (i, p) → pos ≤ p < pos + length h.
Proof.
  revert pos. induction h as [|c h IH]; intros pos; simpl; [done|].
  case_match; intros Heq; simplify_eq; [lia|]. apply IH in Heq. lia.
Qed.

Lemma find_char_total mem from to cl :
  from ≤ to → to ≤ length mem → Forall (λ c, c ≠ NUL) cl → cl ≠ [] →
  ∃ res, find_char mem from to cl = Ret res ∧ mr_begin res = from ∧ from ≤ mr_end res ≤ to ∧
    (result res ≠ 0%Z → from < mr_end res).
Proof.
  intros Hft Hto Hnul Hne. rewrite find_char_spec by done. eexists. split; [done|].
  destruct (find_char_first cl _ _) as [[i p]|] eqn:Hf; simpl.
  - apply find_char_first_bound in Hf. rewrite slice_length in Hf by done. lia.
  - split; [done|]. split; [lia|]. done.
Qed.

Ltac nonul := repeat constructor; done.

Ltac in_list := rewrite list_elem_of_In in *; simpl in *; tauto.

Lemma parse_header_line_total mem line_begin line_end r :
  line_begin ≤ line_end → line_end ≤ length mem →
  ∃ r', parse_header_line mem line_begin line_end r = Ret r' ∧
    Uri r' = Uri r ∧ Params r' = Params r ∧ Method r' = Method r.
Proof.
  intros Hb He. unfold parse_header_line.
  edestruct (find_char_total mem line_begin line_end [":"%char; " "%char; LF])
    as (name & -> & Hnb & Hne & _); [done | done | nonul | done |]. outcome_simpl.
  case_decide; [|by eexists].
  edestruct (find_char_total mem (mr_end name) line_end CRLF)
    as (value & -> & _); [lia | done | nonul | done |]. outcome_simpl.
  case_decide; by eexists.
Qed.

Lemma find_char_empty mem p cl :
  p ≤ length mem → Forall (λ c, c ≠ NUL) cl → cl ≠ [] → ∃ res, find_char mem p p cl = Ret res ∧ result res = 0%Z.
Proof.
  intros Hp Hnul Hne. rewrite find_char_spec by done. eexists. split; [done|].
  by rewrite slice_nil by lia.
Qed.

Lemma parse_first_line_total mem method_end line_end r :
  line_end ≤ length mem →
  ∃ o, parse_first_line mem method_end line_end r = Ret o ∧
    ∀ r', o = Some r' → Params r' = Params r ∧ Method r' = Method r.
Proof.
  intros He. unfold parse_first_line.
  destruct (decide (method_end ≤ line_end)) as [Hb|Hb].
  - edestruct (find_char_total mem method_end line_end [" "%char; TAB; LF; CR])
      as (path & -> & Hpb & Hpe & _); [done | done | nonul | done |]. outcome_simpl.
    case_decide; [| eexists; split; [done|]; by intros].
    edestruct (find_char_empty mem (mr_end path) ["?"%char]) as (params & -> & Hz);
      [lia | nonul | done |]. outcome_simpl. rewrite Hz, decide_False by auto.
    eexists. split; [done|]. by intros r' [= <-].
  - rewrite find_char_spec by (done || nonul). rewrite slice_nil by lia.
    outcome_simpl. cbn. eexists. split; [done|]. by intros.
Qed.

Lemma parse_lines_total fuel data mem head_end method_end line line_begin line_no r :
  head_end ≤ length mem → line_begin ≤ mr_end line →
  (result line = 0%Z ∧ 0 < fuel) ∨ (mr_end line ≤ head_end ∧ S (head_end - mr_end line) < fuel) →
  ∃ code r', parse_lines fuel data mem head_end method_end line line_begin line_no r = Ret (code, r') ∧
    code ∈ [0; 400; 431]%Z ∧ Params r' = Params r ∧ Method r' = Method r.
Proof.
  intros Hhe. revert line line_begin line_no r.
  induction fuel as [|fuel IH]; intros line line_begin line_no r Hlb Hm; [lia|].
  cbn [parse_lines]. case_decide as Hz.
  { eexists _, _. split; [done|]. split; [in_list|done]. }
  destruct Hm as [[? _]|[Hme Hfuel]]; [done|].
  assert (Hnext : ∀ r1, Params r1 = Params r → Method r1 = Method r →
    ∃ code r', (line' ← find_values (Some mem) (mr_end line) head_end HttpLineEndians 4;
      parse_lines fuel data mem head_end method_end line' (mr_end line) (S line_no) r1) = Ret (code, r') ∧
    code ∈ [0; 400; 431]%Z ∧ Params r' = Params r ∧ Method r' = Method r).
  { intros r1 Hp1 Hm1. rewrite <- Hp1, <- Hm1.
    destruct (find_line_cases mem (mr_end line) head_end) as [->|(i & p & len & -> & ? & ? & ? & ?)];
      [done..| |]; outcome_simpl.
    - destruct fuel; [lia|]. cbn [parse_lines no_match result]. rewrite decide_True by done.
      eexists _, _. split; [done|]. split; [in_list|done].
    - apply IH; simpl; [lia|]. right. lia. }
  case_decide.
  2: { eexists _, _. split; [done|]. split; [in_list|done]. }
  case_decide.
  - destruct (parse_header_line_total mem line_begin (mr_end line) r) as (r1 & -> & Hu1 & Hp1 & Hm1);
      [lia..|]. outcome_simpl. by apply Hnext.
  - destruct (parse_first_line_total mem method_end (mr_end line) r) as (o & -> & Ho); [lia|].
    outcome_simpl. destruct o as [r1|].
    + destruct (Ho r1 eq_refl) as [Hp1 Hm1]. by apply Hnext.
    + eexists _, _. split; [done|]. split; [in_list|done].
Qed.

(** The method that is recognised at the start of a text. *)
Definition method_of_text (h : bytes) : option (RequestMethod * nat) :=
  match match_first RequestMethods h 0 with
  | Some (i, len) => match all_methods !! S i with Some m => Some (m, len) | None => None end
  | None => None
  end.

Lemma method_of_result_index i len h :
  match_first RequestMethods h 0 = Some (i, len) →
  ∃ m, all_methods !! S i = Some m ∧ method_of_result (1 + Z.of_nat i) = Ret m.
Proof.
  intros Hm. apply match_first_bound in Hm. cbn in Hm.
  destruct (lookup_lt_is_Some_2 all_methods (S i)) as [m Hi]; [cbn; lia|].
  exists m. split; [done|]. unfold method_of_result. rewrite decide_True by lia.
  replace (Z.to_nat (1 + Z.of_nat i)) with (S i) by lia. by rewrite Hi.
Qed.

(** The start of the head is the start of no method, and does not end inside
    one: each of the nine needles fails. *)
Definition unknown_method (data : ReadBufferImpl) : Prop :=
  ∃ mem, dataBuffer data = Some mem ∧ dataLength data ≠ 0 ∧
    runs_out RequestMethods (slice mem 0 (dataPartLength data)) = true.

Lemma method_not_out h : is_Some (method_of_text h) → runs_out RequestMethods h = false.
Proof.
  unfold method_of_text. destruct (runs_out RequestMethods h) eqn:Hr; [|done]. rewrite (runs_out_match _ _ 0 Hr). by intros [].
Qed.

(** The parser on a non-empty buffer, once the method is recognised. *)
Lemma http_parse_method `{PAST : !PastEnd} data mem r :
  dataBuffer data = Some mem → dataPartLength data ≤ length mem → dataLength data ≠ 0 →
  is_Some past_end ∨ runs_out RequestMethods (slice mem 0 (dataPartLength data)) = false →
  http_parse_request data r
  = match method_of_text (slice mem 0 (dataPartLength data)) with
    | None => Ret (405%Z, r)
    | Some (m, len) =>
        line ← find_values (Some mem) 0 (dataPartLength data) HttpLineEndians 4;
        parse_lines (S (length mem)) data mem (dataPartLength data) len line 0 0 (set_method m r)
    end.
Proof.
  intros Hb Hp Hl Hpe. unfold http_parse_request, buf_empty, Head, method_of_text.
  rewrite bool_decide_eq_false_2 by done. rewrite Hb. cbn [zmem zbegin zend].
  change 9 with (length RequestMethods). rewrite match_values_spec by (lia || done).
  outcome_simpl. destruct (match_first _ _ _) as [[i len]|] eqn:Hm; cbn [match_result_of result mr_end no_match].
  - rewrite decide_True by lia. destruct (method_of_result_index _ _ _ Hm) as (m & -> & ->). done.
  - by rewrite decide_False by auto.
Qed.

(** The last needle fails as well: what is loaded behind it decides. *)
Lemma http_parse_unknown `{PAST : !PastEnd} data r :
  buf_ok data → unknown_method data → http_parse_request data r = (_ ← or_undef past_end; Ret (405%Z, r)).
Proof.
  intros Hok (mem & Hb & Hl & Hr). unfold buf_ok in Hok. rewrite Hb in Hok. unfold http_parse_request, buf_empty, Head.
  rewrite bool_decide_eq_false_2 by done. rewrite Hb. cbn [zmem zbegin zend].
  change 9 with (length RequestMethods). rewrite match_values_cases, Hr by (lia || done). by destruct past_end.
Qed.

Lemma http_parse_known `{PAST : !PastEnd} data r :
  buf_ok data → is_Some past_end ∨ ¬ unknown_method data →
  ∃ code r', http_parse_request data r = Ret (code, r') ∧
    code ∈ [0; 400; 405; 431]%Z ∧ Params r' = Params r.
Proof.
  intros Hok Hpe. unfold buf_ok in Hok. destruct (decide (dataLength data = 0)) as [Hz|Hz].
  { unfold http_parse_request, buf_empty. rewrite bool_decide_eq_true_2 by done.
    eexists _, _. split; [done|]. split; [in_list|done]. }
  destruct (dataBuffer data) as [mem|] eqn:Hb; [|done]. destruct Hok as [Hdl Hpl].
  assert (Hpe' : is_Some past_end ∨ runs_out RequestMethods (slice mem 0 (dataPartLength data)) = false).
  { destruct Hpe as [Hpe|Hpe]; [by left|right]. destruct (runs_out _ _) eqn:Hr; [|done]. destruct Hpe. by exists mem. }
  rewrite (http_parse_method _ mem) by done.
  destruct (method_of_text _) as [[m len]|].
  2: { eexists _, _. split; [done|]. split; [in_list|done]. }
  assert (Hrun : ∀ line, (result line = 0%Z ∧ mr_end line = 0) ∨ (0 < mr_end line ≤ dataPartLength data) →
    ∃ code r', parse_lines (S (length mem)) data mem (dataPartLength data) len line 0 0 (set_method m r)
      = Ret (code, r') ∧ code ∈ [0; 400; 405; 431]%Z ∧ Params r' = Params r).
  { intros line Hline.
    destruct (parse_lines_total (S (length mem)) data mem (dataPartLength data) len line 0 0 (set_method m r))
      as (code & r' & -> & Hc & Hp & _); [lia|lia|lia|].
    exists code, r'. split; [done|]. split; [in_list|done]. }
  destruct (find_line_cases mem 0 (dataPartLength data)) as [->|(i & p & l & -> & ? & ? & ? & ?)];
    [lia|done| |]; outcome_simpl; apply Hrun; simpl; lia.
Qed.

#[export] Instance unknown_method_dec data : Decision (unknown_method data).
Proof.
  destruct (dataBuffer data) as [mem|] eqn:Hb; [|right; by intros (m & H & _); rewrite Hb in H].
  destruct (decide (dataLength data ≠ 0 ∧ runs_out RequestMethods (slice mem 0 (dataPartLength data)) = true)) as [H|H].
  - left. exists mem. by split.
  - right. intros (m & H1 & H2 & H3). apply H. rewrite Hb in H1. by injection H1 as <-.
Defined.

(** ** Functional specification on texts with CRLF line ends *)

Definition no_eol (l : bytes) : Prop := Forall (λ c, c ≠ CR ∧ c ≠ LF) l.

Definition not_in (cl l : bytes) : Prop := Forall (λ c, c ∉ cl) l.

(** The head of a request: lines ended by CRLF, then an empty line. *)
Fixpoint head_text (first : bytes) (lines : list bytes) : bytes :=
  match lines with
  | [] => first ++ CRLF ++ CRLF
  | l :: ls => first ++ CRLF ++ head_text l ls
  end.

(** The longest prefix without a character of the list, and the rest. *)
Fixpoint split_at (cl l : bytes) : bytes * bytes :=
  match l with
  | [] => ([], [])
  | c :: t => if decide (c ∈ cl) then ([], l) else let '(a, b) := split_at cl t in (c :: a, b)
  end.

(** What a header line gives: the name up to the first colon or space, which
    must be a colon, and everything after it (the value keeps the space that
    usually follows the colon). *)
Definition header_of_line (l : bytes) : option (bytes * bytes) :=
  match split_at [":"%char; " "%char; LF] l with
  | (name, c :: value) => if decide (c = ":"%char) then Some (name, value) else None
  | _ => None
  end.

(** What the first line gives after the method: the text up to the first space
    or the end of the line; a tab there is an error. *)
Definition uri_of_line (l : bytes) : option bytes :=
  match split_at [" "%char; TAB; LF; CR] l with
  | (uri, c :: _) => if decide (c = TAB) then None else Some uri
  | (uri, []) => Some uri
  end.

Lemma split_at_app cl l a b :
  split_at cl l = (a, b) →
  l = a ++ b ∧ not_in cl a ∧ match b with [] => True | c :: _ => c ∈ cl end.
Proof.
  revert a b. induction l as [|c t IH]; intros a b; cbn [split_at].
  { intros [= <- <-]. repeat split. constructor. }
  case_decide as Hc; [intros [= <- <-]; repeat split; [constructor|done]|].
  destruct (split_at cl t) as [a' b'] eqn:Ht. intros [= <- <-].
  destruct (IH _ _ eq_refl) as (-> & Ha & Hb). repeat split; [by constructor | done].
Qed.

Lemma find_char_first_skip cl a c t pos i :
  not_in cl a → index_of c cl 0 = Some i →
  find_char_first cl (a ++ c :: t) pos = Some (i, pos + length a).
Proof.
  intros Ha Hc. revert pos. induction Ha as [|d a Hd Ha IH]; intros pos; simpl.
  - rewrite Hc. by rewrite Nat.add_0_r.
  - assert (Hn : ∀ k, index_of d cl k = None).
    { clear -Hd. induction cl as [|e cl IH]; intros k; [done|]. simpl.
      apply not_elem_of_cons in Hd as [Hde Hd]. rewrite decide_False by done. by apply IH. }
    rewrite Hn, IH. do 2 f_equal. lia.
Qed.

Lemma icase_CR c : icase c = icase CR → c = CR.
Proof. destruct c as [[][][][][][][][]]; vm_compute; congruence. Qed.

Lemma icase_LF c : icase c = icase LF → c = LF.
Proof. destruct c as [[][][][][][][][]]; vm_compute; congruence. Qed.

(** Scanning a line: the terminator is found where the line ends, and it is the
    end of the head exactly when another CRLF follows. *)
Lemma find_first_line l rest pos :
  no_eol l →
  find_first HttpLineEndians (l ++ CRLF ++ rest) pos
  = Some (if icase_prefix CRLF rest then (0, pos + length l, 4) else (3, pos + length l, 2)).
Proof.
  intros Hl. revert pos. induction Hl as [|c l [Hcr Hlf] Hl IH]; intros pos.
  - rewrite Nat.add_0_r. cbn [app CRLF find_first first_needle HttpLineEndians].
    cbn [icase_prefix app]. rewrite (bool_decide_eq_false_2 (icase CR = icase LF)) by done.
    rewrite !bool_decide_eq_true_2 by done. cbn [andb]. destruct rest as [|d [|e rest]]; simpl.
    + done.
    + by rewrite andb_false_r.
    + by destruct (bool_decide (icase d = icase CR)), (bool_decide (icase e = icase LF)).
  - cbn [app find_first first_needle HttpLineEndians CRLF icase_prefix].
    rewrite !(bool_decide_eq_false_2 (icase c = _)).
    + cbn [andb]. rewrite IH. cbn [length]. by replace (S pos + length l) with (pos + S (length l)) by lia.
    + intros Heq. by apply icase_LF in Heq.
    + intros Heq. by apply icase_CR in Heq.
Qed.

(** A line of the head in the block: [find_values] stops at its end. *)
Lemma find_values_line mem he p l rest :
  he ≤ length mem → slice mem p he = l ++ CRLF ++ rest → no_eol l →
  find_values (Some mem) p he HttpLineEndians 4
  = Ret (if icase_prefix CRLF rest then MatchResult 1 (p + length l) (p + length l + 4)
         else MatchResult 4 (p + length l) (p + length l + 2)).
Proof.
  intros Hhe Hs Hl. change 4 with (length HttpLineEndians) at 1.
  rewrite find_values_spec by (done || apply endians_nonempty).
  rewrite Hs, find_first_line by done. by destruct (icase_prefix CRLF rest).
Qed.

(** A search in a range whose text is known, up to a listed character. *)
Lemma find_char_at mem from to cl a c t i :
  to ≤ length mem → Forall (λ c, c ≠ NUL) cl → cl ≠ [] →
  slice mem from to = a ++ c :: t → not_in cl a → index_of c cl 0 = Some i →
  find_char mem from to cl = Ret (MatchResult (find_char_code i) from (from + length a + 1)).
Proof.
  intros Hto Hnul Hne Hs Ha Hc. rewrite find_char_spec by done.
  by rewrite Hs, (find_char_first_skip _ _ _ _ _ i) by done.
Qed.

(** The stored headers as pairs of texts. *)
Definition header_views (hs : list (zcstring * zcstring)) : list (bytes * bytes) :=
  (λ h, (zview h.1, zview h.2)) <$> hs.

Lemma no_eol_app a b : no_eol (a ++ b) ↔ no_eol a ∧ no_eol b.
Proof. apply Forall_app. Qed.

Lemma no_eol_not_in_CRLF a : no_eol a → not_in CRLF a.
Proof.
  intros H. eapply Forall_impl; [exact H|]. intros c [Hcr Hlf].
  unfold CRLF. rewrite !not_elem_of_cons. repeat split; try done. apply not_elem_of_nil.
Qed.

(** A header line is stored exactly when [header_of_line] accepts it. *)
Lemma parse_header_line_spec mem p line_end l r :
  line_end ≤ length mem → slice mem p line_end = l ++ CRLF → no_eol l →
  ∃ r', parse_header_line mem p line_end r = Ret r' ∧
    Uri r' = Uri r ∧ Method r' = Method r ∧
    header_views (Headers r') = header_views (Headers r) ++ option_list (header_of_line l).
Proof.
  intros Hle Hs Hl. unfold parse_header_line, header_of_line.
  destruct (split_at [":"%char; " "%char; LF] l) as [name tl] eqn:Hsp.
  apply split_at_app in Hsp as (-> & Hname & Htl).
  apply no_eol_app in Hl as [Hln Hlt]. rewrite <- app_assoc in Hs.
  destruct tl as [|c value].
  - (* no colon: the search stops at the line feed *)
    erewrite (find_char_at _ _ _ _ (name ++ [CR]) LF [] 2); [| done | nonul | done | | | done].
    2: { by rewrite <- app_assoc. }
    2: { apply Forall_app. split; [done|]. decided. }
    outcome_simpl. eexists. split; [done|]. by rewrite app_nil_r.
  - apply Forall_cons in Hlt as [[_ Hclf] Hval].
    rewrite !elem_of_cons in Htl. destruct Htl as [->|[->|[->|Hin]]].
    + (* name, colon, value *)
      rewrite decide_True by done.
      erewrite (find_char_at _ _ _ _ name ":"%char (value ++ CRLF) 0); [| done | nonul | done | done | done | done].
      outcome_simpl. cbn [result mr_end mr_begin]. rewrite decide_True by done.
      assert (Hs' : slice mem (p + length name + 1) line_end = value ++ CR :: [LF]).
      { replace (p + length name + 1) with (p + length (name ++ [":"%char]))
          by (rewrite length_app; simpl; lia).
        apply slice_app_r. by rewrite Hs, <- app_assoc. }
      erewrite (find_char_at _ _ _ _ value CR [LF] 0); [| done | nonul | done | done | by apply no_eol_not_in_CRLF | done].
      outcome_simpl. cbn [result mr_end mr_begin]. rewrite decide_True by done.
      eexists. split; [done|]. split; [done|]. split; [done|].
      unfold header_views. cbn [Headers push_header]. rewrite fmap_app. do 2 f_equal.
      cbn [fmap list_fmap fst snd]. unfold zview. cbn [zmem zbegin zend].
      rewrite !Nat.add_sub.
      rewrite (slice_app_l _ _ _ _ _ Hs Hle), (slice_app_l _ _ _ _ _ Hs' Hle). done.
    + (* a space before any colon *)
      rewrite decide_False by done.
      erewrite (find_char_at _ _ _ _ name " "%char (value ++ CRLF) 1); [| done | nonul | done | done | done | done].
      outcome_simpl. eexists. split; [done|]. by rewrite app_nil_r.
    + done.
    + by apply elem_of_nil in Hin.
Qed.

(** The first line gives [uri_of_line] of what follows the method. *)
Lemma parse_first_line_spec mem method_end line_end l r :
  line_end ≤ length mem → slice mem method_end line_end = l ++ CRLF → no_eol l →
  ∃ o, parse_first_line mem method_end line_end r = Ret o ∧
    match uri_of_line l with
    | None => o = None
    | Some uri => ∃ r', o = Some r' ∧ zview (Uri r') = uri ∧
        Headers r' = Headers r ∧ Method r' = Method r
    end.
Proof.
  intros Hle Hs Hl. unfold parse_first_line, uri_of_line.
  destruct (split_at [" "%char; TAB; LF; CR] l) as [uri tl] eqn:Hsp.
  apply split_at_app in Hsp as (-> & Huri & Htl).
  apply no_eol_app in Hl as [_ Hlt]. rewrite <- app_assoc in Hs.
  assert (Hok : ∀ c t i, slice mem method_end line_end = uri ++ c :: t →
    index_of c [" "%char; TAB; LF; CR] 0 = Some i → find_char_code i ≠ 0%Z →
    ∃ o r', (path ← find_char mem method_end line_end [" "%char; TAB; LF; CR];
      if decide (result path ≠ 0%Z) then
        let r := set_uri (ZcString (Some mem) (mr_begin path) (mr_end path - 1)) r in
        params ← find_char mem (mr_end path) (mr_end path) ["?"%char];
        if decide (result params ≠ 0%Z) then
          let r := set_params (ZcString (Some mem) (mr_begin params + 1) (mr_end path - 1)) r in
          Ret (Some (set_uri (ZcString (Some mem) (mr_begin path) (mr_end params - 1)) r))
        else Ret (Some r)
      else Ret None) = Ret o ∧ o = Some r' ∧ zview (Uri r') = uri ∧
      Headers r' = Headers r ∧ Method r' = Method r).
  { intros c t i Hct Hi Hcode.
    rewrite (find_char_at _ _ _ _ uri c t i) by (done || nonul).
    outcome_simpl. cbn [result mr_begin mr_end]. rewrite decide_True by done.
    assert (Hlen : method_end + length uri + 1 ≤ length mem).
    { apply (f_equal length) in Hct. rewrite slice_length, length_app in Hct by done.
      simpl in Hct. lia. }
    destruct (find_char_empty mem (method_end + length uri + 1) ["?"%char]) as (pa & -> & Hz);
      [done | nonul | done |].
    outcome_simpl. rewrite Hz, decide_False by auto. do 2 eexists. split; [done|]. split; [done|].
    split; [|done]. cbn [Uri set_uri]. unfold zview. cbn [zmem zbegin zend].
    rewrite Nat.add_sub. exact (slice_app_l _ _ _ _ _ Hct Hle). }
  destruct tl as [|c tl].
  - destruct (Hok CR [LF] 3) as (o & r' & Ho & Hr'); [done | done | vm_compute; done |].
    exists o. split; [done|]. by exists r'.
  - apply Forall_cons in Hlt as [[Hcr Hclf] _].
    rewrite !elem_of_cons in Htl. destruct Htl as [->|[->|[->|[->|Hin]]]]; [| |done|done|].
    + rewrite decide_False by done.
      destruct (Hok " "%char (tl ++ CRLF) 0) as (o & r' & Ho & Hr'); [done | done | vm_compute; done |].
      exists o. split; [done|]. by exists r'.
    + rewrite decide_True by done.
      rewrite (find_char_at _ _ _ _ uri TAB (tl ++ CRLF) 1) by (done || nonul).
      by eexists.
    + by apply elem_of_nil in Hin.
Qed.

Lemma head_text_cons first l ls body :
  head_text first (l :: ls) ++ body = first ++ CRLF ++ (head_text l ls ++ body).
Proof. cbn [head_text]. by rewrite <- !app_assoc. Qed.

Lemma head_text_prefix l ls body :
  no_eol l → l ≠ [] → icase_prefix CRLF (head_text l ls ++ body) = false.
Proof.
  intros Hl Hne. destruct l as [|c l]; [done|]. apply Forall_cons in Hl as [[Hcr _] _].
  assert (Hh : ∃ t, head_text (c :: l) ls ++ body = c :: t) by (destruct ls; eexists; done).
  destruct Hh as [t ->]. cbn [icase_prefix CRLF]. rewrite bool_decide_eq_false_2; [done|].
  intros Heq. by apply icase_CR in Heq.
Qed.

(** The loop over the header lines, from a line that is not the first one. *)
Lemma parse_headers_spec fuel data mem he me p l ls body line line_no r :
  he ≤ length mem → slice mem p he = head_text l ls ++ body →
  Forall no_eol (l :: ls) → Forall (λ l, l ≠ []) ls → line_no ≠ 0 → he - p < fuel →
  find_values (Some mem) p he HttpLineEndians 4 = Ret line →
  ∃ r', parse_lines fuel data mem he me line p line_no r = Ret (0%Z, r') ∧
    Method r' = Method r ∧ Uri r' = Uri r ∧
    header_views (Headers r')
    = header_views (Headers r) ++ omap header_of_line (removelast (l :: ls)) ∧
    ReqContent r' = Content data (p + length (head_text l ls)).
Proof.
  intros Hhe. revert fuel p l line line_no r.
  induction ls as [|l2 ls IH]; intros fuel p l line line_no r Hs Heol Hne Hno Hfuel Hfind;
    apply Forall_cons in Heol as [Hl Hls]; (destruct fuel as [|fuel]; [lia|]);
    cbn [parse_lines].
  - cbn [head_text] in Hs. rewrite <- !app_assoc in Hs.
    rewrite (find_values_line _ _ _ _ _ Hhe Hs Hl) in Hfind. cbn in Hfind. injection Hfind as <-.
    cbn [result mr_end]. rewrite decide_False, decide_False by done.
    eexists. split; [done|]. split; [done|]. split; [done|].
    cbn [removelast omap list_omap]. rewrite app_nil_r. split; [done|].
    cbn [ReqContent set_content head_text]. f_equal. rewrite !length_app. simpl. lia.
  - rewrite head_text_cons in Hs. apply Forall_cons in Hne as [Hl2 Hne].
    pose proof (Forall_inv Hls) as Hl2e.
    rewrite (find_values_line _ _ _ _ _ Hhe Hs Hl) in Hfind.
    rewrite (head_text_prefix _ _ _ Hl2e Hl2) in Hfind. injection Hfind as <-.
    cbn [result mr_end]. rewrite decide_False, decide_True, decide_True by done.
    assert (Hlen : p + length l + 2 ≤ he).
    { apply (f_equal length) in Hs. rewrite slice_length, !length_app in Hs by done.
      simpl in Hs. lia. }
    assert (Hline : slice mem p (p + length l + 2) = l ++ CRLF).
    { replace (p + length l + 2) with (p + length (l ++ CRLF)) by (rewrite length_app; simpl; lia).
      apply (slice_app_l _ _ he _ (head_text l2 ls ++ body)); [|done].
      by rewrite Hs, <- app_assoc. }
    destruct (parse_header_line_spec mem p (p + length l + 2) l r) as (r1 & -> & Hu1 & Hm1 & Hh1);
      [lia | done | done |]. outcome_simpl.
    assert (Hs' : slice mem (p + length l + 2) he = head_text l2 ls ++ body).
    { replace (p + length l + 2) with (p + length (l ++ CRLF)) by (rewrite length_app; simpl; lia).
      apply slice_app_r. by rewrite Hs, <- app_assoc. }
    destruct (find_line_returns mem (p + length l + 2) he) as [line' Hf]; [done|done|].
    rewrite Hf. outcome_simpl.
    destruct (IH fuel (p + length l + 2) l2 line' (S line_no) r1 Hs' Hls Hne) as (r' & -> & Hm & Hu & Hh & Hc);
      [lia | lia | exact Hf |].
    exists r'. split; [done|]. split; [congruence|]. split; [congruence|]. split.
    + rewrite Hh, Hh1, <- app_assoc. f_equal. cbn [removelast omap list_omap].
      by destruct (header_of_line l).
    + rewrite Hc. f_equal. cbn [head_text]. rewrite !length_app. simpl. lia.
Qed.

(** The whole function on a recognised method. *)
Lemma http_parse_text `{PAST : !PastEnd} data mem r m len first lines body :
  dataBuffer data = Some mem → dataPartLength data ≤ length mem → dataLength data ≠ 0 →
  slice mem 0 (dataPartLength data) = head_text first lines ++ body →
  method_of_text (head_text first lines ++ body) = Some (m, len) → len ≤ length first →
  Forall no_eol (first :: lines) → Forall (λ l, l ≠ []) lines →
  match lines with
  | [] => ∃ r', http_parse_request data r = Ret (0%Z, r') ∧ Method r' = m ∧ Uri r' = Uri r ∧
      header_views (Headers r') = header_views (Headers r) ∧
      ReqContent r' = Content data (length (head_text first lines))
  | _ :: _ =>
      match uri_of_line (drop len first) with
      | None => ∃ r', http_parse_request data r = Ret (400%Z, r')
      | Some uri => ∃ r', http_parse_request data r = Ret (0%Z, r') ∧ Method r' = m ∧
          zview (Uri r') = uri ∧
          header_views (Headers r')
          = header_views (Headers r) ++ omap header_of_line (removelast lines) ∧
          ReqContent r' = Content data (length (head_text first lines))
      end
  end.
Proof.
  intros Hb Hpl Hdl Hs Hm Hlen Heol Hne.
  rewrite (http_parse_method _ mem), Hs, Hm; [|done..|right; rewrite Hs; apply method_not_out; by rewrite Hm].
  destruct (find_line_returns mem 0 (dataPartLength data)) as [line Hf]; [lia|done|].
  rewrite Hf. outcome_simpl. apply Forall_cons in Heol as [Hfst Hls].
  destruct lines as [|l ls].
  - cbn [head_text] in Hs. rewrite <- !app_assoc in Hs.
    rewrite (find_values_line _ _ _ _ _ Hpl Hs Hfst) in Hf. cbn in Hf. injection Hf as <-.
    cbn [parse_lines result mr_end]. rewrite decide_False, decide_False by done.
    eexists. split; [done|]. split; [done|]. split; [done|]. split; [done|].
    cbn [ReqContent set_content head_text]. f_equal. rewrite !length_app. simpl. lia.
  - rewrite head_text_cons in Hs. apply Forall_cons in Hne as [Hl Hne].
    rewrite (find_values_line _ _ _ _ _ Hpl Hs Hfst) in Hf.
    rewrite (head_text_prefix _ _ _ (Forall_inv Hls) Hl) in Hf. injection Hf as <-.
    cbn [parse_lines result mr_end]. rewrite decide_False, decide_True, decide_False by (done || auto).
    assert (Hll : length first + 2 ≤ dataPartLength data).
    { apply (f_equal length) in Hs. rewrite slice_length, !length_app in Hs by done. simpl in Hs. lia. }
    assert (Hend : length first + 2 = 0 + length (first ++ CRLF)).
    { rewrite length_app. simpl. lia. }
    assert (Hs2 : slice mem 0 (dataPartLength data) = (first ++ CRLF) ++ (head_text l ls ++ body)).
    { by rewrite <- app_assoc. }
    rewrite Hend.
    assert (Hline : slice mem len (0 + length (first ++ CRLF)) = drop len first ++ CRLF).
    { change len with (0 + len) at 1. rewrite slice_drop, (slice_app_l _ _ _ _ _ Hs2 Hpl).
      by rewrite drop_app_le. }
    apply slice_app_r in Hs2 as Hs'.
    destruct (parse_first_line_spec mem len (0 + length (first ++ CRLF)) (drop len first) (set_method m r))
      as (o & -> & Ho); [rewrite <- Hend; lia | done | by apply Forall_drop |]. outcome_simpl.
    destruct (uri_of_line (drop len first)) as [uri|]; [| subst o; by eexists].
    destruct Ho as (r1 & -> & Hu1 & Hh1 & Hm1).
    destruct (find_line_returns mem (0 + length (first ++ CRLF)) (dataPartLength data)) as [line' Hf'];
      [rewrite <- Hend; lia | done |].
    rewrite Hf'. outcome_simpl.
    destruct (parse_headers_spec (length mem) data mem (dataPartLength data) len _ l ls body line' 1 r1
      Hpl Hs' Hls Hne) as (r' & -> & Hm' & Hu' & Hh' & Hc); [done | rewrite <- Hend; lia | done |].
    exists r'. split; [done|]. split; [by rewrite Hm', Hm1|]. split; [by rewrite Hu'|].
    split; [by rewrite Hh', Hh1|]. rewrite Hc. f_equal. cbn [head_text]. rewrite !length_app. simpl. lia.
Qed.

(** The text that introduces a method, trailing space included. *)
Definition method_text (m : RequestMethod) : bytes :=
  match m with
  | UNSUPPORTED => []
  | GET => str "GET " | POST => str "POST " | PUT => str "PUT " | HEAD => str "HEAD "
  | OPTIONS => str "OPTIONS " | DELETE => str "DELETE " | TRACE => str "TRACE "
  | CONNECT => str "CONNECT " | PATCH => str "PATCH "
  end.

Lemma method_of_text_method m t :
  m ≠ UNSUPPORTED → method_of_text (method_text m ++ t) = Some (m, length (method_text m)).
Proof. intros Hm. by destruct m. Qed.

Lemma method_text_no_eol m : no_eol (method_text m).
Proof. destruct m; decided. Qed.

Lemma head_text_app first lines : ∃ t, head_text first lines = first ++ t.
Proof. destruct lines; eexists; done. Qed.

Lemma split_at_stop cl a c t : not_in cl a → c ∈ cl → split_at cl (a ++ c :: t) = (a, c :: t).
Proof.
  intros Ha Hc. induction Ha as [|d a Hd Ha IH]; cbn [app split_at].
  - by rewrite decide_True.
  - by rewrite decide_False, IH.
Qed.

(** A received request: its head within the head limit, its body, and the
    indeterminate rest of the block. *)
Definition request_buffer (head body junk : bytes) (part : nat) : ReadBufferImpl :=
  ReadBuffer (length (head ++ body)) part (Some (head ++ body ++ junk)).

Lemma request_buffer_content head body junk part :
  let z := Content (request_buffer head body junk part) (length head) in
  zc_wf z ∧ zview z = body.
Proof.
  unfold Content, request_buffer, zview, zc_wf. cbn [dataBuffer dataLength zmem zbegin zend].
  rewrite !length_app. assert (Hb : (if decide (length head < length head + length body)
    then length head else length head + length body) = length head).
  { case_decide; [done|]. lia. }
  rewrite Hb. split; [lia|].
  unfold slice. rewrite drop_app_length. replace (length head + length body - length head) with (length body) by lia.
  apply take_app_length.
Qed.

Lemma request_buffer_head head body junk part :
  length head ≤ part → ∃ t, slice (head ++ body ++ junk) 0 part = head ++ t.
Proof.
  intros H. unfold slice. rewrite Nat.sub_0_r, drop_0.
  rewrite take_app. replace (part `min` length head) with (length head) by lia.
  rewrite take_ge with (l := head) by done. by eexists.
Qed.

(** ** Properties *)

Definition fresh_request : CRequest := MkRequest UNSUPPORTED znull znull znull [].


Definition demo_buffer : ReadBufferImpl := request_buffer (str "GRT /") [] (str "??") 7.


(** C12: what the parser accepts and stores, for a request with CRLF line ends:
    a known method, a target without blanks, a version, header lines and a last
    header line, an empty line and a body, received within the head limit.  The
    parser succeeds; it stores the method, the target, the body, and the headers
    of all the header lines but the last one: the last line is ended by the
    empty line that ends the head, and the loop leaves before it looks at it. *)
Theorem http_parse_request_stores `{PAST : !PastEnd} m target version lines last body junk part r :
  m ≠ UNSUPPORTED → not_in [" "%char; TAB; LF; CR] target → no_eol version →
  Forall (λ l, no_eol l ∧ l ≠ []) (lines ++ [last]) →
  let head := head_text (method_text m ++ target ++ " "%char :: version) (lines ++ [last]) in
  length head ≤ part ≤ length (head ++ body ++ junk) →
  ∃ r', http_parse_request (request_buffer head body junk part) r = Ret (0%Z, r') ∧
    Method r' = m ∧ zview (Uri r') = target ∧
    header_views (Headers r') = header_views (Headers r) ++ omap header_of_line lines ∧
    zc_wf (ReqContent r') ∧ zview (ReqContent r') = body.
Proof.
  intros Hm Htg Hv Hls head [Hpart Hmem].
  destruct (request_buffer_head head body junk part Hpart) as [t Ht].
  destruct (head_text_app (method_text m ++ target ++ " "%char :: version) (lines ++ [last])) as [u Hu].
  apply Forall_and in Hls as [Heol Hne].
  assert (Htgt : no_eol target).
  { eapply Forall_impl; [exact Htg|]. intros c Hc. rewrite !not_elem_of_cons in Hc. tauto. }
  assert (Hfst : no_eol (method_text m ++ target ++ " "%char :: version)).
  { rewrite !no_eol_app. split; [apply method_text_no_eol|]. split; [done|].
    apply Forall_cons. by split; [decided|]. }
  pose proof (http_parse_text (request_buffer head body junk part) _ r m (length (method_text m))
    (method_text m ++ target ++ " "%char :: version) (lines ++ [last]) t eq_refl Hmem) as H.
  rewrite drop_app_length in H. unfold uri_of_line in H.
  rewrite (split_at_stop _ target " "%char version Htg) in H by decided.
  rewrite decide_False in H by done. rewrite removelast_last in H.
  destruct (lines ++ [last]) as [|l ls] eqn:Hlines; [by destruct lines|].
  destruct H as (r' & Hr & Hm' & Huri & Hh & Hc).
  - cbn [dataLength request_buffer]. unfold head. rewrite Hu, !length_app. simpl. lia.
  - exact Ht.
  - rewrite Hu, <- !app_assoc. by apply method_of_text_method.
  - rewrite length_app. lia.
  - by apply Forall_cons.
  - done.
  - exists r'. rewrite Hc. destruct (request_buffer_content head body junk part). by split_and!.
Qed.

Definition demo_lines : list bytes := [str "Host: bus"; str "X-MSG-FORWARD-UID: 7"].
Definition demo_last : bytes := str "Content-Type: text/plain".
Definition demo_head : bytes :=
  head_text (method_text POST ++ str "/sms" ++ " "%char :: str "HTTP/1.1") (demo_lines ++ [demo_last]).

Lemma http_parse_request_stores_witness :
  POST ≠ UNSUPPORTED ∧ length demo_head ≤ 128 ≤ length (demo_head ++ str "hello" ++ replicate 99 NUL) ∧
  ∃ r', http_parse_request (PAST := None) (request_buffer demo_head (str "hello") (replicate 99 NUL) 128) fresh_request = Ret (0%Z, r') ∧
    Method r' = POST ∧ zview (Uri r') = str "/sms" ∧
    header_views (Headers r')
    = [] ++ [(str "Host", str " bus"); (str "X-MSG-FORWARD-UID", str " 7")] ∧
    zc_wf (ReqContent r') ∧ zview (ReqContent r') = str "hello".
Proof.
  split; [done|]. split; [vm_compute; lia|].
  apply (http_parse_request_stores POST (str "/sms") (str "HTTP/1.1") demo_lines demo_last);
    [done | decided | decided | decided | vm_compute; lia].
Defined.

(** A request whose head has no header line is accepted with an empty
    target: the first line is ended by the empty line, and the loop leaves
    before it extracts the target, so [Uri] and the headers stay as they were
    although the parser reports success. *)
Theorem http_parse_request_no_headers `{PAST : !PastEnd} m first body junk part r :
  m ≠ UNSUPPORTED → no_eol first →
  let head := head_text (method_text m ++ first) [] in
  length head ≤ part ≤ length (head ++ body ++ junk) →
  ∃ r', http_parse_request (request_buffer head body junk part) r = Ret (0%Z, r') ∧
    Method r' = m ∧ Uri r' = Uri r ∧ header_views (Headers r') = header_views (Headers r) ∧
    zview (ReqContent r') = body.
Proof.
  intros Hm Hf head [Hpart Hmem].
  destruct (request_buffer_head head body junk part Hpart) as [t Ht].
  destruct (http_parse_text (request_buffer head body junk part) _ r m (length (method_text m))
    (method_text m ++ first) [] t eq_refl Hmem) as (r' & Hr & Hm' & Hu & Hh & Hc).
  - cbn [dataLength request_buffer]. unfold head. cbn [head_text]. rewrite !length_app. simpl. lia.
  - exact Ht.
  - cbn [head_text]. rewrite <- !app_assoc. by apply method_of_text_method.
  - rewrite length_app. lia.
  - apply Forall_cons. split; [|constructor]. apply no_eol_app. by split; [apply method_text_no_eol|].
  - constructor.
  - exists r'. rewrite Hc. destruct (request_buffer_content head body junk part). by split_and!.
Qed.

Lemma http_parse_request_no_headers_witness :
  GET ≠ UNSUPPORTED ∧ no_eol (str "/sms HTTP/1.0") ∧
  ∃ r', http_parse_request (PAST := None) (request_buffer (head_text (str "GET " ++ str "/sms HTTP/1.0") [])
      [] (replicate 9 NUL) 30) fresh_request = Ret (0%Z, r') ∧
    Method r' = GET ∧ Uri r' = znull ∧ header_views (Headers r') = [] ∧ zview (ReqContent r') = [].
Proof.
  split; [done|]. split; [decided|].
  apply (http_parse_request_no_headers GET (str "/sms HTTP/1.0")); [done | decided | vm_compute; lia].
Defined.

(** A header line ended by a bare line feed is dropped: the value is
    searched with the list CR, LF, and [find_char] reports a hit on the second
    character of a list with the code 0, "not found". *)
Theorem parse_header_line_lf_dropped mem p line_end name value r :
  line_end ≤ length mem → slice mem p line_end = name ++ ":"%char :: value ++ [LF] →
  not_in [":"%char; " "%char; LF] name → no_eol value →
  parse_header_line mem p line_end r = Ret r.
Proof.
  intros Hle Hs Hname Hval. unfold parse_header_line.
  rewrite (find_char_at _ _ _ _ name ":"%char (value ++ [LF]) 0) by (done || nonul).
  outcome_simpl. cbn [result mr_end]. rewrite decide_True by done.
  assert (Hs' : slice mem (p + length name + 1) line_end = value ++ LF :: []).
  { replace (p + length name + 1) with (p + length (name ++ [":"%char]))
      by (rewrite length_app; simpl; lia).
    apply slice_app_r. by rewrite Hs, <- app_assoc. }
  rewrite (find_char_at _ _ _ _ value LF [] 1) by (done || nonul || by apply no_eol_not_in_CRLF).
  outcome_simpl. cbn [result]. by rewrite decide_False by auto.
Qed.

Definition lf_line : bytes := str "Host:bus" ++ [LF].

Lemma parse_header_line_lf_dropped_witness :
  length lf_line ≤ length lf_line ∧ no_eol (str "bus") ∧
  parse_header_line lf_line 0 (length lf_line) fresh_request = Ret fresh_request.
Proof.
  split; [lia|]. split; [decided|].
  apply (parse_header_line_lf_dropped lf_line 0 (length lf_line) (str "Host") (str "bus"));
    [done | done | decided | decided].
Defined.

(** The head is the first [dataPartLength] bytes of the block, received or
    not: the same received bytes are a success or an error depending on the
    indeterminate bytes after them. *)
Theorem http_parse_request_reads_uninitialised `{PAST : !PastEnd} :
  ∃ received junk1 junk2 part r1 r2,
    length junk1 = length junk2 ∧
    http_parse_request (ReadBuffer (length received) part (Some (received ++ junk1))) fresh_request
      = Ret (0%Z, r1) ∧
    http_parse_request (ReadBuffer (length received) part (Some (received ++ junk2))) fresh_request
      = Ret (431%Z, r2).
Proof.
  exists (str "GET /sms HTTP/1.1" ++ CRLF), (CRLF ++ str "zz"), (str "zzzz"), 23.
  do 2 eexists. split; [reflexivity|]. split; vm_compute; reflexivity.
Qed.
