(* ===== verification/Numerals.v ===== *)
(** * Numerals: the number conversions of the C++ library the program uses

    [std::to_string], [std::stoul] and [std::stol] (base 10), [std::strlen]
    and [toString] of [kernel/net/server.h].  The conversions of the library
    are modelled by what the C and C++ standards say of them. *)
From Stdlib Require Import Ascii String.
From stdpp Require Import options.
From S2P Require Import Prelude.

Open Scope Z_scope.

Definition digit_char (d : Z) : ascii := ascii_of_nat (Z.to_nat (48 + d)).
Definition digit_value (c : ascii) : Z := u8 c - 48.

(** ** Printing *)

Fixpoint to_digits (fuel : nat) (z : Z) : bytes :=
  match fuel with
  | O => []
  | S fuel => (if decide (z < 10) then [] else to_digits fuel (z / 10)) ++ [digit_char (z `mod` 10)]
  end.

(** [std::to_string] of an unsigned number. *)
Definition to_string (z : Z) : bytes := to_digits (S (Z.to_nat (Z.log2 z))) z.

(** [std::to_string] of a signed number; also the conversion [%ld]. *)
Definition to_string_signed (z : Z) : bytes :=
  if decide (z < 0) then "-"%char :: to_string (- z) else to_string z.

(** The signed 64-bit reading of a [size_t]. *)
Definition i64_of_u64 (z : Z) : Z := if decide (z < 2 ^ 63) then z else z - 2 ^ 64.

(** [toString(const size_t&)] prints with [PRId64], a signed format. *)
Definition toString (val : Z) : bytes := to_string_signed (i64_of_u64 val).

(** ** Parsing *)

Fixpoint span_digits (s : bytes) : bytes * bytes :=
  match s with
  | c :: t => if isdigit c then let '(a, b) := span_digits t in (c :: a, b) else ([], s)
  | [] => ([], [])
  end.

Fixpoint drop_space (s : bytes) : bytes :=
  match s with
  | c :: t => if isspace c then drop_space t else s
  | [] => []
  end.

Definition digits_value (ds : bytes) : Z := foldl (λ n c, 10 * n + digit_value c) 0 ds.

(** Blanks, an optional sign, digits: the sign and the digits [strtol] and
    [strtoul] convert. *)
Definition strto_parts (s : bytes) : bool * bytes :=
  match drop_space s with
  | c :: t =>
      if decide (c = "-"%char) then (true, (span_digits t).1)
      else if decide (c = "+"%char) then (false, (span_digits t).1)
      else (false, (span_digits (c :: t)).1)
  | [] => (false, [])
  end.

(** [std::stoul]: a negative number is converted modulo [2^64]. *)
Definition stoul (s : bytes) : outcome Z :=
  let '(neg, ds) := strto_parts s in
  if decide (ds = []) then Throw (StdException (str "stoul"))
  else if decide (digits_value ds < u64_modulus) then
    Ret (if neg : bool then u64 (- digits_value ds) else digits_value ds)
  else Throw (StdException (str "stoul")).

(** [std::stol] *)
Definition stol (s : bytes) : outcome Z :=
  let '(neg, ds) := strto_parts s in
  if decide (ds = []) then Throw (StdException (str "stol"))
  else
    let v := if neg : bool then - digits_value ds else digits_value ds in
    if in_i64b v then Ret v else Throw (StdException (str "stol")).

(** [std::strlen] on the memory from a pointer on. *)
Fixpoint strlen (mem : bytes) : outcome nat :=
  match mem with
  | [] => Undef
  | c :: t => if decide (c = NUL) then Ret 0%nat else n ← strlen t; Ret (S n)
  end.

(** ** Lemmas *)

Lemma stoul_cases s : (∃ v, stoul s = Ret v) ∨ stoul s = Throw (StdException (str "stoul")).
Proof. unfold stoul. destruct (strto_parts s) as [neg ds]. repeat case_decide; eauto. Qed.


Lemma digit_char_props d :
  0 ≤ d < 10 → isdigit (digit_char d) = true ∧ digit_value (digit_char d) = d ∧
    isspace (digit_char d) = false ∧ digit_char d ≠ "-"%char ∧ digit_char d ≠ "+"%char.
Proof.
  intros Hd. assert (d = 0 ∨ d = 1 ∨ d = 2 ∨ d = 3 ∨ d = 4 ∨ d = 5 ∨ d = 6 ∨ d = 7 ∨ d = 8 ∨ d = 9) by lia.
  repeat match goal with H : _ ∨ _ |- _ => destruct H as [->|H] end; subst; vm_compute; done.
Qed.

Lemma digits_value_app a b : digits_value (a ++ b) = foldl (λ n c, 10 * n + digit_value c) (digits_value a) b.
Proof. unfold digits_value. by rewrite foldl_app. Qed.

Lemma to_digits_spec fuel z :
  0 ≤ z < 10 ^ Z.of_nat fuel → (0 < fuel)%nat →
  to_digits fuel z ≠ [] ∧ Forall (λ c, ∃ d, 0 ≤ d < 10 ∧ c = digit_char d) (to_digits fuel z) ∧
  digits_value (to_digits fuel z) = z.
Proof.
  revert z. induction fuel as [|fuel IH]; intros z Hz Hf; [lia|]. cbn [to_digits].
  assert (Hm : 0 ≤ z `mod` 10 < 10) by (apply Z.mod_pos_bound; lia).
  assert (Hlast : Forall (λ c, ∃ d, 0 ≤ d < 10 ∧ c = digit_char d) [digit_char (z `mod` 10)]).
  { repeat constructor. by eexists. }
  case_decide as H10.
  - split; [by intros [=]|]. split; [done|]. cbn. destruct (digit_char_props _ Hm) as (_ & -> & _).
    rewrite Z.mod_small by lia. lia.
  - destruct fuel as [|fuel].
    { change (10 ^ Z.of_nat 1) with 10 in Hz. lia. }
    destruct (IH (z / 10)) as (Hne & Hall & Hval); [|lia|].
    { rewrite Nat2Z.inj_succ, Z.pow_succ_r in Hz by lia.
      split; [apply Z.div_pos; lia|]. apply Z.div_lt_upper_bound; lia. }
    split; [by destruct (to_digits (S fuel) (z / 10))|]. split; [by apply Forall_app|].
    rewrite digits_value_app, Hval. cbn [foldl]. destruct (digit_char_props _ Hm) as (_ & -> & _).
    pose proof (Z_div_mod_eq_full z 10). lia.
Qed.

Lemma to_string_spec z :
  0 ≤ z →
  to_string z ≠ [] ∧ Forall (λ c, ∃ d, 0 ≤ d < 10 ∧ c = digit_char d) (to_string z) ∧
  digits_value (to_string z) = z.
Proof.
  intros Hz. apply to_digits_spec; [|lia]. split; [done|].
  pose proof (Z.log2_nonneg z). rewrite Nat2Z.inj_succ, Z2Nat.id by lia.
  destruct (decide (z = 0)) as [->|]; [done|].
  destruct (Z.log2_spec z) as [_ Hlt]; [lia|].
  eapply Z.lt_le_trans; [exact Hlt|]. apply Z.pow_le_mono_l. lia.
Qed.

Lemma span_digits_all ds rest :
  Forall (λ c, isdigit c = true) ds → match rest with [] => True | c :: _ => isdigit c = false end →
  span_digits (ds ++ rest) = (ds, rest).
Proof.
  intros Hds Hr. induction Hds as [|c ds Hc Hds IH]; cbn.
  - destruct rest as [|c rest]; [done|]. cbn. by rewrite Hr.
  - by rewrite Hc, IH.
Qed.

Lemma drop_space_nonspace c t : isspace c = false → drop_space (c :: t) = c :: t.
Proof. intros H. cbn. by rewrite H. Qed.

(** Printed digits, after any blanks, are read back as the sign and digits. *)
Lemma strto_parts_to_string z rest :
  0 ≤ z → match rest with [] => True | c :: _ => isdigit c = false end →
  strto_parts (to_string z ++ rest) = (false, to_string z).
Proof.
  intros Hz Hr. destruct (to_string_spec z Hz) as (Hne & Hall & _).
  assert (Hd : Forall (λ c, isdigit c = true) (to_string z)).
  { eapply Forall_impl; [exact Hall|]. intros c (d & Hd & ->). by apply digit_char_props. }
  destruct (to_string z) as [|c ds] eqn:Hs; [done|].
  apply Forall_cons in Hall as [(d & Hdb & ->) _].
  destruct (digit_char_props d Hdb) as (_ & _ & Hsp & Hminus & Hplus).
  unfold strto_parts. rewrite <- app_comm_cons, drop_space_nonspace by done.
  rewrite !decide_False by done. by rewrite app_comm_cons, span_digits_all.
Qed.

Lemma drop_space_cons s : drop_space (" "%char :: s) = drop_space s.
Proof. done. Qed.

Lemma strto_parts_space s : strto_parts (" "%char :: s) = strto_parts s.
Proof. done. Qed.

Lemma stoul_printed z : in_u64 z → stoul (to_string z) = Ret z.
Proof.
  intros [Hz Hm]. destruct (to_string_spec z Hz) as (Hne & _ & Hv).
  unfold stoul. rewrite <- (app_nil_r (to_string z)) at 1.
  rewrite strto_parts_to_string by done. rewrite decide_False by done. by rewrite Hv, decide_True.
Qed.

(** A printed number has digits only. *)
Lemma to_string_digits z : 0 ≤ z → Forall (λ c, isdigit c = true) (to_string z).
Proof.
  intros Hz. destruct (to_string_spec z Hz) as (_ & Hall & _).
  eapply Forall_impl; [exact Hall|]. intros c (d & Hd & ->). by apply digit_char_props.
Qed.

(** A text without a digit is no number. *)
Lemma stol_no_digits s : Forall (λ c, isdigit c = false) s → stol s = Throw (StdException (str "stol")).
Proof.
  intros Hs. assert (Hspan : ∀ t, Forall (λ c, isdigit c = false) t → (span_digits t).1 = []).
  { intros [|c t] Ht; [done|]. apply Forall_cons in Ht as [Hc _]. cbn [span_digits]. by rewrite Hc. }
  assert (Hdrop : Forall (λ c, isdigit c = false) (drop_space s)).
  { induction Hs as [|c s Hc Hs IH]; [constructor|]. cbn [drop_space]. destruct (isspace c); [done|by constructor]. }
  unfold stol, strto_parts. destruct (drop_space s) as [|c t]; [done|]. apply Forall_cons in Hdrop as Hd. destruct Hd as [_ Ht].
  destruct (decide (c = "-"%char)); [by rewrite Hspan|]. destruct (decide (c = "+"%char)); by rewrite Hspan.
Qed.

(** Numbers survive the trip through a header: a message id printed by
    [std::to_string], with or without the blank that separates a header value
    from its colon, is read back by [std::stoul] as the same number. *)
Theorem stoul_to_string z :
  in_u64 z →
  stoul (to_string z) = Ret z ∧ stoul (" "%char :: to_string z) = Ret z.
Proof.
  intros Hz. pose proof (stoul_printed z Hz) as H.
  split; [done|]. unfold stoul. rewrite strto_parts_space. exact H.
Qed.

Lemma stoul_to_string_witness :
  in_u64 6801273 ∧ stoul (to_string 6801273) = Ret 6801273 ∧
  stoul (" "%char :: to_string 6801273) = Ret 6801273.
Proof.
  assert (H : in_u64 6801273) by (split; [lia | reflexivity]).
  split; [exact H|]. exact (stoul_to_string 6801273 H).
Defined.

Example stoul_examples :
  stoul (str " 42abc") = Ret 42 ∧ stoul (str "-1") = Ret (2 ^ 64 - 1) ∧
  stoul (str "abc") = Throw (StdException (str "stoul")) ∧
  stoul (str "18446744073709551616") = Throw (StdException (str "stoul")) ∧
  stol (str "-7") = Ret (-7).
Proof. repeat split. Qed.

(** [toString] agrees with [std::to_string] below [2^63] only. *)
Lemma toString_small z : 0 ≤ z < 2 ^ 63 → toString z = to_string z.
Proof.
  intros Hz. unfold toString, i64_of_u64. rewrite decide_True by lia.
  unfold to_string_signed. by rewrite decide_False by lia.
Qed.
