(* ===== verification/Transform.v ===== *)
(** * Transform: the string helpers of [ci/utils/transform.h]

    [trim], [explode] and [implode], on [std::string]s.  [explode] is a loop
    over [std::string::find] with a countdown; it is given fuel, and [None] is
    a loop that has not ended when the fuel is spent: an empty delimiter is
    found for ever. *)
From Stdlib Require Import Ascii String.
From stdpp Require Import options.
From S2P Require Import Prelude.

(** [std::string::find(needle, pos)]; [None] is [npos]. *)
Fixpoint starts_with (needle s : bytes) : bool :=
  match needle, s with
  | [], _ => true
  | _ :: _, [] => false
  | n :: needle, c :: s => bool_decide (n = c) && starts_with needle s
  end.

Fixpoint find_from (needle s : bytes) : option nat :=
  if starts_with needle s then Some 0
  else match s with [] => None | _ :: s => S <$> find_from needle s end.

Definition string_find (s needle : bytes) (pos : nat) : option nat :=
  if decide (pos ≤ length s) then Nat.add pos <$> find_from needle (drop pos s) else None.

(** [trim(std::string&)] *)
Fixpoint trim_front (s : bytes) : bytes :=
  match s with [] => [] | c :: t => if isspace c then trim_front t else s end.

Definition trim (s : bytes) : bytes := reverse (trim_front (reverse (trim_front s))).

(** [trim(std::vector<std::string>&&)] *)
Definition trim_all (l : list bytes) : list bytes := trim <$> l.

(** [explode(delimiter, string, limit)] *)
Fixpoint explode_loop (fuel : nat) (delimiter s : bytes) (limit : Z) (start : nat) (end_ : option nat)
    (acc : list bytes) : option (list bytes) :=
  match fuel with
  | O => None
  | S fuel =>
      let limit := (limit - 1)%Z in
      match (if decide (limit ≠ 0%Z) then end_ else None) with
      | Some e =>
          let start' := e + length delimiter in
          explode_loop fuel delimiter s limit start' (string_find s delimiter start') (acc ++ [slice s start e])
      | None => Some (acc ++ [slice s start (length s)])
      end
  end.

Definition explode (delimiter s : bytes) (limit : Z) : option (list bytes) :=
  if decide (s = []) then Some []
  else explode_loop (S (length s)) delimiter s limit 0 (string_find s delimiter 0) [].

(** [implode(glue, pieces)]: [--i] on an empty vector wraps around, and the
    loop reads past the end. *)
Fixpoint implode_loop (n : nat) (glue : bytes) (it : list bytes) (result : bytes) : outcome bytes :=
  match n, it with
  | O, p :: _ => Ret (result ++ p)
  | S n, p :: it => implode_loop n glue it (result ++ p ++ glue)
  | _, [] => Undef
  end.

Definition implode (glue : bytes) (pieces : list bytes) : outcome bytes :=
  match pieces with [] => Undef | _ => implode_loop (length pieces - 1) glue pieces [] end.

(** ** Lemmas *)

Lemma starts_with_spec needle s : starts_with needle s = true ↔ ∃ t, s = needle ++ t.
Proof.
  revert s. induction needle as [|n needle IH]; intros s; simpl; [split; eauto|].
  destruct s as [|c s]; [by split; [|intros [t Ht]]|].
  rewrite andb_true_iff, bool_decide_eq_true, IH. split.
  - intros [-> [t ->]]. eauto.
  - intros [t [= -> ->]]. eauto.
Qed.

Lemma find_from_spec needle s i :
  find_from needle s = Some i → ∃ a b, s = a ++ needle ++ b ∧ length a = i.
Proof.
  revert i. induction s as [|c s IH]; intros i; simpl.
  - destruct (starts_with needle []) eqn:Hs; [|done]. intros [= <-].
    apply starts_with_spec in Hs as [t Ht]. exists [], t. done.
  - destruct (starts_with needle (c :: s)) eqn:Hs.
    + intros [= <-]. apply starts_with_spec in Hs as [t Ht]. exists [], t. done.
    + intros (j & Hj & ->)%fmap_Some. destruct (IH j Hj) as (a & b & -> & <-).
      exists (c :: a), b. done.
Qed.

Lemma string_find_spec s needle pos e :
  string_find s needle pos = Some e →
  pos ≤ e ∧ e + length needle ≤ length s ∧ slice s e (e + length needle) = needle.
Proof.
  unfold string_find. case_decide as Hp; [|done]. intros (i & Hi & ->)%fmap_Some.
  apply find_from_spec in Hi as (a & b & Hd & <-).
  assert (Hl : length (drop pos s) = length a + (length needle + length b)) by by rewrite Hd, !length_app.
  rewrite length_drop in Hl. split_and!; [lia..|].
  unfold slice. replace (pos + length a + length needle - (pos + length a)) with (length needle) by lia.
  by rewrite <- drop_drop, Hd, drop_app_length, take_app_length.
Qed.

(** The text that [implode] builds. *)
Fixpoint join (glue : bytes) (pieces : list bytes) : bytes :=
  match pieces with
  | [] => []
  | [p] => p
  | p :: ps => p ++ glue ++ join glue ps
  end.

Lemma join_cons glue p ps : ps ≠ [] → join glue (p :: ps) = p ++ glue ++ join glue ps.
Proof. by destruct ps. Qed.

Lemma implode_spec glue pieces : pieces ≠ [] → implode glue pieces = Ret (join glue pieces).
Proof.
  intros Hne. unfold implode.
  assert (H : ∀ it result, it ≠ [] → implode_loop (length it - 1) glue it result = Ret (result ++ join glue it)).
  { induction it as [|p it IH]; intros result Hit; [done|]. destruct it as [|q it]; [done|].
    replace (length (p :: q :: it) - 1) with (S (length (q :: it) - 1)) by (simpl; lia). cbn [implode_loop].
    rewrite (join_cons glue p (q :: it)), IH by discriminate. by rewrite <- !app_assoc. }
  destruct pieces as [|p ps]; [done|]. rewrite H by done. done.
Qed.

Lemma join_app glue a b : a ≠ [] → b ≠ [] → join glue (a ++ b) = join glue a ++ glue ++ join glue b.
Proof.
  intros Ha Hb. induction a as [|p a IH]; [done|]. destruct a as [|q a].
  - simpl. by destruct b.
  - change ((p :: q :: a) ++ b) with (p :: ((q :: a) ++ b)).
    rewrite !join_cons by (try done; by intros ?%app_nil). rewrite IH by done. by rewrite <- !app_assoc.
Qed.

Lemma slice_split s i j k : i ≤ j ≤ k → k ≤ length s → slice s i j ++ slice s j k = slice s i k.
Proof.
  intros Hij Hk. rewrite <- (take_drop (j - i) (slice s i k)).
  rewrite <- (slice_prefix s i k (j - i)) by lia. rewrite <- slice_drop.
  by replace (i + (j - i)) with j by lia.
Qed.

(** The loop ends when each delimiter takes at least a character, and the
    pieces, joined again, are the text it has gone through. *)
Lemma explode_loop_spec fuel delimiter s limit start acc :
  delimiter ≠ [] → start ≤ length s → length s - start < fuel →
  ∃ parts, parts ≠ [] ∧
    explode_loop fuel delimiter s limit start (string_find s delimiter start) acc = Some (acc ++ parts) ∧
    join delimiter parts = slice s start (length s).
Proof.
  intros Hd. revert limit start acc. induction fuel as [|fuel IH]; intros limit start acc Hs Hf; [lia|].
  cbn [explode_loop]. destruct (if decide _ then _ else _) as [e|] eqn:He.
  2: { eexists [_]. split; [done|]. by split. }
  case_decide; [|done]. apply string_find_spec in He as (Hse & Hes & Hsl).
  assert (Hpos : 0 < length delimiter) by (destruct delimiter; simpl; [done|lia]).
  destruct (IH (limit - 1)%Z (e + length delimiter) (acc ++ [slice s start e])) as (parts & Hne & Hrun & Hj); [lia..|].
  exists (slice s start e :: parts). split; [done|]. split; [by rewrite Hrun, <- app_assoc|].
  rewrite join_cons by done. rewrite Hj, <- Hsl at 1.
  rewrite !slice_split by lia. done.
Qed.



(** ** Splitting at a character that the pieces do not contain *)

Lemma find_from_char d p rest : d ∉ p → find_from [d] (p ++ d :: rest) = Some (length p).
Proof.
  induction p as [|c p IH]; intros Hd; simpl.
  - by rewrite bool_decide_eq_true_2.
  - apply not_elem_of_cons in Hd as [Hc Hd]. rewrite bool_decide_eq_false_2 by done. simpl. by rewrite IH.
Qed.

Lemma find_from_none d p : d ∉ p → find_from [d] p = None.
Proof.
  induction p as [|c p IH]; intros Hd; simpl; [done|].
  apply not_elem_of_cons in Hd as [Hc Hd]. rewrite bool_decide_eq_false_2 by done. simpl. by rewrite IH.
Qed.

Lemma explode_loop_join d parts : ∀ fuel pre limit acc,
  parts ≠ [] → Forall (λ p, d ∉ p) parts → (limit < 0)%Z → length (join [d] parts) < fuel →
  let s := pre ++ join [d] parts in
  explode_loop fuel [d] s limit (length pre) (string_find s [d] (length pre)) acc = Some (acc ++ parts).
Proof.
  induction parts as [|p parts IH]; intros fuel pre limit acc Hne Hall Hlim Hf s; [done|].
  apply Forall_cons in Hall as [Hp Hall]. destruct fuel as [|fuel]; [lia|]. cbn [explode_loop].
  rewrite decide_True by lia.
  assert (Hle : length pre ≤ length s) by (unfold s; rewrite length_app; lia).
  unfold string_find at 1. rewrite (decide_True (P := _ ≤ _)) by done. unfold s at 1. rewrite drop_app_length.
  destruct parts as [|q parts].
  - cbn [join]. rewrite find_from_none by done. cbn [fmap option_fmap option_map].
    do 2 f_equal. unfold slice, s. cbn [join]. rewrite drop_app_length.
    rewrite length_app. replace (length pre + length p - length pre) with (length p) by lia. by rewrite firstn_all.
  - rewrite join_cons in * by done. cbn [app]. rewrite find_from_char by done. cbn [fmap option_fmap option_map].
    assert (Hs : s = (pre ++ p ++ [d]) ++ join [d] (q :: parts)).
    { unfold s. rewrite join_cons by done. by rewrite <- !app_assoc. }
    assert (Hl : length pre + length p + length [d] = length (pre ++ p ++ [d])) by (rewrite !length_app; simpl; lia).
    rewrite Hl, Hs. rewrite IH; [|done..|lia|rewrite !length_app in Hf; cbn [length] in Hf; lia].
    rewrite <- app_assoc. do 3 f_equal. cbn [app]. f_equal.
    unfold slice. rewrite <- !app_assoc, drop_app_length.
    replace (length pre + length p - length pre) with (length p) by lia. by rewrite take_app_length.
Qed.

(** Exploding a joined text gives the pieces. *)
Lemma explode_join d parts :
  parts ≠ [] → Forall (λ p, d ∉ p) parts → join [d] parts ≠ [] → explode [d] (join [d] parts) (-1) = Some parts.
Proof.
  intros Hne Hall Hj. unfold explode. rewrite decide_False by done.
  exact (explode_loop_join d parts (S (length (join [d] parts))) [] (-1) [] Hne Hall ltac:(lia) ltac:(lia)).
Qed.

(** ** Trimming *)

Lemma trim_front_spec s :
  ∃ a, s = a ++ trim_front s ∧ Forall (λ c, isspace c = true) a ∧
    match trim_front s with [] => True | c :: _ => isspace c = false end.
Proof.
  induction s as [|c s IH]; [by exists []|]. simpl. destruct (isspace c) eqn:Hc.
  - destruct IH as (a & Hs & Ha & Hh). exists (c :: a). split; [by rewrite Hs at 1|]. split; [by constructor|done].
  - exists []. by split_and!.
Qed.

(** [trim] removes the blanks at both ends and nothing else: the text is a
    run of blanks, the result, and a run of blanks, and the result neither
    begins nor ends with one. *)
Theorem trim_spec (s : bytes) :
  ∃ a b, s = a ++ trim s ++ b ∧
    Forall (λ c, isspace c = true) a ∧ Forall (λ c, isspace c = true) b ∧
    (∀ c t, trim s = c :: t → isspace c = false) ∧ (∀ c t, trim s = t ++ [c] → isspace c = false).
Proof.
  destruct (trim_front_spec s) as (a & Hs & Ha & Hh).
  destruct (trim_front_spec (reverse (trim_front s))) as (b & Hr & Hb & Hh').
  fold (trim s) in *. set (u := trim_front (reverse (trim_front s))) in *.
  assert (Hu : trim_front s = reverse u ++ reverse b).
  { apply (f_equal reverse) in Hr. by rewrite reverse_involutive, reverse_app in Hr. }
  exists a, (reverse b). unfold trim. fold u. split_and!.
  - by rewrite <- Hu, <- Hs.
  - done.
  - by apply Forall_reverse.
  - intros c t Hc. rewrite Hu, Hc in Hh. done.
  - intros c t Hc. apply (f_equal reverse) in Hc. rewrite reverse_involutive, reverse_snoc in Hc.
    by rewrite Hc in Hh'.
Qed.

Lemma trim_id s : Forall (λ c, isspace c = false) s → trim s = s.
Proof.
  intros Hs.
  assert (Hf : ∀ l, Forall (λ c, isspace c = false) l → trim_front l = l).
  { intros [|c l]; [done|]. intros [Hc _]%Forall_cons. simpl. by rewrite Hc. }
  unfold trim. rewrite (Hf s) by done. rewrite Hf by by apply Forall_reverse. apply reverse_involutive.
Qed.
