(* ===== verification/Regex.v ===== *)
(** * Regex: the part of [std::regex] the program uses

    ECMAScript regular expressions as backtracking matchers, the way the C++
    standard defines [std::regex_search]: at each start from the left, the
    alternatives in order, greedy or lazy repetition, captures, back
    references and the two anchors.  The program applies them to option values
    ([ci/utils/option.h]), to addresses ([kernel/main/init-channels.hpp],
    [mq/mq-sync/src/sync-sapi.cpp]) and to configuration lines
    ([kernel/main/config.cpp]). *)
From Stdlib Require Import Ascii String.
From stdpp Require Import options.
From S2P Require Import Prelude.

Inductive regex :=
  | REmpty
  | RChar (p : ascii → bool)
  | RSeq (r1 r2 : regex)
  | RAlt (r1 r2 : regex)
  | RStar (greedy : bool) (r : regex)
  | RGroup (n : nat) (r : regex)
  | RBack (n : nat)
  | RBegin
  | REnd.

Definition ROpt (r : regex) : regex := RAlt r REmpty.
Definition RPlus (greedy : bool) (r : regex) : regex := RSeq r (RStar greedy r).
Definition RLit (c : ascii) : regex := RChar (λ d, bool_decide (d = c)).
Fixpoint RText (t : bytes) : regex :=
  match t with [] => REmpty | [c] => RLit c | c :: t => RSeq (RLit c) (RText t) end.

(** The classes [\s], [\d], [\w] and [.]. *)
Definition is_word (c : ascii) : bool :=
  isdigit c || bool_decide (c = "_"%char)
  || (bool_decide (65 ≤ u8 c)%Z && bool_decide (u8 c ≤ 90)%Z) || (bool_decide (97 ≤ u8 c)%Z && bool_decide (u8 c ≤ 122)%Z).
Definition not_newline (c : ascii) : bool := bool_decide (c ≠ LF) && bool_decide (c ≠ CR).

(** The sub-matches: begin and end of each group that matched. *)
Abbreviation captures := (gmap nat (nat * nat)).

Section matcher.
Context (s : bytes).

(** A repetition, given the matcher of its body; an iteration must advance, so
    that there are at most as many as characters left. *)
Fixpoint star_loop (body : nat → captures → (nat → captures → option (nat * captures)) → option (nat * captures))
    (greedy : bool) (n i : nat) (c : captures) (k : nat → captures → option (nat * captures)) : option (nat * captures) :=
  match n with
  | O => k i c
  | S n =>
      let again := body i c (λ j c', if decide (i < j) then star_loop body greedy n j c' k else None) in
      if greedy then match again with Some x => Some x | None => k i c end
      else match k i c with Some x => Some x | None => again end
  end.

(** [regex_match r i c k]: the first way to match [r] at position [i] after
    which the continuation [k] succeeds. *)
Fixpoint regex_match (r : regex) (i : nat) (c : captures) (k : nat → captures → option (nat * captures))
    : option (nat * captures) :=
  match r with
  | REmpty => k i c
  | RChar p => match s !! i with Some d => if p d then k (S i) c else None | None => None end
  | RSeq r1 r2 => regex_match r1 i c (λ j c', regex_match r2 j c' k)
  | RAlt r1 r2 => match regex_match r1 i c k with Some x => Some x | None => regex_match r2 i c k end
  | RStar greedy r => star_loop (regex_match r) greedy (S (length s - i)) i c k
  | RGroup n r => regex_match r i c (λ j c', k j (<[n := (i, j)]> c'))
  | RBack n =>
      match c !! n with
      | Some (a, b) =>
          let t := slice s a b in
          if decide (slice s i (i + length t) = t) then k (i + length t) c else None
      | None => k i c
      end
  | RBegin => if decide (i = 0) then k i c else None
  | REnd => if decide (i = length s) then k i c else None
  end.

(** One attempt at a start. *)
Definition regex_at (r : regex) (i : nat) : option (nat * captures) := regex_match r i ∅ (λ j c, Some (j, c)).

(** [std::regex_search]: begin, end and captures of the leftmost match. *)
Fixpoint search_from (r : regex) (n i : nat) : option (nat * nat * captures) :=
  match regex_at r i with
  | Some (j, c) => Some (i, j, c)
  | None => match n with O => None | S n => search_from r n (S i) end
  end.

Definition regex_search (r : regex) : option (nat * nat * captures) := search_from r (length s) 0.

(** [match.str(n)]: empty for a group that did not match. *)
Definition match_str (c : captures) (n : nat) : bytes :=
  match c !! n with Some (a, b) => slice s a b | None => [] end.
End matcher.

(** The matches [std::regex_iterator] enumerates: after an empty match it first
    tries a match that is not empty at the same place ([match_not_null] with
    [match_continuous]), and otherwise searches one character further. *)
Definition regex_at_not_null (s : bytes) (r : regex) (i : nat) : option (nat * captures) :=
  regex_match s r i ∅ (λ j c, if decide (i < j) then Some (j, c) else None).

Definition next_match (s : bytes) (r : regex) (after_empty : bool) (i : nat) : option (nat * nat * captures) :=
  if after_empty then
    match regex_at_not_null s r i with
    | Some (j, c) => Some (i, j, c)
    | None => if decide (i < length s) then search_from s r (length s - S i) (S i) else None
    end
  else search_from s r (length s - i) i.

(** [std::regex_replace(s, r, fmt)]: every match is replaced by what [fmt] says
    of it and the text between the matches is kept. *)
Fixpoint replace_loop (fuel : nat) (s : bytes) (r : regex) (fmt : captures → bytes) (after_empty : bool) (i : nat) : bytes :=
  match fuel with
  | O => drop i s
  | S fuel =>
      match next_match s r after_empty i with
      | None => drop i s
      | Some (a, b, c) => slice s i a ++ fmt c ++ replace_loop fuel s r fmt (bool_decide (a = b)) b
      end
  end.

Definition regex_replace (s : bytes) (r : regex) (fmt : captures → bytes) : bytes :=
  replace_loop (2 * S (length s)) s r fmt false 0.

(** ** Lemmas *)

(** A position inside a text whose two parts are known. *)
Lemma lookup_at (pre : bytes) c rest : (pre ++ c :: rest) !! length pre = Some c.
Proof. by rewrite list_lookup_middle. Qed.

Lemma lookup_at_end (pre : bytes) : pre !! length pre = None.
Proof. by apply lookup_ge_None_2. Qed.

(** The equations of the combinators. *)
Lemma regex_seq s r1 r2 i c k : regex_match s (RSeq r1 r2) i c k = regex_match s r1 i c (λ j c', regex_match s r2 j c' k).
Proof. done. Qed.

Lemma regex_group s n r i c k : regex_match s (RGroup n r) i c k = regex_match s r i c (λ j c', k j (<[n := (i, j)]> c')).
Proof. done. Qed.

Lemma regex_opt s r i c k :
  regex_match s (ROpt r) i c k = match regex_match s r i c k with Some x => Some x | None => k i c end.
Proof. done. Qed.

Lemma regex_char s p i c k :
  regex_match s (RChar p) i c k = match s !! i with Some e => if p e then k (S i) c else None | None => None end.
Proof. done. Qed.

Lemma regex_lit s d i c k :
  regex_match s (RLit d) i c k = match s !! i with Some e => if bool_decide (e = d) then k (S i) c else None | None => None end.
Proof. done. Qed.

(** A greedy repetition of a class takes the whole run of the class when the
    rest of the expression then matches. *)
Lemma star_class_run p pre run rest c k x :
  Forall (λ d, p d = true) run →
  match rest with d :: _ => p d = false | [] => True end →
  let s := pre ++ run ++ rest in
  k (length (pre ++ run)) c = Some x →
  regex_match s (RStar true (RChar p)) (length pre) c k = Some x.
Proof.
  intros Hrun Hrest s Hk. set (body := regex_match s (RChar p)).
  assert (Hbody : ∀ i c k, body i c k = match s !! i with Some d => if p d then k (S i) c else None | None => None end) by done.
  change (star_loop body true (S (length s - length pre)) (length pre) c k = Some x).
  assert (Hgen : ∀ run' pre' n, s = pre' ++ run' ++ rest → pre' ++ run' = pre ++ run → length run' < n →
    Forall (λ d, p d = true) run' → star_loop body true n (length pre') c k = Some x).
  { intros run'. induction run' as [|d run' IH]; intros pre' n Hs Heq Hn Hall; (destruct n as [|n]; [simpl in Hn; lia|]);
      cbn [star_loop]; rewrite Hbody.
    - rewrite app_nil_r in Heq. subst pre'. rewrite Hk. rewrite Hs. cbn [app].
      destruct rest as [|d rest]; [by rewrite app_nil_r, lookup_at_end|]. by rewrite lookup_at, Hrest.
    - apply Forall_cons in Hall as [Hd Hall].
      assert (Hlook : s !! length pre' = Some d) by (rewrite Hs; apply lookup_at).
      rewrite Hlook, Hd, decide_True by lia.
      assert (Hl : S (length pre') = length (pre' ++ [d])) by (rewrite length_app; simpl; lia).
      rewrite Hl, IH; [done|by rewrite Hs, <- app_assoc|by rewrite <- Heq, <- app_assoc|simpl in Hn; lia|done]. }
  apply (Hgen run pre); [done|done| |done]. unfold s. rewrite !length_app. lia.
Qed.

(** One or more characters of a class. *)
Lemma plus_class_run p pre run rest c k x :
  run ≠ [] → Forall (λ d, p d = true) run →
  match rest with d :: _ => p d = false | [] => True end →
  let s := pre ++ run ++ rest in
  k (length (pre ++ run)) c = Some x →
  regex_match s (RPlus true (RChar p)) (length pre) c k = Some x.
Proof.
  intros Hne Hrun Hrest s Hk. destruct run as [|d run]; [done|]. apply Forall_cons in Hrun as [Hd Hrun].
  unfold RPlus. cbn [regex_match]. unfold s at 1. cbn [app]. rewrite lookup_at, Hd.
  assert (Hs : s = (pre ++ [d]) ++ run ++ rest) by (unfold s; by rewrite <- app_assoc).
  assert (Hl : S (length pre) = length (pre ++ [d])) by (rewrite length_app; simpl; lia).
  rewrite Hl, Hs. apply star_class_run; [done|done|]. rewrite <- app_assoc. exact Hk.
Qed.

Lemma slice_middle (pre run rest : bytes) : slice (pre ++ run ++ rest) (length pre) (length (pre ++ run)) = run.
Proof.
  unfold slice. rewrite drop_app_length, length_app.
  replace (length pre + length run - length pre) with (length run) by lia. apply take_app_length.
Qed.

(** A class that does not accept the next character. *)
Lemma plus_class_none p s i c k :
  match s !! i with Some d => p d = false | None => True end → regex_match s (RPlus true (RChar p)) i c k = None.
Proof. unfold RPlus. cbn [regex_match]. destruct (s !! i); [by intros ->|done]. Qed.

Lemma star_class_none p s i c k :
  match s !! i with Some d => p d = false | None => True end →
  regex_match s (RStar true (RChar p)) i c k = k i c.
Proof.
  intros Hp. cbn [regex_match star_loop]. destruct (s !! i); [rewrite Hp|]; by destruct (k i c).
Qed.

(** A repetition of a class none of whose ends suits the rest. *)
Lemma star_class_fails g p s i c k :
  (∀ j, i ≤ j → k j c = None) → regex_match s (RStar g (RChar p)) i c k = None.
Proof.
  intros Hk. change (star_loop (regex_match s (RChar p)) g (S (length s - i)) i c k = None).
  generalize (S (length s - i)) as n. intros n. revert i Hk.
  induction n as [|n IH]; intros i Hk; cbn [star_loop regex_match]; [by apply Hk|].
  assert (Hi : match s !! i with
     | Some d => if p d then (if decide (i < S i) then star_loop (regex_match s (RChar p)) g n (S i) c k else None) else None
     | None => None end = None).
  { destruct (s !! i) as [d|]; [|done]. destruct (p d); [|done]. case_decide; [|done]. apply IH. intros j Hj. apply Hk. lia. }
  cbn [regex_match] in Hi. rewrite Hi, Hk by lia. by destruct g.
Qed.

(** The same when the run of the class is known: only its ends count. *)
Lemma star_class_run_fails g p pre run rest c k :
  match rest with d :: _ => p d = false | [] => True end →
  let s := pre ++ run ++ rest in
  (∀ j, length pre ≤ j ≤ length (pre ++ run) → k j c = None) →
  regex_match s (RStar g (RChar p)) (length pre) c k = None.
Proof.
  intros Hrest s Hk.
  change (star_loop (regex_match s (RChar p)) g (S (length s - length pre)) (length pre) c k = None).
  assert (Hgen : ∀ n i, length pre ≤ i ≤ length (pre ++ run) → star_loop (regex_match s (RChar p)) g n i c k = None).
  { induction n as [|n IH]; intros i Hi; cbn [star_loop regex_match]; [by apply Hk|].
    rewrite (Hk i) by lia.
    assert (Hi' : match s !! i with
       | Some d => if p d then (if decide (i < S i) then star_loop (regex_match s (RChar p)) g n (S i) c k else None) else None
       | None => None end = None).
    { destruct (decide (i = length (pre ++ run))) as [->|Hne].
      - unfold s. rewrite (app_assoc pre run rest). destruct rest as [|d rest]; [by rewrite app_nil_r, lookup_at_end|].
        by rewrite lookup_at, Hrest.
      - destruct (s !! i) as [d|]; [|done]. destruct (p d); [|done]. case_decide; [|done]. apply IH. lia. }
    cbn [regex_match] in Hi'. rewrite Hi'. by destruct g. }
  apply Hgen. rewrite length_app. lia.
Qed.

Lemma plus_class_run_fails g p pre run rest c k :
  run ≠ [] → match rest with d :: _ => p d = false | [] => True end →
  let s := pre ++ run ++ rest in
  (∀ j, length pre ≤ j ≤ length (pre ++ run) → k j c = None) →
  regex_match s (RPlus g (RChar p)) (length pre) c k = None.
Proof.
  intros Hne Hrest s Hk. destruct run as [|d run]; [done|]. unfold RPlus. rewrite regex_seq. cbn [regex_match].
  destruct (s !! length pre) as [e|]; [|done]. destruct (p e); [|done].
  assert (Hs : s = (pre ++ [d]) ++ run ++ rest) by (unfold s; by rewrite <- app_assoc).
  assert (Hl : S (length pre) = length (pre ++ [d])) by (rewrite length_app; simpl; lia).
  rewrite Hl, Hs. apply star_class_run_fails; [done|]. intros j Hj. apply Hk.
  rewrite !length_app in *. simpl in *. lia.
Qed.

(** A search that no start satisfies. *)
Lemma search_from_none s r n i : (∀ j, i ≤ j → regex_at s r j = None) → search_from s r n i = None.
Proof.
  revert i. induction n as [|n IH]; intros i H; cbn [search_from]; rewrite H by lia; [done|].
  apply IH. intros j Hj. apply H. lia.
Qed.

Lemma search_at_start s r x c : regex_at s r 0 = Some (x, c) → regex_search s r = Some (0, x, c).
Proof. unfold regex_search. intros H. destruct (length s); cbn [search_from]; by rewrite H. Qed.

(** A repetition cannot pass a character that is not of its class. *)
Lemma star_class_barrier g p s i b d c k :
  s !! b = Some d → p d = false → i ≤ b → (∀ j, i ≤ j ≤ b → k j c = None) →
  regex_match s (RStar g (RChar p)) i c k = None.
Proof.
  intros Hb Hd Hib Hk. change (star_loop (regex_match s (RChar p)) g (S (length s - i)) i c k = None).
  generalize (S (length s - i)) as n. intros n. revert i Hib Hk.
  induction n as [|n IH]; intros i Hib Hk; cbn [star_loop regex_match]; [by apply Hk|].
  assert (Hi : match s !! i with
     | Some d => if p d then (if decide (i < S i) then star_loop (regex_match s (RChar p)) g n (S i) c k else None) else None
     | None => None end = None).
  { destruct (decide (i = b)) as [->|]; [by rewrite Hb, Hd|].
    destruct (s !! i) as [e|]; [|done]. destruct (p e); [|done]. case_decide; [|done].
    apply IH; [lia|]. intros j Hj. apply Hk. lia. }
  cbn [regex_match] in Hi. rewrite Hi, Hk by lia. by destruct g.
Qed.

(** A lazy repetition stops at the first end that suits the rest. *)
Lemma star_lazy_run p pre run rest c k x :
  Forall (λ d, p d = true) run →
  let s := pre ++ run ++ rest in
  (∀ j, length pre ≤ j < length (pre ++ run) → k j c = None) →
  k (length (pre ++ run)) c = Some x →
  regex_match s (RStar false (RChar p)) (length pre) c k = Some x.
Proof.
  intros Hrun s Hnone Hk.
  change (star_loop (regex_match s (RChar p)) false (S (length s - length pre)) (length pre) c k = Some x).
  assert (Hgen : ∀ run' pre' n, s = pre' ++ run' ++ rest → pre' ++ run' = pre ++ run → length pre ≤ length pre' → length run' < n →
    Forall (λ d, p d = true) run' → star_loop (regex_match s (RChar p)) false n (length pre') c k = Some x).
  { intros run'. induction run' as [|d run' IH]; intros pre' n Hs Heq Hle Hn Hall; (destruct n as [|n]; [simpl in Hn; lia|]);
      cbn [star_loop regex_match].
    - rewrite app_nil_r in Heq. subst pre'. by rewrite Hk.
    - apply Forall_cons in Hall as [Hd Hall]. rewrite Hnone; [|rewrite <- Heq, length_app; simpl; lia].
      assert (Hlook : s !! length pre' = Some d) by (rewrite Hs; apply lookup_at).
      rewrite Hlook, Hd, decide_True by lia.
      assert (Hl : S (length pre') = length (pre' ++ [d])) by (rewrite length_app; simpl; lia).
      rewrite Hl. apply IH; [by rewrite Hs, <- app_assoc|by rewrite <- Heq, <- app_assoc|rewrite length_app; lia|simpl in Hn; lia|done]. }
  apply (Hgen run pre); [done|done|lia| |done]. unfold s. rewrite !length_app. lia.
Qed.

(** An expression that begins with [^] is tried at the start only. *)
Lemma regex_begin s r k c i : regex_match s (RSeq RBegin r) i c k = if decide (i = 0) then regex_match s r i c k else None.
Proof. done. Qed.

Lemma search_begin_none s r : regex_at s r 0 = None → regex_search s (RSeq RBegin r) = None.
Proof.
  intros H. apply search_from_none. intros j _. unfold regex_at. rewrite regex_begin. by case_decide as Hj; [subst|].
Qed.

Lemma search_begin s r x c : regex_at s r 0 = Some (x, c) → regex_search s (RSeq RBegin r) = Some (0, x, c).
Proof. intros H. by apply search_at_start. Qed.

(** Nothing to replace. *)
Lemma regex_replace_none s r fmt : (∀ i, regex_at s r i = None) → regex_replace s r fmt = s.
Proof.
  intros H. unfold regex_replace. cbn [Nat.mul Nat.add replace_loop]. unfold next_match.
  by rewrite search_from_none by auto.
Qed.

(** ** Sub-matches *)
Lemma match_str_insert s c g a b : match_str s (<[g := (a, b)]> c) g = slice s a b.
Proof. unfold match_str. by rewrite lookup_insert_eq. Qed.

Lemma match_str_insert_ne s c g g' ab : g ≠ g' → match_str s (<[g := ab]> c) g' = match_str s c g'.
Proof. intros H. unfold match_str. by rewrite lookup_insert_ne. Qed.

Lemma match_str_at pre run rest s c g a b :
  s = pre ++ run ++ rest → c !! g = Some (a, b) → a = length pre → b = length pre + length run → match_str s c g = run.
Proof. intros -> Hc -> ->. unfold match_str. rewrite Hc, <- length_app. apply slice_middle. Qed.
