(* ===== verification/OptionParse.v ===== *)
(** * OptionParse: the option parsers of [ci/utils/option.h]

    [get_value]; [get_bytes], sizes such as ["64K"]; [time_period], durations
    such as ["1h 30m"]; and [expand], the parser of lists of numbers and ranges
    such as ["2,3-8"] that the thread pool uses for its core bindings
    ([expand<size_t, CvtStringToInt>]). *)
From Stdlib Require Import Ascii String.
From stdpp Require Import options.
From S2P Require Import Prelude Numerals Transform Regex.

Open Scope Z_scope.

(** [get_value] *)
Definition get_value (options_ : gmap bytes bytes) (option_ def_value : bytes) : bytes :=
  match options_ !! option_ with Some v => v | None => def_value end.

(** [std::regex re(R"(\s*(\d+)\s*(G|M|K|B)?)")] *)
Definition re_bytes : regex :=
  RSeq (RStar true (RChar isspace)) (RSeq (RGroup 1 (RPlus true (RChar isdigit)))
    (RSeq (RStar true (RChar isspace))
      (ROpt (RGroup 2 (RAlt (RLit "G"%char) (RAlt (RLit "M"%char) (RAlt (RLit "K"%char) (RLit "B"%char)))))))).

Definition unit_shift (units : bytes) : Z :=
  if decide (units = str "G") then 30 else if decide (units = str "M") then 20 else if decide (units = str "K") then 10 else 0.

(** [get_bytes(value, def_value)] *)
Definition get_bytes (value : bytes) (def_value : Z) : outcome Z :=
  if decide (value = []) then Ret def_value
  else match regex_search value re_bytes with
  | Some (_, _, m) => n ← stoul (match_str value m 1); Ret (u64 (Z.shiftl n (unit_shift (match_str value m 2))))
  | None => Ret def_value
  end.

Definition get_bytes_option (options_ : gmap bytes bytes) (option_ : bytes) (def_value : Z) : outcome Z :=
  get_bytes (get_value options_ option_ []) def_value.

(** [(?:\s*(\d+)\s*u)] *)
Definition re_amount (n : nat) (u : ascii) : regex :=
  RSeq (RStar true (RChar isspace)) (RSeq (RGroup n (RPlus true (RChar isdigit)))
    (RSeq (RStar true (RChar isspace)) (RLit u))).

Definition re_period : regex :=
  RSeq (ROpt (re_amount 1 "h"%char)) (RSeq (ROpt (re_amount 2 "m"%char)) (ROpt (re_amount 3 "s"%char))).

(** Arithmetic on [long]: overflow is undefined. *)
Definition long (z : Z) : outcome Z := if in_i64b z then Ret z else Undef.

Definition amount (text : bytes) (factor : Z) : outcome Z :=
  if decide (text = []) then Ret 0 else v ← stol text; long (v * factor).

(** [time_period(value)] *)
Definition time_period (value : bytes) : outcome Z :=
  if decide (value = []) then Ret 0
  else match regex_search value re_period with
  | Some (_, _, c) =>
      h ← amount (match_str value c 1) 3600;
      m ← amount (match_str value c 2) 60;
      s ← amount (match_str value c 3) 1;
      hm ← long (h + m);
      hms ← long (hm + s);
      Ret (u64 hms)
  | None => Ret 0
  end.

Example get_bytes_examples :
  get_bytes (str "64K") 7 = Ret 65536 ∧ get_bytes (str " 2 G") 7 = Ret 2147483648 ∧
  get_bytes (str "100") 7 = Ret 100 ∧ get_bytes (str "max") 7 = Ret 7 ∧ get_bytes [] 7 = Ret 7 ∧
  get_bytes (str "x5Ky") 7 = Ret 5120.
Proof. split_and!; vm_compute; reflexivity. Qed.

Example time_period_examples :
  time_period (str "1h 30m 5s") = Ret 5405 ∧ time_period (str "0s") = Ret 0 ∧
  time_period (str "90 s") = Ret 90 ∧ time_period (str "90") = Ret 0 ∧ time_period (str "~5s") = Ret 0 ∧
  time_period (str "9999999999999999h") = Undef ∧
  time_period (str "99999999999999999999s") = Throw (StdException (str "stol")).
Proof. split_and!; vm_compute; reflexivity. Qed.

(** [CvtStringToInt] *)
Definition CvtStringToInt (from : bytes) : outcome Z := stoul from.

(** [for (f; f != t; ++f) result.emplace(f)]: [++] wraps around, so that the
    loop runs [t - f] times modulo [2^64]. *)
Fixpoint range_loop (n : nat) (f : Z) (result : gset Z) : gset Z :=
  match n with
  | O => result
  | S n => range_loop n (u64 (f + 1)) ({[f]} ∪ result)
  end.

Definition range_steps (f t : Z) : nat := Z.to_nat (u64 (t - f)).

(** One element of the chain. *)
Definition expand_part (r : list bytes) (result : gset Z) : outcome (gset Z) :=
  match r with
  | [a] => v ← CvtStringToInt a; Ret ({[v]} ∪ result)
  | [a; b] =>
      t ← CvtStringToInt (if decide (b = []) then a else b);
      f ← CvtStringToInt a;
      Ret ({[t]} ∪ range_loop (range_steps f t) f result)
  | _ => Ret result
  end.

Fixpoint expand_chain (sep_range : bytes) (chain : list bytes) (result : gset Z) : outcome (gset Z) :=
  match chain with
  | [] => Ret result
  | p :: chain =>
      r ← or_undef (explode sep_range p (-1));
      result ← expand_part (trim_all r) result;
      expand_chain sep_range chain result
  end.

(** [expand(range, sep_chain, sep_range)] *)
Definition expand (range sep_chain sep_range : bytes) : outcome (gset Z) :=
  if decide (range = []) then Ret ∅
  else chain ← or_undef (explode sep_chain range (-1)); expand_chain sep_range (trim_all chain) ∅.

Definition expand_default (range : bytes) : outcome (gset Z) := expand range (str ",") (str "-").

Example expand_examples :
  expand_default (str "2, 3-8") = Ret {[2; 3; 4; 5; 6; 7; 8]} ∧
  expand_default (str "1-") = Ret {[1]} ∧
  expand_default (str "1,,2") = Ret {[1; 2]} ∧
  expand_default (str "1-2-3") = Ret ∅ ∧
  expand_default (str "a") = Throw (StdException (str "stoul")).
Proof. split_and!; vm_compute; reflexivity. Qed.

(** ** Specification *)

(** The texts meant: numbers and ranges. *)
Inductive core_item := Single (n : Z) | Range (a b : Z).

Definition item_text (i : core_item) : bytes :=
  match i with Single n => to_string n | Range a b => to_string a ++ str "-" ++ to_string b end.

Definition item_ok (i : core_item) : Prop :=
  match i with Single n => in_u64 n | Range a b => 0 ≤ a ≤ b ∧ in_u64 b end.

Definition item_has (i : core_item) (x : Z) : Prop :=
  match i with Single n => x = n | Range a b => a ≤ x ≤ b end.

Lemma range_loop_spec n f result x :
  0 ≤ f → f + Z.of_nat n < u64_modulus →
  x ∈ range_loop n f result ↔ x ∈ result ∨ f ≤ x < f + Z.of_nat n.
Proof.
  revert f result. induction n as [|n IH]; intros f result Hf Hn; cbn [range_loop].
  - split; [auto|]. intros [?|?]; [done|lia].
  - rewrite IH by (rewrite u64_small by (unfold in_u64; lia); lia).
    rewrite u64_small by (unfold in_u64; lia). rewrite elem_of_union, elem_of_singleton.
    split; [|destruct (decide (x = f))]; intuition lia.
Qed.

Lemma digit_no_space c : isdigit c = true → isspace c = false.
Proof.
  unfold isdigit, isspace. rewrite andb_true_iff, !bool_decide_eq_true. intros [H1 H2].
  rewrite orb_false_iff, andb_false_iff, !bool_decide_eq_false. split; [|lia].
  intros ->. vm_compute in H1. by apply H1.
Qed.

Lemma to_string_no c z : 0 ≤ z → isdigit c = false → c ∉ to_string z.
Proof.
  intros Hz Hc Hin. pose proof (to_string_digits z Hz) as Hall. rewrite Forall_forall in Hall.
  rewrite (Hall c Hin) in Hc. done.
Qed.

Lemma to_string_trim z : 0 ≤ z → trim (to_string z) = to_string z.
Proof. intros Hz. apply trim_id. eapply Forall_impl; [by apply to_string_digits|]. intros c. apply digit_no_space. Qed.

Lemma to_string_nonempty z : 0 ≤ z → to_string z ≠ [].
Proof. intros Hz. by apply to_string_spec. Qed.

Lemma item_text_no_comma i : item_ok i → ","%char ∉ item_text i.
Proof.
  destruct i as [n|a b]; simpl; intros Hi; [apply to_string_no; [apply Hi|done]|].
  rewrite elem_of_app, elem_of_cons. intros [H|[H|H]]; [|discriminate|]; revert H; apply to_string_no; done || lia.
Qed.

Lemma item_text_trim i : item_ok i → trim (item_text i) = item_text i.
Proof.
  intros Hi. apply trim_id. destruct i as [n|a b]; simpl in *.
  - eapply Forall_impl; [apply to_string_digits, Hi|]. intros c. apply digit_no_space.
  - apply Forall_app. split; [|apply Forall_cons; split; [done|]];
      (eapply Forall_impl; [apply to_string_digits; lia|]; intros c; apply digit_no_space).
Qed.

Lemma item_text_nonempty i : item_ok i → item_text i ≠ [].
Proof.
  destruct i as [n|a b]; simpl; intros Hi; [apply to_string_nonempty, Hi|].
  intros [H _]%app_nil. revert H. apply to_string_nonempty. lia.
Qed.

Lemma expand_part_spec i result :
  item_ok i →
  ∃ r res, explode (str "-") (item_text i) (-1) = Some r ∧ expand_part (trim_all r) result = Ret res ∧
    ∀ x, x ∈ res ↔ x ∈ result ∨ item_has i x.
Proof.
  intros Hi. destruct i as [n|a b]; simpl in Hi.
  - exists [to_string n], ({[n]} ∪ result). split; [|split].
    + apply (explode_join "-"%char [to_string n]); [done| |by apply to_string_nonempty, Hi].
      apply Forall_singleton, to_string_no; [apply Hi|done].
    + unfold trim_all. cbn [fmap list_fmap expand_part]. unfold CvtStringToInt. rewrite to_string_trim by apply Hi. by rewrite stoul_printed by exact Hi.
    + intros x. rewrite elem_of_union, elem_of_singleton. simpl. tauto.
  - destruct Hi as [Hab Hb]. assert (Ha : in_u64 a) by (unfold in_u64 in *; lia).
    exists [to_string a; to_string b], ({[b]} ∪ range_loop (range_steps a b) a result). split; [|split].
    + apply (explode_join "-"%char [to_string a; to_string b]); [done| |].
      * repeat (apply Forall_cons; split; [apply to_string_no; [lia|done]|]). constructor.
      * intros [H _]%app_nil. revert H. apply to_string_nonempty. lia.
    + unfold trim_all. cbn [fmap list_fmap expand_part]. unfold CvtStringToInt. rewrite !to_string_trim by lia.
      rewrite decide_False by (apply to_string_nonempty; lia). by rewrite !stoul_printed.
    + intros x. unfold range_steps. rewrite u64_small by (unfold in_u64 in *; lia).
      rewrite elem_of_union, elem_of_singleton, range_loop_spec by (unfold in_u64 in *; lia).
      simpl. split; [|destruct (decide (x = b))]; intuition lia.
Qed.

(** C31: [expand] reads back any list of numbers and increasing ranges: the
    result is the set of the numbers listed, and nothing else. *)
Theorem expand_items (items : list core_item) :
  items ≠ [] → Forall item_ok items →
  ∃ res, expand_default (join (str ",") (item_text <$> items)) = Ret res ∧
    ∀ x, x ∈ res ↔ Exists (λ i, item_has i x) items.
Proof.
  intros Hne Hall. unfold expand_default, expand.
  assert (Hj : join (str ",") (item_text <$> items) ≠ []).
  { destruct Hall as [|i items Hi Hall]; [done|]. cbn [fmap list_fmap].
    destruct items as [|j items]; [by apply item_text_nonempty|].
    cbn [fmap list_fmap]. rewrite join_cons by done. intros [H _]%app_nil. by apply item_text_nonempty in Hi. }
  rewrite decide_False by done. change (str ",") with [","%char] in *. rewrite explode_join; [|by destruct items| |done].
  2: { apply Forall_fmap. eapply Forall_impl; [exact Hall|]. apply item_text_no_comma. }
  outcome_simpl.
  assert (Ht : trim_all (item_text <$> items) = item_text <$> items).
  { unfold trim_all. rewrite <- list_fmap_compose. apply Forall_fmap_ext. eapply Forall_impl; [exact Hall|]. apply item_text_trim. }
  rewrite Ht. clear Ht Hj Hne.
  assert (Hgen : ∀ result, ∃ res, expand_chain (str "-") (item_text <$> items) result = Ret res ∧
    ∀ x, x ∈ res ↔ x ∈ result ∨ Exists (λ i, item_has i x) items).
  { induction Hall as [|i items Hi Hall IH]; intros result.
    - exists result. split; [done|]. intros x. rewrite Exists_nil. tauto.
    - destruct (expand_part_spec i result Hi) as (r & res & Hr & Hp & Hx).
      destruct (IH res) as (res' & Hc & Hx'). exists res'. cbn [fmap list_fmap expand_chain].
      rewrite Hr. outcome_simpl. rewrite Hp. outcome_simpl. split; [done|].
      intros x. rewrite Hx', Hx, Exists_cons. tauto. }
  destruct (Hgen ∅) as (res & Hc & Hx). exists res. split; [done|]. intros x. rewrite Hx.
  split; [intros [H|H]; [set_solver|done]|auto].
Qed.

Lemma expand_items_witness :
  ∃ res, expand_default (str "2,3-8") = Ret res ∧ ∀ x, x ∈ res ↔ Exists (λ i, item_has i x) [Single 2; Range 3 8].
Proof.
  refine (expand_items [Single 2; Range 3 8] _ _); [discriminate|].
  repeat (apply Forall_cons; split; [cbn; unfold in_u64, u64_modulus; lia|]). constructor.
Defined.

(** A descending range runs through almost all the numbers: the loop only
    stops when [f] has wrapped around to [t]. *)
Lemma descending_range_wraps a b :
  in_u64 a → in_u64 b → b < a → Z.of_nat (range_steps a b) = u64_modulus - (a - b).
Proof.
  unfold in_u64, range_steps, u64. intros Ha Hb Hlt. rewrite Z2Nat.id by (apply Z.mod_pos_bound; done).
  replace (b - a) with ((u64_modulus - (a - b)) + (-1) * u64_modulus) by lia.
  rewrite Z.mod_add by done. apply Z.mod_small. lia.
Qed.

(** ** Sizes and durations *)

Lemma isspace_digit c : isspace c = true → isdigit c = false.
Proof. intros H. destruct (isdigit c) eqn:Hd; [|done]. by rewrite (digit_no_space c Hd) in H. Qed.

Lemma spaces_head sp rest (p : ascii → bool) :
  (∀ c, isspace c = true → p c = false) → Forall (λ c, isspace c = true) sp →
  match rest with d :: _ => p d = false | [] => True end →
  match sp ++ rest with d :: _ => p d = false | [] => True end.
Proof. intros Hp Hsp Hr. destruct Hsp as [|c sp Hc]; [done|]. by apply Hp. Qed.

Lemma digits_head ds rest :
  ds ≠ [] → Forall (λ c, isdigit c = true) ds → match ds ++ rest with d :: _ => isspace d = false | [] => True end.
Proof. intros Hne Hd. destruct Hd as [|c ds' Hc]; [done|]. by apply digit_no_space. Qed.

(** A captured number. *)
Lemma group_digits pre ds rest g c k x :
  ds ≠ [] → Forall (λ c, isdigit c = true) ds →
  match rest with d :: _ => isdigit d = false | [] => True end →
  let s := pre ++ ds ++ rest in
  k (length (pre ++ ds)) (<[g := (length pre, length (pre ++ ds))]> c) = Some x →
  regex_match s (RGroup g (RPlus true (RChar isdigit))) (length pre) c k = Some x.
Proof.
  intros Hne Hd Hr s Hk.
  change (regex_match s (RPlus true (RChar isdigit)) (length pre) c (λ j c', k j (<[g := (length pre, j)]> c')) = Some x).
  by apply plus_class_run.
Qed.

Inductive byte_unit := Giga | Mega | Kilo | Byte | NoUnit.

Definition byte_unit_text (u : byte_unit) : bytes :=
  match u with Giga => str "G" | Mega => str "M" | Kilo => str "K" | Byte => str "B" | NoUnit => [] end.

Definition byte_unit_size (u : byte_unit) : Z :=
  match u with Giga => 2 ^ 30 | Mega => 2 ^ 20 | Kilo => 2 ^ 10 | _ => 1 end.

Lemma byte_unit_head u (p : ascii → bool) :
  (∀ c, p c = true → isdigit c = true ∨ isspace c = true) → match byte_unit_text u with d :: _ => p d = false | [] => True end.
Proof. intros Hp. destruct u; [..|done]; apply not_true_is_false; intros [H|H]%Hp; vm_compute in H; discriminate. Qed.

Lemma unit_shift_size u : 2 ^ unit_shift (byte_unit_text u) = byte_unit_size u.
Proof. by destruct u. Qed.

(** The optional unit at the end of a size. *)
Definition unit_captures (i : nat) (u : byte_unit) (c : captures) : captures :=
  match u with NoUnit => c | _ => <[2%nat := (i, S i)]> c end.

Definition re_unit : regex :=
  ROpt (RGroup 2 (RAlt (RLit "G"%char) (RAlt (RLit "M"%char) (RAlt (RLit "K"%char) (RLit "B"%char))))).

Lemma unit_match pre u c :
  regex_match (pre ++ byte_unit_text u) re_unit (length pre) c (λ j c, Some (j, c))
  = Some (length pre + length (byte_unit_text u), unit_captures (length pre) u c)%nat.
Proof.
  unfold re_unit, ROpt, RLit. cbn [regex_match].
  destruct u; cbn [byte_unit_text]; [change (str "G") with ["G"%char]|change (str "M") with ["M"%char]|
    change (str "K") with ["K"%char]|change (str "B") with ["B"%char]|]; rewrite ?lookup_at, ?app_nil_r, ?lookup_at_end;
    cbn; by rewrite ?Nat.add_1_r, ?Nat.add_0_r.
Qed.

Lemma unit_match_str pre u c :
  c !! 2%nat = None → match_str (pre ++ byte_unit_text u) (unit_captures (length pre) u c) 2 = byte_unit_text u.
Proof.
  intros Hc. unfold unit_captures. destruct u; cbn [byte_unit_text];
    [..|unfold match_str; by rewrite Hc]; rewrite match_str_insert;
    unfold slice; rewrite drop_app_length; by replace (S (length pre) - length pre)%nat with 1%nat by lia.
Qed.

Lemma unit_captures_1 s i u c : match_str s (unit_captures i u c) 1 = match_str s c 1.
Proof. destruct u; simpl; [by rewrite match_str_insert_ne..|done]. Qed.

(** The sub-matches of a size. *)
Lemma re_bytes_match sp1 ds sp2 u :
  Forall (λ c, isspace c = true) sp1 → Forall (λ c, isspace c = true) sp2 →
  ds ≠ [] → Forall (λ c, isdigit c = true) ds →
  let s := sp1 ++ ds ++ sp2 ++ byte_unit_text u in
  ∃ j, regex_search s re_bytes =
    Some (0, j, unit_captures (length (sp1 ++ ds ++ sp2)) u (<[1 := (length sp1, length (sp1 ++ ds))]> ∅))%nat.
Proof.
  intros H1 H2 Hne Hdig s. exists (length (sp1 ++ ds ++ sp2) + length (byte_unit_text u))%nat. apply search_at_start. unfold regex_at, re_bytes.
  change (regex_match s (RStar true (RChar isspace)) (length (@nil ascii)) ∅ (λ j c,
    regex_match s (RGroup 1 (RPlus true (RChar isdigit))) j c (λ j c,
    regex_match s (RStar true (RChar isspace)) j c (λ j c, regex_match s re_unit j c (λ j c, Some (j, c))))) = Some (
    (length (sp1 ++ ds ++ sp2) + length (byte_unit_text u))%nat,
    unit_captures (length (sp1 ++ ds ++ sp2)) u (<[1%nat := (length sp1, length (sp1 ++ ds))]> ∅))).
  apply (star_class_run isspace [] sp1); [done|by apply digits_head|]. cbn [app].
  apply group_digits; [done..|apply spaces_head; [apply isspace_digit|done|by apply byte_unit_head; auto]|].
  unfold s. rewrite (app_assoc sp1 ds). apply star_class_run; [done|by apply byte_unit_head; auto|].
  rewrite (app_assoc _ sp2). rewrite unit_match. by rewrite <- !app_assoc.
Qed.

(** A size is read back: blanks, a printed number, blanks and a unit letter
    (or none) denote the number times the unit, modulo [2^64]; a text without
    a digit denotes the default. *)
Theorem get_bytes_spec (sp1 sp2 : bytes) (n : Z) (u : byte_unit) (value : bytes) (def_value : Z) :
  Forall (λ c, isspace c = true) sp1 → Forall (λ c, isspace c = true) sp2 → in_u64 n →
  Forall (λ c, isdigit c = false) value →
  get_bytes (sp1 ++ to_string n ++ sp2 ++ byte_unit_text u) def_value = Ret (u64 (n * byte_unit_size u)) ∧
  get_bytes value def_value = Ret def_value.
Proof.
  intros H1 H2 Hn Hv. unfold get_bytes. split.
  - pose proof (to_string_nonempty n (proj1 Hn)) as Hne. pose proof (to_string_digits n (proj1 Hn)) as Hdig.
    rewrite decide_False by (intros [_ [? _]%app_nil]%app_nil; done).
    destruct (re_bytes_match sp1 (to_string n) sp2 u) as [j ->]; [done..|].
    rewrite unit_captures_1, match_str_insert, slice_middle, stoul_printed by done. outcome_simpl.
    rewrite (app_assoc _ sp2), (app_assoc sp1), unit_match_str, <- unit_shift_size by done.
    by rewrite Z.shiftl_mul_pow2 by (by destruct u).
  - case_decide; [done|]. unfold regex_search. rewrite search_from_none; [done|]. intros j _.
    unfold regex_at, re_bytes. rewrite regex_seq. apply star_class_fails. intros i _.
    rewrite regex_seq, regex_group. apply plus_class_none. destruct (value !! i) as [d|] eqn:Hd; [|done].
    rewrite Forall_lookup in Hv. by apply (Hv i).
Qed.

Lemma get_bytes_spec_witness :
  get_bytes (str " " ++ to_string 64 ++ [] ++ byte_unit_text Kilo) 7 = Ret (u64 (64 * byte_unit_size Kilo)) ∧
  get_bytes (str "max") 7 = Ret 7.
Proof. refine (get_bytes_spec (str " ") [] 64 Kilo (str "max") 7 _ _ _ _); decided || (unfold in_u64, u64_modulus; lia). Defined.

(** The durations meant: hours, minutes and seconds, each optional. *)
Definition amount_text (v : option Z) (u : ascii) : bytes :=
  match v with Some n => to_string n ++ [u] | None => [] end.

Definition amount_ok (v : option Z) : Prop := match v with Some n => 0 ≤ n | None => True end.

(** One amount, at the place where it stands. *)
Lemma re_amount_match pre n g u rest c k x :
  0 ≤ n → isdigit u = false → isspace u = false →
  let s := pre ++ (to_string n ++ [u]) ++ rest in
  k (length (pre ++ to_string n ++ [u])) (<[g := (length pre, length (pre ++ to_string n))]> c) = Some x →
  regex_match s (re_amount g u) (length pre) c k = Some x.
Proof.
  intros Hn Hu Hu' s Hk. unfold s, re_amount. rewrite <- app_assoc. cbn [app].
  rewrite regex_seq. pose proof (to_string_digits n Hn) as Hd. pose proof (to_string_nonempty n Hn) as Hne.
  apply (star_class_run isspace pre []); [constructor|by apply digits_head|]. rewrite app_nil_r, regex_seq.
  apply group_digits; [done..|]. rewrite regex_seq.
  rewrite (app_assoc pre). apply (star_class_run isspace _ []); [constructor|done|]. rewrite app_nil_r, regex_lit.
  rewrite lookup_at, bool_decide_true by done. rewrite <- Hk. f_equal. rewrite !length_app. simpl. lia.
Qed.

(** What may follow an amount of unit [u]: nothing, or an amount of another. *)
Definition later (u : ascii) (tail : bytes) : Prop :=
  tail = [] ∨ ∃ n v rest, tail = (to_string n ++ [v]) ++ rest ∧ 0 ≤ n ∧ isdigit v = false ∧ isspace v = false ∧ u ≠ v.

(** An amount of another unit: no match. *)
Lemma re_amount_fails pre tail g u c k :
  isspace u = false → isdigit u = false →
  later u tail →
  regex_match (pre ++ tail) (re_amount g u) (length pre) c k = None.
Proof.
  intros Hs Hd [->|(n & v & rest & -> & Hn & Hv & Hv' & Huv)]; unfold re_amount; rewrite regex_seq.
  - apply (star_class_run_fails true isspace pre [] []); [done|]. intros j Hj.
    rewrite regex_seq, regex_group. apply plus_class_none. rewrite !app_nil_r in *. by rewrite lookup_ge_None_2 by lia.
  - pose proof (to_string_digits n Hn) as Hall. pose proof (to_string_nonempty n Hn) as Hne.
    rewrite <- app_assoc. cbn [app].
    apply (star_class_run_fails true isspace pre [] (to_string n ++ v :: rest)); [by apply digits_head|].
    intros j Hj. rewrite app_nil_r in Hj. replace j with (length pre) by lia. clear j Hj.
    cbn [app]. rewrite regex_seq, regex_group.
    apply plus_class_run_fails; [done..|]. intros j Hj. rewrite regex_seq.
    assert (Hj' : ∃ e, (pre ++ to_string n ++ v :: rest) !! j = Some e ∧ isspace e = false ∧ e ≠ u).
    { destruct (decide (j = length (pre ++ to_string n))) as [->|Hn'].
      - exists v. rewrite (app_assoc pre). by rewrite lookup_at.
      - rewrite length_app in *. destruct (lookup_lt_is_Some_2 (to_string n) (j - length pre)) as [e He]; [lia|].
        exists e. rewrite lookup_app_r, lookup_app_l by lia. rewrite He. rewrite Forall_lookup in Hall.
        apply Hall in He. split; [done|]. split; [by apply digit_no_space|]. intros ->. by rewrite He in Hd. }
    destruct Hj' as (e & He & Hes & Heu).
    rewrite star_class_none by by rewrite He. by rewrite regex_lit, He, bool_decide_false.
Qed.

(** The optional amounts, one after the other. *)
Definition amount_captures (g i : nat) (v : option Z) (c : captures) : captures :=
  match v with Some n => <[g := (i, i + length (to_string n))%nat]> c | None => c end.

Lemma re_amount_opt pre g v u tail c k x :
  amount_ok v → isdigit u = false → isspace u = false →
  later u tail →
  k (length (pre ++ amount_text v u)) (amount_captures g (length pre) v c) = Some x →
  regex_match (pre ++ amount_text v u ++ tail) (ROpt (re_amount g u)) (length pre) c k = Some x.
Proof.
  intros Hv Hu Hs Ht Hk. rewrite regex_opt. destruct v as [n|]; cbn [amount_text amount_captures] in *.
  - rewrite (re_amount_match pre n g u tail c k x); [done..|]. by rewrite (length_app pre (to_string n)).
  - cbn [app]. rewrite re_amount_fails by done. by rewrite app_nil_r in Hk.
Qed.

Definition period_text (h m s : option Z) : bytes :=
  amount_text h "h"%char ++ amount_text m "m"%char ++ amount_text s "s"%char.

Lemma amount_tail v u w tail :
  amount_ok v → isdigit w = false → isspace w = false → u ≠ w →
  later u tail →
  later u (amount_text v w ++ tail).
Proof. intros Hv Hw Hw' Hu Ht. destruct v as [n|]; [|done]. right. by exists n, w, tail. Qed.

Definition period_captures (h m s : option Z) : captures :=
  amount_captures 3 (length (amount_text h "h"%char ++ amount_text m "m"%char)) s
    (amount_captures 2 (length (amount_text h "h"%char)) m (amount_captures 1 0 h ∅)).

Lemma re_period_match h m s :
  amount_ok h → amount_ok m → amount_ok s →
  regex_search (period_text h m s) re_period = Some (0%nat, length (period_text h m s), period_captures h m s).
Proof.
  intros Hh Hm Hs. apply search_at_start. unfold regex_at, re_period, period_text. rewrite regex_seq.
  assert (Ht : ∀ u, u ≠ "s"%char → later u (amount_text s "s"%char)).
  { intros u Hu. destruct s as [n|]; [|by left]. right. exists n, "s"%char, []. by rewrite app_nil_r. }
  apply (re_amount_opt []); [done..|by apply amount_tail, Ht|]. cbn [app]. rewrite regex_seq.
  apply re_amount_opt; [done..|by apply Ht|].
  rewrite app_assoc, <- (app_nil_r (_ ++ amount_text s _)), <- app_assoc.
  apply re_amount_opt; [done..|by left|]. by rewrite app_nil_r, <- app_assoc.
Qed.

Definition amount_digits (v : option Z) : bytes := match v with Some n => to_string n | None => [] end.
Definition amount_value (v : option Z) : Z := default 0 v.

Lemma amount_capture_str pre g v u tail c :
  c !! g = None → match_str (pre ++ amount_text v u ++ tail) (amount_captures g (length pre) v c) g = amount_digits v.
Proof.
  intros Hc. destruct v as [n|]; cbn [amount_captures amount_digits amount_text]; [|unfold match_str; by rewrite Hc].
  rewrite match_str_insert, <- app_assoc, <- length_app. apply slice_middle.
Qed.

Lemma amount_captures_ne s g g' i v c : g ≠ g' → match_str s (amount_captures g i v c) g' = match_str s c g'.
Proof. intros H. destruct v; [by apply match_str_insert_ne|done]. Qed.

Lemma amount_captures_fresh g g' i v c : g ≠ g' → c !! g' = None → amount_captures g i v c !! g' = None.
Proof. intros H Hc. destruct v; cbn [amount_captures]; [by rewrite lookup_insert_ne|done]. Qed.

Lemma stol_printed z : 0 ≤ z → in_i64 z → stol (to_string z) = Ret z.
Proof.
  intros Hz Hm. destruct (to_string_spec z Hz) as (Hne & _ & Hv).
  unfold stol. rewrite <- (app_nil_r (to_string z)) at 1.
  rewrite strto_parts_to_string by done. rewrite decide_False by done. rewrite Hv.
  unfold in_i64 in Hm. unfold in_i64b. by destruct (Z.leb_spec (- 2 ^ 63) z), (Z.ltb_spec z (2 ^ 63)); try lia.
Qed.

Lemma amount_digits_value v f :
  amount_ok v → in_i64 (amount_value v) → amount (amount_digits v) f = long (amount_value v * f).
Proof.
  intros Hv Hb. unfold amount. destruct v as [n|]; cbn [amount_digits amount_value default] in *; [|done].
  rewrite decide_False by (by apply to_string_nonempty). by rewrite stol_printed.
Qed.

Lemma long_ok z : in_i64 z → long z = Ret z.
Proof. unfold long, in_i64, in_i64b. intros H. by destruct (Z.leb_spec (- 2 ^ 63) z), (Z.ltb_spec z (2 ^ 63)); try lia. Qed.

Lemma long_undef z : ¬ in_i64 z → long z = Undef.
Proof. unfold long, in_i64, in_i64b. intros H. by destruct (Z.leb_spec (- 2 ^ 63) z), (Z.ltb_spec z (2 ^ 63)); try lia. Qed.

Lemma period_strs h m s :
  match_str (period_text h m s) (period_captures h m s) 1 = amount_digits h ∧
  match_str (period_text h m s) (period_captures h m s) 2 = amount_digits m ∧
  match_str (period_text h m s) (period_captures h m s) 3 = amount_digits s.
Proof.
  unfold period_text, period_captures. split_and!.
  - rewrite !amount_captures_ne by done. by apply (amount_capture_str []).
  - rewrite amount_captures_ne by done. apply amount_capture_str. by apply amount_captures_fresh.
  - rewrite app_assoc, <- (app_nil_r (_ ++ amount_text s _)), <- app_assoc. apply amount_capture_str.
    by apply amount_captures_fresh, amount_captures_fresh.
Qed.

Lemma time_period_value (h m s : option Z) :
  amount_ok h → amount_ok m → amount_ok s →
  in_i64 (amount_value h) → in_i64 (amount_value m) → in_i64 (amount_value s) →
  let total := amount_value h * 3600 + amount_value m * 60 + amount_value s in
  time_period (period_text h m s) = if decide (in_i64 total) then Ret total else Undef.
Proof.
  intros Hh Hm Hs Ih Im Is total. unfold time_period.
  assert (0 ≤ amount_value h ∧ 0 ≤ amount_value m ∧ 0 ≤ amount_value s) as (Ph & Pm & Ps) by (destruct h, m, s; done).
  case_decide as He.
  - unfold period_text in He. apply app_nil in He as [He1 [He2 He3]%app_nil].
    assert (h = None ∧ m = None ∧ s = None) as (-> & -> & ->).
    { destruct h, m, s; try done; (apply app_nil in He1 as [_ ?] || apply app_nil in He2 as [_ ?] || apply app_nil in He3 as [_ ?]); done. }
    by rewrite decide_True by (unfold in_i64, total; simpl; lia).
  - rewrite re_period_match by done. destruct (period_strs h m s) as (-> & -> & ->).
    rewrite !amount_digits_value by done. rewrite Z.mul_1_r, (long_ok (amount_value s)) by done.
    unfold in_i64 in *. fold total. assert (Hw : in_i64 total → u64 total = total)
      by (unfold in_i64, total; intros; apply u64_small; unfold in_u64, u64_modulus; lia).
    destruct (decide (- 2 ^ 63 ≤ total < 2 ^ 63)) as [Ht|Ht]; unfold total in Ht.
    + rewrite (long_ok (amount_value h * 3600)), (long_ok (amount_value m * 60)) by (unfold in_i64; lia). outcome_simpl.
      rewrite long_ok by (unfold in_i64; lia). outcome_simpl. rewrite long_ok by (unfold in_i64; lia). outcome_simpl. fold total. by rewrite Hw.
    + destruct (decide (in_i64 (amount_value h * 3600))); [|by rewrite (long_undef (amount_value h * 3600))].
      rewrite (long_ok (amount_value h * 3600)) by done. outcome_simpl.
      destruct (decide (in_i64 (amount_value m * 60))); [|by rewrite (long_undef (amount_value m * 60))].
      rewrite (long_ok (amount_value m * 60)) by done. outcome_simpl.
      destruct (decide (in_i64 (amount_value h * 3600 + amount_value m * 60))); [|by rewrite long_undef].
      rewrite long_ok by done. outcome_simpl. by rewrite long_undef.
Qed.

Lemma period_seconds s : 0 ≤ s → in_i64 s → time_period (period_text None None (Some s)) = Ret s.
Proof.
  intros Hs Hi. rewrite time_period_value by (done || (unfold in_i64; simpl; lia)). simpl. by rewrite decide_True.
Qed.

(** A duration written as hours, minutes and seconds, each optional, is
    read as its number of seconds; when that does not fit a [long], the sum
    overflows, which is undefined. *)
Theorem time_period_spec (h m s : option Z) :
  amount_ok h → amount_ok m → amount_ok s →
  in_i64 (amount_value h) → in_i64 (amount_value m) → in_i64 (amount_value s) →
  let total := amount_value h * 3600 + amount_value m * 60 + amount_value s in
  time_period (period_text h m s) = if decide (in_i64 total) then Ret total else Undef.
Proof. apply time_period_value. Qed.

Lemma time_period_spec_witness :
  time_period (period_text (Some 1) None (Some 5)) = Ret 3605.
Proof. refine (time_period_spec (Some 1) None (Some 5) _ _ _ _ _ _); cbn; unfold in_i64; lia. Defined.
