(* ===== verification/Uri.v ===== *)
(** * Uri: the two address parsers

    [parseUri] of [kernel/main/init-channels.hpp] and [parseSapiUri] of
    [mq/mq-sync/src/sync-sapi.cpp]. *)
From Stdlib Require Import Ascii String.
From stdpp Require Import options.
From S2P Require Import Prelude Regex.

#[local] Open Scope nat_scope.

(** [[\w-]] *)
Definition is_scheme (c : ascii) : bool := is_word c || bool_decide (c = "-"%char).

Definition re_uri_with (sep : bytes) : regex :=
  RSeq (RGroup 1 (RPlus true (RChar is_scheme))) (RSeq (RText sep) (RGroup 2 (RPlus true (RChar not_newline)))).

Definition parse_with (re : regex) (uri : bytes) : option (bytes * bytes) :=
  match regex_search uri re with
  | Some (_, _, m) => Some (match_str uri m 1, match_str uri m 2)
  | None => None
  end.

(** [([\w-]+):/(.+)] *)
Definition parseUri : bytes → option (bytes * bytes) := parse_with (re_uri_with (str ":/")).

(** [([\w-]+)://(.+)] *)
Definition parseSapiUri : bytes → option (bytes * bytes) := parse_with (re_uri_with (str "://")).

Example parseUri_examples :
  parseUri (str "sync-queue://sms-gate/*/") = Some (str "sync-queue", str "/sms-gate/*/") ∧
  parseUri (str "a b:/c") = Some (str "b", str "c") ∧ parseUri (str "sms") = None ∧ parseUri (str "x:/") = None ∧
  parseSapiUri (str "php://scripts/sms.php") = Some (str "php", str "scripts/sms.php").
Proof. split_and!; vm_compute; reflexivity. Qed.

(** ** Lemmas *)

Lemma regex_text t : ∀ s pre rest c k, s = pre ++ t ++ rest → regex_match s (RText t) (length pre) c k = k (length (pre ++ t)) c.
Proof.
  induction t as [|a t IH]; intros s pre rest c k Hs; [by rewrite app_nil_r|].
  assert (Hlook : s !! length pre = Some a) by (rewrite Hs; apply lookup_at).
  destruct t as [|b t]; cbn [RText].
  - rewrite regex_lit, Hlook, bool_decide_true by done. f_equal. rewrite length_app. simpl. lia.
  - rewrite regex_seq, regex_lit, Hlook, bool_decide_true by done.
    replace (S (length pre)) with (length (pre ++ [a])) by (rewrite length_app; simpl; lia).
    rewrite (IH s (pre ++ [a]) rest) by (by rewrite Hs, <- app_assoc). by rewrite <- app_assoc.
Qed.

Lemma parse_with_ok sep scheme route :
  scheme ≠ [] → Forall (λ c, is_scheme c = true) scheme →
  match sep with d :: _ => is_scheme d = false | [] => False end →
  route ≠ [] → Forall (λ c, not_newline c = true) route →
  parse_with (re_uri_with sep) (scheme ++ sep ++ route) = Some (scheme, route).
Proof.
  intros Hs Hs' Hsep Hr Hr'. unfold parse_with.
  assert (Hm : regex_search (scheme ++ sep ++ route) (re_uri_with sep) =
    Some (0, length (scheme ++ sep ++ route),
      <[2 := (length (scheme ++ sep), length (scheme ++ sep ++ route))]> (<[1 := (0, length scheme)]> ∅))).
  { apply search_at_start. unfold regex_at, re_uri_with. rewrite regex_seq, regex_group.
    apply (plus_class_run _ [] scheme); [done..|by destruct sep|]. cbn [app].
    rewrite regex_seq, (regex_text sep _ scheme route), regex_group by done.
    rewrite (app_assoc scheme sep route). rewrite <- (app_nil_r route) at 1.
    by apply plus_class_run. }
  rewrite Hm. f_equal. f_equal.
  - by apply (match_str_at [] scheme (sep ++ route) _ _ _ 0 (length scheme)).
  - eapply (match_str_at (scheme ++ sep) route []); [by rewrite app_nil_r, <- app_assoc|reflexivity|done|].
    by rewrite app_assoc, length_app.
Qed.

(** A text without the first character of the separator does not parse. *)
Lemma parse_with_none sep d t s : sep = d :: t → d ∉ s → parse_with (re_uri_with sep) s = None.
Proof.
  intros -> Hd. unfold parse_with, regex_search. rewrite search_from_none; [done|]. intros j _. unfold regex_at, re_uri_with.
  rewrite regex_seq, regex_group. unfold RPlus. rewrite regex_seq, regex_char.
  destruct (s !! j) as [e|]; [|done]. destruct (is_scheme e); [|done]. apply star_class_fails. intros i _.
  assert (Hlit : ∀ k, regex_match s (RLit d) i (<[1:=(j, i)]> ∅) k = None).
  { intros k. rewrite regex_lit. destruct (s !! i) as [f|] eqn:Hf; [|done]. rewrite bool_decide_false; [done|]. intros ->.
    by apply Hd, (list_elem_of_lookup_2 _ i). }
  rewrite regex_seq. destruct t as [|e' t]; cbn [RText]; [apply Hlit|]. rewrite regex_seq. apply Hlit.
Qed.

(** An address "scheme separator path" is cut at its separator, and an
    address without a colon is refused. *)
Theorem parseUri_spec (scheme route text : bytes) :
  scheme ≠ [] → Forall (λ c, is_scheme c = true) scheme → route ≠ [] → Forall (λ c, not_newline c = true) route →
  ":"%char ∉ text →
  parseUri (scheme ++ str ":/" ++ route) = Some (scheme, route) ∧
  parseSapiUri (scheme ++ str "://" ++ route) = Some (scheme, route) ∧
  parseUri (scheme ++ str "://" ++ route) = Some (scheme, "/"%char :: route) ∧
  parseUri text = None ∧ parseSapiUri text = None.
Proof.
  intros Hs Hs' Hr Hr' Ht. unfold parseUri, parseSapiUri. split_and!.
  - by apply parse_with_ok.
  - by apply parse_with_ok.
  - change (str "://" ++ route) with (str ":/" ++ "/"%char :: route). apply parse_with_ok; [done..|]. by constructor.
  - by eapply (parse_with_none _ ":"%char).
  - by eapply (parse_with_none _ ":"%char).
Qed.

Lemma parseUri_spec_witness :
  parseUri (str "sync-queue" ++ str ":/" ++ str "sms/") = Some (str "sync-queue", str "sms/") ∧
  parseSapiUri (str "sync-queue" ++ str "://" ++ str "sms/") = Some (str "sync-queue", str "sms/") ∧
  parseUri (str "sync-queue" ++ str "://" ++ str "sms/") = Some (str "sync-queue", "/"%char :: str "sms/") ∧
  parseUri (str "none") = None ∧ parseSapiUri (str "none") = None.
Proof. apply (parseUri_spec (str "sync-queue") (str "sms/") (str "none")); discriminate || decided. Defined.
