(* ===== verification/Config.v ===== *)
(** * Config: the configuration file and its view

    [Kernel::initConfig] of [kernel/main/config.cpp], which reads the file line
    by line with five regular expressions, and [ConfigImpl] of
    [kernel/main/impl/cfgimpl.h], the view of one section.  The file is a
    parameter: its content, or nothing when it cannot be opened. *)
From Stdlib Require Import Ascii String.
From stdpp Require Import options.
From S2P Require Import Prelude Transform Regex.

#[local] Open Scope nat_scope.

(** ** The data *)

(** [pair<list<string>, unordered_map<string, string>>]: the names of the
    sections below and the properties. *)
Abbreviation section := (list bytes * gmap bytes bytes)%type.
Abbreviation config := (gmap bytes section).

(** [config.emplace(key, value)]: the first entry of a key stays. *)
Definition emplace {A} (k : bytes) (v : A) (m : gmap bytes A) : gmap bytes A :=
  match m !! k with Some _ => m | None => <[k := v]> m end.

(** ** The expressions *)

(** [^\s*(\[+)\s*(.*?)\s*\]+] *)
Definition re_config_section : regex :=
  RSeq RBegin (RSeq (RStar true (RChar isspace)) (RSeq (RGroup 1 (RPlus true (RLit "["%char)))
    (RSeq (RStar true (RChar isspace)) (RSeq (RGroup 2 (RStar false (RChar not_newline)))
      (RSeq (RStar true (RChar isspace)) (RPlus true (RLit "]"%char))))))).

Definition is_key (c : ascii) : bool := is_word c || bool_decide (c = "-"%char) || bool_decide (c = ":"%char).
Definition DQUOTE : ascii := "034"%char.
Definition QUOTE : ascii := "'"%char.

(** [^\s*([\w\-:]+)\s*=\s*(?:([DQUOTE]|[QUOTE]|)(.*?)\2)\s*$] *)
Definition re_config_propety : regex :=
  RSeq RBegin (RSeq (RStar true (RChar isspace)) (RSeq (RGroup 1 (RPlus true (RChar is_key)))
    (RSeq (RStar true (RChar isspace)) (RSeq (RLit "="%char) (RSeq (RStar true (RChar isspace))
      (RSeq (RGroup 2 (RAlt (RLit DQUOTE) (RAlt (RLit QUOTE) REmpty)))
        (RSeq (RGroup 3 (RStar false (RChar not_newline))) (RSeq (RBack 2)
          (RSeq (RStar true (RChar isspace)) REnd))))))))).

(** [^\s*(.*?)\\\s*$] *)
Definition re_config_line_break_clean : regex :=
  RSeq RBegin (RSeq (RStar true (RChar isspace)) (RSeq (RGroup 1 (RStar false (RChar not_newline)))
    (RSeq (RLit "\"%char) (RSeq (RStar true (RChar isspace)) REnd)))).

(** [^\s*(.*?)\s*$] *)
Definition re_config_space_clean : regex :=
  RSeq RBegin (RSeq (RStar true (RChar isspace)) (RSeq (RGroup 1 (RStar false (RChar not_newline)))
    (RSeq (RStar true (RChar isspace)) REnd))).

(** [\s*#[^#]*$] *)
Definition re_config_remove_comment : regex :=
  RSeq (RStar true (RChar isspace)) (RSeq (RLit "#"%char)
    (RSeq (RStar true (RChar (λ c, negb (bool_decide (c = "#"%char))))) REnd)).

Definition remove_comment (s : bytes) : bytes := regex_replace s re_config_remove_comment (λ _, []).
Definition space_clean (s : bytes) : bytes := regex_replace s re_config_space_clean (λ c, match_str s c 1).

(** ** Reading *)

(** [implode_config_path(path, valname)] *)
Fixpoint implode_path_loop (n : nat) (it : list bytes) (result : bytes) : bytes * list bytes :=
  match n, it with
  | S n, p :: it => implode_path_loop n it (result ++ p ++ str ".")
  | _, _ => (result, it)
  end.

Definition implode_config_path (path : list bytes) (valname : bytes) : bytes :=
  match path with
  | [] => valname
  | _ =>
      let '(result, it) := implode_path_loop (length path - 1) path [] in
      let result := result ++ default [] (head it) in
      if decide (valname = []) then result else result ++ str "." ++ valname
  end.

(** The file: what is left, and [eofbit]. *)
Record ifstream := Stream { st_rest : bytes; st_eof : bool }.

(** [getline(stream, s)]: after the end of the file was met the string is left
    as it is; when nothing is left it is emptied. *)
Fixpoint split_line (s : bytes) : bytes * option bytes :=
  match s with
  | [] => ([], None)
  | c :: t => if decide (c = LF) then ([], Some t) else let '(a, b) := split_line t in (c :: a, b)
  end.

Definition getline (st : ifstream) (s : bytes) : bool * bytes * ifstream :=
  if st_eof st then (false, s, st)
  else match st_rest st with
  | [] => (false, [], Stream [] true)
  | _ =>
      match split_line (st_rest st) with
      | (l, Some rest) => (true, l, Stream rest false)
      | (l, None) => (true, l, Stream [] true)
      end
  end.

(** The loop over the lines a backslash continues. *)
Fixpoint continuation (fuel : nat) (st : ifstream) (content linebreak : bytes) : bytes * ifstream :=
  match fuel with
  | O => (content, st)
  | S fuel =>
      match getline st linebreak with
      | (false, l, st) => (content ++ space_clean l, st)
      | (true, l, st) =>
          match regex_search l re_config_line_break_clean with
          | Some (_, _, m) => continuation fuel st (content ++ remove_comment (match_str l m 1)) l
          | None => (content ++ space_clean l, st)
          end
      end
  end.

(** [while (path.size() >= clvl) path.pop_back()], for all three cases of the
    level: one [pop_back], several, or none. *)
Fixpoint pop_levels (fuel clvl : nat) (path : list bytes) : list bytes :=
  match fuel with
  | O => path
  | S fuel => if decide (clvl ≤ length path) then pop_levels fuel clvl (take (length path - 1) path) else path
  end.

(** A section line. *)
Definition open_section (clvl : nat) (node : bytes) (path : list bytes) (config_ : config) : list bytes * config :=
  let path := pop_levels (length path) clvl path in
  let config_ := emplace (implode_config_path path node) ([], ∅) config_ in
  let key := implode_config_path path [] in
  let config_ := emplace key ([], ∅) config_ in
  (path ++ [node], alter (λ v : section, (v.1 ++ [node], v.2)) key config_).

(** A property line; [it->second] of the end iterator is undefined. *)
Definition set_property (key value : bytes) (path : list bytes) (config_ : config) : outcome config :=
  v ← or_undef (config_ !! implode_config_path path []);
  Ret (<[implode_config_path path [] := (v.1, emplace key value v.2)]> config_).

(** One line, its continuation included. *)
Definition config_line (content : bytes) (path : list bytes) (config_ : config) : outcome (list bytes * config) :=
  match regex_search content re_config_section with
  | Some (_, _, m) =>
      Ret (open_section (length (match_str content m 1)) (remove_comment (match_str content m 2)) path config_)
  | None =>
      match regex_search content re_config_propety with
      | Some (_, _, m) =>
          config_ ← set_property (match_str content m 1) (remove_comment (match_str content m 3)) path config_;
          Ret (path, config_)
      | None => Ret (path, config_)
      end
  end.

Fixpoint config_lines (fuel : nat) (st : ifstream) (content : bytes) (path : list bytes) (config_ : config) : outcome config :=
  match fuel with
  | O => Ret config_
  | S fuel =>
      match getline st content with
      | (false, _, _) => Ret config_
      | (true, content, st) =>
          let '(content, st) :=
            match regex_search content re_config_line_break_clean with
            | Some (_, _, m) => continuation (S (length (st_rest st))) st (match_str content m 1) []
            | None => (content, st)
            end in
          pc ← config_line content path config_;
          config_lines fuel st content pc.1 pc.2
      end
  end.

(** [Kernel::initConfig] *)
Definition initConfig (file : option bytes) (config_ : config) : outcome config :=
  match file with
  | Some s => config_lines (S (length s)) (Stream s false) [] [] config_
  | None => Throw (StdException (str "system_error"))
  end.

(** ** [ConfigImpl] *)
Record ConfigImpl := Config { cf_values : config; cf_dir : bytes; cf_workdir : bytes; cf_name : bytes; cf_space : bytes }.

Definition GetSections (c : ConfigImpl) : list bytes :=
  match cf_values c !! cf_space c with Some v => v.1 | None => [] end.

(** [operator[]] *)
Definition subsection (c : ConfigImpl) (ns : bytes) : ConfigImpl :=
  Config (cf_values c) (cf_dir c) (cf_workdir c) (cf_name c)
    (if decide (cf_space c = []) then ns else cf_space c ++ str "." ++ ns).

Definition config_exists (c : ConfigImpl) : bool := bool_decide (is_Some (cf_values c !! cf_space c)).

(** [string::rfind(c)] *)
Fixpoint rfind (c : ascii) (s : bytes) : option nat :=
  match s with
  | [] => None
  | d :: t => match rfind c t with Some n => Some (S n) | None => if decide (d = c) then Some 0 else None end
  end.

Definition config_key (space propname : bytes) : bytes * bytes :=
  match rfind "."%char propname with
  | Some v => ((if decide (space = []) then space else space ++ str ".") ++ take v propname, drop (S v) propname)
  | None => (space, propname)
  end.

Definition GetConfigValue (c : ConfigImpl) (propname propdefault : bytes) : bytes :=
  let '(path, value) := config_key (cf_space c) propname in
  match cf_values c !! path with
  | Some v => match v.2 !! value with Some s => s | None => propdefault end
  | None => propdefault
  end.

(** The strings of the program. *)
Definition GetProgramName (c : ConfigImpl) : bytes := cf_name c.
Definition GetProgramDir (c : ConfigImpl) : bytes := cf_dir c.
Definition GetProgramCurrentDir (c : ConfigImpl) : bytes := cf_workdir c.

(** [QueryInterface] of a view always refuses. *)
Definition ConfigImpl_QueryInterface (c : ConfigImpl) : bool := false.

(** The sample of the repository ([kernel/fiber.config.sample]), in part. *)
Definition sample : bytes := str "[fiber]
	[[server]]
		[[[http]]]
			listen = :8080
			query-limit = 1M # 0 - unlimit, default 1048576
	[[pool]]
		core-bind = 2-12
	[[mq]]
		modules-dir = /home/lib/
		[[[sync-queue]]]
			class = SyncQueue
[channel]
	[[sms-gate]]
		channel-endpoint = sync-queue://sms-gate/*/ # sync, async
#		channel-sapi = php://scripts/sapi/sms-gate.php
		text = a\
		b \
		c
".

Definition sample_config : ConfigImpl :=
  Config (match initConfig (Some sample) ∅ with Ret c => c | _ => ∅ end) [] [] [] [].

Example sample_values :
  let top := sample_config in
  let http := subsection (subsection (subsection top (str "fiber")) (str "server")) (str "http") in
  let gate := subsection (subsection top (str "channel")) (str "sms-gate") in
  GetSections top = [str "fiber"; str "channel"] ∧
  GetSections (subsection top (str "fiber")) = [str "server"; str "pool"; str "mq"] ∧
  GetConfigValue http (str "listen") [] = str ":8080" ∧
  GetConfigValue http (str "query-limit") [] = str "1M" ∧
  GetConfigValue top (str "fiber.pool.core-bind") [] = str "2-12" ∧
  GetConfigValue gate (str "channel-endpoint") [] = str "sync-queue://sms-gate/*/" ∧
  GetConfigValue gate (str "channel-sapi") (str "none") = str "none" ∧
  GetConfigValue gate (str "text") [] = str "ab c".
Proof. cbv zeta. split_and!; vm_compute; reflexivity. Qed.

Example config_undefined :
  initConfig (Some (str "a = b")) ∅ = Undef ∧
  initConfig (Some (str "[a]
[[]]
b = c
")) ∅ = Undef.
Proof. split; vm_compute; reflexivity. Qed.
