(* ===== verification/ConfigSpec.v ===== *)
(** * ConfigSpec: what the configuration file means

    A file of section and property lines denotes a tree of named sections;
    [initConfig] builds that tree, keyed by dotted paths, and [GetConfigValue]
    reads it. *)
From Stdlib Require Import Ascii String.
From stdpp Require Import options.
From S2P Require Import Prelude Transform Regex Config.

#[local] Open Scope nat_scope.

(** ** The texts *)

Inductive entry := SectionLine (clvl : nat) (name : bytes) | PropertyLine (key value : bytes).

Definition entry_text (e : entry) : bytes :=
  match e with
  | SectionLine n name => replicate n "["%char ++ name ++ replicate n "]"%char
  | PropertyLine k v => k ++ str " = " ++ v
  end.

Definition config_text (es : list entry) : bytes := concat ((λ e, entry_text e ++ [LF]) <$> es).

(** Characters without a meaning of their own. *)
Definition plain (c : ascii) : bool :=
  not_newline c && negb (bool_decide (c ∈ ["\"%char; "#"%char; "["%char; "]"%char; DQUOTE; QUOTE])).

(** A text that begins and ends with a visible character. *)
Definition trimmed (s : bytes) : bool :=
  match head s, last s with Some c, Some d => negb (isspace c) && negb (isspace d) | _, _ => false end.

Definition text_ok (s : bytes) : Prop := Forall (λ c, plain c = true) s ∧ trimmed s = true.
Definition name_ok (s : bytes) : Prop := text_ok s ∧ "."%char ∉ s.

Definition entry_ok (e : entry) : Prop :=
  match e with
  | SectionLine n name => 0 < n ∧ name_ok name
  | PropertyLine k v => k ≠ [] ∧ Forall (λ c, is_key c = true) k ∧ text_ok v
  end.

(** ** Each line is read as it is meant *)

Lemma plain_props c : plain c = true →
  not_newline c = true ∧ c ≠ LF ∧ c ≠ "\"%char ∧ c ≠ "#"%char ∧ c ≠ "["%char ∧ c ≠ "]"%char ∧ c ≠ DQUOTE ∧ c ≠ QUOTE.
Proof.
  unfold plain. rewrite andb_true_iff, negb_true_iff, bool_decide_eq_false. intros [Hn Hc]. split; [done|].
  split; [intros ->; vm_compute in Hn; done|]. split_and!; intros ->; apply Hc; set_solver.
Qed.

Lemma key_props c : is_key c = true → isspace c = false ∧ c ≠ LF ∧ c ≠ "\"%char ∧ c ≠ "["%char.
Proof.
  intros H. split_and!; try (intros ->; vm_compute in H; discriminate).
  destruct (isspace c) eqn:Hs; [|done]. unfold isspace in Hs.
  apply orb_true_iff in Hs as [Hs|Hs].
  - apply bool_decide_eq_true in Hs as ->. vm_compute in H. done.
  - apply andb_true_iff in Hs as [?%bool_decide_eq_true ?%bool_decide_eq_true]. exfalso.
    unfold is_key, is_word, isdigit in H. rewrite !orb_true_iff, !andb_true_iff, !bool_decide_eq_true in H.
    assert (Hlow : (u8 c < 32)%Z) by lia.
    destruct H as [[[[[Hd| ->]|Hd]|Hd]| ->]| ->]; try (destruct Hd; lia); vm_compute in Hlow; discriminate.
Qed.

Lemma no_line_break s : "\"%char ∉ s → regex_search s re_config_line_break_clean = None.
Proof.
  intros Hs. apply search_begin_none. unfold regex_at. rewrite regex_seq. apply star_class_fails. intros j _.
  rewrite regex_seq, regex_group. apply star_class_fails. intros j' _. rewrite regex_seq, regex_lit.
  destruct (s !! j') as [e|] eqn:He; [|done]. rewrite bool_decide_false; [done|]. intros ->.
  by apply Hs, (list_elem_of_lookup_2 _ j').
Qed.

Lemma no_comment s : "#"%char ∉ s → remove_comment s = s.
Proof.
  intros Hs. apply regex_replace_none. intros i. unfold regex_at, re_config_remove_comment. rewrite regex_seq.
  apply star_class_fails. intros j _. rewrite regex_seq, regex_lit.
  destruct (s !! j) as [e|] eqn:He; [|done]. rewrite bool_decide_false; [done|]. intros ->.
  by apply Hs, (list_elem_of_lookup_2 _ j).
Qed.

Lemma text_ok_head s : text_ok s → ∃ c t, s = c :: t ∧ plain c = true ∧ isspace c = false.
Proof.
  intros [Hp Ht]. destruct s as [|c t]; [done|]. unfold trimmed in Ht. cbn [head] in Ht.
  destruct (last (c :: t)); [|done]. apply andb_true_iff in Ht as [Ht%negb_true_iff _].
  exists c, t. by apply Forall_cons in Hp as [? _].
Qed.

(** A visible character ends every tail of the text. *)
Lemma text_ok_tail s : text_ok s → ∃ b d, b < length s ∧ S b = length s ∧ s !! b = Some d ∧ isspace d = false.
Proof.
  intros [Hp Ht]. destruct s as [|c t _] using rev_ind; [done|]. unfold trimmed in Ht. rewrite last_snoc in Ht.
  destruct (head (t ++ [c])); [|done]. apply andb_true_iff in Ht as [_ Hc%negb_true_iff].
  exists (length t), c. rewrite length_app. simpl.
  split; [lia|]. split; [lia|]. split; [apply lookup_at|done].
Qed.

Lemma text_ok_newline s : text_ok s → Forall (λ c, not_newline c = true) s.
Proof. intros [Hp _]. eapply Forall_impl; [exact Hp|]. intros c Hc. by apply plain_props. Qed.

Lemma text_lookup s j d : text_ok s → s !! j = Some d → plain d = true.
Proof. intros [Hp _] Hj. rewrite Forall_lookup in Hp. by apply (Hp j). Qed.

(** What follows a text that ends with a visible character cannot match inside
    it when it starts with blanks. *)
Lemma blanks_inside pre s rest i c k :
  text_ok s → length pre ≤ i < length (pre ++ s) →
  (∀ j d, (pre ++ s ++ rest) !! j = Some d → plain d = true → j < length (pre ++ s) → k j c = None) →
  regex_match (pre ++ s ++ rest) (RStar true (RChar isspace)) i c k = None.
Proof.
  intros Hs Hi Hk. destruct (text_ok_tail s Hs) as (b & d & Hb & Hb' & Hd & Hsp). rewrite length_app in *.
  apply (star_class_barrier _ _ _ _ (length pre + b) d); [|done|lia|].
  - rewrite lookup_app_r, lookup_app_l by lia. by replace (length pre + b - length pre) with b by lia.
  - intros j Hj. destruct (lookup_lt_is_Some_2 s (j - length pre)) as [e He]; [lia|].
    apply (Hk j e); [|by eapply text_lookup|lia].
    rewrite lookup_app_r, lookup_app_l by lia. done.
Qed.

Lemma section_match n name :
  0 < n → text_ok name →
  ∃ e, regex_search (entry_text (SectionLine n name)) re_config_section =
    Some (0, e, <[2 := (n, n + length name)]> (<[1 := (0, n)]> ∅)).
Proof.
  intros Hn Hname. exists (n + length name + n). apply search_begin. unfold regex_at.
  destruct (text_ok_head name Hname) as (c & t & Hc & Hplain & Hsp). cbn [entry_text].
  set (br := replicate n "["%char). set (s := br ++ name ++ replicate n "]"%char).
  assert (Hbr : length br = n) by apply length_replicate.
  assert (Hbr0 : br ≠ []) by (destruct n; [lia|done]).
  rewrite regex_seq, star_class_none; [|unfold s, br; destruct n; [lia|done]].
  rewrite regex_seq, regex_group.
  apply (plus_class_run _ [] br); [done|by apply Forall_replicate, bool_decide_true|
    rewrite Hc; apply bool_decide_false; by destruct (plain_props c Hplain) as (_ & _ & _ & _ & ? & _)|].
  cbn [app]. rewrite regex_seq, star_class_none; [|change (br ++ name ++ _) with s; unfold s; rewrite Hc, <- app_comm_cons, lookup_at; done].
  rewrite regex_seq, regex_group. apply star_lazy_run; [by apply text_ok_newline| |].
  - intros j Hj. rewrite regex_seq. apply blanks_inside; [done..|]. intros j' d Hd Hp Hj'.
    apply plus_class_none. fold s in Hd. rewrite Hd. apply bool_decide_false. by destruct (plain_props d Hp) as (_ & _ & _ & _ & _ & ? & _).
  - rewrite regex_seq, star_class_none.
    2: { unfold s. destruct n; [lia|]. cbn [replicate]. rewrite app_assoc. by rewrite lookup_at. }
    unfold s. rewrite (app_assoc br). rewrite <- (app_nil_r (replicate n _)) at 1.
    apply plus_class_run; [by destruct n; [lia|]|by apply Forall_replicate, bool_decide_true|done|].
    by rewrite !length_app, Hbr, length_replicate.
Qed.

(** The key of a property line is not a bracket: no section. *)
Lemma property_no_section k rest :
  k ≠ [] → Forall (λ c, is_key c = true) k → regex_search (k ++ rest) re_config_section = None.
Proof.
  intros Hne Hk. destruct Hk as [|c k Hc Hk]; [done|]. destruct (key_props c Hc) as (Hsp & _ & _ & Hb).
  apply search_begin_none. unfold regex_at. rewrite regex_seq, star_class_none by done.
  rewrite regex_seq, regex_group. apply plus_class_none. by apply bool_decide_false.
Qed.

(** The opening quote is empty when the value does not begin with a quote. *)
Lemma no_quote s i c k d :
  s !! i = Some d → d ≠ DQUOTE → d ≠ QUOTE →
  regex_match s (RGroup 2 (RAlt (RLit DQUOTE) (RAlt (RLit QUOTE) REmpty))) i c k = k i (<[2 := (i, i)]> c).
Proof.
  intros Hd H1 H2. rewrite regex_group.
  change (match regex_match s (RLit DQUOTE) i c (λ j c', k j (<[2 := (i, j)]> c')) with Some x => Some x | None =>
    match regex_match s (RLit QUOTE) i c (λ j c', k j (<[2 := (i, j)]> c')) with Some x => Some x | None => k i (<[2 := (i, i)]> c) end end
    = k i (<[2 := (i, i)]> c)).
  by rewrite !regex_lit, Hd, !bool_decide_false.
Qed.

Lemma empty_back s i a g c k : c !! g = Some (a, a) → regex_match s (RBack g) i c k = k i c.
Proof.
  intros Hc. cbn [regex_match]. rewrite Hc. rewrite (slice_nil s a a) by lia. cbn [length].
  rewrite Nat.add_0_r, decide_True by (by apply slice_nil). done.
Qed.

Definition property_captures (k v : bytes) : captures :=
  <[3 := (length k + 3, length k + 3 + length v)]> (<[2 := (length k + 3, length k + 3)]> (<[1 := (0, length k)]> ∅)).

Lemma property_match k v :
  k ≠ [] → Forall (λ c, is_key c = true) k → text_ok v →
  regex_search (entry_text (PropertyLine k v)) re_config_propety =
    Some (0, length k + 3 + length v, property_captures k v).
Proof.
  intros Hne Hk Hv. apply search_begin. unfold regex_at. cbn [entry_text].
  change (str " = ") with [" "%char; "="%char; " "%char]. cbn [app].
  destruct (text_ok_head v Hv) as (d & t & Hd & Hplain & Hsp). set (s := k ++ _).
  set (pre := k ++ [" "%char; "="%char; " "%char]).
  assert (Hs : s = pre ++ v ++ []) by (unfold s, pre; by rewrite app_nil_r, <- app_assoc).
  assert (Hpre : length pre = length k + 3) by (unfold pre; by rewrite length_app).
  assert (Hlook : s !! length pre = Some d) by (rewrite Hs, Hd, <- app_comm_cons; apply lookup_at).
  rewrite regex_seq, star_class_none; [|unfold s; destruct Hk as [|c k Hc Hk]; [done|]; by destruct (key_props c Hc)].
  rewrite regex_seq, regex_group. apply (plus_class_run _ [] k); [done..|]. cbn [app]. fold s.
  rewrite regex_seq. apply (star_class_run _ k [" "%char]); [by repeat constructor|done|]. fold s.
  rewrite regex_seq, regex_lit. assert (H1 : s !! length (k ++ [" "%char]) = Some "="%char).
  { replace s with ((k ++ [" "%char]) ++ "="%char :: " "%char :: v) by (unfold s; by rewrite <- app_assoc). apply lookup_at. }
  rewrite H1, bool_decide_true by done. rewrite regex_seq.
  replace (S (length (k ++ [" "%char]))) with (length (k ++ [" "%char; "="%char])) by (rewrite !length_app; simpl; lia).
  assert (H2 : s = (k ++ [" "%char; "="%char]) ++ [" "%char] ++ v) by (unfold s; by rewrite <- app_assoc).
  rewrite H2. apply star_class_run; [by repeat constructor|by rewrite Hd|]. rewrite <- H2.
  replace (length ((k ++ [" "%char; "="%char]) ++ [" "%char])) with (length pre) by (rewrite Hpre, !length_app; simpl; lia).
  destruct (plain_props d Hplain) as (_ & _ & _ & _ & _ & _ & Hdq & Hq).
  rewrite regex_seq, (no_quote s _ _ _ d) by done. rewrite regex_seq, regex_group, Hs.
  apply star_lazy_run; [by apply text_ok_newline| |].
  - intros j Hj. rewrite regex_seq, (empty_back _ _ (length pre)) by done. rewrite regex_seq.
    apply blanks_inside; [done..|]. intros j' e He Hpe Hj'. cbn [regex_match]. rewrite decide_False; [done|].
    rewrite !length_app in *. simpl. lia.
  - rewrite regex_seq, (empty_back _ _ (length pre)) by done. rewrite regex_seq, app_nil_r.
    rewrite star_class_none by (by rewrite lookup_at_end). cbn [regex_match]. rewrite decide_True by done.
    unfold property_captures. by rewrite length_app, Hpre.
Qed.

(** ** Lines of the file *)

Lemma split_line_spec l rest : LF ∉ l → split_line (l ++ LF :: rest) = (l, Some rest).
Proof.
  induction l as [|c l IH]; intros Hl; cbn [app split_line]; [by rewrite decide_True|].
  apply not_elem_of_cons in Hl as [Hc Hl]. rewrite decide_False by congruence. by rewrite IH.
Qed.

Lemma getline_spec l rest s : LF ∉ l → getline (Stream (l ++ LF :: rest) false) s = (true, l, Stream rest false).
Proof.
  intros Hl. unfold getline. cbn [st_eof st_rest]. rewrite split_line_spec by done. by destruct l.
Qed.

(** The line's effect, read off the regular expressions. *)
Definition entry_step (e : entry) (path : list bytes) (c : config) : outcome (list bytes * config) :=
  match e with
  | SectionLine n name => Ret (open_section n name path c)
  | PropertyLine k v => c ← set_property k v path c; Ret (path, c)
  end.

Lemma text_ok_no d s : text_ok s → plain d = false → d ∉ s.
Proof. intros [Hs _] Hd Hin. rewrite Forall_forall in Hs. by rewrite Hs in Hd. Qed.

Lemma key_no d k : Forall (λ c, is_key c = true) k → is_key d = false → d ∉ k.
Proof. intros Hs Hd Hin. rewrite Forall_forall in Hs. by rewrite Hs in Hd. Qed.

Lemma entry_text_no d e : entry_ok e → plain d = false → is_key d = false → d ∉ str " =[]" → d ∉ entry_text e.
Proof.
  intros He Hp Hk Hd. assert (Hds : d ≠ " "%char ∧ d ≠ "="%char ∧ d ≠ "["%char ∧ d ≠ "]"%char)
    by (split_and!; intros ->; apply Hd; decided).
  destruct Hds as (D1 & D2 & D3 & D4). destruct e as [n name|k v]; cbn [entry_text]; rewrite !elem_of_app.
  - destruct He as [_ [Hn _]]. intros [H|[H|H]]; [|by apply text_ok_no in H|]; apply elem_of_replicate in H as [? _]; done.
  - destruct He as (_ & Hkk & Hv). intros [H|[H|H]]; [by apply key_no in H| |by apply text_ok_no in H].
    change (str " = ") with [" "%char; "="%char; " "%char] in H. rewrite !elem_of_cons, elem_of_nil in H. intuition congruence.
Qed.

Lemma config_line_entry e path c : entry_ok e → config_line (entry_text e) path c = entry_step e path c.
Proof.
  intros He. unfold config_line. destruct e as [n name|k v].
  - destruct He as [Hn [Hname _]]. destruct (section_match n name Hn Hname) as [end_ ->].
    cbn [entry_text entry_step].
    rewrite (match_str_at [] (replicate n "["%char) (name ++ replicate n "]"%char) _ _ _ 0 n);
      [|done|done|done|by rewrite length_replicate].
    rewrite (match_str_at (replicate n "["%char) name (replicate n "]"%char) _ _ _ n (n + length name));
      [|done|done|by rewrite length_replicate..].
    by rewrite length_replicate, no_comment by by apply text_ok_no.
  - destruct He as (Hne & Hk & Hv). cbn [entry_text]. rewrite property_no_section by done.
    change (k ++ str " = " ++ v) with (entry_text (PropertyLine k v)). rewrite property_match by done.
    cbn [entry_text entry_step].
    rewrite (match_str_at [] k (str " = " ++ v) _ _ _ 0 (length k)) by done.
    rewrite (match_str_at (k ++ str " = ") v [] _ _ _ (length k + 3) (length k + 3 + length v));
      [|by rewrite app_nil_r, <- app_assoc|done|by rewrite length_app..].
    by rewrite no_comment by by apply text_ok_no.
Qed.

(** The lines of the file, one after the other. *)
Fixpoint entry_steps (es : list entry) (path : list bytes) (c : config) : outcome config :=
  match es with
  | [] => Ret c
  | e :: es => pc ← entry_step e path c; entry_steps es pc.1 pc.2
  end.

Lemma config_lines_entries es : ∀ fuel content path c,
  Forall entry_ok es → length (config_text es) < fuel →
  config_lines fuel (Stream (config_text es) false) content path c = entry_steps es path c.
Proof.
  induction es as [|e es IH]; intros fuel content path c Hall Hf; (destruct fuel as [|fuel]; [lia|]); [done|].
  apply Forall_cons in Hall as [He Hall]. cbn [config_lines entry_steps].
  replace (config_text (e :: es)) with (entry_text e ++ LF :: config_text es) in *
    by (unfold config_text; cbn [fmap list_fmap concat]; by rewrite <- app_assoc).
  rewrite getline_spec by by apply entry_text_no; [|vm_compute..|decided].
  rewrite no_line_break by by apply entry_text_no; [|vm_compute..|decided].
  rewrite config_line_entry by done. destruct (entry_step e path c) as [[path' c']|ex| |]; outcome_simpl; [|done..].
  apply IH; [done|]. rewrite length_app in Hf. simpl in Hf. lia.
Qed.

(** ** The tree *)

Abbreviation tree := (gmap (list bytes) section).

Definition tree_emplace (p : list bytes) (t : tree) : tree :=
  match t !! p with Some _ => t | None => <[p := ([], ∅)]> t end.

(** A section line of level [n] closes the sections down to level [n - 1] and
    opens a child; a property goes to the open section, unless it has it. *)
Definition tree_step (pt : list bytes * tree) (e : entry) : list bytes * tree :=
  let '(path, t) := pt in
  match e with
  | SectionLine n name =>
      let p := take (n - 1) path in
      (p ++ [name], alter (λ v : section, (v.1 ++ [name], v.2)) p (tree_emplace p (tree_emplace (p ++ [name]) t)))
  | PropertyLine k v => (path, alter (λ s : section, (s.1, emplace k v s.2)) path t)
  end.

Definition tree_of (es : list entry) : tree := (foldl tree_step ([], ∅) es).2.

Definition keys_ok (p : list bytes) : Prop := Forall (λ n, n ≠ [] ∧ "."%char ∉ n) p.
Definition dot (p : list bytes) : bytes := join (str ".") p.

Lemma dot_nonempty p : keys_ok p → p ≠ [] → dot p ≠ [].
Proof.
  intros [|n p' [Hn _] Hp] Hne; [done|]. unfold dot. destruct p' as [|q p']; [done|].
  rewrite join_cons by done. by destruct n.
Qed.

Lemma dot_inj p q : keys_ok p → keys_ok q → dot p = dot q → p = q.
Proof.
  intros Hp Hq Heq. destruct (decide (p = [])) as [->|Hp0]; [|destruct (decide (q = [])) as [->|Hq0]].
  - destruct (decide (q = [])) as [->|Hq0]; [done|]. by apply dot_nonempty in Hq0.
  - by apply dot_nonempty in Hp0.
  - assert (He : ∀ r, keys_ok r → r ≠ [] → explode ["."%char] (dot r) (-1) = Some r).
    { intros r Hr Hr0. apply explode_join; [done| |by apply dot_nonempty].
      eapply Forall_impl; [exact Hr|]. by intros n [_ ?]. }
    apply He in Hp as Hp'; [|done]. apply He in Hq as Hq'; [|done]. rewrite Heq in Hp'. congruence.
Qed.

Lemma implode_path_loop_spec path : ∀ last result,
  implode_path_loop (length path) (path ++ [last]) result = (result ++ concat ((λ p, p ++ str ".") <$> path), [last]).
Proof.
  induction path as [|p path IH]; intros last result; cbn [length implode_path_loop app fmap list_fmap concat];
    [by rewrite app_nil_r|]. rewrite IH. by rewrite <- !app_assoc.
Qed.

Lemma dot_snoc path last : dot (path ++ [last]) = concat ((λ p, p ++ str ".") <$> path) ++ last.
Proof.
  induction path as [|p path IH]; [done|]. unfold dot in *. cbn [app fmap list_fmap concat].
  rewrite join_cons by (by destruct path). rewrite IH. by rewrite <- !app_assoc.
Qed.

Lemma implode_config_path_dot path n :
  implode_config_path path n = dot (path ++ (if decide (n = []) then [] else [n])).
Proof.
  destruct path as [|p path _] using rev_ind; [by case_decide; subst|]. unfold implode_config_path.
  destruct (path ++ [p]) as [|q l] eqn:Hq; [by destruct path|]. rewrite <- Hq. clear q l Hq.
  rewrite length_app. cbn [length]. rewrite Nat.add_sub, implode_path_loop_spec. cbn [head default app].
  case_decide as Hn; [by rewrite app_nil_r, dot_snoc|].
  rewrite dot_snoc, fmap_app, concat_app. cbn [fmap list_fmap concat]. by rewrite <- !app_assoc.
Qed.

Lemma pop_levels_take fuel clvl path :
  0 < clvl → length path ≤ fuel → pop_levels fuel clvl path = take (clvl - 1) path.
Proof.
  intros Hc. revert path. induction fuel as [|fuel IH]; intros path Hf; cbn [pop_levels].
  - destruct path; [by rewrite take_nil|simpl in Hf; lia].
  - case_decide as Hl; [|by rewrite take_ge by lia].
    rewrite IH by (rewrite length_take; lia). rewrite take_take. f_equal. lia.
Qed.

(** The flat table agrees with the tree. *)
Definition agrees (c : config) (t : tree) : Prop := ∀ p, keys_ok p → c !! dot p = t !! p.

Lemma agrees_insert c t q v : keys_ok q → agrees c t → agrees (<[dot q := v]> c) (<[q := v]> t).
Proof.
  intros Hq Ha p Hp. destruct (decide (p = q)) as [->|Hne]; [by rewrite !lookup_insert_eq|].
  rewrite !lookup_insert_ne; [by apply Ha|done|]. intros He. by apply Hne, dot_inj.
Qed.

Lemma agrees_emplace c t q : keys_ok q → agrees c t → agrees (emplace (dot q) ([], ∅) c) (tree_emplace q t).
Proof.
  intros Hq Ha. unfold emplace, tree_emplace. rewrite (Ha q Hq). destruct (t !! q); [done|]. by apply agrees_insert.
Qed.

Lemma agrees_alter f c t q : keys_ok q → agrees c t → agrees (alter f (dot q) c) (alter f q t).
Proof.
  intros Hq Ha p Hp. destruct (decide (p = q)) as [->|Hne]; [by rewrite !lookup_alter_eq, Ha|].
  rewrite !lookup_alter_ne; [by apply Ha|done|]. intros He. by apply Hne, dot_inj.
Qed.

Lemma tree_emplace_some q q' t : is_Some (t !! q) ∨ q = q' → is_Some (tree_emplace q' t !! q).
Proof.
  intros H. unfold tree_emplace. destruct (t !! q') eqn:Hq'; [destruct H as [H|H]; subst; eauto|].
  destruct (decide (q = q')) as [->|]; [rewrite lookup_insert_eq; eauto|]. rewrite lookup_insert_ne by done.
  by destruct H as [H|H].
Qed.

(** The state between two lines: the open path is a section of the table. *)
Definition line_inv (path : list bytes) (c : config) (t : tree) : Prop :=
  keys_ok path ∧ agrees c t ∧ is_Some (t !! path).

Lemma section_step n name path c t :
  entry_ok (SectionLine n name) → keys_ok path → agrees c t →
  let '(path', t') := tree_step (path, t) (SectionLine n name) in
  ∃ c', open_section n name path c = (path', c') ∧ line_inv path' c' t'.
Proof.
  intros [Hn [Hname Hdot]] Hp Ha. cbn [tree_step]. unfold open_section.
  rewrite pop_levels_take by done. set (p := take (n - 1) path).
  assert (Hne : name ≠ []) by (destruct (text_ok_head name Hname) as (? & ? & -> & _); done).
  assert (Hp' : keys_ok p) by by apply Forall_take.
  assert (Hpn : keys_ok (p ++ [name])) by (apply Forall_app; split; [done|by apply Forall_singleton]).
  rewrite !implode_config_path_dot, (decide_False (P := name = [])), decide_True, app_nil_r by done.
  eexists. split; [done|]. split; [done|]. split.
  - by apply agrees_alter, agrees_emplace, agrees_emplace.
  - rewrite lookup_alter_ne by (intros H; by apply (f_equal length) in H; rewrite length_app in H; simpl in H; lia).
    apply tree_emplace_some. left. apply tree_emplace_some. by right.
Qed.

Lemma property_step k v path c t :
  line_inv path c t →
  let '(path', t') := tree_step (path, t) (PropertyLine k v) in
  ∃ c', entry_step (PropertyLine k v) path c = Ret (path', c') ∧ line_inv path' c' t'.
Proof.
  intros (Hp & Ha & [s Hs]). cbn [tree_step entry_step]. unfold set_property.
  rewrite !implode_config_path_dot, decide_True, app_nil_r by done. rewrite (Ha path Hp), Hs. outcome_simpl.
  eexists. split; [done|]. split; [done|]. split; [|rewrite lookup_alter_eq, Hs; by eexists].
  intros q Hq. destruct (decide (q = path)) as [->|Hne].
  - by rewrite lookup_insert_eq, lookup_alter_eq, Hs.
  - rewrite lookup_insert_ne, lookup_alter_ne; [by apply Ha|done|]. intros He. by apply Hne, dot_inj.
Qed.

Lemma entry_steps_tree es : ∀ path c t,
  Forall entry_ok es → line_inv path c t →
  ∃ c', entry_steps es path c = Ret c' ∧ agrees c' (foldl tree_step (path, t) es).2.
Proof.
  induction es as [|e es IH]; intros path c t Hall Hinv; cbn [entry_steps foldl]; [exists c; split; [done|apply Hinv]|].
  apply Forall_cons in Hall as [He Hall].
  assert (Hstep : let '(path', t') := tree_step (path, t) e in
    ∃ c', entry_step e path c = Ret (path', c') ∧ line_inv path' c' t').
  { destruct e as [n name|k v]; [|by apply property_step].
    destruct Hinv as (Hp & Ha & _). pose proof (section_step n name path c t He Hp Ha) as H.
    destruct (tree_step (path, t) (SectionLine n name)) as [path' t']. destruct H as (c' & Ho & Hinv).
    exists c'. cbn [entry_step]. by rewrite Ho. }
  destruct (tree_step (path, t) e) as [path' t']. destruct Hstep as (c' & -> & Hinv'). outcome_simpl. by apply IH.
Qed.

(** ** The views *)

(** The view of the section at a path. *)
Definition view (c : config) (p : list bytes) : ConfigImpl := foldl subsection (Config c [] [] [] []) p.

Lemma view_dot c p : keys_ok p → view c p = Config c [] [] [] (dot p).
Proof.
  intros Hp. unfold view. induction p as [|n p IH] using rev_ind; [done|]. rewrite foldl_app. cbn [foldl].
  apply Forall_app in Hp as [Hp Hn]. rewrite IH by done. unfold subsection. cbn [cf_values cf_dir cf_workdir cf_name cf_space].
  f_equal. destruct (decide (p = [])) as [->|Hne]; [done|]. rewrite decide_False by by apply dot_nonempty.
  unfold dot. by rewrite join_app.
Qed.

Lemma rfind_none c s : c ∉ s → rfind c s = None.
Proof.
  induction s as [|d s IH]; intros H; [done|]. apply not_elem_of_cons in H as [Hd Hs]. cbn [rfind].
  by rewrite IH, decide_False by congruence.
Qed.

(** C24: a configuration file that consists of section lines and property lines
    and begins with a section line denotes a tree: reading it succeeds, and the
    view of every section has the sections and the property values of the tree.
    The lines are not indented, of the form [[name]] with any number of brackets
    or "key = value" with one blank on each side; names and values have no blanks
    at their ends and none of the characters that the reader treats specially (no
    comments, quotes, brackets or backslashes), and section names no dots. *)
Theorem initConfig_tree (es : list entry) :
  Forall entry_ok es → match es with PropertyLine _ _ :: _ => False | _ => True end →
  ∃ c, initConfig (Some (config_text es)) ∅ = Ret c ∧
    ∀ p key def, keys_ok p → "."%char ∉ key →
      GetSections (view c p) = default [] (fst <$> tree_of es !! p) ∧
      GetConfigValue (view c p) key def = default def (tree_of es !! p ≫= λ s, s.2 !! key).
Proof.
  intros Hall Hfirst. unfold initConfig. rewrite config_lines_entries by (done || lia).
  assert (Ha : agrees (∅ : config) (∅ : tree)) by (intros p _; by rewrite !lookup_empty).
  assert (Hc : ∃ c, entry_steps es [] ∅ = Ret c ∧ agrees c (tree_of es)).
  { destruct es as [|[n name|k v] es]; [by exists ∅| |done]. apply Forall_cons in Hall as [He Hall].
    pose proof (section_step n name [] ∅ ∅ He (Forall_nil_2 _) Ha) as H. unfold tree_of. cbn [foldl entry_steps entry_step].
    destruct (tree_step ([], ∅) (SectionLine n name)) as [path' t']. destruct H as (c' & -> & Hinv). outcome_simpl.
    by apply entry_steps_tree. }
  destruct Hc as (c & -> & Hc). exists c. split; [done|]. intros p key def Hp Hkey. rewrite view_dot by done.
  unfold GetSections, GetConfigValue, config_key. rewrite rfind_none by done. cbn [cf_space cf_values].
  rewrite (Hc p Hp). destruct (tree_of es !! p) as [[secs props]|]; [|done]. simpl. by destruct (props !! key).
Qed.

Definition small_file : list entry :=
  [SectionLine 1 (str "fiber"); SectionLine 2 (str "pool"); PropertyLine (str "core-bind") (str "2-12")].

Lemma initConfig_tree_witness :
  ∃ c, initConfig (Some (config_text small_file)) ∅ = Ret c ∧
    ∀ p key def, keys_ok p → "."%char ∉ key →
      GetSections (view c p) = default [] (fst <$> tree_of small_file !! p) ∧
      GetConfigValue (view c p) key def = default def (tree_of small_file !! p ≫= λ s, s.2 !! key).
Proof.
  refine (initConfig_tree small_file _ I). unfold small_file.
  repeat (apply Forall_cons; split; [cbn [entry_ok]; unfold name_ok, text_ok; split_and!; decided || lia|]). constructor.
Defined.

(** The tree of that file. *)
Example tree_example :
  tree_of small_file !! [str "fiber"; str "pool"] = Some ([], {[str "core-bind" := str "2-12"]}).
Proof. vm_compute. reflexivity. Qed.

(** ** The fuel of the two loops is enough on every file *)

Lemma split_line_length s l o :
  split_line s = (l, o) → match o with Some rest => length rest < length s | None => True end.
Proof.
  revert l o. induction s as [|c s IH]; intros l o; cbn [split_line]; [by intros [= <- <-]|].
  case_decide; [intros [= <- <-]; simpl; lia|]. destruct (split_line s) as [a b] eqn:Hs. intros [= <- <-].
  specialize (IH a b eq_refl). destruct b; simpl; [lia|done].
Qed.

Lemma getline_shorter st s l st' : getline st s = (true, l, st') → length (st_rest st') < length (st_rest st).
Proof.
  unfold getline. destruct (st_eof st); [done|]. destruct (st_rest st) as [|c t] eqn:Hr; [done|].
  destruct (split_line (c :: t)) as [a [rest|]] eqn:Hs; intros [= <- <-]; cbn [st_rest].
  - by apply split_line_length in Hs.
  - simpl. lia.
Qed.

Lemma getline_end st s l st' : getline st s = (false, l, st') → length (st_rest st') ≤ length (st_rest st).
Proof.
  unfold getline. destruct (st_eof st); [by intros [= <- <-]|]. destruct (st_rest st) as [|c t] eqn:Hr; [intros [= <- <-]; simpl; lia|].
  by destruct (split_line (c :: t)) as [a [rest|]].
Qed.

Lemma continuation_rest fuel : ∀ st content l, length (st_rest (continuation fuel st content l).2) ≤ length (st_rest st).
Proof.
  induction fuel as [|fuel IH]; intros st content l; cbn [continuation]; [done|].
  destruct (getline st l) as [[[] l'] st'] eqn:Hg; [|by apply getline_end in Hg].
  apply getline_shorter in Hg. destruct (regex_search l' re_config_line_break_clean) as [[[a b] m]|]; simpl; [|lia].
  etransitivity; [apply IH|]. lia.
Qed.

Lemma continuation_fuel fuel fuel' : ∀ st content l,
  length (st_rest st) < fuel → length (st_rest st) < fuel' →
  continuation fuel st content l = continuation fuel' st content l.
Proof.
  revert fuel'. induction fuel as [|fuel IH]; intros [|fuel'] st content l Hf Hf'; [lia..|]. cbn [continuation].
  destruct (getline st l) as [[[] l'] st'] eqn:Hg; [|done]. apply getline_shorter in Hg.
  destruct (regex_search l' re_config_line_break_clean) as [[[a b] m]|]; [|done]. apply IH; lia.
Qed.

Lemma config_lines_fuel fuel fuel' : ∀ st content path c,
  length (st_rest st) < fuel → length (st_rest st) < fuel' →
  config_lines fuel st content path c = config_lines fuel' st content path c.
Proof.
  revert fuel'. induction fuel as [|fuel IH]; intros [|fuel'] st content path c Hf Hf'; [lia..|]. cbn [config_lines].
  destruct (getline st content) as [[[] l] st'] eqn:Hg; [|done]. apply getline_shorter in Hg.
  assert (Hrest : length (st_rest (match regex_search l re_config_line_break_clean with
    | Some (_, _, m) => continuation (S (length (st_rest st'))) st' (match_str l m 1) [] | None => (l, st') end).2) ≤ length (st_rest st')).
  { destruct (regex_search l re_config_line_break_clean) as [[[a b] m]|]; [apply continuation_rest|done]. }
  destruct (match regex_search l re_config_line_break_clean with
    | Some (_, _, m) => continuation (S (length (st_rest st'))) st' (match_str l m 1) [] | None => (l, st') end) as [content' st''].
  cbn [snd] in Hrest. destruct (config_line content' path c) as [[path' c']|e| |]; outcome_simpl; [|done..]. apply IH; lia.
Qed.

(** More fuel than [initConfig] gives changes nothing: the reading of every
    file ends. *)
Lemma initConfig_fuel s c fuel : length s < fuel → config_lines fuel (Stream s false) [] [] c = initConfig (Some s) c.
Proof. intros Hf. apply config_lines_fuel; simpl; lia. Qed.
