(* ===== verification/HttpReply.v ===== *)
(** * HttpReply: the response side of [kernel/net/impl/httpimpl.cpp], with the
    status table of [kernel/net/impl/httpcodes.hpp], the socket calls of
    [kernel/net/impl/socketimpl.h] it uses and the exceptions of
    [ci/coreexcept.h]

    A connection is the [HttpImpl] object together with the log of its system
    calls.  The operating system is a parameter: the result of the [n]-th
    [send], and the clock.  The header map is given in its iteration order, so
    a theorem about every list of headers covers every order. *)
From Stdlib Require Import Ascii String.
From stdpp Require Import options.
From S2P Require Import Prelude Findmatch ZcString Buffer HttpParse Numerals.

Open Scope Z_scope.

(** ** [httpcodes.hpp] *)
Definition HttpMessagesList : list (Z * bytes) :=
  [(0, str "");
   (100, str "Continue");
   (101, str "Switching Protocols");
   (102, str "Processing");
   (200, str "OK");
   (201, str "Created");
   (202, str "Accepted");
   (203, str "Non-Authoritative Information");
   (204, str "No Content");
   (205, str "Reset Content");
   (206, str "Partial Content");
   (207, str "Multi-Status");
   (208, str "Already Reported");
   (226, str "IM Used");
   (300, str "Multiple Choices");
   (301, str "Moved Permanently");
   (302, str "Moved Temporarily");
   (302, str "Found");
   (303, str "See Other");
   (304, str "Not Modified");
   (305, str "Use Proxy");
   (306, str "Reserved");
   (307, str "Temporary Redirect");
   (308, str "Permanent Redirect");
   (400, str "Bad Request");
   (401, str "Unauthorized");
   (402, str "Payment Required");
   (403, str "Forbidden");
   (404, str "Not Found");
   (405, str "Method Not Allowed");
   (406, str "Not Acceptable");
   (407, str "Proxy Authentication Required");
   (408, str "Request Timeout");
   (409, str "Conflict");
   (410, str "Gone");
   (411, str "Length Required");
   (412, str "Precondition Failed");
   (413, str "Payload Too Large");
   (414, str "URI Too Long");
   (415, str "Unsupported Media Type");
   (416, str "Range Not Satisfiable");
   (417, str "Expectation Failed");
   (418, str "I" ++ ["146"%char] ++ str "m a teapot");
   (419, str "Authentication Timeout");
   (421, str "Misdirected Request");
   (422, str "Unprocessable Entity");
   (423, str "Locked");
   (424, str "Failed Dependency");
   (426, str "Upgrade Required");
   (428, str "Precondition Required");
   (429, str "Too Many Requests");
   (431, str "Request Header Fields Too Large");
   (449, str "Retry With");
   (451, str "Unavailable For Legal Reasons");
   (499, str "Client Closed Request");
   (500, str "Internal Server Error");
   (501, str "Not Implemented");
   (502, str "Bad Gateway");
   (503, str "Service Unavailable");
   (504, str "Gateway Timeout");
   (505, str "HTTP Version Not Supported");
   (506, str "Variant Also Negotiates");
   (507, str "Insufficient Storage");
   (508, str "Loop Detected");
   (509, str "Bandwidth Limit Exceeded");
   (510, str "Not Extended");
   (511, str "Network Authentication Required");
   (520, str "Unknown Error");
   (521, str "Web Server Is Down");
   (522, str "Connection Timed Out");
   (523, str "Origin Is Unreachable");
   (524, str "A Timeout Occurred");
   (525, str "SSL Handshake Failed");
   (526, str "Invalid SSL Certificate")].

(** [std::unordered_map] built from an initializer list keeps the first entry
    of a repeated key. *)
Fixpoint message_find (code : Z) (l : list (Z * bytes)) : option bytes :=
  match l with
  | [] => None
  | (c, m) :: l => if decide (code = c) then Some m else message_find code l
  end.

Definition HttpMessage (Code : Z) (Message : option bytes) : bytes :=
  match Message with
  | Some m => m
  | None =>
      match message_find Code HttpMessagesList with
      | Some m => m
      | None => default [] (message_find 0 HttpMessagesList)
      end
  end.

(** ** [coreexcept.h] *)

(** [SrcFile.c_str() + SrcFile.rfind('/') + 1] *)
Fixpoint basename (path : bytes) : bytes :=
  match path with
  | [] => []
  | c :: t => if bool_decide ("/"%char ∈ t) then basename t
              else if decide (c = "/"%char) then t else path
  end.

(** What [vsnprintf(buffer, size, ...)] stores of a formatted text: at most
    [size - 1] characters and a terminator; [size] is the length of the text,
    so the last character is lost. *)
Definition vsnprintf_into (size : nat) (formatted : bytes) : bytes := take (size - 1) formatted.

(** The message of [RuntimeException]. *)
Definition runtime_what (SrcFile : bytes) (SrcLine : Z) (formatted : bytes) : bytes :=
  vsnprintf_into (length formatted) formatted ++ str " | " ++ basename SrcFile
    ++ str ":" ++ to_string SrcLine.

(** ** The connection *)

(** A [const char *] handed to a callee: the text it points to, or a pointer
    into a string that has been destroyed. *)
Inductive cptr :=
  | Live (s : bytes)
  | Dangling.

#[export] Instance cptr_eq_dec : EqDecision cptr.
Proof. solve_decision. Defined.

Definition read_cptr (p : cptr) : outcome bytes :=
  match p with Live s => Ret s | Dangling => Undef end.

Record CTelemetry := MkTelemetry {
  tmCreatedAt : Z; tmReadingAt : Z; tmFinishedAt : Z; tmEmplacedAt : Z; tmExtractedAt : Z
}.

(** [HttpImpl]; the address is kept as the text and port its users print. *)
Record HttpImpl := MkHttp {
  Handle : Z;
  MsgId : Z;
  AddressText : bytes;
  AddressPort : Z;
  MaxRequestLength : nat;
  MaxHeaderLength : nat;
  Request : CRequest;
  Telemetry : CTelemetry
}.

(** The system calls made so far: sends with their results, closed
    descriptors, and readings of the clock. *)
Record Net := MkNet {
  sends : list (Z * bytes * Z);
  closes : list Z;
  ticks : nat
}.

Record Conn := MkConn { http : HttpImpl; net : Net }.

Definition set_handle (h : Z) (c : Conn) : Conn :=
  MkConn (MkHttp h (MsgId (http c)) (AddressText (http c)) (AddressPort (http c))
            (MaxRequestLength (http c)) (MaxHeaderLength (http c))
            (Request (http c)) (Telemetry (http c))) (net c).
Definition set_telemetry (t : CTelemetry) (c : Conn) : Conn :=
  MkConn (MkHttp (Handle (http c)) (MsgId (http c)) (AddressText (http c)) (AddressPort (http c))
            (MaxRequestLength (http c)) (MaxHeaderLength (http c))
            (Request (http c)) t) (net c).
Definition set_request (r : CRequest) (c : Conn) : Conn :=
  MkConn (MkHttp (Handle (http c)) (MsgId (http c)) (AddressText (http c)) (AddressPort (http c))
            (MaxRequestLength (http c)) (MaxHeaderLength (http c))
            r (Telemetry (http c))) (net c).
Definition set_net (n : Net) (c : Conn) : Conn := MkConn (http c) n.

Section os.
(** [send] for the number of earlier sends, the descriptor and the data;
    [utils::timestamp()] for the number of earlier readings. *)
Context `{PAST : !PastEnd} (send_res : nat → Z → bytes → Z) (now : nat → Z).

Definition timestamp : M Conn Z := λ c,
  let n := net c in
  (Ret (now (ticks n)), set_net (MkNet (sends n) (closes n) (S (ticks n))) c).

(** [Socket::WriteData]: no system call for an empty text.  A null pointer
    with a length makes [send] fail ([EFAULT]). *)
Definition WriteData (socket : Z) (data : option bytes) (data_length : Z) : M Conn Z := λ c,
  if decide (data_length = 0) then (Ret 0, c) else
  match data with
  | None => (Ret (-1), c)
  | Some mem =>
      if decide (Z.to_nat data_length ≤ length mem)%nat then
        let d := take (Z.to_nat data_length) mem in
        let n := net c in
        let r := send_res (length (sends n)) socket d in
        (Ret r, set_net (MkNet (sends n ++ [(socket, d, r)]) (closes n) (ticks n)) c)
      else (Undef, c)
  end.

(** [http_close_connection]: [shutdown], [Socket::Close], [Handle = 0]. *)
Definition http_close_connection : M Conn unit := λ c,
  if decide (Handle (http c) ≠ 0) then
    let n := net c in
    (Ret tt, set_handle 0 (set_net (MkNet (sends n) (closes n ++ [Handle (http c)]) (ticks n)) c))
  else (Ret tt, c).

Fixpoint append_headers (hs : list (cptr * cptr)) (answer : bytes) : outcome bytes :=
  match hs with
  | [] => Ret answer
  | (k, v) :: hs =>
      k ← read_cptr k; v ← read_cptr v;
      append_headers hs (answer ++ k ++ str ": " ++ v ++ CRLF)
  end.

Definition FIBER_SERVER : bytes := str "NavekFiber".
Definition FIBER_XPOWERED : bytes := str "FiberBus".
Definition FIBER_VERSION : bytes := str "19.1.0.0-dev".

Definition telemetry_field (name : bytes) (v : Z) : bytes :=
  if decide (v ≠ 0) then str ";" ++ name ++ str "=" ++ to_string_signed v else [].

(** The head of the answer up to the telemetry. *)
Definition answer_head (MsgId Code : Z) (Message : option bytes) (Content : option bytes)
    (ContentLength : Z) (HttpHeaders : list (cptr * cptr)) (ConnectionClose : bool)
    : outcome bytes :=
  let Answer := str "HTTP/1.1 " ++ toString Code ++ str " " ++ HttpMessage Code Message
    ++ CRLF ++ str "Server: " ++ FIBER_SERVER ++ CRLF ++ str "X-Powered-By: "
    ++ FIBER_XPOWERED ++ str "/" ++ FIBER_VERSION ++ CRLF in
  Answer ← append_headers HttpHeaders Answer;
  len ← (if decide (ContentLength ≠ 0) then Ret ContentLength
         else match Content with
              | Some mem => n ← strlen mem; Ret (Z.of_nat n)
              | None => Ret 0
              end);
  let Answer := Answer ++ str "Content-Length: " ++ toString len ++ CRLF in
  let Answer := Answer ++ (if ConnectionClose : bool then str "Connection: close" ++ CRLF else []) in
  Ret (Answer ++ str "X-MSG-UID: " ++ toString MsgId ++ CRLF).

Definition answer_telemetry (t : CTelemetry) : bytes :=
  str "X-Fiber-Msg-Telemetry: created-at=" ++ to_string_signed (tmCreatedAt t)
    ++ str ";reading-at=" ++ to_string_signed (tmReadingAt t)
    ++ telemetry_field (str "emplaced-at") (tmEmplacedAt t)
    ++ telemetry_field (str "extracted-at") (tmExtractedAt t)
    ++ str ";finished-at=" ++ to_string_signed (tmFinishedAt t) ++ CRLF.

Definition send_error (c : Conn) : exn :=
  RuntimeException (runtime_what (str "httpimpl.cpp") 145
    (str "Invalid send data " ++ AddressText (http c) ++ str ":" ++ to_string (AddressPort (http c))
      ++ str ". MsgId: " ++ to_string (MsgId (http c)))).

(** [HttpImpl::Reply] *)
Definition Reply (Code : Z) (Message : option bytes) (Content : option bytes) (ContentLength : Z)
    (HttpHeaders : list (cptr * cptr)) (ConnectionClose : bool) : M Conn unit :=
  c ← get;
  Answer ← lift (answer_head (MsgId (http c)) Code Message Content ContentLength HttpHeaders ConnectionClose);
  t ← timestamp;
  let tm := Telemetry (http c) in
  let tm := MkTelemetry (tmCreatedAt tm) (tmReadingAt tm) t (tmEmplacedAt tm) (tmExtractedAt tm) in
  _ ← modify (set_telemetry tm);
  let Answer := Answer ++ answer_telemetry tm ++ CRLF in
  n1 ← WriteData (Handle (http c)) (Some Answer) (Z.of_nat (length Answer));
  ok ← (if decide (n1 ≠ Z.of_nat (length Answer)) then mret false
        else n2 ← WriteData (Handle (http c)) Content ContentLength;
             mret (bool_decide (n2 = ContentLength)));
  if ok : bool then
    if ConnectionClose then http_close_connection else mret tt
  else
    _ ← http_close_connection;
    throw (send_error c).

(** [Reply(Code)] with the default arguments. *)
Definition Reply_code (Code : Z) : M Conn unit := Reply Code None None 0 [] true.

(** [HttpImpl::~HttpImpl] *)
Definition HttpImpl_destroy : M Conn unit := http_close_connection.

(** [HttpImpl::Process]: the socket of the connection, the content of the
    block [Read] allocates and [strerror] are parameters. *)
Definition Process (recv : nat → nat → recv_result) (ioctl : nat → option nat) (fresh : bytes)
    (strerror : Z → bytes) : M Conn unit :=
  c ← get;
  let at_ := AddressText (http c) ++ str ":" ++ to_string (AddressPort (http c)) in
  '(result, raw) ← lift (Read recv ioctl (ReadBufferImpl_new 0) fresh
                           (MaxRequestLength (http c)) (MaxHeaderLength (http c)));
  t ← timestamp;
  let tm := Telemetry (http c) in
  _ ← modify (set_telemetry (MkTelemetry (tmCreatedAt tm) t (tmFinishedAt tm)
                               (tmEmplacedAt tm) (tmExtractedAt tm)));
  if decide (result ≠ 0) then
    _ ← Reply_code 408;
    throw (RuntimeException (runtime_what (str "httpimpl.cpp") 94
      (str "Invalid receive data " ++ at_ ++ str ". Socket error " ++ strerror result ++ str "("
        ++ to_string result ++ str "). MsgId: " ++ to_string (MsgId (http c)))))
  else
    '(code, request) ← lift (http_parse_request raw (Request (http c)));
    _ ← modify (set_request request);
    if decide (code ≠ 0) then
      _ ← Reply_code code;
      throw (RuntimeException (runtime_what (str "httpimpl.cpp") 99
        (str "Invalid HTTP request " ++ at_ ++ str ". HTTP error: " ++ to_string code
          ++ str ".  MsgId: " ++ to_string (MsgId (http c)))))
    else mret tt.
End os.

(** [HttpImpl::HttpImpl] *)
Definition HttpImpl_new (now : nat → Z) (mid hSocket : Z) (addr : bytes) (port : Z)
    (max_request_length max_header_length : nat) (request0 : CRequest) : Conn :=
  MkConn (MkHttp hSocket mid addr port max_request_length max_header_length request0
            (MkTelemetry (now 0%nat) 0 0 0 0)) (MkNet [] [] 1).

(** ** The descriptor is closed once *)

(** The connection still owns descriptor [h], or closed it exactly once. *)
Definition owns_once (h : Z) (c : Conn) : Prop :=
  (Handle (http c) = h ∧ closes (net c) = []) ∨ (Handle (http c) = 0 ∧ closes (net c) = [h]).

Section reply_lemmas.
Context (send_res : nat → Z → bytes → Z) (now : nat → Z).

Lemma WriteData_preserves h socket data len : preserves (owns_once h) (WriteData send_res socket data len).
Proof.
  intros c Hc. unfold WriteData. case_decide; [done|]. destruct data as [mem|]; [|done].
  case_decide; [|done]. exact Hc.
Qed.

Lemma timestamp_preserves h : preserves (owns_once h) (timestamp now).
Proof. intros c Hc. exact Hc. Qed.

Lemma set_telemetry_preserves h t : preserves (owns_once h) (modify (set_telemetry t)).
Proof. intros c Hc. exact Hc. Qed.

Lemma set_request_preserves h r : preserves (owns_once h) (modify (set_request r)).
Proof. intros c Hc. exact Hc. Qed.

Lemma close_preserves h : h ≠ 0 → preserves (owns_once h) http_close_connection.
Proof.
  intros Hh c Hc. unfold http_close_connection. case_decide as Hz; [|done].
  destruct Hc as [[He Hn]|[He Hn]]; [|done]. right. simpl. by rewrite He, Hn.
Qed.

#[local] Hint Resolve WriteData_preserves timestamp_preserves set_telemetry_preserves
  set_request_preserves close_preserves : fiber.

(** What sending, closing and the telemetry keep, [Reply] keeps. *)
Lemma Reply_keeps_invariant (I : Conn → Prop) Code Message Content len hs close :
  (∀ s d l, preserves I (WriteData send_res s d l)) → preserves I http_close_connection → preserves I (timestamp now) →
  (∀ t, preserves I (modify (set_telemetry t))) → preserves I (Reply send_res now Code Message Content len hs close).
Proof. intros Hw Hc Ht Hs. unfold Reply. repeat first [progress auto with fiber | apply preserves_bind; intros]. Qed.

Lemma Reply_preserves h Code Message Content len hs close :
  h ≠ 0 → preserves (owns_once h) (Reply send_res now Code Message Content len hs close).
Proof. intros Hh. apply Reply_keeps_invariant; auto with fiber. Qed.

(** A closed connection stays closed. *)
Definition is_closed (c : Conn) : Prop := Handle (http c) = 0.

Lemma close_closes c : is_closed (http_close_connection c).2.
Proof. unfold http_close_connection, is_closed. case_decide as Hz; [done|]. cbn. lia. Qed.

Lemma Reply_keeps_closed Code Message Content len hs close :
  preserves is_closed (Reply send_res now Code Message Content len hs close).
Proof.
  apply Reply_keeps_invariant.
  - intros s d l c Hc. unfold WriteData. repeat case_match; exact Hc.
  - intros c _. apply close_closes.
  - intros c Hc. exact Hc.
  - intros t c Hc. exact Hc.
Qed.

Lemma answer_head_no_throw m Code Message Content len hs close e : answer_head m Code Message Content len hs close ≠ Throw e.
Proof.
  unfold answer_head. generalize (str "HTTP/1.1 " ++ toString Code ++ str " " ++ HttpMessage Code Message
    ++ CRLF ++ str "Server: " ++ FIBER_SERVER ++ CRLF ++ str "X-Powered-By: "
    ++ FIBER_XPOWERED ++ str "/" ++ FIBER_VERSION ++ CRLF). intros a.
  assert (Ha : ∀ e, append_headers hs a ≠ Throw e).
  { clear e. revert a. induction hs as [|[[k|] [v|]] hs IH]; intros a e; cbn [append_headers read_cptr]; outcome_simpl; [done|apply IH|done..]. }
  destruct (append_headers hs a) as [x|e'| |]; outcome_simpl; [|by destruct (Ha e')|done..].
  case_decide; outcome_simpl; [done|]. destruct Content as [mem|]; outcome_simpl; [|done].
  assert (Hn : ∀ e, strlen mem ≠ Throw e).
  { clear. induction mem as [|x mem IH]; intros e; cbn [strlen]; [done|]. case_decide; [done|].
    destruct (strlen mem) as [n|e'| |]; outcome_simpl; [done|by destruct (IH e')|done..]. }
  destruct (strlen mem) as [n|e'| |]; outcome_simpl; [done|by destruct (Hn e')|done..].
Qed.

(** Code after which the connection is closed, when it returns and when it
    throws. *)
Definition leaves_closed {A} (m : M Conn A) : Prop :=
  ∀ c, match m c with (Ret _, c') | (Throw _, c') => is_closed c' | _ => True end.

Lemma leaves_closed_bind {A B} (m : M Conn A) (f : A → M Conn B) :
  (∀ c e, (m c).1 ≠ Throw e) → (∀ a, leaves_closed (f a)) → leaves_closed (m ≫= f).
Proof.
  intros Hm Hf c. unfold mbind, M_bind. specialize (Hm c). destruct (m c) as [[a|e| |] c']; [apply Hf|by destruct (Hm e)|done..].
Qed.

Lemma WriteData_no_throw s d l c e : (WriteData send_res s d l c).1 ≠ Throw e.
Proof. unfold WriteData. repeat case_match; done. Qed.

(** A reply that closes the connection has closed it when it returns, and when
    it throws. *)
Lemma Reply_closes Code Message Content len hs :
  leaves_closed (Reply send_res now Code Message Content len hs true).
Proof.
  unfold Reply. apply leaves_closed_bind; [done|]. intros c.
  apply leaves_closed_bind; [intros ? e; apply answer_head_no_throw|]. intros Answer.
  apply leaves_closed_bind; [done|]. intros t. apply leaves_closed_bind; [done|]. intros _.
  apply leaves_closed_bind; [intros; apply WriteData_no_throw|]. intros n1.
  apply leaves_closed_bind.
  { intros c1 e. case_decide; [done|]. unfold mbind, M_bind.
    pose proof (WriteData_no_throw (Handle (http c)) Content len c1) as Hw.
    destruct (WriteData _ _ _ _ c1) as [[n2|e2| |] c2]; [done|by destruct (Hw e2)|done..]. }
  intros [] c1; pose proof (close_closes c1) as Hc; [|unfold mbind, M_bind]; unfold http_close_connection in *; case_decide; exact Hc.
Qed.

(** The telemetry after [Reply], and the text it sends first. *)
Definition finished (c : Conn) : CTelemetry :=
  let tm := Telemetry (http c) in
  MkTelemetry (tmCreatedAt tm) (tmReadingAt tm) (now (ticks (net c))) (tmEmplacedAt tm) (tmExtractedAt tm).

Definition full_answer (head : bytes) (c : Conn) : bytes :=
  head ++ answer_telemetry (finished c) ++ CRLF.

Lemma full_answer_nonempty head c : full_answer head c ≠ [].
Proof. unfold full_answer. intros H. apply app_nil in H as [_ H]. by apply app_nil in H as [_ H]. Qed.

(** What the two system calls of [Reply] leave, in order. *)
Definition reply_sends (c : Conn) (head data : bytes) : list (Z * bytes * Z) :=
  let h := Handle (http c) in
  let A := full_answer head c in
  let n := length (sends (net c)) in
  let r1 := send_res n h A in
  (h, A, r1) ::
    (if decide (r1 = Z.of_nat (length A)) then
       if decide (data = []) then [] else [(h, data, send_res (S n) h data)]
     else []).

Definition all_sent (l : list (Z * bytes * Z)) : Prop :=
  Forall (λ x, x.2 = Z.of_nat (length x.1.2)) l.

#[export] Instance all_sent_dec l : Decision (all_sent l).
Proof. unfold all_sent. apply _. Defined.

Lemma WriteData_some socket d rest c :
  d ≠ [] →
  WriteData send_res socket (Some (d ++ rest)) (Z.of_nat (length d)) c
  = (Ret (send_res (length (sends (net c))) socket d),
     set_net (MkNet (sends (net c) ++ [(socket, d, send_res (length (sends (net c))) socket d)])
                (closes (net c)) (ticks (net c))) c).
Proof.
  intros Hd. unfold WriteData. rewrite decide_False.
  2: { destruct d; [done|]. simpl. lia. }
  rewrite Nat2Z.id, decide_True by (rewrite length_app; lia). by rewrite take_app_length.
Qed.

Lemma WriteData_zero socket data c : WriteData send_res socket data 0 c = (Ret 0, c).
Proof. done. Qed.

Lemma WriteData_all socket d c :
  d ≠ [] →
  WriteData send_res socket (Some d) (Z.of_nat (length d)) c
  = (Ret (send_res (length (sends (net c))) socket d),
     set_net (MkNet (sends (net c) ++ [(socket, d, send_res (length (sends (net c))) socket d)])
                (closes (net c)) (ticks (net c))) c).
Proof. intros Hd. rewrite <- (WriteData_some socket d [] c Hd). by rewrite app_nil_r. Qed.

Lemma close_run c :
  http_close_connection c
  = (Ret tt, MkConn (http (set_handle 0 c))
      (MkNet (sends (net c)) (closes (net c) ++ (if decide (Handle (http c) = 0) then [] else [Handle (http c)]))
         (ticks (net c)))).
Proof.
  unfold http_close_connection. destruct (decide (Handle (http c) = 0)) as [Hz|Hz].
  - rewrite decide_False by auto. rewrite app_nil_r.
    destruct c as [[] []]; simpl in *. by subst.
  - rewrite decide_True by done. done.
Qed.

(** [Reply] on every path, given the head of the answer. *)
Lemma Reply_run c Code Message Content len hs close head data :
  answer_head (MsgId (http c)) Code Message Content len hs close = Ret head →
  len = Z.of_nat (length data) →
  (data ≠ [] → ∃ rest, Content = Some (data ++ rest)) →
  ∃ c', Reply send_res now Code Message Content len hs close c
    = (if decide (all_sent (reply_sends c head data)) then Ret tt else Throw (send_error c), c') ∧
    sends (net c') = sends (net c) ++ reply_sends c head data ∧
    MsgId (http c') = MsgId (http c) ∧
    (close = true ∨ ¬ all_sent (reply_sends c head data) →
       Handle (http c') = 0 ∧
       closes (net c') = closes (net c) ++ (if decide (Handle (http c) = 0) then [] else [Handle (http c)])) ∧
    (close = false → all_sent (reply_sends c head data) →
       Handle (http c') = Handle (http c) ∧ closes (net c') = closes (net c)).
Proof.
  intros Hhead -> Hdata. unfold Reply. unfold mbind, M_bind, get, lift. rewrite Hhead.
  unfold timestamp, modify. cbn [fst snd].
  fold (full_answer head c). set (A := full_answer head c).
  change (head ++ answer_telemetry _ ++ CRLF) with A.
  assert (HA : A ≠ []) by apply full_answer_nonempty.
  rewrite WriteData_all by done.
  cbn [set_net set_telemetry net http sends closes ticks].
  unfold reply_sends. fold A. set (h := Handle (http c)).
  set (r1 := send_res (length (sends (net c))) h A).
  destruct (decide (r1 = Z.of_nat (length A))) as [Hr1|Hr1].
  2: { (* the head is not sent *)
    assert (Hf : ¬ all_sent [(h, A, r1)]) by (intros [? _]%Forall_cons; done).
    rewrite (decide_True (P := r1 ≠ _)) by done. cbn [mret M_ret]. rewrite close_run.
    rewrite (decide_False (P := all_sent _)) by done.
    eexists. split; [done|]. by split_and!. }
  rewrite (decide_False (P := r1 ≠ _)) by auto.
  destruct (decide (data = [])) as [->|Hne].
  - assert (Hf : all_sent [(h, A, r1)]) by by repeat constructor.
    rewrite (decide_True (P := all_sent _)) by done.
    change (Z.of_nat (length [])) with 0. rewrite WriteData_zero. cbn [mret M_ret].
    rewrite bool_decide_eq_true_2 by done. destruct close.
    + rewrite close_run. eexists. split; [done|]. by split_and!.
    + eexists. split; [done|]. split_and!; [done..| by intros [|]|done].
  - destruct (Hdata Hne) as [rest ->]. rewrite WriteData_some by done.
    cbn [net sends closes ticks set_net]. rewrite length_app, Nat.add_1_r.
    set (r2 := send_res (S (length (sends (net c)))) h data). cbn [mret M_ret].
    destruct (decide (r2 = Z.of_nat (length data))) as [Hr2|Hr2].
    + rewrite bool_decide_eq_true_2 by done.
      assert (Hf : all_sent [(h, A, r1); (h, data, r2)]) by by repeat constructor.
      rewrite (decide_True (P := all_sent _)) by done. destruct close.
      * rewrite close_run. eexists. split; [done|]. rewrite <- app_assoc. by split_and!.
      * eexists. split; [done|]. rewrite <- app_assoc. split_and!; [done..| by intros [|]|done].
    + rewrite bool_decide_eq_false_2 by done. rewrite close_run.
      assert (Hf : ¬ all_sent [(h, A, r1); (h, data, r2)]).
      { intros [_ [? _]%Forall_cons]%Forall_cons. done. }
      rewrite (decide_False (P := all_sent _)) by done.
      eexists. split; [done|]. rewrite <- app_assoc. by split_and!.
Qed.
End reply_lemmas.

(** ** The text of an answer *)

(** Header fields whose strings are alive. *)
Definition live_fields (fs : list (bytes * bytes)) : list (cptr * cptr) :=
  (λ f, (Live f.1, Live f.2)) <$> fs.

Definition field_lines (fs : list (bytes * bytes)) : bytes :=
  concat ((λ f, f.1 ++ str ": " ++ f.2 ++ CRLF) <$> fs).

Lemma append_headers_live fs answer :
  append_headers (live_fields fs) answer = Ret (answer ++ field_lines fs).
Proof.
  revert answer. induction fs as [|[k v] fs IH]; intros answer.
  - cbn. by rewrite app_nil_r.
  - change (live_fields ((k, v) :: fs)) with ((Live k, Live v) :: live_fields fs).
    cbn [append_headers read_cptr]. outcome_simpl. rewrite IH. unfold field_lines.
    cbn [fmap list_fmap concat fst snd]. by rewrite <- !app_assoc.
Qed.

Lemma append_headers_dangling hs answer :
  Exists (λ h, h.1 = Dangling ∨ h.2 = Dangling) hs →
  append_headers hs answer = Undef.
Proof.
  intros Hex. revert answer. induction Hex as [[k v] hs [Hk|Hk]|[k v] hs Hex IH]; intros answer; simpl in *; subst.
  - done.
  - by destruct k.
  - destruct k, v; cbn; done || apply IH.
Qed.

Definition status_lines (Code : Z) (Message : option bytes) : bytes :=
  str "HTTP/1.1 " ++ toString Code ++ str " " ++ HttpMessage Code Message ++ CRLF
    ++ str "Server: " ++ FIBER_SERVER ++ CRLF
    ++ str "X-Powered-By: " ++ FIBER_XPOWERED ++ str "/" ++ FIBER_VERSION ++ CRLF.

Definition answer_text (mid Code : Z) (Message : option bytes) (fs : list (bytes * bytes))
    (announced : Z) (close : bool) : bytes :=
  status_lines Code Message ++ field_lines fs
    ++ str "Content-Length: " ++ toString announced ++ CRLF
    ++ (if close then str "Connection: close" ++ CRLF else [])
    ++ str "X-MSG-UID: " ++ toString mid ++ CRLF.

Lemma answer_head_live mid Code Message Content len fs close :
  len ≠ 0 →
  answer_head mid Code Message Content len (live_fields fs) close
  = Ret (answer_text mid Code Message fs len close).
Proof.
  intros Hlen. unfold answer_head. rewrite append_headers_live. outcome_simpl.
  rewrite decide_True by done. outcome_simpl. unfold answer_text, status_lines.
  by rewrite <- !app_assoc.
Qed.

Lemma answer_head_empty mid Code Message Content n fs close :
  match Content with Some mem => strlen mem = Ret n | None => n = 0%nat end →
  answer_head mid Code Message Content 0 (live_fields fs) close
  = Ret (answer_text mid Code Message fs (Z.of_nat n) close).
Proof.
  intros Hn. unfold answer_head. rewrite append_headers_live. outcome_simpl.
  rewrite decide_False by auto. destruct Content as [mem|].
  - rewrite Hn. outcome_simpl. unfold answer_text, status_lines. by rewrite <- !app_assoc.
  - rewrite Hn. outcome_simpl. unfold answer_text, status_lines. by rewrite <- !app_assoc.
Qed.

(** ** Properties *)

(** An operating system that sends everything it is given. *)
Definition sends_all (send_res : nat → Z → bytes → Z) : Prop :=
  ∀ n fd d, send_res n fd d = Z.of_nat (length d).

(** C14: a reply with a body, on a socket that takes everything: [Reply] returns;
    it makes exactly two sends on the descriptor, a head and then the body; the
    head is the status line with the given or the standard message, the server
    fields, the caller's fields, a [Content-Length] equal to the length of the
    body, the message id, the telemetry and an empty line; and with
    [ConnectionClose] the descriptor is closed once. *)
Theorem Reply_delivers send_res now c Code Message data rest fs :
  sends_all send_res → data ≠ [] → Handle (http c) ≠ 0 →
  let len := Z.of_nat (length data) in
  let head := answer_text (MsgId (http c)) Code Message fs len true
    ++ answer_telemetry (finished now c) ++ CRLF in
  ∃ c', Reply send_res now Code Message (Some (data ++ rest)) len (live_fields fs) true c = (Ret tt, c') ∧
    sends (net c') = sends (net c)
      ++ [(Handle (http c), head, Z.of_nat (length head)); (Handle (http c), data, len)] ∧
    Handle (http c') = 0 ∧ closes (net c') = closes (net c) ++ [Handle (http c)].
Proof.
  intros Hos Hd Hh len head.
  assert (Hlen : len ≠ 0) by (unfold len; destruct data; simpl; [done|lia]).
  destruct (Reply_run send_res now c Code Message (Some (data ++ rest)) len (live_fields fs) true _ data
    (answer_head_live _ _ _ _ _ _ _ Hlen) eq_refl ltac:(by eexists)) as (c' & Hrun & Hs & _ & Hclose & _).
  exists c'. revert Hrun Hs Hclose. unfold reply_sends, full_answer. fold head.
  rewrite !Hos, (decide_True (P := Z.of_nat _ = _)), (decide_False (P := data = [])) by done. fold len.
  rewrite (decide_True (P := all_sent _)) by by repeat constructor. rewrite (decide_False (P := Handle _ = 0)) by done.
  intros Hrun Hs Hclose. destruct Hclose; [by left|]. by split_and!.
Qed.

(** An answer without content on a socket that takes it whole. *)
Lemma Reply_code_sends send_res now c code :
  (∀ n d, send_res n (Handle (http c)) d = Z.of_nat (length d)) → Handle (http c) ≠ 0 →
  ∃ c', Reply_code send_res now code c = (Ret tt, c') ∧
    let answer := answer_text (MsgId (http c)) code None [] 0 true ++ answer_telemetry (finished now c) ++ CRLF in
    sends (net c') = sends (net c) ++ [(Handle (http c), answer, Z.of_nat (length answer))] ∧
    closes (net c') = closes (net c) ++ [Handle (http c)] ∧ Handle (http c') = 0 ∧ MsgId (http c') = MsgId (http c).
Proof.
  intros Hos Hh.
  pose proof (answer_head_empty (MsgId (http c)) code None None 0 [] true eq_refl) as Hhead.
  destruct (Reply_run send_res now c code None None 0 [] true _ [] Hhead eq_refl ltac:(done)) as (c' & Hrun & Hs & Hid & Hcl & _).
  exists c'. revert Hrun Hs Hcl. unfold reply_sends, full_answer.
  rewrite Hos, (decide_True (P := Z.of_nat _ = _)), (decide_True (P := [] = [])) by done.
  rewrite (decide_True (P := all_sent _)) by by repeat constructor. rewrite (decide_False (P := Handle _ = 0)) by done.
  intros Hrun Hs Hcl. destruct Hcl as [Hcl1 Hcl2]; [by left|]. by split_and!.
Qed.

(** [Process] refuses its request with a code: the socket failed, or the parser
    reports an error. *)
Definition refuses `{PAST : !PastEnd} recv ioctl fresh (c : Conn) (code : Z) : Prop :=
  ∃ e raw, Read recv ioctl (ReadBufferImpl_new 0) fresh (MaxRequestLength (http c)) (MaxHeaderLength (http c)) = Ret (e, raw) ∧
    ((e ≠ 0 ∧ code = 408) ∨
     (e = 0 ∧ code ≠ 0 ∧ ∃ request, http_parse_request raw (Request (http c)) = Ret (code, request))).

(** Then it has answered with that code and closed the connection before it
    throws. *)
Lemma Process_refuses `{PAST : !PastEnd} send_res now recv ioctl fresh strerror c code :
  refuses recv ioctl fresh c code →
  (∀ n d, send_res n (Handle (http c)) d = Z.of_nat (length d)) → Handle (http c) ≠ 0 →
  ∃ what c' tail, Process send_res now recv ioctl fresh strerror c = (Throw (RuntimeException what), c') ∧
    (let answer := answer_text (MsgId (http c)) code None [] 0 true ++ tail in
     sends (net c') = sends (net c) ++ [(Handle (http c), answer, Z.of_nat (length answer))]) ∧
    closes (net c') = closes (net c) ++ [Handle (http c)] ∧ Handle (http c') = 0.
Proof.
  intros (e & raw & Hread & Hcase) Hos Hh. unfold Process. unfold mbind, M_bind, get. cbn [fst snd]. unfold lift at 1. rewrite Hread.
  unfold timestamp, modify. cbn [fst snd].
  destruct Hcase as [[He ->]|(-> & Hcode & request & Hparse)].
  - rewrite decide_True by done.
    match goal with |- context [Reply_code _ _ 408 ?c1] => destruct (Reply_code_sends send_res now c1 408 Hos Hh) as (c' & -> & Hs & Hcl & H0 & _) end.
    eexists _, c', _. by split_and!.
  - rewrite decide_False by auto. unfold lift. rewrite Hparse. cbn [fst snd]. rewrite decide_True by done.
    match goal with |- context [Reply_code _ _ code ?c1] => destruct (Reply_code_sends send_res now c1 code Hos Hh) as (c' & -> & Hs & Hcl & H0 & _) end.
    eexists _, c', _. by split_and!.
Qed.

(** A connection of the demonstrations: descriptor 5, message 77. *)
Definition demo_conn : Conn :=
  HttpImpl_new (λ n, 1000 + Z.of_nat n) 77 5 (str "127.0.0.1") 4711 1024 256 fresh_request.
Definition full_send (n : nat) (fd : Z) (d : bytes) : Z := Z.of_nat (length d).

Lemma Reply_delivers_witness :
  sends_all full_send ∧ str "hello" ≠ [] ∧ Handle (http demo_conn) ≠ 0 ∧
  ∃ c', Reply full_send (λ n, 1000 + Z.of_nat n) 200 (Some (str "OK")) (Some (str "hello" ++ [NUL])) 5
      (live_fields [(str "X-MQ-CLASS", str "demo")]) true demo_conn = (Ret tt, c') ∧
    sends (net c') = []
      ++ [(5, answer_text 77 200 (Some (str "OK")) [(str "X-MQ-CLASS", str "demo")] 5 true
              ++ answer_telemetry (finished (λ n, 1000 + Z.of_nat n) demo_conn) ++ CRLF, 217);
          (5, str "hello", 5)] ∧
    Handle (http c') = 0 ∧ closes (net c') = [] ++ [5].
Proof.
  assert (H : sends_all full_send) by done.
  assert (Hd : str "hello" ≠ []) by done.
  assert (Hh : Handle (http demo_conn) ≠ 0) by done.
  split; [exact H|]. split; [exact Hd|]. split; [exact Hh|].
  exact (Reply_delivers full_send (λ n, 1000 + Z.of_nat n) demo_conn 200 (Some (str "OK")) (str "hello") [NUL]
    [(str "X-MQ-CLASS", str "demo")] H Hd Hh).
Defined.



(** C38: a reply that the socket does not take in full fails cleanly: when one of
    the sends of [Reply] transfers fewer bytes than it was given (or fails), the
    descriptor is closed, the handle cleared and a [RuntimeException] thrown. *)
Theorem Reply_short_send_fails send_res now c Code Message Content len hs close head data :
  answer_head (MsgId (http c)) Code Message Content len hs close = Ret head →
  len = Z.of_nat (length data) → (data ≠ [] → ∃ rest, Content = Some (data ++ rest)) →
  Handle (http c) ≠ 0 →
  ¬ all_sent (reply_sends send_res now c head data) →
  ∃ c' w, Reply send_res now Code Message Content len hs close c = (Throw (RuntimeException w), c') ∧
    Handle (http c') = 0 ∧ closes (net c') = closes (net c) ++ [Handle (http c)].
Proof.
  intros Hhead Hlen Hdata Hh Hshort.
  destruct (Reply_run send_res now c Code Message Content len hs close head data Hhead Hlen Hdata)
    as (c' & Hrun & _ & _ & Hclose & _).
  rewrite decide_False in Hrun by done. destruct Hclose as [Hz Hcl]; [by right|].
  rewrite decide_False in Hcl by done. exists c'. eexists. by split_and!.
Qed.

Lemma Reply_short_send_fails_witness :
  let send := (λ (n : nat) (fd : Z) (d : bytes), -1) in
  let now := λ n, Z.of_nat n in
  ¬ all_sent (reply_sends send now demo_conn (answer_text 77 204 None [] 0 true) []) ∧
  ∃ c' w, Reply send now 204 None None 0 [] true demo_conn = (Throw (RuntimeException w), c') ∧
    Handle (http c') = 0 ∧ closes (net c') = [] ++ [5].
Proof.
  intros send now.
  assert (Hs : ¬ all_sent (reply_sends send now demo_conn (answer_text 77 204 None [] 0 true) [])).
  { intros [H _]%Forall_cons. cbn in H. discriminate. }
  split; [exact Hs|].
  apply (Reply_short_send_fails send now demo_conn 204 None None 0 [] true (answer_text 77 204 None [] 0 true) []);
    [reflexivity | reflexivity | done | done | exact Hs].
Defined.

(** The operations on a connection. *)
Inductive conn_op :=
  | OpReply (Code : Z) (Message Content : option bytes) (len : Z) (hs : list (cptr * cptr)) (close : bool)
  | OpProcess (recv : nat → nat → recv_result) (ioctl : nat → option nat) (fresh : bytes).

Section conn_runs.
Context `{PAST : !PastEnd} (send_res : nat → Z → bytes → Z) (now : nat → Z) (strerror : Z → bytes).

Definition run_op (op : conn_op) : M Conn unit :=
  match op with
  | OpReply Code Message Content len hs close => Reply send_res now Code Message Content len hs close
  | OpProcess recv ioctl fresh => Process send_res now recv ioctl fresh strerror
  end.

(** Operations one after the other, each one's exception caught by its caller. *)
Fixpoint run_ops (ops : list conn_op) (c : Conn) : Conn :=
  match ops with
  | [] => c
  | op :: ops => run_ops ops (run_op op c).2
  end.

(** What the replies and the changes of fields keep, [Process] keeps. *)
Lemma Process_keeps_invariant (I : Conn → Prop) recv ioctl fresh :
  preserves I (timestamp now) → (∀ t, preserves I (modify (set_telemetry t))) → (∀ r, preserves I (modify (set_request r))) →
  (∀ code, preserves I (Reply_code send_res now code)) → preserves I (Process send_res now recv ioctl fresh strerror).
Proof.
  intros Ht Hs Hq Hr. unfold Process. apply preserves_bind; [apply preserves_get|]. intros c.
  apply preserves_bind; [apply preserves_lift|]. intros [result raw].
  apply preserves_bind; [apply Ht|]. intros t. apply preserves_bind; [apply Hs|]. intros _.
  apply preserves_decide.
  { apply preserves_bind; [apply Hr|]. intros _. apply preserves_throw. }
  apply preserves_bind; [apply preserves_lift|]. intros [code request].
  apply preserves_bind; [apply Hq|]. intros _. apply preserves_decide; [|apply preserves_ret].
  apply preserves_bind; [apply Hr|]. intros _. apply preserves_throw.
Qed.

Lemma Process_preserves h recv ioctl fresh :
  h ≠ 0 → preserves (owns_once h) (Process send_res now recv ioctl fresh strerror).
Proof.
  intros Hh. apply Process_keeps_invariant; [apply timestamp_preserves|apply set_telemetry_preserves|apply set_request_preserves|].
  intros code. exact (Reply_preserves send_res now h code None None 0 [] true Hh).
Qed.

Lemma run_ops_owns_once h ops c : h ≠ 0 → owns_once h c → owns_once h (run_ops ops c).
Proof.
  intros Hh. revert c. induction ops as [|op ops IH]; intros c Hc; [done|]. apply IH.
  destruct op; [by apply Reply_preserves | by apply Process_preserves].
Qed.
End conn_runs.

(** C15: the descriptor of a connection is closed exactly once. Whatever replies
    and request processings run on a handler, with whatever socket behaviour and
    whatever exceptions, once the destructor has run the log of closed
    descriptors is exactly the accepted descriptor: never leaked, never closed
    twice. *)
Theorem descriptor_closed_exactly_once `{PAST : !PastEnd} send_res now strerror mid h addr port maxr maxh r0 ops :
  h ≠ 0 →
  let c := (HttpImpl_destroy (run_ops send_res now strerror ops (HttpImpl_new now mid h addr port maxr maxh r0))).2 in
  closes (net c) = [h] ∧ Handle (http c) = 0.
Proof.
  intros Hh.
  assert (Ho : owns_once h (HttpImpl_new now mid h addr port maxr maxh r0)) by (left; split; reflexivity).
  apply (run_ops_owns_once send_res now strerror h ops _ Hh) in Ho.
  generalize dependent (run_ops send_res now strerror ops (HttpImpl_new now mid h addr port maxr maxh r0)).
  intros c Ho. unfold HttpImpl_destroy. rewrite close_run. cbn [snd net http closes set_handle Handle].
  split; [|done]. destruct Ho as [[-> ->]|[-> ->]].
  - by rewrite decide_False.
  - by rewrite decide_True.
Qed.

#[local] Existing Instance readable_past_end.

Lemma descriptor_closed_exactly_once_witness :
  5 ≠ 0 ∧
  let c := (HttpImpl_destroy (run_ops full_send (λ n, Z.of_nat n) (λ _, [])
    [OpReply 200 None None 0 [] true; OpReply 503 None None 0 [] true]
    (HttpImpl_new (λ n, Z.of_nat n) 1 5 [] 0 16 16 fresh_request))).2 in
  closes (net c) = [5] ∧ Handle (http c) = 0.
Proof.
  assert (H : 5 ≠ 0) by done. split; [exact H|].
  exact (descriptor_closed_exactly_once full_send (λ n, Z.of_nat n) (λ _, []) 1 5 [] 0 16 16 fresh_request
    [OpReply 200 None None 0 [] true; OpReply 503 None None 0 [] true] H).
Defined.
