(* ===== verification/Formatting.v ===== *)
(** * Formatting: letters and formatted texts

    [lowercase], [uppercase] and [format] of [ci/utils/transform.h] and
    [SystemException] of [ci/coreexcept.h].  Nothing on the path of a request
    calls them.  A text formatted by [printf] is given as the list of the pieces
    of its format. *)
From Stdlib Require Import Ascii String.
From stdpp Require Import options.
From S2P Require Import Prelude Findmatch Numerals HttpReply.

#[local] Open Scope Z_scope.

(** [::tolower] and [::toupper] in the "C" locale; a negative [char] is left
    alone. *)
Definition is_upper (c : ascii) : bool := bool_decide (65 ≤ u8 c ≤ 90).
Definition is_lower (c : ascii) : bool := bool_decide (97 ≤ u8 c ≤ 122).
Definition tolower (c : ascii) : ascii := if is_upper c then ascii_of_nat (nat_of_ascii c + 32) else c.
Definition toupper (c : ascii) : ascii := if is_lower c then ascii_of_nat (nat_of_ascii c - 32) else c.

Definition lowercase (s : bytes) : bytes := tolower <$> s.
Definition uppercase (s : bytes) : bytes := toupper <$> s.

(** [snprintf(buffer, size, ...)] with the formatted text: what the buffer holds
    afterwards, up to its terminator, which is written when [size] is not 0. *)
Definition snprintf_buffer (size : nat) (formatted : bytes) (buffer : bytes) : bytes :=
  match size with
  | O => buffer
  | S n => take n formatted ++ [NUL] ++ drop (S (length (take n formatted))) buffer
  end.

(** [format(format, ...)]: the size is asked for, with one more for the
    terminator, and the result leaves the terminator out.  [fresh] is the
    allocated buffer. *)
Definition format (fresh : nat → bytes) (formatted : bytes) : bytes :=
  let size := (length formatted + 1)%nat in
  take (size - 1) (snprintf_buffer size formatted (fresh size)).

(** [SystemException(ErrCode, Scope, SrcFile, SrcLine)] and [what()]: the
    formatted text, and the part of it that the buffer gets. *)
Definition system_text (strerror : Z → bytes) (ErrCode : Z) (Scope SrcFile : bytes) (SrcLine : Z) : bytes :=
  str "[EXCEPTION] " ++ Scope ++ str ": " ++ strerror ErrCode ++ str " (" ++ to_string_signed ErrCode ++ str ") | "
    ++ basename SrcFile ++ str ":" ++ to_string_signed SrcLine.

(** The C string at the begin of a buffer. *)
Fixpoint c_string (buffer : bytes) : bytes :=
  match buffer with [] => [] | c :: t => if decide (c = NUL) then [] else c :: c_string t end.

Definition SystemException_what (strerror : Z → bytes) (ErrCode : Z) (Scope SrcFile : bytes) (SrcLine : Z) : bytes :=
  let text := system_text strerror ErrCode Scope SrcFile SrcLine in
  let size := length text in
  (* resize(size + 1) *)
  c_string (snprintf_buffer size text (replicate (size + 1) NUL)).

(** ** Letters *)

Lemma every_char (P : ascii → Prop) `{!∀ c, Decision (P c)} :
  forallb (λ n, bool_decide (P (ascii_of_nat n))) (seq 0 256) = true → ∀ c, P c.
Proof.
  intros Hall c. rewrite forallb_forall in Hall. rewrite <- (ascii_nat_embedding c).
  refine (bool_decide_eq_true_1 (P (ascii_of_nat (nat_of_ascii c))) (Hall (nat_of_ascii c) _)).
  apply in_seq. pose proof (nat_ascii_bounded c). lia.
Qed.

Lemma char_cases c :
  tolower (toupper c) = tolower c ∧ toupper (tolower c) = toupper c ∧ is_upper (tolower c) = false ∧
  is_lower (toupper c) = false ∧ icase (tolower c) = icase c ∧ icase (toupper c) = icase c.
Proof. revert c. refine (every_char _ _). vm_compute. reflexivity. Qed.

(** Changing the letters of a text keeps its length and its text up to case,
    the comparison of header names; after one call a second one changes
    nothing, and the two undo each other up to case. *)
Theorem case_conversion (s : bytes) :
  length (lowercase s) = length s ∧ icase <$> lowercase s = icase <$> s ∧ icase <$> uppercase s = icase <$> s ∧
  lowercase (lowercase s) = lowercase s ∧ lowercase (uppercase s) = lowercase s ∧ uppercase (lowercase s) = uppercase s.
Proof.
  unfold lowercase, uppercase.
  assert (Hmap : ∀ A (f g : ascii → A), (∀ c, f c = g c) → f <$> s = g <$> s) by (intros A f g Hfg; by apply list_fmap_ext).
  rewrite <- !list_fmap_compose. split_and!; [by rewrite length_fmap|..]; apply Hmap; intros c; cbn;
    destruct (char_cases c) as (H1 & H2 & H3 & H4 & H5 & H6); try done. unfold tolower at 1. by rewrite H3.
Qed.

(** ** Formatted texts *)

(** [format] returns the formatted text whatever the fresh buffer holds, and
    the message of a [SystemException] is its text without the last
    character. *)
Theorem formatted_texts (fresh : nat → bytes) (strerror : Z → bytes) (text Scope SrcFile : bytes) (ErrCode SrcLine : Z) :
  let message := system_text strerror ErrCode Scope SrcFile SrcLine in
  NUL ∉ message →
  format fresh text = text ∧ SystemException_what strerror ErrCode Scope SrcFile SrcLine = take (length message - 1) message.
Proof.
  intros message Hnul. split.
  - unfold format. rewrite Nat.add_1_r. cbn [snprintf_buffer]. rewrite firstn_all.
    rewrite Nat.sub_1_r. cbn [Nat.pred]. apply take_app_length.
  - unfold SystemException_what. fold message. destruct (length message) as [|n] eqn:Hn; [by apply length_zero_iff_nil in Hn as ->|].
    cbn [snprintf_buffer]. rewrite Nat.sub_1_r. cbn [Nat.pred].
    assert (Hc : ∀ s t, NUL ∉ s → c_string (s ++ NUL :: t) = s).
    { induction s as [|c s IH]; intros t Hs; [done|]. apply not_elem_of_cons in Hs as [Hc Hs]. cbn [app c_string].
      rewrite decide_False by done. by rewrite IH. }
    apply Hc. intros Hin. apply Hnul. rewrite <- (take_drop n message). apply elem_of_app. by left.
Qed.

Lemma formatted_texts_witness :
  NUL ∉ system_text (λ _, str "Bad file") 9 (str "open") (str "/src/a.cpp") 12 ∧
  format (λ _, str "garbage") (str "x=1") = str "x=1" ∧
  SystemException_what (λ _, str "Bad file") 9 (str "open") (str "/src/a.cpp") 12 = str "[EXCEPTION] open: Bad file (9) | a.cpp:1".
Proof.
  assert (H : NUL ∉ system_text (λ _, str "Bad file") 9 (str "open") (str "/src/a.cpp") 12) by decided. split; [exact H|].
  exact (formatted_texts (λ _, str "garbage") (λ _, str "Bad file") (str "x=1") (str "open") (str "/src/a.cpp") 9 12 H).
Defined.
