(* ===== verification/JsonWriter.v ===== *)
(** * JsonWriter: [ci/json/writer.hpp]

    The class [json], which writes objects, arrays and lists of arguments.
    [sync-queue.cpp] includes it and nothing calls it. *)
From Stdlib Require Import Ascii String.
From stdpp Require Import options.
From S2P Require Import Prelude Numerals Transform.

#[local] Open Scope nat_scope.

(** What the overloads of [toString] accept. *)
Inductive json_value :=
  | JArray (val : list bytes)              (* [deque<string>] *)
  | JObject (val : list (bytes * bytes))   (* [deque<pair<string, string>>] *)
  | JString (val : bytes)                  (* [string], [const char*] *)
  | JSize (val : Z)                        (* [size_t] *)
  | JInt (val : Z).                        (* [int] *)

(** The character of a double quote, and ["key":value]. *)
Definition DQUOTE : ascii := "034"%char.
Definition member (kv : bytes * bytes) : bytes := [DQUOTE] ++ kv.1 ++ [DQUOTE] ++ str ":" ++ kv.2.

(** [for (n = 0; n < size - 1; n++) result.append(val[n]).append(",")]: the loop
    of the three writers.  The bound is a signed number, so that it is -1 for
    nothing. *)
Fixpoint comma_loop (n : nat) (val : list bytes) (result : bytes) : bytes :=
  match n, val with
  | S n, v :: val => comma_loop n val (result ++ v ++ str ",")
  | _, _ => result
  end.

(** The loop and [val.back()]. *)
Definition comma_list (val : list bytes) (result : bytes) : outcome bytes :=
  back ← or_undef (last val);
  Ret (comma_loop (length val - 1) val result ++ back).

(** [toString] *)
Definition toString (v : json_value) : outcome bytes :=
  match v with
  | JArray val =>
      result ← (if decide (val = []) then Ret (str "[") else comma_list val (str "["));
      Ret (result ++ str "]")
  | JObject val =>
      result ← (if decide (val = []) then Ret (str "{") else comma_list (member <$> val) (str "{"));
      Ret (result ++ str "}")
  | JString val => Ret (str "'" ++ val ++ str "'")
  | JSize val => Ret (to_string val)
  | JInt val => Ret (to_string_signed val)
  end.

(** [object]: the values are made texts by the constructor of [cstring]. *)
Fixpoint object (vals : list (bytes * json_value)) : outcome (list (bytes * bytes)) :=
  match vals with
  | [] => Ret []
  | (k, v) :: vals => t ← toString v; rest ← object vals; Ret ((k, t) :: rest)
  end.

(** [array] *)
Fixpoint array (els : list json_value) : outcome (list bytes) :=
  match els with
  | [] => Ret []
  | e :: els => t ← toString e; rest ← array els; Ret (t :: rest)
  end.

(** [string]: without arguments it takes the back of an empty [deque]. *)
Definition string (els : list json_value) : outcome bytes :=
  el_list ← array els;
  comma_list el_list [].

(** ** What is written *)

Lemma comma_loop_join val : ∀ result, val ≠ [] →
  ∃ back, last val = Some back ∧ comma_loop (length val - 1) val result ++ back = result ++ join (str ",") val.
Proof.
  induction val as [|v val IH]; intros result Hne; [done|]. destruct val as [|v' val].
  { exists v. by split. }
  destruct (IH (result ++ v ++ str ",")) as (back & Hb & Hl); [done|]. exists back.
  split; [by rewrite last_cons, Hb|].
  replace (length (v :: v' :: val) - 1) with (S (length (v' :: val) - 1)) by (simpl; lia). cbn [comma_loop].
  rewrite Hl, (join_cons _ v) by done. by rewrite <- !app_assoc.
Qed.

Lemma comma_list_join val result : val ≠ [] → comma_list val result = Ret (result ++ join (str ",") val).
Proof.
  intros Hne. destruct (comma_loop_join val result Hne) as (back & Hb & Hl). unfold comma_list. rewrite Hb. outcome_simpl. by rewrite Hl.
Qed.

Lemma toString_total v : ∃ t, toString v = Ret t.
Proof.
  destruct v as [val|val| | |]; cbn [toString]; try by eexists.
  - case_decide as Hv; outcome_simpl; [by eexists|]. rewrite comma_list_join by done. outcome_simpl. by eexists.
  - case_decide as Hv; outcome_simpl; [by eexists|]. rewrite comma_list_join by by destruct val. outcome_simpl. by eexists.
Qed.

Lemma array_total els : ∃ ts, array els = Ret ts ∧ Forall2 (λ e t, toString e = Ret t) els ts.
Proof.
  induction els as [|e els (ts & Hts & Hall)]; [exists []; split; [done|constructor]|]. cbn [array].
  destruct (toString_total e) as [t Ht]. rewrite Ht. outcome_simpl. rewrite Hts. outcome_simpl.
  exists (t :: ts). split; [done|by constructor].
Qed.

(** Writing never fails, except for [string()] without arguments, which is
    undefined; an array is its elements between brackets with a comma between
    them, and reading the inside back at the commas gives the elements again as
    long as they contain none. *)
Theorem json_writer_spec (els : list json_value) :
  ∃ ts, array els = Ret ts ∧ Forall2 (λ e t, toString e = Ret t) els ts ∧
    toString (JArray ts) = Ret (str "[" ++ join (str ",") ts ++ str "]") ∧
    string els = (match els with [] => Undef | _ => Ret (join (str ",") ts) end) ∧
    (Forall (λ t, ","%char ∉ t) ts → join (str ",") ts ≠ [] → explode (str ",") (join (str ",") ts) (-1) = Some ts).
Proof.
  destruct (array_total els) as (ts & Hts & Hall). exists ts. split; [done|]. split; [done|].
  assert (Hempty : els = [] ↔ ts = []) by (destruct Hall; split; done).
  split_and!.
  - cbn [toString]. case_decide as Hv; [by subst ts|]. rewrite comma_list_join by done. outcome_simpl. by rewrite <- app_assoc.
  - unfold string. rewrite Hts. outcome_simpl. destruct els as [|e els]; [by rewrite (proj1 Hempty eq_refl)|].
    rewrite comma_list_join by by intros ?%Hempty. done.
  - intros Hc Hj. apply explode_join; [by intros ->|done..].
Qed.

(** The writer escapes nothing: two different arrays of strings have the same
    text. *)
Theorem json_strings_ambiguous :
  ∃ a b ta tb, a ≠ b ∧ array a = Ret ta ∧ array b = Ret tb ∧ toString (JArray ta) = toString (JArray tb).
Proof.
  exists [JString (str "x','y")], [JString (str "x"); JString (str "y")]. do 2 eexists.
  split; [done|]. split; [reflexivity|]. split; [reflexivity|]. reflexivity.
Qed.

Example json_examples :
  toString (JObject [(str "a", str "1"); (str "b", str "'x'")])
    = Ret (str "{" ++ [DQUOTE] ++ str "a" ++ [DQUOTE] ++ str ":1," ++ [DQUOTE] ++ str "b" ++ [DQUOTE] ++ str ":'x'}") ∧
  string [JSize 12; JString (str "y"); JArray [str "1"; str "2"]] = Ret (str "12,'y',[1,2]").
Proof. split; reflexivity. Qed.
