(* ===== verification/Interfaces.v ===== *)
(** * Interfaces: [ci/interface/IRequest.h] and [ci/interface/IMQ.h]

    The two interfaces through which the router, the requests and the queue
    modules talk to each other, as type classes.  A queue module is verified
    against [IRequest] and its laws; [RequestImpl] discharges the laws.  An
    object behind [Dom::IUnknown] is [Some] reference when its
    [QueryInterface] finds the interface asked for, and [None] otherwise: that
    lookup belongs to the Dom library, which is not part of the sources. *)
From Stdlib Require Import Ascii String.
From stdpp Require Import options.
From S2P Require Import Prelude ZcString HttpReply.

Abbreviation IUnknown := option.

(** [IRequest::TeleOption] *)
Inductive TeleOption := EmplaceAt | ExtractAt.

#[export] Instance TeleOption_eq_dec : EqDecision TeleOption.
Proof. solve_decision. Defined.
#[export] Instance TeleOption_countable : Countable TeleOption.
Proof.
  refine (inj_countable' (λ o, match o with EmplaceAt => false | ExtractAt => true end)
            (λ b : bool, if b then ExtractAt else EmplaceAt) _).
  abstract (by intros []).
Defined.

(** [IRequest]: [R] is the type of references to request objects, [W] the
    store they live in. *)
Class IRequest (W R : Type) := {
  GetMsgId : R → M W Z;
  GetHeaderOption : R → bytes → option bytes → M W zcstring;
  GetContent : R → M W zcstring;
  GetUri : R → M W zcstring;
  request_Reply : R → Z → option bytes → option bytes → Z → list (cptr * cptr) → bool → M W bool;
  SetTelemetry : R → TeleOption → M W unit
}.

(** What a client relies on: a reference has an identifier for as long as the
    object lives, [GetMsgId] reads it, no operation on any object changes it,
    and [Reply] answers [true] whenever it returns. *)
Class IRequestLaws (W R : Type) `{!IRequest W R} := {
  rid : R → W → option Z;
  GetMsgId_rid : ∀ r w, GetMsgId r w = (or_undef (rid r w), w);
  GetHeaderOption_stable : ∀ r o d w r', rid r' (GetHeaderOption r o d w).2 = rid r' w;
  GetContent_stable : ∀ r w r', rid r' (GetContent r w).2 = rid r' w;
  Reply_stable : ∀ r code msg content len hs close w r',
    rid r' (request_Reply r code msg content len hs close w).2 = rid r' w;
  SetTelemetry_stable : ∀ r o w r', rid r' (SetTelemetry r o w).2 = rid r' w;
  Reply_not_false : ∀ r code msg content len hs close w,
    (request_Reply r code msg content len hs close w).1 ≠ Ret false
}.

(** A computation on one component of a pair of states. *)
Definition on_fst {S W A} (m : M S A) : M (S * W) A := λ sw,
  let '(r, s') := m sw.1 in (r, (s', sw.2)).
Definition on_snd {S W A} (m : M W A) : M (S * W) A := λ sw,
  let '(r, w') := m sw.2 in (r, (sw.1, w')).

(** [IMQ]: the handlers of a queue module with state [S], over a store of
    requests. *)
Class IMQ (S W R : Type) := {
  mq_Get : IUnknown R → M (S * W) unit;
  mq_Post : IUnknown R → M (S * W) unit;
  mq_Put : IUnknown R → M (S * W) unit;
  mq_Head : IUnknown R → M (S * W) unit;
  mq_Options : IUnknown R → M (S * W) unit;
  mq_Delete : IUnknown R → M (S * W) unit;
  mq_Trace : IUnknown R → M (S * W) unit;
  mq_Connect : IUnknown R → M (S * W) unit;
  mq_Patch : IUnknown R → M (S * W) unit
}.

(** Invariants of the two components of a pair. *)
Section pairs.
Context {S W : Type}.

Lemma preserves_on_fst {A} (I : S → Prop) (J : W → Prop) (m : M S A) :
  preserves I m → preserves (λ sw : S * W, I sw.1 ∧ J sw.2) (on_fst m).
Proof. intros Hm [s w] [Hs Hw]. specialize (Hm s Hs). unfold on_fst. simpl in *. by destruct (m s). Qed.

Lemma preserves_on_snd {A} (I : S → Prop) (J : W → Prop) (m : M W A) :
  preserves J m → preserves (λ sw : S * W, I sw.1 ∧ J sw.2) (on_snd m).
Proof. intros Hm [s w] [Hs Hw]. specialize (Hm w Hw). unfold on_snd. simpl in *. by destruct (m w). Qed.

(** Running a bind whose first computation returns. *)
Lemma bind_run {A B} (m : M (S * W) A) (k : A → M (S * W) B) sw a sw' :
  m sw = (Ret a, sw') → (m ≫= k) sw = k a sw'.
Proof. intros Hm. unfold mbind, M_bind. by rewrite Hm. Qed.

Lemma bind_on_snd {A B} (m : M W A) (k : A → M (S * W) B) s w a w' :
  m w = (Ret a, w') → (on_snd m ≫= k) (s, w) = k a (s, w').
Proof. intros Hm. apply bind_run. unfold on_snd. simpl. by rewrite Hm. Qed.

Lemma bind_on_fst {A B} (m : M S A) (k : A → M (S * W) B) s w a s' :
  m s = (Ret a, s') → (on_fst m ≫= k) (s, w) = k a (s', w).
Proof. intros Hm. apply bind_run. unfold on_fst. simpl. by rewrite Hm. Qed.

Lemma bind_lift {A B} (o : outcome A) (k : A → M (S * W) B) sw a :
  o = Ret a → (lift o ≫= k) sw = k a sw.
Proof. by intros ->. Qed.
End pairs.
#[export] Hint Resolve preserves_on_fst preserves_on_snd : fiber.

(** An invariant of the world of requests that every operation on requests
    preserves, and what a queue module owes: to preserve it too. *)
Class IRequestPreserves {W R : Type} `{!IRequest W R} (J : W → Prop) := {
  GetMsgId_preserves : ∀ r, preserves J (GetMsgId r);
  GetHeaderOption_preserves : ∀ r o d, preserves J (GetHeaderOption r o d);
  GetContent_preserves : ∀ r, preserves J (GetContent r);
  request_Reply_preserves : ∀ r code msg content len hs close,
    preserves J (request_Reply r code msg content len hs close);
  SetTelemetry_preserves : ∀ r o, preserves J (SetTelemetry r o)
}.

Class IMQPreserves {S W R : Type} (mq : IMQ S W R) (J : W → Prop) := {
  mq_preserves : ∀ u,
    let I := (λ sw : S * W, J sw.2) in
    preserves I (mq_Get u) ∧ preserves I (mq_Post u) ∧ preserves I (mq_Put u) ∧ preserves I (mq_Head u) ∧
    preserves I (mq_Options u) ∧ preserves I (mq_Delete u) ∧ preserves I (mq_Trace u) ∧
    preserves I (mq_Connect u) ∧ preserves I (mq_Patch u)
}.

Lemma preserves_world_fst {S W A} (J : W → Prop) (m : M S A) : preserves (λ sw : S * W, J sw.2) (on_fst m).
Proof. intros [s w] Hw. unfold on_fst. simpl in *. by destruct (m s). Qed.

Lemma preserves_world_snd {S W A} (J : W → Prop) (m : M W A) :
  preserves J m → preserves (λ sw : S * W, J sw.2) (on_snd m).
Proof. intros Hm [s w] Hw. specialize (Hm w Hw). unfold on_snd. simpl in *. by destruct (m w). Qed.
#[export] Hint Resolve preserves_world_fst preserves_world_snd GetMsgId_preserves GetHeaderOption_preserves
  GetContent_preserves request_Reply_preserves SetTelemetry_preserves : fiber.

(** Take a computation apart, bind by bind. *)
Ltac walk := repeat first
  [ progress auto with fiber
  | apply preserves_bind; [|intros]
  | apply preserves_catch_std; [|intros]
  | match goal with |- preserves _ (match ?x with _ => _ end) => destruct x end ].
