(* ===== verification/Server.v ===== *)
(** * Server: the listening sockets, [kernel/net/server.cpp]

    [AddListener] with [Socket::Open] of [kernel/net/impl/socketimpl.h],
    [Listen], message identifiers and peer addresses.  The operating system is
    a parameter, [SocketOS]: every call is an operation on a world [W]. *)
From Stdlib Require Import Ascii String.
From stdpp Require Import options.
From S2P Require Import Prelude Findmatch Numerals Transform Regex OptionParse Interfaces.

#[local] Open Scope Z_scope.

(** ** Message identifiers *)

(** [getMsgId]: the seconds in the high half, a counter in the low one. *)
Definition getMsgId (now Counter : Z) : Z := Z.lor (u64 (Z.shiftl now 32)) Counter.

(** ** Addresses *)

(** [sockaddr_storage], the fields in network byte order. *)
Inductive sockaddr :=
  | sockaddr_in (sin_addr : Z * Z * Z * Z) (sin_port : Z * Z)
  | sockaddr_in6 (sin6_addr : list (Z * Z * Z * Z)) (sin6_port : Z * Z)
  | sockaddr_other.

Definition big_endian32 (b : Z * Z * Z * Z) : Z :=
  let '(b0, b1, b2, b3) := b in b0 * 2 ^ 24 + b1 * 2 ^ 16 + b2 * 2 ^ 8 + b3.
Definition big_endian16 (b : Z * Z) : Z := b.1 * 2 ^ 8 + b.2.

Inductive address_version := Unsupported | Ip4 | Ip6.

(** [CAddress]; a field the constructor leaves alone has no value. *)
Record CAddress := MkAddress { Port : option Z; Address : list (option Z); Version : address_version }.

Definition CAddress_new (sa : sockaddr) : CAddress :=
  match sa with
  | sockaddr_in addr port =>
      MkAddress (Some (big_endian16 port)) [Some (big_endian32 addr); None; None; None] Ip4
  | sockaddr_in6 addr port =>
      MkAddress (Some (big_endian16 port)) ((λ w, Some (big_endian32 w)) <$> addr) Ip4
  | sockaddr_other => MkAddress None [None; None; None; None] Unsupported
  end.

(** [((uint8_t* )&word)[i]] on a little-endian machine. *)
Definition word_byte (w : Z) (i : Z) : Z := Z.land (Z.shiftr w (8 * i)) 255.

Definition hex_digit (d : Z) : ascii := ascii_of_nat (Z.to_nat (if decide (d < 10) then 48 + d else 55 + d)).
(** [%02X] *)
Definition hex2 (b : Z) : bytes := [hex_digit (b / 16); hex_digit (b `mod` 16)].

Fixpoint hex_groups (bs : list Z) : bytes :=
  match bs with
  | a :: b :: [] => hex2 a ++ hex2 b
  | a :: b :: bs => hex2 a ++ hex2 b ++ str ":" ++ hex_groups bs
  | _ => []
  end.

(** [CAddress::toString] *)
Definition CAddress_toString (a : CAddress) : outcome bytes :=
  match Version a with
  | Ip4 =>
      w ← or_undef (mjoin (Address a !! 0%nat));
      Ret (to_string (word_byte w 3) ++ str "." ++ to_string (word_byte w 2) ++ str "."
           ++ to_string (word_byte w 1) ++ str "." ++ to_string (word_byte w 0))
  | Ip6 =>
      ws ← or_undef (mapM id (Address a));
      Ret (hex_groups (ws ≫= λ w, [word_byte w 0; word_byte w 1; word_byte w 2; word_byte w 3]))
  | Unsupported => Ret []
  end.

(** ** The operating system *)

Inductive sockopt := TCP_NODELAY | SO_REUSEADDR | SO_BINDTODEVICE (device : bytes).

(** [sys_accept] returns nothing when it blocks for ever. *)
Class SocketOS (W : Type) := {
  sys_errno : M W Z;
  sys_socket : M W Z;
  sys_setsockopt : Z → sockopt → M W Z;
  sys_bind : Z → Z → M W Z;
  sys_listen : Z → Z → M W Z;
  sys_close : Z → M W Z;
  sys_poll : list Z → Z → M W (Z * list bool);
  sys_accept : Z → M W (option (Z * sockaddr));
  sys_time : M W Z
}.

(** A function declared [noexcept]. *)
Definition noexcept {S A} (m : M S A) : M S A := λ s,
  match m s with (Throw _, s') => (Terminate, s') | r => r end.

(** [std::stoi] *)
Definition stoi (s : bytes) : outcome Z :=
  v ← stol s; if decide (- 2 ^ 31 ≤ v < 2 ^ 31) then Ret v else Throw (StdException (str "stoi")).

Definition EPROTONOSUPPORT : Z := 93.
Definition EINTR : Z := 4.

(** The limits that a listener gives to its connections. *)
Record listener := Listener { lst_query : Z; lst_header : Z }.

Record Server := MkServer {
  msgIndex : Z;
  conHandlers : gmap Z listener;
  conFd : list Z
}.

(** [Server::Server()]; it also ignores [SIGPIPE].  The destructor is empty. *)
Definition Server_new : Server := MkServer 0 ∅ [].

(** What [callback] is given: the [HttpImpl] to be made. *)
Record connection := Connection {
  cn_mid : Z; cn_socket : Z; cn_addr : sockaddr; cn_limits : listener
}.

#[export] Instance sockaddr_eq_dec : EqDecision sockaddr.
Proof. solve_decision. Defined.
#[export] Instance listener_eq_dec : EqDecision listener.
Proof. solve_decision. Defined.
#[export] Instance connection_eq_dec : EqDecision connection.
Proof. solve_decision. Defined.

Section server.
Context {W : Type} `{!SocketOS W, PAST : !PastEnd}.

(** The ways out of [Socket::Open] after the socket exists. *)
Definition open_fails (fd : Z) : M W (Z * Z) :=
  err ← sys_errno; _ ← sys_close fd; mret (err, fd).

(** [Socket::Open(socket, device, port)]: the error and the socket. *)
Definition Socket_Open (device port : bytes) : M W (Z * Z) :=
  noexcept (
    fd ← sys_socket;
    if decide (fd ≤ 0) then err ← sys_errno; mret (err, fd)
    else
      _ ← sys_setsockopt fd TCP_NODELAY;
      r ← sys_setsockopt fd SO_REUSEADDR;
      if decide (r ≠ 0) then open_fails fd
      else
        r ← (if decide (device = []) then mret 0 else sys_setsockopt fd (SO_BINDTODEVICE device));
        if decide (r ≠ 0) then open_fails fd
        else
          p ← lift (stoi port);
          r ← sys_bind fd (p `mod` 2 ^ 16);
          if decide (r ≠ 0) then open_fails fd
          else
            n ← lift (stoi (str "400"));
            r ← sys_listen fd n;
            if decide (r ≠ 0) then open_fails fd else mret (0, fd)).

(** [utils::match(proto, "http")]: [front] and [back] of an empty string. *)
Definition match_proto (proto : bytes) : outcome match_result :=
  if decide (proto = []) then Undef
  else match_values (Some proto) 0 (length proto) [str "http"] 1.

(** [AddListener(proto, listen, query_limit, header_limit)] *)
Definition AddListener (proto listen query_limit header_limit : bytes) : M (Server * W) Z :=
  r ← lift (match_proto proto);
  if decide (result r = 0) then mret EPROTONOSUPPORT
  else
    bind_params ← lift (or_undef (explode (str ":") listen 2));
    if decide (result r = 1) then
      device ← lift (or_undef (bind_params !! 0%nat));
      port ← lift (or_undef (bind_params !! 1%nat));
      '(err, so_server) ← on_snd (Socket_Open device port);
      if decide (err = 0) then
        optQueryLimit ← lift (get_bytes query_limit 1048576);
        optHeaderLimit ← lift (get_bytes header_limit 8192);
        _ ← on_fst (modify (λ sv, MkServer (msgIndex sv)
              (match conHandlers sv !! so_server with
               | Some _ => conHandlers sv
               | None => <[so_server := Listener optQueryLimit optHeaderLimit]> (conHandlers sv)
               end) (conFd sv ++ [so_server])));
        mret 0
      else mret err
    else mret EPROTONOSUPPORT.

Context (callback : connection → M W unit).

(** One accepted connection: the identifier, the handler, the callback. *)
Definition accepted (fd so_client : Z) (sa : sockaddr) : M (Server * W) unit :=
  t ← on_snd sys_time;
  index ← on_fst (gets msgIndex);
  _ ← on_fst (modify (λ sv, MkServer (u64 (index + 1)) (conHandlers sv) (conFd sv)));
  h ← on_fst (gets (λ sv, conHandlers sv !! fd));
  match h with
  | Some limits => on_snd (callback (Connection (getMsgId t index) so_client sa limits))
  | None => throw (StdException (str "bad_function_call"))
  end.

(** [while (result--) { accept ... }]: the value of [result] afterwards, or
    nothing when the loop does not end. *)
Fixpoint accept_loop (fuel : nat) (fd result : Z) : M (Server * W) (option Z) :=
  match fuel with
  | O => mret None
  | S fuel =>
      if decide (result = - 2 ^ 31) then lift Undef
      else if decide (result = 0) then mret (Some (-1))
      else
        a ← on_snd (sys_accept fd);
        match a with
        | None => mret None
        | Some (so_client, sa) =>
            if decide (0 < so_client) then _ ← accepted fd so_client sa; accept_loop fuel fd (result - 1)
            else if decide (so_client < 0) then _ ← on_snd sys_errno; mret (Some (result - 1))
            else mret (Some (result - 1))
        end
  end.

(** [for (s = 0; result && s < conFd.size(); s++)] *)
Fixpoint listen_loop (fuel : nat) (fds : list (Z * bool)) (result : Z) : M (Server * W) (option bool) :=
  match fds with
  | [] => mret (Some true)
  | (fd, ready) :: fds =>
      if decide (result = 0) then mret (Some true)
      else if ready : bool then
        r ← accept_loop fuel fd result;
        match r with None => mret None | Some result => listen_loop fuel fds result end
      else listen_loop fuel fds result
  end.

(** [Listen(callback, timeout)]; nothing when it does not return. *)
Definition Listen (fuel : nat) (timeout_msec : Z) : M (Server * W) (option bool) :=
  fds ← on_fst (gets conFd);
  '(result, revents) ← on_snd (sys_poll fds timeout_msec);
  if decide (result = -1) then e ← on_snd sys_errno; mret (Some (bool_decide (e = EINTR)))
  else if decide (result = 0) then mret (Some true)
  else listen_loop fuel (zip fds revents) result.
End server.

(** ** Identifiers are unique *)

Lemma low_bits_lor a c : 0 ≤ c < 2 ^ 32 → Z.lor (a * 2 ^ 32) c = a * 2 ^ 32 + c.
Proof.
  intros Hc. rewrite <- Z.shiftl_mul_pow2 by lia. symmetry. apply Z.add_nocarry_lor, Z.bits_inj'. intros n Hn.
  rewrite Z.land_spec, Z.bits_0. destruct (decide (n < 32)); [by rewrite Z.shiftl_spec_low by lia|].
  rewrite <- (Z.mod_small c (2 ^ 32)) by done. by rewrite Z.mod_pow2_bits_high, andb_false_r by lia.
Qed.

Lemma getMsgId_parts now Counter :
  0 ≤ Counter < 2 ^ 32 → getMsgId now Counter = (now `mod` 2 ^ 32) * 2 ^ 32 + Counter.
Proof.
  intros Hc. unfold getMsgId, u64, u64_modulus. rewrite Z.shiftl_mul_pow2 by lia.
  change (2 ^ 64) with (2 ^ 32 * 2 ^ 32). rewrite Z.mul_mod_distr_r by lia. by apply low_bits_lor.
Qed.

Lemma getMsgId_counter now c : 0 ≤ c < 2 ^ 32 → getMsgId now c `mod` 2 ^ 32 = c.
Proof. intros Hc. by rewrite getMsgId_parts, Z.add_comm, Z.mod_add, Z.mod_small by lia. Qed.



(** ** Addresses are printed in dotted form *)

Lemma word_byte_spec b0 b1 b2 b3 :
  0 ≤ b0 < 256 → 0 ≤ b1 < 256 → 0 ≤ b2 < 256 → 0 ≤ b3 < 256 →
  let w := big_endian32 (b0, b1, b2, b3) in
  word_byte w 3 = b0 ∧ word_byte w 2 = b1 ∧ word_byte w 1 = b2 ∧ word_byte w 0 = b3.
Proof.
  intros H0 H1 H2 H3 w. unfold word_byte, w, big_endian32.
  assert (Hb : ∀ n, Z.land n 255 = n `mod` 256) by (intros n; change 255 with (Z.ones 8); by rewrite Z.land_ones by lia).
  rewrite !Hb, !Z.shiftr_div_pow2 by lia.
  split_and!; cbn -[Z.div Z.modulo Z.add Z.mul]; Z.to_euclidean_division_equations; lia.
Qed.

(** The address of an IPv4 peer is printed in dotted decimal form and its
    port is the one of the socket; an IPv6 peer is taken for an IPv4 one whose
    address is its first four bytes. *)
Theorem CAddress_dotted (b0 b1 b2 b3 : Z) (port : Z * Z) (rest : list (Z * Z * Z * Z)) :
  0 ≤ b0 < 256 → 0 ≤ b1 < 256 → 0 ≤ b2 < 256 → 0 ≤ b3 < 256 →
  let text := to_string b0 ++ str "." ++ to_string b1 ++ str "." ++ to_string b2 ++ str "." ++ to_string b3 in
  CAddress_toString (CAddress_new (sockaddr_in (b0, b1, b2, b3) port)) = Ret text ∧
  Port (CAddress_new (sockaddr_in (b0, b1, b2, b3) port)) = Some (port.1 * 256 + port.2) ∧
  CAddress_toString (CAddress_new (sockaddr_in6 ((b0, b1, b2, b3) :: rest) port)) = Ret text.
Proof.
  intros H0 H1 H2 H3 text. destruct (word_byte_spec b0 b1 b2 b3 H0 H1 H2 H3) as (E3 & E2 & E1 & E0).
  split_and!; [|done|]; unfold CAddress_toString; cbn [CAddress_new Version Address fmap list_fmap lookup list_lookup mjoin option_join];
    outcome_simpl; by rewrite E3, E2, E1, E0.
Qed.

Lemma CAddress_dotted_witness :
  CAddress_toString (CAddress_new (sockaddr_in (127, 0, 0, 1) (18, 103)))
    = Ret (to_string 127 ++ str "." ++ to_string 0 ++ str "." ++ to_string 0 ++ str "." ++ to_string 1) ∧
  Port (CAddress_new (sockaddr_in (127, 0, 0, 1) (18, 103))) = Some (18 * 256 + 103) ∧
  CAddress_toString (CAddress_new (sockaddr_in6 [(127, 0, 0, 1)] (18, 103)))
    = Ret (to_string 127 ++ str "." ++ to_string 0 ++ str "." ++ to_string 0 ++ str "." ++ to_string 1).
Proof. apply (CAddress_dotted 127 0 0 1 (18, 103) []); lia. Defined.

(** ** What [Listen] does with the connections *)
Section listen.
Context {W : Type} `{!SocketOS W} (callback : connection → M W unit).

Definition next_index (sv : Server) : Server := MkServer (u64 (msgIndex sv + 1)) (conHandlers sv) (conFd sv).

(** A pending connection on [fd] whose callback returns. *)
Definition delivers (fd : Z) (sv : Server) (w : W) (so_client : Z) (sa : sockaddr) (w' : W) : Prop :=
  ∃ now limits w1 w2, 0 < so_client ∧
    sys_accept fd w = (Ret (Some (so_client, sa)), w1) ∧ sys_time w1 = (Ret now, w2) ∧
    conHandlers sv !! fd = Some limits ∧
    callback (Connection (getMsgId now (msgIndex sv)) so_client sa limits) w2 = (Ret tt, w').

Lemma listen_loop_idle fuel fds result sw :
  Forall (λ f, f.2 = false) fds → listen_loop callback fuel fds result sw = (Ret (Some true), sw).
Proof.
  revert sw. induction fds as [|[fd ready] fds IH]; intros sw Hall; cbn [listen_loop]; [done|].
  apply Forall_cons in Hall as [Hr Hall]. simpl in Hr. subst ready. case_decide; [done|]. by apply IH.
Qed.

Lemma listen_loop_skip fuel pre fds result sw :
  Forall (λ f, f.2 = false) pre → result ≠ 0 →
  listen_loop callback fuel (pre ++ fds) result sw = listen_loop callback fuel fds result sw.
Proof.
  intros Hall Hr. induction Hall as [|[fd ready] pre Hf Hall IH]; [done|]. simpl in Hf. subst ready.
  cbn [app listen_loop]. rewrite decide_False by done. exact IH.
Qed.

Lemma accept_loop_step fuel fd result sv w so sa w' :
  0 < result → delivers fd sv w so sa w' →
  accept_loop callback (S fuel) fd result (sv, w) = accept_loop callback fuel fd (result - 1) (next_index sv, w').
Proof.
  intros Hr (now & limits & w1 & w2 & Hso & Ha & Ht & Hl & Hc). cbn [accept_loop].
  rewrite !decide_False by lia. unfold accepted, mbind, M_bind, on_snd, on_fst, gets, modify. cbn [fst snd].
  rewrite Ha. cbn. rewrite decide_True by done. cbn. rewrite Ht. cbn. rewrite Hl. cbn. by rewrite Hc.
Qed.

Lemma Listen_poll fuel timeout sv w result revents w1 :
  sys_poll (conFd sv) timeout w = (Ret (result, revents), w1) → 0 < result →
  Listen callback fuel timeout (sv, w) = listen_loop callback fuel (zip (conFd sv) revents) result (sv, w1).
Proof.
  intros Hp Hr. unfold Listen, mbind, M_bind, on_snd, on_fst, gets. cbn. rewrite Hp. cbn. by rewrite !decide_False by lia.
Qed.

(** C34: when [poll] reports exactly one listener and a connection waits there, [Listen] accepts one connection
    there, makes its handler with the next identifier and the limits of the
    listener, hands it to the callback and returns [true]. *)
Theorem Listen_delivers (fuel : nat) (timeout : Z) (sv : Server) (w w1 w2 : W) (revents : list bool)
    (pre post : list (Z * bool)) (fd so_client : Z) (sa : sockaddr) :
  (2 ≤ fuel)%nat →
  sys_poll (conFd sv) timeout w = (Ret (1, revents), w1) →
  zip (conFd sv) revents = pre ++ (fd, true) :: post →
  Forall (λ f, f.2 = false) pre → Forall (λ f, f.2 = false) post →
  delivers fd sv w1 so_client sa w2 →
  Listen callback fuel timeout (sv, w) = (Ret (Some true), (next_index sv, w2)).
Proof.
  intros Hf Hp Hz Hpre Hpost Hd. rewrite (Listen_poll _ _ _ _ _ _ _ Hp) by lia. rewrite Hz.
  rewrite listen_loop_skip by done. cbn [listen_loop]. rewrite decide_False by done.
  destruct fuel as [|[|fuel]]; [lia|lia|]. unfold mbind, M_bind.
  rewrite (accept_loop_step _ _ 1 _ _ _ _ _ ltac:(lia) Hd). cbn [accept_loop]. rewrite decide_False, decide_True by done.
  cbn [mret M_ret]. by apply listen_loop_idle.
Qed.

(** C27: when [poll] reports two listeners with one pending connection each,
    [Listen] serves the first and then waits on the same listener for another
    connection: it does not return, and the connection pending on the second
    listener is not accepted. *)
Theorem Listen_starves (fuel : nat) (timeout : Z) (sv : Server) (w w1 w2 w3 : W) (revents : list bool)
    (pre post : list (Z * bool)) (fd so_client : Z) (sa : sockaddr) :
  (2 ≤ fuel)%nat →
  sys_poll (conFd sv) timeout w = (Ret (2, revents), w1) →
  zip (conFd sv) revents = pre ++ (fd, true) :: post → Forall (λ f, f.2 = false) pre →
  delivers fd sv w1 so_client sa w2 →
  sys_accept fd w2 = (Ret None, w3) →
  Listen callback fuel timeout (sv, w) = (Ret None, (next_index sv, w3)).
Proof.
  intros Hf Hp Hz Hpre Hd Hb. rewrite (Listen_poll _ _ _ _ _ _ _ Hp) by lia. rewrite Hz.
  rewrite listen_loop_skip by done. cbn [listen_loop]. rewrite decide_False by done.
  destruct fuel as [|[|fuel]]; [lia|lia|]. unfold mbind, M_bind.
  rewrite (accept_loop_step _ _ 2 _ _ _ _ _ ltac:(lia) Hd). cbn [accept_loop]. rewrite !decide_False by done.
  unfold mbind, M_bind, on_snd. cbn [fst snd]. by rewrite Hb.
Qed.
End listen.

(** ** [AddListener] *)

(** The first colon separates the device from the port. *)
Lemma explode_colon device port :
  ":"%char ∉ device → explode (str ":") (device ++ ":"%char :: port) 2 = Some [device; port].
Proof.
  intros Hd. unfold explode. rewrite decide_False by by destruct device.
  change (str ":") with [":"%char]. destruct (length (device ++ ":"%char :: port)) as [|n] eqn:Hn;
    [rewrite length_app in Hn; simpl in Hn; lia|].
  unfold string_find. rewrite decide_True, drop_0, find_from_char by (done || lia). cbn [explode_loop fmap option_fmap option_map].
  rewrite decide_True, decide_False by lia.
  cbn [app length]. rewrite Nat.add_0_l, Nat.add_1_r. do 2 f_equal.
  - unfold slice. rewrite drop_0, Nat.sub_0_r. apply take_app_length.
  - f_equal. pose proof (slice_middle (device ++ [":"%char]) port []) as Hm. rewrite app_nil_r, <- !app_assoc in Hm.
    cbn [app] in Hm. rewrite !length_app in *. cbn [length] in *.
    by rewrite Nat.add_1_r in Hm.
Qed.

Lemma explode_no_colon s : s ≠ [] → ":"%char ∉ s → explode (str ":") s 2 = Some [s].
Proof.
  intros Hne Hs. unfold explode. rewrite decide_False by done. unfold string_find.
  rewrite decide_True, drop_0 by lia. change (str ":") with [":"%char]. rewrite find_from_none by done. cbn.
  by rewrite slice_all.
Qed.

Section add_listener.
Context {W : Type} `{!SocketOS W, PAST : !PastEnd}.

Lemma match_proto_http proto :
  proto ≠ [] → is_Some past_end ∨ icase_prefix (str "http") proto = true →
  match_proto proto = Ret (if icase_prefix (str "http") proto then MatchResult 1 0 4 else no_match).
Proof.
  intros Hne Hpe. unfold match_proto. rewrite decide_False by done.
  pose proof (match_values_spec proto 0 (length proto) [str "http"] ltac:(lia) ltac:(lia) ltac:(discriminate)) as Hm.
  cbn [length] in Hm. rewrite slice_all in Hm. rewrite Hm by (destruct Hpe as [Hpe|Hpe]; [by left|right; cbn [runs_out]; by rewrite Hpe]). cbn [match_first].
  destruct (icase_prefix (str "http") proto); [done|]. by destruct (icase_prefix proto (str "http")).
Qed.

(** A section of protocol "http..." with a listen address "device:port"
    opens the socket there and registers it with the limits its options
    denote; an address without a colon is undefined behaviour; another protocol
    is refused and changes nothing, where the pointer behind the list of the one
    protocol can be loaded. *)
Theorem AddListener_spec (proto device port query header : bytes) (sv : Server) (w w' : W) (fd q h : Z) :
  proto ≠ [] → is_Some past_end ∨ icase_prefix (str "http") proto = true → ":"%char ∉ device → conHandlers sv !! fd = None →
  Socket_Open device port w = (Ret (0, fd), w') →
  get_bytes query 1048576 = Ret q → get_bytes header 8192 = Ret h →
  AddListener proto (device ++ ":"%char :: port) query header (sv, w) =
    (if icase_prefix (str "http") proto then
       (Ret 0, (MkServer (msgIndex sv) (<[fd := Listener q h]> (conHandlers sv)) (conFd sv ++ [fd]), w'))
     else (Ret EPROTONOSUPPORT, (sv, w))) ∧
  (icase_prefix (str "http") proto = true → (AddListener proto device query header (sv, w)).1 = Undef).
Proof.
  intros Hne Hpe Hd Hfd Ho Hq Hh. unfold AddListener. rewrite match_proto_http by done. split.
  - unfold mbind, M_bind, lift. destruct (icase_prefix _ proto); cbn [result no_match]; [|by rewrite decide_True].
    rewrite decide_False by done. rewrite explode_colon by done. cbn [or_undef]. rewrite decide_True by done.
    unfold mbind, M_bind, lift, on_snd, on_fst, modify. cbn. rewrite Ho. cbn -[lookup insert]. rewrite Hq, Hh. rewrite ?decide_True by done.
    cbn -[lookup insert]. by rewrite Hfd.
  - intros Hp. rewrite Hp. unfold mbind, M_bind, lift. cbn [result]. rewrite decide_False by done.
    destruct (decide (device = [])) as [->|Hdev]; [done|]. rewrite explode_no_colon by done. done.
Qed.

(** A port that is not a number ends the process: [std::stoi] throws in a
    function declared [noexcept]. *)
Lemma Socket_Open_bad_port port w w1 w2 w3 fd r :
  0 < fd → Forall (λ c, isdigit c = false) port →
  sys_socket w = (Ret fd, w1) → sys_setsockopt fd TCP_NODELAY w1 = (Ret r, w2) →
  sys_setsockopt fd SO_REUSEADDR w2 = (Ret 0, w3) →
  Socket_Open [] port w = (Terminate, w3).
Proof.
  intros Hfd Hport Hs Ht Hr. unfold Socket_Open, noexcept, mbind, M_bind, lift. rewrite Hs.
  rewrite decide_False by lia. rewrite Ht, Hr. rewrite decide_False by lia.
  rewrite decide_True by done. cbn. unfold stoi. by rewrite (stol_no_digits port Hport).
Qed.
End add_listener.

(** ** A concrete operating system

    Descriptors are numbered from 3; every listening socket has its pending
    connections, and [accept] on an empty one blocks. *)
Module Demo.
Record os := MkOs { os_next : Z; os_pending : list (Z * list Z); os_served : list connection; os_closed : list Z }.

Fixpoint take_pending (fd : Z) (l : list (Z * list Z)) : option Z * list (Z * list Z) :=
  match l with
  | [] => (None, [])
  | (fd', cs) :: l =>
      if decide (fd = fd') then match cs with [] => (None, (fd', cs) :: l) | c :: cs => (Some c, (fd', cs) :: l) end
      else let '(r, l') := take_pending fd l in (r, (fd', cs) :: l')
  end.

Definition has_pending (l : list (Z * list Z)) (fd : Z) : bool :=
  match (take_pending fd l).1 with Some _ => true | None => false end.

Definition local : sockaddr := sockaddr_in (127, 0, 0, 1) (18, 103).

#[global] Instance demo_os : SocketOS os := {
  sys_errno := mret 98;
  sys_socket := λ w, (Ret (os_next w), MkOs (os_next w + 1) (os_pending w) (os_served w) (os_closed w));
  sys_setsockopt := λ _ _, mret 0;
  sys_bind := λ _ _, mret 0;
  sys_listen := λ fd _ w, (Ret 0, MkOs (os_next w) (os_pending w ++ [(fd, [])]) (os_served w) (os_closed w));
  sys_close := λ fd w, (Ret 0, MkOs (os_next w) (os_pending w) (os_served w) (os_closed w ++ [fd]));
  sys_poll := λ fds _, gets (λ w, let r := has_pending (os_pending w) <$> fds in (Z.of_nat (length (filter (λ b, b = true) r)), r));
  sys_accept := λ fd w,
    let '(c, l) := take_pending fd (os_pending w) in
    (Ret ((λ so, (so, local)) <$> c), MkOs (os_next w) l (os_served w) (os_closed w));
  sys_time := mret 1700000000
}.

Definition serve (c : connection) : M os unit := modify (λ w, MkOs (os_next w) (os_pending w) (os_served w ++ [c]) (os_closed w)).

Definition two : Server := MkServer 0 {[3 := Listener 1048576 4096; 4 := Listener 1048576 8192]} [3; 4].
Definition world (a b : list Z) : os := MkOs 5 [(3, a); (4, b)] [] [].
Definition first_connection (so limit_header : Z) : connection :=
  Connection (getMsgId 1700000000 0) so local (Listener 1048576 limit_header).
End Demo.

#[local] Existing Instance readable_past_end.

Lemma AddListener_spec_witness :
  AddListener (W := Demo.os) (str "http") (str "" ++ ":"%char :: str "8080") (str "1M") (str "4K") (MkServer 0 ∅ [], Demo.MkOs 3 [] [] []) =
    (if icase_prefix (str "http") (str "http") then
       (Ret 0, (MkServer 0 (<[3 := Listener 1048576 4096]> ∅) ([] ++ [3]), Demo.MkOs 4 [(3, [])] [] []))
     else (Ret EPROTONOSUPPORT, (MkServer 0 ∅ [], Demo.MkOs 3 [] [] []))) ∧
  (icase_prefix (str "http") (str "http") = true →
   (AddListener (W := Demo.os) (str "http") (str "") (str "1M") (str "4K") (MkServer 0 ∅ [], Demo.MkOs 3 [] [] [])).1 = Undef).
Proof.
  refine (AddListener_spec (W := Demo.os) (str "http") (str "") (str "8080") (str "1M") (str "4K")
    (MkServer 0 ∅ []) (Demo.MkOs 3 [] [] []) (Demo.MkOs 4 [(3, [])] [] []) 3 1048576 4096 _ _ _ _ _ _ _);
    [discriminate|by right|decided|reflexivity|vm_compute; reflexivity..].
Defined.

Lemma Listen_delivers_witness :
  Listen Demo.serve 2 3000 (Demo.two, Demo.world [] [9]) =
    (Ret (Some true), (next_index Demo.two, Demo.MkOs 5 [(3, []); (4, [])] [Demo.first_connection 9 8192] [])).
Proof.
  refine (Listen_delivers (W := Demo.os) Demo.serve 2 3000 Demo.two (Demo.world [] [9]) (Demo.world [] [9])
    (Demo.MkOs 5 [(3, []); (4, [])] [Demo.first_connection 9 8192] []) [false; true] [(3, false)] [] 4 9 Demo.local _ _ _ _ _ _);
    [lia|vm_compute; reflexivity|reflexivity|by repeat constructor|constructor|].
  exists 1700000000, (Listener 1048576 8192), (Demo.MkOs 5 [(3, []); (4, [])] [] []), (Demo.MkOs 5 [(3, []); (4, [])] [] []).
  split; [lia|]. split_and!; vm_compute; reflexivity.
Defined.

Lemma Listen_starves_witness :
  Listen Demo.serve 2 3000 (Demo.two, Demo.world [8] [9]) =
    (Ret None, (next_index Demo.two, Demo.MkOs 5 [(3, []); (4, [9])] [Demo.first_connection 8 4096] [])).
Proof.
  refine (Listen_starves (W := Demo.os) Demo.serve 2 3000 Demo.two (Demo.world [8] [9]) (Demo.world [8] [9])
    (Demo.MkOs 5 [(3, []); (4, [9])] [Demo.first_connection 8 4096] [])
    (Demo.MkOs 5 [(3, []); (4, [9])] [Demo.first_connection 8 4096] []) [true; true] [] [(4, true)] 3 8 Demo.local _ _ _ _ _ _);
    [lia|vm_compute; reflexivity|reflexivity|constructor| |vm_compute; reflexivity].
  exists 1700000000, (Listener 1048576 4096), (Demo.world [] [9]), (Demo.world [] [9]).
  split; [lia|]. split_and!; vm_compute; reflexivity.
Defined.
