(* ===== verification/RequestImpl.v ===== *)
(** * RequestImpl: [kernel/main/impl/requestimpl.cpp]

    The request objects handed to the queue modules.  They live in a store
    indexed by address, because the queue keeps references to them and another
    worker replies through those references later: every operation reads and
    writes the shared object.  [RequestImpl] implements [IRequest] and its
    laws, and [Process] dispatches a request to the handlers of an [IMQ]. *)
From Stdlib Require Import Ascii String.
From stdpp Require Import options.
From S2P Require Import Prelude Findmatch ZcString Buffer HttpParse Numerals HttpReply Interfaces.

(** The object: the owned [Server::CHandler] and the lazily filled header map
    (in insertion order). *)
Record RequestObj := MkReq {
  handler : Conn;
  HeaderMap : list (zcstring * zcstring)
}.

Abbreviation store := (gmap nat RequestObj).

(** ** The header map, an [unordered_map] with [zcstring_iequal] as equality.

    Equal keys have equal hashes, so looking in one bucket finds what a search
    of all the entries finds. *)
Fixpoint hmap_find (key : zcstring) (l : list (zcstring * zcstring)) : outcome (option zcstring) :=
  match l with
  | [] => Ret None
  | (k, v) :: l => eq ← zcstring_iequal k key; if eq : bool then Ret (Some v) else hmap_find key l
  end.

(** [emplace] keeps the entry of an equal key. *)
Definition hmap_emplace (kv : zcstring * zcstring) (l : list (zcstring * zcstring))
    : outcome (list (zcstring * zcstring)) :=
  o ← hmap_find kv.1 l;
  match o with Some _ => Ret l | None => Ret (l ++ [kv]) end.

Fixpoint hmap_emplace_all (kvs l : list (zcstring * zcstring)) : outcome (list (zcstring * zcstring)) :=
  match kvs with
  | [] => Ret l
  | kv :: kvs => l ← hmap_emplace kv l; hmap_emplace_all kvs l
  end.

(** ** Operations on one object *)

Definition obj_handler {A} (m : M Conn A) : M RequestObj A := λ o,
  let '(r, c) := m (handler o) in (r, MkReq c (HeaderMap o)).

Definition obj_GetHeaderOption (option_ : bytes) (defvalue : option bytes) : M RequestObj zcstring :=
  o ← get;
  hs ← (match HeaderMap o with
        | [] => lift (hmap_emplace_all (Headers (Request (http (handler o)))) [])
        | hs => mret hs
        end);
  _ ← modify (λ o, MkReq (handler o) hs);
  it ← lift (hmap_find (zc_of_string option_) hs);
  match it with
  | Some v => mret v
  | None => mret (match defvalue with Some d => zc_of_string d | None => znull end)
  end.

(** An operation on the object a reference points to. *)
Definition with_obj {A} (r : nat) (m : M RequestObj A) : M store A := λ w,
  match w !! r with
  | None => (Undef, w)
  | Some o => let '(res, o') := m o in (res, <[r := o']> w)
  end.

Section os.
(** The operating system: [send] for each connection, and the clock. *)
Context (send_res : nat → nat → Z → bytes → Z) (now : nat → Z).

Definition RequestImpl_GetMsgId (r : nat) : M store Z :=
  with_obj r (gets (λ o, MsgId (http (handler o)))).

Definition RequestImpl_GetMethod (r : nat) : M store RequestMethod :=
  with_obj r (gets (λ o, Method (Request (http (handler o))))).

Definition RequestImpl_GetHeaderOption (r : nat) (o : bytes) (d : option bytes) : M store zcstring :=
  with_obj r (obj_GetHeaderOption o d).

Definition RequestImpl_GetContent (r : nat) : M store zcstring :=
  with_obj r (gets (λ o, ReqContent (Request (http (handler o))))).

Definition RequestImpl_GetUri (r : nat) : M store zcstring :=
  with_obj r (gets (λ o, Uri (Request (http (handler o))))).

Definition handler_Reply (r : nat) (Code : Z) (Message Content : option bytes) (len : Z)
    (hs : list (cptr * cptr)) (close : bool) : M store unit :=
  with_obj r (obj_handler (Reply (send_res r) now Code Message Content len hs close)).

Definition RequestImpl_Reply (r : nat) (Code : Z) (Message Content : option bytes) (len : Z)
    (hs : list (cptr * cptr)) (close : bool) : M store bool :=
  _ ← handler_Reply r Code Message Content len hs close;
  mret true.

Definition telemetry_set (opt : TeleOption) (t : Z) (tm : CTelemetry) : CTelemetry :=
  match opt with
  | EmplaceAt => MkTelemetry (tmCreatedAt tm) (tmReadingAt tm) (tmFinishedAt tm) t (tmExtractedAt tm)
  | ExtractAt => MkTelemetry (tmCreatedAt tm) (tmReadingAt tm) (tmFinishedAt tm) (tmEmplacedAt tm) t
  end.

Definition RequestImpl_SetTelemetry (r : nat) (opt : TeleOption) : M store unit :=
  with_obj r (obj_handler (
    t ← timestamp now;
    modify (λ c, set_telemetry (telemetry_set opt t (Telemetry (http c))) c))).

#[export] Instance RequestImpl_IRequest : IRequest store nat := {
  GetMsgId := RequestImpl_GetMsgId;
  GetHeaderOption := RequestImpl_GetHeaderOption;
  GetContent := RequestImpl_GetContent;
  GetUri := RequestImpl_GetUri;
  request_Reply := RequestImpl_Reply;
  SetTelemetry := RequestImpl_SetTelemetry
}.

(** [~RequestImpl]: the owned handler is destroyed with the object. *)
Definition RequestImpl_destroy (r : nat) : M store unit :=
  _ ← with_obj r (obj_handler HttpImpl_destroy);
  modify (delete r).

(** [RequestImpl::Process]: the dispatch on the method.  [mq] is [None] when
    the object behind the route does not implement [IMQ]. *)
Definition RequestImpl_Process {Q} `{!IMQ Q store nat} (this : nat) (mq : IUnknown unit)
    : M (Q * store) unit :=
  match mq with
  | None => throw (StdException (str "IMQ interface not implemented"))
  | Some _ =>
      method ← on_snd (RequestImpl_GetMethod this);
      match method with
      | GET => mq_Get (Some this)
      | POST => mq_Post (Some this)
      | PUT => mq_Put (Some this)
      | HEAD => mq_Head (Some this)
      | OPTIONS => mq_Options (Some this)
      | DELETE => mq_Delete (Some this)
      | TRACE => mq_Trace (Some this)
      | CONNECT => mq_Connect (Some this)
      | PATCH => mq_Patch (Some this)
      | UNSUPPORTED => on_snd (handler_Reply this 200 (Some (str "OK")) None 0 [] true)
      end
  end.
End os.

(** ** The laws of [IRequest] *)

Definition store_rid (r : nat) (w : store) : option Z :=
  (λ o, MsgId (http (handler o))) <$> w !! r.

(** An operation that keeps the identifier of its object. *)
Definition keeps_id {A} (m : M RequestObj A) : Prop :=
  ∀ i, preserves (λ o, MsgId (http (handler o)) = i) m.

Lemma with_obj_rid {A} r (m : M RequestObj A) w r' :
  keeps_id m → store_rid r' (with_obj r m w).2 = store_rid r' w.
Proof.
  intros Hm. unfold with_obj, store_rid. destruct (w !! r) as [o|] eqn:Ho; [|done].
  specialize (Hm _ o eq_refl). destruct (m o) as [res o'] eqn:Hmo. simpl in *.
  destruct (decide (r = r')) as [->|Hne].
  - by rewrite lookup_insert_eq, Ho; simpl; rewrite Hm.
  - by rewrite lookup_insert_ne.
Qed.

Lemma with_obj_read {A} r (f : RequestObj → A) w :
  with_obj r (gets f) w = (or_undef (f <$> w !! r), w).
Proof.
  unfold with_obj, gets. destruct (w !! r) as [o|] eqn:Ho; [|done]. by rewrite insert_id.
Qed.

Definition conn_keeps_id {A} (m : M Conn A) : Prop :=
  ∀ i, preserves (λ c, MsgId (http c) = i) m.

Lemma Reply_keeps_id send now Code Message Content len hs close :
  conn_keeps_id (Reply send now Code Message Content len hs close).
Proof.
  intros i. apply Reply_keeps_invariant.
  - intros s d l c Hc. unfold WriteData. repeat case_match; done.
  - intros c Hc. unfold http_close_connection. by case_decide.
  - intros c Hc. exact Hc.
  - intros t c Hc. exact Hc.
Qed.

(** Looking a header up changes the header map only. *)
Lemma GetHeaderOption_keeps_handler (I : Conn → Prop) o d : preserves (λ ob, I (handler ob)) (obj_GetHeaderOption o d).
Proof.
  unfold obj_GetHeaderOption.
  apply preserves_bind; [apply preserves_get|]. intros ob.
  apply preserves_bind; [destruct (HeaderMap ob); auto with fiber|]. intros hs.
  apply preserves_bind; [by intros ? ?|]. intros _.
  apply preserves_bind; [apply preserves_lift|]. intros [v|]; apply preserves_ret.
Qed.

Lemma GetHeaderOption_keeps_id o d : keeps_id (obj_GetHeaderOption o d).
Proof. intros i. apply (GetHeaderOption_keeps_handler (λ c, MsgId (http c) = i)). Qed.

Lemma obj_handler_keeps {A} (I : Conn → Prop) (m : M Conn A) : preserves I m → preserves (λ o, I (handler o)) (obj_handler m).
Proof. intros Hm o Ho. specialize (Hm (handler o) Ho). unfold obj_handler. by destruct (m (handler o)). Qed.

Lemma keeps_id_handler {A} (m : M Conn A) : conn_keeps_id m → keeps_id (obj_handler m).
Proof. intros Hm i. apply (obj_handler_keeps (λ c, MsgId (http c) = i)), Hm. Qed.

Lemma SetTelemetry_keeps_id now opt :
  keeps_id (obj_handler (t ← timestamp now;
    modify (λ c, set_telemetry (telemetry_set opt t (Telemetry (http c))) c))).
Proof. apply keeps_id_handler. intros i. apply preserves_bind; intros; intros c Hc; exact Hc. Qed.

Section laws.
Context (send_res : nat → nat → Z → bytes → Z) (now : nat → Z).

#[local] Existing Instance RequestImpl_IRequest.

Lemma RequestImpl_Reply_rid r Code Message Content len hs close w r' :
  store_rid r' (RequestImpl_Reply send_res now r Code Message Content len hs close w).2 = store_rid r' w.
Proof.
  unfold RequestImpl_Reply, mbind, M_bind.
  assert (H : store_rid r' (handler_Reply send_res now r Code Message Content len hs close w).2 = store_rid r' w).
  { apply with_obj_rid, keeps_id_handler, Reply_keeps_id. }
  by destruct (handler_Reply _ _ _ _ _ _ _ _ _ w) as [[]].
Qed.

#[export] Program Instance RequestImpl_IRequestLaws :
    @IRequestLaws store nat (RequestImpl_IRequest send_res now) := {
  rid := store_rid
}.
Next Obligation. intros r w. apply (with_obj_read r (λ o, MsgId (http (handler o)))). Qed.
Next Obligation. intros. apply with_obj_rid, GetHeaderOption_keeps_id. Qed.
Next Obligation. intros. apply with_obj_rid. intros i. apply preserves_gets. Qed.
Next Obligation. intros. apply RequestImpl_Reply_rid. Qed.
Next Obligation. intros. apply with_obj_rid, SetTelemetry_keeps_id. Qed.
Next Obligation.
  intros r code msg content len hs close w. cbn. unfold RequestImpl_Reply, mbind, M_bind.
  by destruct (handler_Reply _ _ _ _ _ _ _ _ _ w) as [[]].
Qed.
End laws.

(** ** Looking a header up *)

(** The first header whose name is the given text up to ASCII case. *)
Fixpoint first_header (name : list Z) (l : list (zcstring * zcstring)) : option zcstring :=
  match l with
  | [] => None
  | (k, v) :: l => if decide (icase <$> zview k = name) then Some v else first_header name l
  end.

Definition view_ok (z : zcstring) : Prop := zc_wf z ∧ (Z.of_nat (zend z) < u64_modulus)%Z.

Lemma hmap_find_spec key l :
  view_ok key → Forall (λ kv, view_ok kv.1) l →
  hmap_find key l = Ret (first_header (icase <$> zview key) l).
Proof.
  intros [Hk Hkb] Hl. induction Hl as [|[k v] l [Hw Hb] Hl IH]; [done|].
  cbn [hmap_find first_header]. rewrite zcstring_iequal_spec by done. outcome_simpl.
  case_decide as Heq; [by rewrite bool_decide_eq_true_2 | by rewrite bool_decide_eq_false_2].
Qed.

Lemma first_header_app name l k v :
  first_header name (l ++ [(k, v)])
  = match first_header name l with
    | Some x => Some x
    | None => if decide (icase <$> zview k = name) then Some v else None
    end.
Proof.
  induction l as [|[k' v'] l IH]; [done|]. cbn [app first_header].
  destruct (decide (icase <$> zview k' = name)); [done|apply IH].
Qed.

Lemma hmap_emplace_all_spec kvs l :
  Forall (λ kv, view_ok kv.1) kvs → Forall (λ kv, view_ok kv.1) l →
  ∃ l', hmap_emplace_all kvs l = Ret l' ∧ Forall (λ kv, view_ok kv.1) l' ∧
    ∀ name, first_header name l'
      = match first_header name l with Some x => Some x | None => first_header name kvs end.
Proof.
  intros Hkvs. revert l. induction Hkvs as [|[k v] kvs Hk Hkvs IH]; intros l Hl.
  { exists l. split; [done|]. split; [done|]. intros name. by destruct (first_header name l). }
  cbn [hmap_emplace_all]. unfold hmap_emplace. cbn [fst]. rewrite hmap_find_spec by done. outcome_simpl.
  destruct (first_header (icase <$> zview k) l) as [x|] eqn:Hf.
  - outcome_simpl. destruct (IH l Hl) as (l' & Hrun & Hok & Hall). exists l'. split; [done|]. split; [done|].
    intros name. rewrite Hall. cbn [first_header]. case_decide as Hn; [|done]. by rewrite <- Hn, Hf.
  - outcome_simpl. destruct (IH (l ++ [(k, v)])) as (l' & Hrun & Hok & Hall).
    { apply Forall_app. split; [done|]. by apply Forall_singleton. }
    exists l'. split; [done|]. split; [done|]. intros name. rewrite Hall, first_header_app. cbn [first_header].
    destruct (first_header name l); [done|]. by case_decide.
Qed.

Lemma zc_of_string_ok s : (Z.of_nat (length s) < u64_modulus)%Z → view_ok (zc_of_string s) ∧ zview (zc_of_string s) = s.
Proof.
  intros H. unfold view_ok, zc_wf, zview, zc_of_string. cbn [zmem zbegin zend].
  rewrite length_app. split; [split; [simpl; lia | done]|].
  unfold slice. by rewrite Nat.sub_0_r, drop_0, take_app_length.
Qed.

(** The object whose header map has been filled from its request. *)
Definition map_filled (o : RequestObj) : Prop :=
  HeaderMap o = [] ∨
  (Forall (λ kv, view_ok kv.1) (HeaderMap o) ∧
   ∀ name, first_header name (HeaderMap o) = first_header name (Headers (Request (http (handler o))))).

(** C36: a header lookup is case insensitive and takes the first header of that
    name: on the first call, which fills the map, and on every later one,
    [GetHeaderOption] returns the value of the first parsed header whose name
    equals the option up to ASCII case, or the default when there is none; it
    leaves the request as it was and the map filled. *)
Theorem GetHeaderOption_first_match (o : RequestObj) (name : bytes) (dflt : option bytes) :
  (Z.of_nat (length name) < u64_modulus)%Z → map_filled o →
  Forall (λ kv, view_ok kv.1) (Headers (Request (http (handler o)))) →
  ∃ hs, obj_GetHeaderOption name dflt o
    = (Ret (match first_header (icase <$> name) (Headers (Request (http (handler o)))) with
            | Some v => v
            | None => match dflt with Some d => zc_of_string d | None => znull end
            end), MkReq (handler o) hs) ∧
    map_filled (MkReq (handler o) hs).
Proof.
  intros Hname Hfill Hall. destruct (zc_of_string_ok name Hname) as [Hok Hv].
  assert (Hmain : ∃ hs, (match HeaderMap o with
        | [] => lift (hmap_emplace_all (Headers (Request (http (handler o)))) [])
        | hs => mret hs
        end : M RequestObj _) o = (Ret hs, o) ∧
      Forall (λ kv, view_ok kv.1) hs ∧
      ∀ n, first_header n hs = first_header n (Headers (Request (http (handler o))))).
  { destruct (HeaderMap o) as [|h hs] eqn:Hm.
    - destruct (hmap_emplace_all_spec _ [] Hall ltac:(constructor)) as (l' & Hr & Hf & Hn).
      exists l'. unfold lift. by rewrite Hr.
    - exists (h :: hs). split; [done|]. destruct Hfill as [Hfill|Hfill]; rewrite Hm in Hfill; [done|exact Hfill]. }
  destruct Hmain as (hs & Hrun & Hf & Hn). exists hs. split; [|by right].
  unfold obj_GetHeaderOption. unfold mbind, M_bind, get. rewrite Hrun.
  unfold modify, lift. rewrite hmap_find_spec by done. rewrite Hv, Hn.
  by destruct (first_header _ _).
Qed.

Definition demo_request (hs : list (bytes * bytes)) : CRequest :=
  MkRequest POST (zc_of_string (str "/sms")) znull znull
    ((λ h, (zc_of_string h.1, zc_of_string h.2)) <$> hs).

Definition demo_obj (hs : list (bytes * bytes)) : RequestObj :=
  MkReq (set_request (demo_request hs) demo_conn) [].

Lemma GetHeaderOption_first_match_witness :
  let o := demo_obj [(str "content-TYPE", str " text"); (str "Content-Type", str " other")] in
  map_filled o ∧ Forall (λ kv, view_ok kv.1) (Headers (Request (http (handler o)))) ∧
  ∃ hs, obj_GetHeaderOption (str "Content-Type") None o
      = (Ret (zc_of_string (str " text")), MkReq (handler o) hs) ∧ map_filled (MkReq (handler o) hs).
Proof.
  intros o. assert (Hf : map_filled o) by (left; reflexivity).
  assert (Hall : Forall (λ kv, view_ok kv.1) (Headers (Request (http (handler o))))).
  { repeat (apply Forall_cons; split; [split; [decided | reflexivity]|]). constructor. }
  split; [exact Hf|]. split; [exact Hall|].
  exact (GetHeaderOption_first_match o (str "Content-Type") None eq_refl Hf Hall).
Defined.
