(* ===== verification/SyncQueue.v ===== *)
(** * SyncQueue: the synchronous queue module, [mq/mq-sync/src/sync-queue.cpp]

    A producer [PUT]s a request, which waits without an answer; a consumer
    [GET]s the oldest waiting request; the consumer [POST]s the answer with the
    identifier it received, and the answer goes to the producer.

    The state is the [mq_*] fields, and a ghost field that only [QueueProg] uses.
    Each handler is written as the source has
    it, and each [unique_lock] block is a function of its own on the state, so
    that [SyncQueueConc] can interleave the blocks of concurrent handlers.  The
    requests are used through [IRequest] only. *)
From Stdlib Require Import Ascii String.
From stdpp Require Import options.
From S2P Require Import Prelude ZcString Numerals HttpReply Interfaces.

(** [mq_options] *)
Record mq_limits := MkLimits { LimitTasks : Z; LimitSize : Z; LimitPeriodSec : Z }.

Record SyncQueue (R : Type) := MkQueue {
  mq_queue : list Z;              (* [queue<uint64_t>], head first *)
  mq_locked : gset Z;             (* [unordered_set<uint64_t>] *)
  mq_messages : gmap Z R;         (* [unordered_map<uint64_t, Interface<IRequest>>] *)
  mq_name : bytes;
  mq_options : mq_limits;
  (* Ghost, no field of the source: the fields of the telemetry of stored
     requests that handlers are working on at the moment without a lock;
     [None] once two handlers worked on one field at once. *)
  mq_writing : option (gset (Z * TeleOption))
}.
Arguments MkQueue {R}.
Arguments mq_queue {R}.
Arguments mq_locked {R}.
Arguments mq_messages {R}.
Arguments mq_name {R}.
Arguments mq_options {R}.
Arguments mq_writing {R}.

Definition with_queue {R} (q : list Z) (s : SyncQueue R) : SyncQueue R :=
  MkQueue q (mq_locked s) (mq_messages s) (mq_name s) (mq_options s) (mq_writing s).
Definition with_locked {R} (l : gset Z) (s : SyncQueue R) : SyncQueue R :=
  MkQueue (mq_queue s) l (mq_messages s) (mq_name s) (mq_options s) (mq_writing s).
Definition with_messages {R} (m : gmap Z R) (s : SyncQueue R) : SyncQueue R :=
  MkQueue (mq_queue s) (mq_locked s) m (mq_name s) (mq_options s) (mq_writing s).
Definition with_writing {R : Type} (g : option (gset (Z * TeleOption))) (s : SyncQueue R) : SyncQueue R :=
  MkQueue (mq_queue s) (mq_locked s) (mq_messages s) (mq_name s) (mq_options s) g.

(** ** The critical sections *)
Section sections.
Context {R : Type}.

(** [GetStats]: the sizes of the queue, the locked set and the messages. *)
Definition GetStats : M (SyncQueue R) (Z * Z * Z) :=
  gets (λ s, (Z.of_nat (length (mq_queue s)), Z.of_nat (size (mq_locked s)),
              Z.of_nat (size (mq_messages s)))).

(** The block of [Get]: pop the head, lock it, look its request up.
    [mq_messages.at] throws [std::out_of_range] when the identifier is not
    there, after the pop and the lock have happened. *)
Definition get_section : M (SyncQueue R) (option (Z * R)) := λ s,
  match mq_queue s with
  | [] => (Ret None, s)
  | muid :: rest =>
      let s := with_locked ({[muid]} ∪ mq_locked s) (with_queue rest s) in
      match mq_messages s !! muid with
      | Some r => (Ret (Some (muid, r)), s)
      | None => (Throw (StdException (str "_Map_base::at")), s)
      end
  end.

(** The first block of [Post]: find the waiting request. *)
Definition post_find_section (xid : Z) : M (SyncQueue R) (option R) :=
  gets (λ s, mq_messages s !! xid).

(** Its second block, after the producer has been answered. *)
Definition post_erase_section (xid : Z) : M (SyncQueue R) unit :=
  modify (λ s, with_locked (mq_locked s ∖ {[xid]}) (with_messages (delete xid (mq_messages s)) s)).

(** The block of [Put]: [true] is the early [return].  The identifier is
    pushed on the queue before [emplace] reports whether it was new. *)
Definition put_section (mid : Z) (request : R) : M (SyncQueue R) bool := λ s,
  let limit := LimitSize (mq_options s) in
  if bool_decide (limit = 0%Z) || bool_decide (Z.of_nat (length (mq_queue s)) < limit)%Z then
    let s := with_queue (mq_queue s ++ [mid]) s in
    match mq_messages s !! mid with
    | None => (Ret true, with_messages (<[mid := request]> (mq_messages s)) s)
    | Some _ => (Ret false, s)
    end
  else (Ret false, s).

(** The block of [Head]: 0 stands for "empty". *)
Definition head_section : M (SyncQueue R) Z :=
  gets (λ s, match mq_queue s with [] => 0%Z | mid :: _ => mid end).
End sections.

(** What the pointer to a destroyed [std::string] temporary denotes, given the
    text the temporary held: [Dangling] for the C++ standard, which makes reading
    it undefined; a given compiler may leave some text there.  The theorems hold
    for every choice. *)
Class StaleText := stale : bytes → cptr.

(** ** The handlers *)
Section handlers.
Context {W R : Type} `{!IRequest W R, !StaleText}.

Abbreviation handler := (M (SyncQueue R * W)).

(** The header fields of the queue.  The three counts are pointers into
    temporaries of [std::to_string] that are destroyed at the end of the
    statement that stores them. *)
Definition queue_fields (counts : Z * Z * Z) (ContentType : bytes) : list (cptr * cptr) :=
  let '(QueueCount, LockedCount, MessagesCount) := counts in
  [(Live (str "X-MQ-CLASS"), Live (str "Sync.MQ.Queue"));
   (Live (str "X-MQ-QUEUE-COUNT"), stale (to_string QueueCount));
   (Live (str "X-MQ-PENDING-COUNT"), stale (to_string LockedCount));
   (Live (str "X-MQ-MESSAGES-COUNT"), stale (to_string MessagesCount))]
  ++ (if decide (ContentType = []) then [] else [(Live (str "Content-Type"), Live ContentType)]).

(** The pointer [Body.c_str()] of a view: the memory from its begin on. *)
Definition view_pointer (z : zcstring) : option bytes :=
  (λ m, drop (zbegin z) m) <$> zmem z.

(** [ReplyWithCode] with a [zcstring] body. *)
Definition ReplyWithCode_view (unknown : IUnknown R) (Code : Z) (Message : bytes) (Body : zcstring)
    (headers : list (cptr * cptr)) (ContentType : bytes) : handler bool :=
  match unknown with
  | None => mret false
  | Some request =>
      counts ← on_fst GetStats;
      on_snd (request_Reply request Code (Some Message) (view_pointer Body) (zlength Body)
                (headers ++ queue_fields counts ContentType) true)
  end.

(** [ReplyWithCode] with a [std::string] body. *)
Definition ReplyWithCode (unknown : IUnknown R) (Code : Z) (Message : bytes) (Body : bytes)
    (headers : list (cptr * cptr)) (ContentType : bytes) : handler bool :=
  match unknown with
  | None => mret false
  | Some request =>
      counts ← on_fst GetStats;
      on_snd (request_Reply request Code (Some Message) (Some (Body ++ [NUL])) (Z.of_nat (length Body))
                (headers ++ queue_fields counts ContentType) true)
  end.

Definition forward_field (id : Z) : cptr * cptr :=
  (Live (str "X-MSG-FORWARD-UID"), Live (to_string id)).

Definition not_implemented : exn := StdException (str "IRequest not implemented").

Definition Get (unknown : IUnknown R) : handler unit :=
  match unknown with
  | None => throw not_implemented
  | Some _ =>
      x ← on_fst get_section;
      match x with
      | Some (muid, xrequest) =>
          _ ← on_snd (SetTelemetry xrequest EmplaceAt);
          body ← on_snd (GetContent xrequest);
          ct ← on_snd (GetHeaderOption xrequest (str "Content-Type") (Some (str "application/json")));
          ct ← lift (zstr ct);
          _ ← ReplyWithCode_view unknown 200 (str "OK") body [forward_field muid] ct;
          mret tt
      | None => _ ← ReplyWithCode unknown 204 (str "Queue is empty") [] [] []; mret tt
      end
  end.

(** The body of the [try] block of [Post]. *)
Definition post_try (unknown : IUnknown R) (request : R) (x_mid : zcstring) : handler unit :=
  xs ← lift (zstr x_mid);
  xid ← lift (stoul xs);
  client ← on_fst (post_find_section xid);
  match client with
  | Some xrequest =>
      _ ← on_snd (SetTelemetry xrequest ExtractAt);
      body ← on_snd (GetContent request);
      mid ← on_snd (GetMsgId request);
      ct ← on_snd (GetHeaderOption request (str "Content-Type") (Some (str "application/json")));
      ct ← lift (zstr ct);
      ok ← ReplyWithCode_view (Some xrequest) 200 (str "OK") body [forward_field mid] ct;
      if ok : bool then
        _ ← on_fst (post_erase_section xid);
        _ ← ReplyWithCode unknown 200 (str "OK") [] [] [];
        mret tt
      else
        _ ← ReplyWithCode unknown 499 (str "Unable to sent client response") [] [] [];
        mret tt
  | None => _ ← ReplyWithCode unknown 300 (str "Multiple Replays. Reply Ignored.") [] [] []; mret tt
  end.

Definition Post (unknown : IUnknown R) : handler unit :=
  match unknown with
  | None => throw not_implemented
  | Some request =>
      x_mid ← on_snd (GetHeaderOption request (str "X-MSG-FORWARD-UID") None);
      if zempty x_mid then
        _ ← ReplyWithCode unknown 400 (str "Bad Request. Header `X-MSG-FORWARD-UID` not found") [] [] [];
        mret tt
      else
        catch_std (post_try unknown request x_mid) (λ _,
          _ ← ReplyWithCode unknown 400 (str "Bad Request. Invalid `X-MSG-FORWARD-UID` header") [] [] [];
          mret tt)
  end.

Definition Put (unknown : IUnknown R) : handler unit :=
  match unknown with
  | None => throw not_implemented
  | Some request =>
      mid ← on_snd (GetMsgId request);
      accepted ← on_fst (put_section mid request);
      if accepted : bool then mret tt
      else
        s ← on_fst get;
        _ ← ReplyWithCode unknown 507 (str "Insufficient Storage") []
              [(Live (str "X-MQ-QUEUE-LIMIT"), Live (to_string (LimitSize (mq_options s))))] [];
        mret tt
  end.

Definition Head (unknown : IUnknown R) : handler unit :=
  mid ← on_fst head_section;
  _ ← (if decide (mid ≠ 0%Z) then
         ReplyWithCode unknown 200 (str "OK") [] [(Live (str "X-MSG-HEAD-UID"), Live (to_string mid))] []
       else ReplyWithCode unknown 204 (str "Queue is empty") [] [] []);
  mret tt.

Definition options_text : bytes :=
  str "<GET> - Get message from queue head" ++ [LF]
  ++ str "<PUT> - Emplace message in queue tail." ++ [LF]
  ++ str "<POST> - Push message reply with specific ID (X-MQ-MESSAGE-ID header option must be specified)" ++ [LF]
  ++ str "<HEAD> - Check queue status. Reply header option contain X-MQ-QUEUE-SIZE - number of queue messages, X-MQ-QUEUE-LOCKED - number of locked (in progress) messages" ++ [LF]
  ++ str "<OPTIONS> - Supported metods and this help".

Definition Options (unknown : IUnknown R) : handler unit :=
  _ ← ReplyWithCode unknown 200 (str "OK") options_text [] (str "text/plain"); mret tt.

Definition allow_fields (methods : bytes) : list (cptr * cptr) :=
  [(Live (str "Access-Control-Allow-Methods"), Live methods); (Live (str "Allow"), Live methods)].

Definition queue_methods : bytes := str "PUT,GET,POST,HEAD,OPTIONS".

Definition Delete (unknown : IUnknown R) : handler unit :=
  _ ← ReplyWithCode unknown 405 (str "Method DELETE Not Allowed") [] (allow_fields queue_methods) []; mret tt.

Definition Trace (unknown : IUnknown R) : handler unit :=
  _ ← ReplyWithCode unknown 405 (str "Method TRACE Not Allowed") [] (allow_fields (str "PUT")) []; mret tt.

Definition Connect (unknown : IUnknown R) : handler unit :=
  _ ← ReplyWithCode unknown 405 (str "Method CONNECT Not Allowed") [] (allow_fields queue_methods) []; mret tt.

Definition Patch (unknown : IUnknown R) : handler unit :=
  _ ← ReplyWithCode unknown 405 (str "Method PATCH Not Allowed") [] (allow_fields queue_methods) []; mret tt.

(** [SyncQueueHandler] implements [IMQ]. *)
#[export] Instance SyncQueue_IMQ : IMQ (SyncQueue R) W R := {
  mq_Get := Get; mq_Post := Post; mq_Put := Put; mq_Head := Head; mq_Options := Options;
  mq_Delete := Delete; mq_Trace := Trace; mq_Connect := Connect; mq_Patch := Patch
}.
End handlers.

(** ** Invariants of all the handlers from invariants of the sections *)
Section invariants.
#[local] Set Default Proof Using "All".
Context {W R : Type} `{!IRequest W R, !IRequestLaws W R, !StaleText}.

(** An invariant of the queue state, which may mention the identifiers of the
    requests it stores. *)
Context (P : SyncQueue R → (R → option Z) → Prop).
Context (P_ext : ∀ s f g, (∀ r, f r = g r) → P s f → P s g).
Context (P_get : ∀ s f, P s f → P (get_section s).2 f).
Context (P_erase : ∀ xid s f, P s f → P (post_erase_section xid s).2 f).
Context (P_put : ∀ mid r s f, f r = Some mid → P s f → P (put_section mid r s).2 f).

Definition state_ok (sw : SyncQueue R * W) : Prop := P sw.1 (λ r, rid r sw.2).

Lemma state_ok_world {A} (m : M W A) :
  (∀ w r, rid r (m w).2 = rid r w) → preserves state_ok (on_snd (S := SyncQueue R) m).
Proof.
  intros Hm [s w] Hs. unfold on_snd, state_ok in *. simpl in *. specialize (Hm w).
  destruct (m w) as [res w']. simpl in *. by eapply P_ext; [intros r; symmetry; apply Hm|].
Qed.

Lemma state_ok_section {A} (m : M (SyncQueue R) A) :
  (∀ s f, P s f → P (m s).2 f) → preserves state_ok (on_fst (W := W) m).
Proof. intros Hm [s w] Hs. unfold on_fst, state_ok in *. simpl in *. specialize (Hm s _ Hs). by destruct (m s). Qed.

Lemma GetMsgId_state_ok r : preserves state_ok (on_snd (S := SyncQueue R) (GetMsgId r)).
Proof. apply state_ok_world. intros w r'. by rewrite GetMsgId_rid. Qed.
Lemma GetHeaderOption_state_ok r o d : preserves state_ok (on_snd (S := SyncQueue R) (GetHeaderOption r o d)).
Proof. apply state_ok_world. intros. apply GetHeaderOption_stable. Qed.
Lemma GetContent_state_ok r : preserves state_ok (on_snd (S := SyncQueue R) (GetContent r)).
Proof. apply state_ok_world. intros. apply GetContent_stable. Qed.
Lemma SetTelemetry_state_ok r o : preserves state_ok (on_snd (S := SyncQueue R) (SetTelemetry r o)).
Proof. apply state_ok_world. intros. apply SetTelemetry_stable. Qed.
Lemma Reply_state_ok r code msg content len hs close :
  preserves state_ok (on_snd (S := SyncQueue R) (request_Reply r code msg content len hs close)).
Proof. apply state_ok_world. intros. apply Reply_stable. Qed.
Lemma GetStats_state_ok : preserves state_ok (on_fst (W := W) GetStats).
Proof. apply state_ok_section. by intros s f. Qed.
Lemma get_state_ok : preserves state_ok (on_fst (W := W) get).
Proof. apply state_ok_section. by intros s f. Qed.
Lemma get_section_state_ok : preserves state_ok (on_fst (W := W) get_section).
Proof. by apply state_ok_section. Qed.
Lemma head_section_state_ok : preserves state_ok (on_fst (W := W) head_section).
Proof. apply state_ok_section. by intros s f. Qed.
Lemma post_find_state_ok xid : preserves state_ok (on_fst (W := W) (post_find_section xid)).
Proof. apply state_ok_section. by intros s f. Qed.
Lemma post_erase_state_ok xid : preserves state_ok (on_fst (W := W) (post_erase_section xid)).
Proof. apply state_ok_section. apply P_erase. Qed.

#[local] Hint Resolve GetMsgId_state_ok GetHeaderOption_state_ok GetContent_state_ok SetTelemetry_state_ok
  Reply_state_ok GetStats_state_ok get_state_ok get_section_state_ok head_section_state_ok
  post_find_state_ok post_erase_state_ok : fiber.

Lemma ReplyWithCode_state_ok u code msg body hs ct :
  preserves state_ok (ReplyWithCode u code msg body hs ct).
Proof. unfold ReplyWithCode. walk. Qed.
Lemma ReplyWithCode_view_state_ok u code msg body hs ct :
  preserves state_ok (ReplyWithCode_view u code msg body hs ct).
Proof. unfold ReplyWithCode_view. walk. Qed.
#[local] Hint Resolve ReplyWithCode_state_ok ReplyWithCode_view_state_ok : fiber.

Lemma Get_state_ok u : preserves state_ok (Get u).
Proof. unfold Get. walk. Qed.

Lemma Post_state_ok u : preserves state_ok (Post u).
Proof. unfold Post, post_try. walk. Qed.

Lemma Put_state_ok u : preserves state_ok (Put u).
Proof.
  unfold Put. destruct u as [r|]; [|auto with fiber].
  apply preserves_bind_strong; [auto with fiber|].
  intros [s w] mid [s' w'] _ Hmid Hok. unfold on_snd in Hmid. rewrite GetMsgId_rid in Hmid.
  simpl in Hmid. destruct (rid r w) as [i|] eqn:Hi; simplify_eq/=.
  unfold mbind at 1, M_bind at 1. unfold on_fst at 1. simpl.
  pose proof (P_put mid r s' (λ r, rid r w') Hi Hok) as Hput.
  destruct (put_section mid r s') as [res s''] eqn:Hsec. simpl in Hput.
  destruct res as [b|e| |]; try exact Hput. destruct b; [exact Hput|].
  match goal with |- state_ok (?m (s'', w')).2 => assert (preserves state_ok m) as Hpres by walk end.
  by apply Hpres.
Qed.

Lemma other_handlers_state_ok u :
  preserves state_ok (Head u) ∧ preserves state_ok (Options u) ∧ preserves state_ok (Delete u) ∧
  preserves state_ok (Trace u) ∧ preserves state_ok (Connect u) ∧ preserves state_ok (Patch u).
Proof.
  unfold Head, Options, Delete, Trace, Connect, Patch. split_and!; walk.
Qed.
End invariants.

(** A handler call: which method, by which request. *)
Inductive mq_call (R : Type) :=
  | CGet (u : IUnknown R) | CPost (u : IUnknown R) | CPut (u : IUnknown R) | CHead (u : IUnknown R)
  | COptions (u : IUnknown R) | CDelete (u : IUnknown R) | CTrace (u : IUnknown R)
  | CConnect (u : IUnknown R) | CPatch (u : IUnknown R).
Arguments CGet {R}. Arguments CPost {R}. Arguments CPut {R}. Arguments CHead {R}. Arguments COptions {R}.
Arguments CDelete {R}. Arguments CTrace {R}. Arguments CConnect {R}. Arguments CPatch {R}.

Definition run_call {S W R} `{!IMQ S W R} (c : mq_call R) : M (S * W) unit :=
  match c with
  | CGet u => mq_Get u | CPost u => mq_Post u | CPut u => mq_Put u | CHead u => mq_Head u
  | COptions u => mq_Options u | CDelete u => mq_Delete u | CTrace u => mq_Trace u
  | CConnect u => mq_Connect u | CPatch u => mq_Patch u
  end.

(** Calls one after the other; an exception ends its call only. *)
Fixpoint run_calls {S W R} `{!IMQ S W R} (cs : list (mq_call R)) (sw : S * W) : S * W :=
  match cs with
  | [] => sw
  | c :: cs => run_calls cs (run_call c sw).2
  end.

Lemma run_calls_state_ok {W R} `{!IRequest W R, !IRequestLaws W R, !StaleText} (P : SyncQueue R → (R → option Z) → Prop) cs sw :
  (∀ s f g, (∀ r, f r = g r) → P s f → P s g) →
  (∀ s f, P s f → P (get_section s).2 f) →
  (∀ xid s f, P s f → P (post_erase_section xid s).2 f) →
  (∀ mid r s f, f r = Some mid → P s f → P (put_section mid r s).2 f) →
  state_ok P sw → state_ok P (run_calls cs sw).
Proof.
  intros Hext Hget Herase Hput. revert sw. induction cs as [|c cs IH]; intros sw Hsw; [done|].
  apply IH. destruct c as [u|u|u|u|u|u|u|u|u]; simpl;
    destruct (other_handlers_state_ok P Hext Hget Herase Hput u) as (Hh & Ho & Hd & Ht & Hc & Hp); auto.
  - by apply Get_state_ok.
  - by apply Post_state_ok.
  - by apply Put_state_ok.
Qed.
