(* ===== verification/SyncQueueSpec.v ===== *)
(** * SyncQueueSpec: what the synchronous queue promises

    The abstract broker: waiting requests in order of arrival and requests in
    progress, each PUT moving a request in, each GET moving the oldest one to
    "in progress", each POST answering it.  The handlers of [SyncQueue]
    implement it, for a store of requests whose operations succeed; the
    invariants hold without that assumption, exceptions included. *)
From Stdlib Require Import Ascii String.
From stdpp Require Import options.
From S2P Require Import Prelude ZcString Numerals HttpReply Interfaces SyncQueue.

(** ** Invariants that hold whatever the requests do *)

(** Every stored request is under its own identifier, and is queued or locked. *)
Definition stored_ok {R} (s : SyncQueue R) (f : R → option Z) : Prop :=
  (∀ i r, mq_messages s !! i = Some r → f r = Some i) ∧
  (∀ i, is_Some (mq_messages s !! i) → i ∈ mq_queue s ∨ i ∈ mq_locked s).

Definition within_limit {R} (l : mq_limits) (s : SyncQueue R) : Prop :=
  mq_options s = l ∧ (LimitSize l ≠ 0%Z → (Z.of_nat (length (mq_queue s)) ≤ LimitSize l)%Z).

Section invariants.
Context {W R : Type} `{!IRequest W R, LAWS : !IRequestLaws W R, !StaleText}.

Lemma get_section_cases (s : SyncQueue R) :
  (mq_queue s = [] ∧ get_section s = (Ret None, s)) ∨
  (∃ i q, mq_queue s = i :: q ∧
    get_section s = (match mq_messages s !! i with
                     | Some r => Ret (Some (i, r))
                     | None => Throw (StdException (str "_Map_base::at"))
                     end, with_locked ({[i]} ∪ mq_locked s) (with_queue q s))).
Proof.
  unfold get_section. destruct (mq_queue s) as [|i q]; [by left|right].
  exists i, q. split; [done|]. cbn. by destruct (mq_messages s !! i).
Qed.

Lemma stored_ok_get (s : SyncQueue R) f : stored_ok s f → stored_ok (get_section s).2 f.
Proof.
  intros [Hid Hin]. destruct (get_section_cases s) as [[_ ->]|(i & q & Hq & ->)]; [done|].
  split; cbn; [done|]. intros j Hj. destruct (Hin j Hj) as [Hj'|Hj']; [|set_solver].
  rewrite Hq in Hj'. apply elem_of_cons in Hj' as [->|Hj']; set_solver.
Qed.

Lemma stored_ok_erase xid (s : SyncQueue R) f : stored_ok s f → stored_ok (post_erase_section xid s).2 f.
Proof.
  intros [Hid Hin]. split; cbn.
  - intros i r [_ Hi]%lookup_delete_Some. by apply Hid.
  - intros i [r [Hne Hi]%lookup_delete_Some]. destruct (Hin i ltac:(by eexists)); set_solver.
Qed.

Lemma put_section_cases mid r (s : SyncQueue R) :
  (LimitSize (mq_options s) ≠ 0%Z ∧ (LimitSize (mq_options s) ≤ Z.of_nat (length (mq_queue s)))%Z ∧
     put_section mid r s = (Ret false, s)) ∨
  ((LimitSize (mq_options s) = 0%Z ∨ (Z.of_nat (length (mq_queue s)) < LimitSize (mq_options s))%Z) ∧
     put_section mid r s
     = (Ret (bool_decide (mq_messages s !! mid = None)),
        with_messages (if decide (mq_messages s !! mid = None) then <[mid := r]> (mq_messages s) else mq_messages s)
          (with_queue (mq_queue s ++ [mid]) s))).
Proof.
  unfold put_section. destruct (bool_decide _ || bool_decide _) eqn:Hb.
  - right. split.
    { apply orb_true_iff in Hb as [Hb|Hb]; apply bool_decide_eq_true in Hb; auto. }
    cbn. destruct (mq_messages s !! mid) as [x|] eqn:Hm.
    + by rewrite bool_decide_eq_false_2, decide_False.
    + by rewrite bool_decide_eq_true_2, decide_True.
  - left. apply orb_false_iff in Hb as [H1 H2]. apply bool_decide_eq_false in H1, H2.
    split; [done|]. split; [lia|done].
Qed.

Lemma stored_ok_put mid r (s : SyncQueue R) f :
  f r = Some mid → stored_ok s f → stored_ok (put_section mid r s).2 f.
Proof.
  intros Hf [Hid Hin]. destruct (put_section_cases mid r s) as [(_ & _ & ->)|[_ ->]]; [done|].
  split; cbn; case_decide as Hm.
  - intros i x [[<- <-]|[_ Hi]]%lookup_insert_Some; [done|by apply Hid].
  - done.
  - intros i [x [[<- <-]|[_ Hi]]%lookup_insert_Some]; [set_solver|].
    destruct (Hin i ltac:(by eexists)); set_solver.
  - intros i Hi. destruct (Hin i Hi); set_solver.
Qed.

(** Whatever the sequence of calls, and whether they return or throw,
    every request the queue stores is stored under its own identifier, and
    that identifier is in the queue or in the locked set. *)
Theorem queue_stored_ok (cs : list (mq_call R)) (s : SyncQueue R) (w : W) :
  stored_ok s (λ r, rid r w) →
  let sw' := run_calls cs (s, w) in stored_ok sw'.1 (λ r, rid r sw'.2).
Proof.
  intros Hs. apply (run_calls_state_ok stored_ok cs (s, w)); [|apply stored_ok_get|apply stored_ok_erase|apply stored_ok_put|exact Hs].
  intros s' f g Hfg [Hid Hin]. split; [|done]. intros i r Hi. rewrite <- Hfg. by apply Hid.
Qed.

Lemma within_limit_get l (s : SyncQueue R) : within_limit l s → within_limit l (get_section s).2.
Proof.
  intros [Hl Hn]. destruct (get_section_cases s) as [[_ ->]|(i & q & Hq & ->)]; [done|].
  split; cbn; [done|]. intros Hl0. specialize (Hn Hl0). rewrite Hq in Hn. simpl in Hn. lia.
Qed.

Lemma within_limit_put l mid r (s : SyncQueue R) : within_limit l s → within_limit l (put_section mid r s).2.
Proof.
  intros [Hl Hn]. destruct (put_section_cases mid r s) as [(_ & _ & ->)|[Hlim ->]]; [done|].
  split; cbn; [done|]. intros Hl0. rewrite length_app. simpl. rewrite Hl in Hlim. lia.
Qed.

(** The queue never outgrows [LimitSize] (0 stands for no limit), and no
    handler changes the limits. *)
Theorem queue_within_limit (cs : list (mq_call R)) (s : SyncQueue R) (w : W) (l : mq_limits) :
  within_limit l s → within_limit l (run_calls cs (s, w)).1.
Proof using LAWS.
  intros Hs. apply (run_calls_state_ok (λ s _, within_limit l s) cs (s, w)); [done|..|exact Hs].
  - intros s' _. apply within_limit_get.
  - done.
  - intros mid r s' _ _. apply within_limit_put.
Qed.
End invariants.

#[local] Arguments str : simpl never.
#[local] Arguments ReplyWithCode : simpl never.
#[local] Arguments ReplyWithCode_view : simpl never.

(** ** The effect of each handler on the queue *)
Section effects.
Context {W R : Type} `{!IRequest W R, !StaleText}.

(** A computation that leaves the queue as it is. *)
Definition keeps_queue {A} (m : M (SyncQueue R * W) A) : Prop := ∀ sw, (m sw).2.1 = sw.1.

Lemma keeps_queue_ret {A} (a : A) : keeps_queue (mret a).
Proof. by intros sw. Qed.
Lemma keeps_queue_lift {A} (o : outcome A) : keeps_queue (lift o).
Proof. by intros sw. Qed.
Lemma keeps_queue_on_snd {A} (m : M W A) : keeps_queue (on_snd m).
Proof. intros sw. unfold on_snd. by destruct (m sw.2). Qed.
Lemma keeps_queue_gets {A} (f : SyncQueue R → A) : keeps_queue (on_fst (gets f)).
Proof. by intros sw. Qed.

Lemma keeps_queue_bind {A B} (m : M (SyncQueue R * W) A) (k : A → M (SyncQueue R * W) B) :
  keeps_queue m → (∀ a, keeps_queue (k a)) → keeps_queue (m ≫= k).
Proof.
  intros Hm Hk sw. specialize (Hm sw). unfold mbind, M_bind.
  destruct (m sw) as [[a|e| |] sw']; simpl in *; [by rewrite Hk|done..].
Qed.
#[local] Hint Resolve keeps_queue_ret keeps_queue_lift keeps_queue_on_snd keeps_queue_gets keeps_queue_bind : fiber.

Lemma ReplyWithCode_keeps u code msg body hs ct : keeps_queue (ReplyWithCode u code msg body hs ct).
Proof. unfold ReplyWithCode, ReplyWithCode_view. destruct u; unfold GetStats; auto with fiber. Qed.
Lemma ReplyWithCode_view_keeps u code msg body hs ct : keeps_queue (ReplyWithCode_view u code msg body hs ct).
Proof. unfold ReplyWithCode, ReplyWithCode_view. destruct u; unfold GetStats; auto with fiber. Qed.
#[local] Hint Resolve ReplyWithCode_keeps ReplyWithCode_view_keeps : fiber.

Lemma other_handlers_keep u :
  keeps_queue (Head u) ∧ keeps_queue (Options u) ∧ keeps_queue (Delete u) ∧
  keeps_queue (Trace u) ∧ keeps_queue (Connect u) ∧ keeps_queue (Patch u).
Proof.
  unfold Head, Options, Delete, Trace, Connect, Patch, head_section. split_and!; auto with fiber.
  apply keeps_queue_bind; [auto with fiber|]. intros mid. case_decide; auto with fiber.
Qed.

Lemma bind_keeps_fst {A B} (m : M (SyncQueue R * W) A) (k : A → M (SyncQueue R * W) B) sw :
  (∀ a, keeps_queue (k a)) → ((m ≫= k) sw).2.1 = (m sw).2.1.
Proof.
  intros Hk. unfold mbind, M_bind. destruct (m sw) as [[a|e| |] sw']; simpl; [by rewrite Hk|done..].
Qed.

Lemma Get_effect u s w : (Get u (s, w)).2.1 = match u with Some _ => (get_section s).2 | None => s end.
Proof.
  destruct u as [c|]; [|done]. unfold Get. rewrite bind_keeps_fst.
  - unfold on_fst. simpl. by destruct (get_section s).
  - intros [[muid r]|]; auto 20 with fiber.
Qed.

Lemma Put_effect u s w :
  (Put u (s, w)).2.1
  = match u with
    | Some r => match (GetMsgId r w).1 with Ret mid => (put_section mid r s).2 | _ => s end
    | None => s
    end.
Proof.
  destruct u as [r|]; [|done]. unfold Put. unfold mbind at 1, M_bind at 1, on_snd at 1. simpl.
  destruct (GetMsgId r w) as [[mid|e| |] w']; simpl; [|done..]. rewrite bind_keeps_fst.
  - unfold on_fst. simpl. by destruct (put_section mid r s).
  - intros [|]; [auto with fiber|]. apply keeps_queue_bind; [by intros sw|]. auto with fiber.
Qed.

(** What a POST of [p] has done before it takes message [i] out of the tables: the
    identifier that [z] holds, the text of its header field, is [i]; it has read
    the content of [p], and [Reply] to the request [r] with the status 200 and
    that content, as the last of these operations, has answered [true].  [counts]
    are the statistics in the header of the answer. *)
Definition relayed (p r : R) (z : zcstring) (i : Z) (counts : Z * Z * Z) (w w' : W) : Prop :=
  ∃ t body mid zct ct w1 w2 w3 w4,
    zstr z = Ret t ∧ stoul t = Ret i ∧ SetTelemetry r ExtractAt w = (Ret tt, w1) ∧ GetContent p w1 = (Ret body, w2) ∧
    GetMsgId p w2 = (Ret mid, w3) ∧
    GetHeaderOption p (str "Content-Type") (Some (str "application/json")) w3 = (Ret zct, w4) ∧ zstr zct = Ret ct ∧
    request_Reply r 200 (Some (str "OK")) (view_pointer body) (zlength body)
      (forward_field mid :: queue_fields counts ct) true w4 = (Ret true, w').

(** The two ends of [Post] that return to its own client. *)
Definition accept_answer (u : IUnknown R) : M (SyncQueue R * W) unit := _ ← ReplyWithCode u 200 (str "OK") [] [] []; mret tt.
Definition invalid_answer (u : IUnknown R) : M (SyncQueue R * W) unit :=
  _ ← ReplyWithCode u 400 (str "Bad Request. Invalid `X-MSG-FORWARD-UID` header") [] [] []; mret tt.

Lemma catch_answer_keeps u : keeps_queue (catch_std (accept_answer u) (λ _, invalid_answer u)).
Proof.
  assert (Ha : keeps_queue (accept_answer u)) by (unfold accept_answer; auto with fiber).
  assert (Hi : keeps_queue (invalid_answer u)) by (unfold invalid_answer; auto with fiber).
  intros sw. unfold catch_std. specialize (Ha sw). destruct (accept_answer u sw) as [[b|[what|what]| |] sw']; try done.
  by rewrite Hi.
Qed.

Lemma ReplyWithCode_view_true r code msg body hs ct (s : SyncQueue R) w sw' :
  ReplyWithCode_view (Some r) code msg body hs ct (s, w) = (Ret true, sw') →
  ∃ counts, (GetStats s).1 = Ret counts ∧ sw'.1 = s ∧
    request_Reply r code (Some msg) (view_pointer body) (zlength body) (hs ++ queue_fields counts ct) true w = (Ret true, sw'.2).
Proof.
  unfold ReplyWithCode_view. unfold mbind, M_bind, on_fst, on_snd, GetStats, gets. simpl.
  destruct (request_Reply _ _ _ _ _ _ _ _) as [[b|e| |] w'] eqn:Hr; intros [=]. subst. eexists. split; [done|]. by split.
Qed.

(** [post_try] leaves the queue, or takes out the request it has answered and
    goes on from there. *)
Lemma post_try_effect u p z s w :
  (post_try u p z (s, w)).2.1 = s ∨
  ∃ xid r counts w', mq_messages s !! xid = Some r ∧ (GetStats s).1 = Ret counts ∧ relayed p r z xid counts w w' ∧
    post_try u p z (s, w) = accept_answer u ((post_erase_section xid s).2, w').
Proof.
  destruct (post_try u p z (s, w)) as [res out] eqn:Hrun. revert Hrun. simpl.
  unfold post_try. unfold mbind at 1, M_bind at 1, lift at 1.
  destruct (zstr z) as [xs|e| |] eqn:Hz; [|by intros [= <- <-]; left..].
  unfold mbind at 1, M_bind at 1, lift at 1. destruct (stoul xs) as [xid|e| |] eqn:Hx; [|by intros [= <- <-]; left..].
  unfold mbind at 1, M_bind at 1, on_fst at 1, post_find_section, gets. simpl.
  destruct (mq_messages s !! xid) as [r|] eqn:Hr.
  2: { intros Hrun. left. change out with (res, out).2. rewrite <- Hrun.
       rewrite bind_keeps_fst; [|auto with fiber]. by rewrite ReplyWithCode_keeps. }
  unfold mbind at 1, M_bind at 1, on_snd at 1. simpl.
  destruct (SetTelemetry r ExtractAt w) as [[[]|e| |] w1] eqn:H1; [|by intros [= <- <-]; left..]. simpl.
  unfold mbind at 1, M_bind at 1, on_snd at 1. simpl.
  destruct (GetContent p w1) as [[body|e| |] w2] eqn:H2; [|by intros [= <- <-]; left..]. simpl.
  unfold mbind at 1, M_bind at 1, on_snd at 1. simpl.
  destruct (GetMsgId p w2) as [[mid|e| |] w3] eqn:H3; [|by intros [= <- <-]; left..]. simpl.
  unfold mbind at 1, M_bind at 1, on_snd at 1. simpl.
  destruct (GetHeaderOption p _ _ w3) as [[ct|e| |] w4] eqn:H4; [|by intros [= <- <-]; left..]. simpl.
  unfold mbind at 1, M_bind at 1, lift at 1. destruct (zstr ct) as [cts|e| |] eqn:H5; [|by intros [= <- <-]; left..].
  unfold mbind at 1, M_bind at 1.
  pose proof (ReplyWithCode_view_keeps (Some r) 200 (str "OK") body [forward_field mid] cts (s, w4)) as Hk.
  destruct (ReplyWithCode_view _ _ _ _ _ _ _) as [[ok|e| |] sw'] eqn:Hrep; simpl in Hk;
    [|by intros [= <- <-]; left..].
  intros Hrun. destruct ok.
  - right. apply ReplyWithCode_view_true in Hrep as (counts & Hc & Hs' & Hans).
    exists xid, r, counts, sw'.2. split_and!; [done|done|by exists xs, body, mid, ct, cts, w1, w2, w3, w4|].
    rewrite <- Hrun. destruct sw' as [s' w']. cbn in Hs'. by subst s'.
  - left. change out with (res, out).2. rewrite <- Hrun.
    rewrite bind_keeps_fst; [|auto with fiber]. by rewrite ReplyWithCode_keeps.
Qed.

Lemma Post_effect u s w :
  (Post u (s, w)).2.1 = s ∨
  ∃ p xid r z counts w0 w', u = Some p ∧ mq_messages s !! xid = Some r ∧
    GetHeaderOption p (str "X-MSG-FORWARD-UID") None w = (Ret z, w0) ∧ (GetStats s).1 = Ret counts ∧
    relayed p r z xid counts w0 w' ∧ (Post u (s, w)).2.1 = (post_erase_section xid s).2 ∧
    Post u (s, w) = catch_std (accept_answer u) (λ _, invalid_answer u) ((post_erase_section xid s).2, w').
Proof.
  destruct u as [p|]; [|by left].
  destruct (Post (Some p) (s, w)) as [res out] eqn:Hrun. revert Hrun. simpl.
  unfold Post. unfold mbind at 1, M_bind at 1, on_snd at 1. simpl.
  destruct (GetHeaderOption _ _ _ w) as [[z|e| |] w1] eqn:Hh; [|by intros [= <- <-]; left..]. simpl.
  intros Hrun. assert (Hout : out = (res, out).2) by done.
  assert (Hother : ∀ code msg sw, (ReplyWithCode (Some p) code msg [] [] [] ≫= λ _, mret tt : M (SyncQueue R * W) unit) sw = (res, out) →
    out.1 = sw.1).
  { intros code msg sw Hsw. rewrite Hout, <- Hsw, bind_keeps_fst; [by rewrite ReplyWithCode_keeps|auto with fiber]. }
  destruct (zempty z); [left; by eapply Hother in Hrun|].
  destruct (post_try_effect (Some p) p z s w1) as [Hs|(xid & r & counts & w' & Hr & Hc & Hrel & Hpost)].
  - left. unfold catch_std in Hrun. destruct (post_try _ _ _ _) as [o sw'] eqn:Htry. cbn in Hs.
    destruct o as [b|[what|what]| |]; try (by injection Hrun as <- <-). by rewrite (Hother _ _ _ Hrun).
  - right. exists p, xid, r, z, counts, w1, w'.
    assert (Hrun' : (res, out) = catch_std (accept_answer (Some p)) (λ _, invalid_answer (Some p)) ((post_erase_section xid s).2, w')).
    { rewrite <- Hrun. unfold catch_std. by rewrite Hpost. }
    split_and!; [done..| |exact Hrun']. change out with (res, out).2. rewrite Hrun'. apply catch_answer_keeps.
Qed.

(** C10: no request is dropped: a call that takes the stored request [r] out of
    [mq_messages] is a POST that names its identifier, and before it does so this
    very call has sent [r] the posted content with the status 200, and [Reply] has
    answered [true] ([relayed]); from there on it only answers its own client.
    Any exception before that point leaves the request where it was. *)
Theorem message_removed_only_when_answered (c : mq_call R) (s : SyncQueue R) (w : W) (i : Z) (r : R) :
  mq_messages s !! i = Some r →
  mq_messages (run_call c (s, w)).2.1 !! i ≠ Some r →
  ∃ p z counts w0 w', c = CPost (Some p) ∧
    GetHeaderOption p (str "X-MSG-FORWARD-UID") None w = (Ret z, w0) ∧ (GetStats s).1 = Ret counts ∧
    relayed p r z i counts w0 w' ∧
    run_call c (s, w) =
      catch_std (accept_answer (Some p)) (λ _, invalid_answer (Some p)) ((post_erase_section i s).2, w').
Proof.
  intros Hi Hi'. destruct c as [u|u|u|u|u|u|u|u|u]; simpl in Hi';
    destruct (other_handlers_keep u) as (Hh & Ho & Hd & Ht & Hc & Hp).
  2: { destruct (Post_effect u s w) as [Hs|(p & xid & x & z & counts & w0 & w' & -> & Hx & Hz & Hst & Ha & Hs & Hrun)];
         rewrite Hs in Hi'; [done|].
    cbn in Hi'. destruct (decide (xid = i)) as [->|Hne].
    - rewrite Hi in Hx. injection Hx as ->. by exists p, z, counts, w0, w'.
    - by rewrite lookup_delete_ne in Hi'. }
  all: exfalso; apply Hi'.
  - rewrite Get_effect. destruct u; [|done].
    by destruct (get_section_cases s) as [[_ ->]|(j & q & _ & ->)].
  - rewrite Put_effect. destruct u as [x|]; [|done]. destruct (GetMsgId x w).1 as [mid|e| |]; [|done..].
    destruct (put_section_cases mid x s) as [(_ & _ & ->)|[_ ->]]; [done|]. cbn. case_decide as Hn; [|done].
    rewrite lookup_insert_ne; [done|]. intros ->. congruence.
  - by rewrite Hh. - by rewrite Ho. - by rewrite Hd. - by rewrite Ht. - by rewrite Hc. - by rewrite Hp.
Qed.
End effects.

(** ** What the handlers do to the requests, they do through [IRequest] *)
#[export] Instance SyncQueue_preserves {W R} `{!IRequest W R, !StaleText} (J : W → Prop) `{!IRequestPreserves J} :
  IMQPreserves (SyncQueue_IMQ (W := W) (R := R)) J.
Proof.
  assert (Hr : ∀ u code msg body hs ct, preserves (λ sw : SyncQueue R * W, J sw.2) (ReplyWithCode u code msg body hs ct)).
  { intros. unfold ReplyWithCode. walk. }
  assert (Hv : ∀ u code msg body hs ct, preserves (λ sw : SyncQueue R * W, J sw.2) (ReplyWithCode_view u code msg body hs ct)).
  { intros. unfold ReplyWithCode_view. walk. }
  split. intros u I. subst I. cbn [mq_Get mq_Post mq_Put mq_Head mq_Options mq_Delete mq_Trace mq_Connect mq_Patch SyncQueue_IMQ].
  unfold Get, Post, post_try, Put, Head, Options, Delete, Trace, Connect, Patch. split_and!; walk.
Qed.
