(* ===== verification/Broker.v ===== *)
(** * Broker: the abstract message broker and its refinement

    The contract of [mq/mq-sync/src/sync-queue.cpp]: requests wait in order of
    arrival, a consumer takes the oldest one and answers it by its identifier.
    Over a store of requests whose operations succeed ([IReliable]), the
    handlers of [SyncQueue] compute what the broker says, answer by answer,
    as long as identifiers are fresh and only requests that were handed out are
    answered; the two theorems at the end show what the code does otherwise. *)
From Stdlib Require Import Ascii String.
From stdpp Require Import options.
From S2P Require Import Prelude ZcString Numerals HttpReply Interfaces SyncQueue SyncQueueSpec.

#[local] Arguments str : simpl never.
#[local] Arguments ReplyWithCode : simpl never.
#[local] Arguments ReplyWithCode_view : simpl never.

(** The bytes an answer carries: [len] bytes from the pointer on. *)
Definition body_of (Content : option bytes) (len : Z) : bytes :=
  match Content with Some m => take (Z.to_nat len) m | None => [] end.

(** ** Requests whose operations succeed

    [answers] is the journal of the answers sent: to whom, with which code and
    which body. *)
Class IReliable (W R : Type) `{!IRequest W R} := {
  answers : W → list (R * Z * bytes);
  req_id : R → Z;
  req_content : R → bytes;
  req_forward : R → bytes;     (* the value of X-MSG-FORWARD-UID, or empty *)
  rel_GetMsgId : ∀ r w, GetMsgId r w = (Ret (req_id r), w);
  rel_GetContent : ∀ r w, ∃ z, GetContent r w = (Ret z, w) ∧
    body_of (view_pointer z) (zlength z) = req_content r;
  rel_forward : ∀ r w, ∃ z, GetHeaderOption r (str "X-MSG-FORWARD-UID") None w = (Ret z, w) ∧
    zstr z = Ret (req_forward r) ∧ zempty z = bool_decide (req_forward r = []);
  rel_type : ∀ r w, ∃ z t,
    GetHeaderOption r (str "Content-Type") (Some (str "application/json")) w = (Ret z, w) ∧ zstr z = Ret t;
  rel_SetTelemetry : ∀ r o w, ∃ w', SetTelemetry r o w = (Ret tt, w') ∧ answers w' = answers w;
  rel_Reply : ∀ r code msg content len hs close w, ∃ w',
    request_Reply r code msg content len hs close w = (Ret true, w') ∧
    answers w' = answers w ++ [(r, code, body_of content len)]
}.

(** ** The broker *)
Record broker (R : Type) := MkBroker {
  waiting : list (Z * R);        (* oldest first *)
  in_progress : gmap Z R
}.
Arguments MkBroker {R}.
Arguments waiting {R}.
Arguments in_progress {R}.

Section broker.
Context {W R : Type} `{!IRequest W R, !IReliable W R}.

(** The journal entries a call adds, and what becomes of the broker. *)
Definition broker_get (c : R) (b : broker R) : broker R * list (R * Z * bytes) :=
  match waiting b with
  | [] => (b, [(c, 204%Z, [])])
  | (i, r) :: rest => (MkBroker rest (<[i := r]> (in_progress b)), [(c, 200%Z, req_content r)])
  end.

Definition broker_put (l : mq_limits) (p : R) (b : broker R) : broker R * list (R * Z * bytes) :=
  if decide (LimitSize l = 0 ∨ Z.of_nat (length (waiting b)) < LimitSize l)%Z
  then (MkBroker (waiting b ++ [(req_id p, p)]) (in_progress b), [])
  else (b, [(p, 507%Z, [])]).

Definition broker_post (p : R) (b : broker R) : broker R * list (R * Z * bytes) :=
  if decide (req_forward p = []) then (b, [(p, 400%Z, [])])
  else match stoul (req_forward p) with
       | Ret xid =>
           match in_progress b !! xid with
           | Some r => (MkBroker (waiting b) (delete xid (in_progress b)),
                        [(r, 200%Z, req_content p); (p, 200%Z, [])])
           | None => (b, [(p, 300%Z, [])])
           end
       | _ => (b, [(p, 400%Z, [])])
       end.

Definition broker_head (p : R) (b : broker R) : list (R * Z * bytes) :=
  match waiting b with
  | (i, _) :: _ => if decide (i ≠ 0%Z) then [(p, 200%Z, [])] else [(p, 204%Z, [])]
  | [] => [(p, 204%Z, [])]
  end.

(** A call; without a request, nothing happens. *)
Definition broker_call (l : mq_limits) (c : mq_call R) (b : broker R) : broker R * list (R * Z * bytes) :=
  match c with
  | CGet (Some c) => broker_get c b
  | CPut (Some p) => broker_put l p b
  | CPost (Some p) => broker_post p b
  | CHead (Some p) => (b, broker_head p b)
  | COptions (Some p) => (b, [(p, 200%Z, options_text)])
  | CDelete (Some p) | CTrace (Some p) | CConnect (Some p) | CPatch (Some p) => (b, [(p, 405%Z, [])])
  | _ => (b, [])
  end.

Fixpoint broker_calls (l : mq_limits) (cs : list (mq_call R)) (b : broker R) : broker R * list (R * Z * bytes) :=
  match cs with
  | [] => (b, [])
  | c :: cs =>
      let first := broker_call l c b in
      let rest := broker_calls l cs first.1 in
      (rest.1, (first.2 ++ rest.2))
  end.

(** A PUT brings a fresh identifier, a POST does not name a request that is
    still waiting. *)
Definition well_used (c : mq_call R) (b : broker R) : Prop :=
  match c with
  | CPut (Some p) => (req_id p ∉ (waiting b).*1) ∧ in_progress b !! req_id p = None
  | CPost (Some p) => ∀ xid, stoul (req_forward p) = Ret xid → xid ∉ (waiting b).*1
  | _ => True
  end.

Fixpoint all_well_used (l : mq_limits) (cs : list (mq_call R)) (b : broker R) : Prop :=
  match cs with
  | [] => True
  | c :: cs => well_used c b ∧ all_well_used l cs (broker_call l c b).1
  end.

(** ** The refinement relation *)
Definition refines (l : mq_limits) (b : broker R) (s : SyncQueue R) : Prop :=
  mq_options s = l ∧
  mq_queue s = (waiting b).*1 ∧
  mq_locked s = dom (in_progress b) ∧
  (∀ i r, mq_messages s !! i = Some r ↔ ((i, r) ∈ waiting b ∨ in_progress b !! i = Some r)) ∧
  NoDup (waiting b).*1 ∧
  (∀ i, i ∈ (waiting b).*1 → in_progress b !! i = None).

(** ** The replies *)
Context `{!StaleText}.

Lemma ReplyWithCode_reliable p code msg body hs ct s w :
  ∃ w', ReplyWithCode (Some p) code msg body hs ct (s, w) = (Ret true, (s, w')) ∧
    answers w' = answers w ++ [(p, code, body)].
Proof.
  unfold ReplyWithCode. unfold mbind, M_bind, on_fst, on_snd, GetStats, gets. simpl.
  match goal with |- context [request_Reply p code ?m ?b ?n ?h ?c w] =>
    destruct (rel_Reply p code m b n h c w) as (w' & Hr & Ha) end.
  rewrite Hr. exists w'. split; [done|]. rewrite Ha. unfold body_of.
  by rewrite Nat2Z.id, take_app_length.
Qed.

Lemma ReplyWithCode_view_reliable p code msg z hs ct s w :
  ∃ w', ReplyWithCode_view (Some p) code msg z hs ct (s, w) = (Ret true, (s, w')) ∧
    answers w' = answers w ++ [(p, code, body_of (view_pointer z) (zlength z))].
Proof.
  unfold ReplyWithCode_view. unfold mbind, M_bind, on_fst, on_snd, GetStats, gets. simpl.
  match goal with |- context [request_Reply p code ?m ?b ?n ?h ?c w] =>
    destruct (rel_Reply p code m b n h c w) as (w' & Hr & Ha) end.
  rewrite Hr. eauto.
Qed.

(** ** Each handler computes the broker's step *)

Definition implements (l : mq_limits) (c : mq_call R) (b : broker R) (s : SyncQueue R) (w : W) : Prop :=
  refines l (broker_call l c b).1 (run_call c (s, w)).2.1 ∧
  answers (run_call c (s, w)).2.2 = answers w ++ (broker_call l c b).2.

(** What a handler that answers [p] and returns leaves. *)
Lemma implements_reply l c b s w p code msg body hs ct :
  refines l b s → broker_call l c b = (b, [(p, code, body)]) →
  run_call c (s, w) = (_ ← ReplyWithCode (Some p) code msg body hs ct; mret tt) (s, w) →
  implements l c b s w.
Proof.
  intros Href Hb Hrun. unfold implements. rewrite Hb, Hrun.
  destruct (ReplyWithCode_reliable p code msg body hs ct s w) as (w' & Hr & Ha).
  by rewrite (bind_run _ _ _ _ _ Hr).
Qed.

(** The blocks under the lock on a state that implements a broker. *)
Lemma get_section_refines l b s i r rest :
  refines l b s → waiting b = (i, r) :: rest →
  ∃ s', get_section s = (Ret (Some (i, r)), s') ∧ refines l (MkBroker rest (<[i := r]> (in_progress b))) s'.
Proof.
  intros (Ho & Hq & Hl & Hm & Hnd & Hdj) Hw. rewrite Hw in Hq, Hm, Hnd, Hdj.
  exists (with_locked ({[i]} ∪ mq_locked s) (with_queue (rest.*1) s)). split.
  { unfold get_section. rewrite Hq. cbn. by rewrite (proj2 (Hm i r)) by (left; left). }
  apply NoDup_cons in Hnd as [Hi Hnd]. simpl in Hq, Hdj. split_and!; cbn; try done.
  - by rewrite dom_insert_L, Hl.
  - intros j x. rewrite Hm, elem_of_cons, lookup_insert_Some. split.
    + intros [[[= -> ->]|Hj]|Hj]; [by auto|by auto|]. right. right. split; [|done].
      intros ->. rewrite (Hdj j) in Hj by left. done.
    + intros [Hj|[[-> ->]|[_ Hj]]]; auto.
  - intros j Hj. rewrite lookup_insert_ne by (intros ->; done). apply Hdj. by right.
Qed.

Lemma get_section_empty l b s : refines l b s → waiting b = [] → get_section s = (Ret None, s).
Proof. intros (_ & Hq & _) Hw. unfold get_section. by rewrite Hq, Hw. Qed.

Lemma refines_fresh l b s i : refines l b s → i ∉ (waiting b).*1 → in_progress b !! i = None → mq_messages s !! i = None.
Proof.
  intros (_ & _ & _ & Hm & _) Hfresh Hfresh'. apply eq_None_not_Some. intros [x [Hx|Hx]%Hm]; [|congruence].
  apply Hfresh, list_elem_of_fmap. by exists (i, x).
Qed.

Lemma put_section_refines l b s i p :
  refines l b s → i ∉ (waiting b).*1 → in_progress b !! i = None →
  (LimitSize l = 0 ∨ Z.of_nat (length (waiting b)) < LimitSize l)%Z →
  ∃ s', put_section i p s = (Ret true, s') ∧ refines l (MkBroker (waiting b ++ [(i, p)]) (in_progress b)) s'.
Proof.
  intros Href Hfresh Hfresh' Hlim. pose proof (refines_fresh l b s i Href Hfresh Hfresh') as Hnone.
  destruct Href as (Ho & Hq & Hl & Hm & Hnd & Hdj).
  assert (Hlen : length (mq_queue s) = length (waiting b)) by by rewrite Hq, length_fmap.
  destruct (put_section_cases i p s) as [(H1 & H2 & _)|[Hl' Hs]]; rewrite Ho, ?Hlen in *; [lia|clear Hl'].
  rewrite bool_decide_eq_true_2, decide_True in Hs by done. eexists. split; [exact Hs|]. split_and!; cbn; try done.
  - by rewrite fmap_app, Hq.
  - intros j x. rewrite lookup_insert_Some, elem_of_app, list_elem_of_singleton, Hm. split.
    + intros [[<- <-]|[_ [Hj|Hj]]]; auto.
    + intros [[Hj|[= -> ->]]|Hj]; [right|by left|right]; (split; [|by auto]); intros <-.
      * apply Hfresh, list_elem_of_fmap. by exists (i, x).
      * congruence.
  - rewrite fmap_app. apply NoDup_app. split_and!; [done| |apply NoDup_singleton].
    simpl. intros j Hj ->%list_elem_of_singleton. done.
  - intros j. rewrite fmap_app, elem_of_app. simpl. intros [Hj| ->%list_elem_of_singleton]; auto.
Qed.

Lemma put_section_full l b s i p :
  refines l b s → ¬ (LimitSize l = 0 ∨ Z.of_nat (length (waiting b)) < LimitSize l)%Z →
  put_section i p s = (Ret false, s).
Proof.
  intros (Ho & Hq & _) Hlim. assert (Hlen : length (mq_queue s) = length (waiting b)) by by rewrite Hq, length_fmap.
  destruct (put_section_cases i p s) as [(_ & _ & Hs)|[Hn _]]; [done|]. by rewrite Ho, Hlen in Hn.
Qed.

Lemma Get_implements l b s w c : refines l b s → implements l (CGet (Some c)) b s w.
Proof.
  intros Href. destruct (waiting b) as [|[i r] rest] eqn:Hw.
  { eapply implements_reply with (p := c); [done|by cbn; unfold broker_get; rewrite Hw|].
    cbn [run_call mq_Get SyncQueue_IMQ]. unfold Get. by rewrite (bind_on_fst _ _ _ _ _ _ (get_section_empty l b s Href Hw)). }
  destruct (get_section_refines l b s i r rest Href Hw) as (s' & Hs & Href').
  unfold implements. cbn [broker_call run_call mq_Get SyncQueue_IMQ]. unfold broker_get. rewrite Hw.
  unfold Get. rewrite (bind_on_fst _ _ _ _ _ _ Hs).
  destruct (rel_SetTelemetry r EmplaceAt w) as (w1 & H1 & Ha1).
  destruct (rel_GetContent r w1) as (z & H2 & Hz).
  destruct (rel_type r w1) as (zt & t & H3 & Ht).
  rewrite (bind_on_snd _ _ _ _ _ _ H1), (bind_on_snd _ _ _ _ _ _ H2), (bind_on_snd _ _ _ _ _ _ H3).
  rewrite (bind_lift _ _ _ _ Ht).
  destruct (ReplyWithCode_view_reliable c 200 (str "OK") z [forward_field i] t s' w1) as (w2 & H4 & Ha2).
  rewrite (bind_run _ _ _ _ _ H4). split; [done|by cbn; rewrite Ha2, Ha1, Hz].
Qed.

Lemma Put_implements l b s w p :
  refines l b s → well_used (CPut (Some p)) b → implements l (CPut (Some p)) b s w.
Proof.
  intros Href [Hfresh Hfresh'].
  destruct (decide (LimitSize l = 0 ∨ Z.of_nat (length (waiting b)) < LimitSize l)%Z) as [Hlim|Hlim].
  - destruct (put_section_refines l b s (req_id p) p Href Hfresh Hfresh' Hlim) as (s' & Hs & Href').
    unfold implements. cbn [broker_call run_call mq_Put SyncQueue_IMQ]. unfold broker_put. rewrite decide_True by done.
    unfold Put. rewrite (bind_on_snd _ _ _ _ _ _ (rel_GetMsgId p w)), (bind_on_fst _ _ _ _ _ _ Hs).
    cbn. by rewrite app_nil_r.
  - eapply implements_reply with (p := p); [done|by cbn; unfold broker_put; rewrite decide_False|].
    destruct Href as (Ho & Href). pose proof (put_section_full l b s (req_id p) p (conj Ho Href) Hlim) as Hs.
    cbn [run_call mq_Put SyncQueue_IMQ]. unfold Put. rewrite (bind_on_snd _ _ _ _ _ _ (rel_GetMsgId p w)).
    by rewrite (bind_on_fst _ _ _ _ _ _ Hs).
Qed.

(** The prefix of [Post] up to its [try] block. *)
Lemma Post_run p s w :
  ∃ zf, zstr zf = Ret (req_forward p) ∧
    Post (Some p) (s, w)
    = (if decide (req_forward p = []) then
         (_ ← ReplyWithCode (Some p) 400 (str "Bad Request. Header `X-MSG-FORWARD-UID` not found") [] [] []; mret tt) (s, w)
       else catch_std (post_try (Some p) p zf) (λ _,
         _ ← ReplyWithCode (Some p) 400 (str "Bad Request. Invalid `X-MSG-FORWARD-UID` header") [] [] [];
         mret tt) (s, w)).
Proof.
  destruct (rel_forward p w) as (zf & H1 & Hzs & Hze). exists zf. split; [done|].
  unfold Post. rewrite (bind_on_snd _ _ _ _ _ _ H1), Hze. by case_decide as Hf;
    [rewrite bool_decide_eq_true_2 | rewrite bool_decide_eq_false_2].
Qed.

Lemma stoul_nonempty t xid : stoul t = Ret xid → t ≠ [].
Proof. by intros Hx ->. Qed.

(** A POST that names a stored request answers it and takes it out. *)
Lemma Post_found p s w xid r :
  stoul (req_forward p) = Ret xid → mq_messages s !! xid = Some r →
  ∃ w', Post (Some p) (s, w) = (Ret tt, ((post_erase_section xid s).2, w')) ∧
    answers w' = answers w ++ [(r, 200%Z, req_content p); (p, 200%Z, [])].
Proof.
  intros Hx Hr. destruct (Post_run p s w) as (zf & Hzs & ->).
  rewrite decide_False by (by eapply stoul_nonempty).
  destruct (rel_SetTelemetry r ExtractAt w) as (w1 & H2 & Ha1).
  destruct (rel_GetContent p w1) as (z & H3 & Hz).
  destruct (rel_type p w1) as (zt & t & H4 & Ht).
  destruct (ReplyWithCode_view_reliable r 200 (str "OK") z [forward_field (req_id p)] t s w1) as (w2 & H5 & Ha2).
  set (s' := (post_erase_section xid s).2).
  destruct (ReplyWithCode_reliable p 200 (str "OK") [] [] [] s' w2) as (w3 & H6 & Ha3).
  exists w3. split; [|by rewrite Ha3, Ha2, Ha1, Hz, <- app_assoc].
  unfold catch_std, post_try. rewrite (bind_lift _ _ _ _ Hzs), (bind_lift _ _ _ _ Hx).
  unfold post_find_section. erewrite bind_on_fst by reflexivity. cbn beta. rewrite Hr.
  rewrite (bind_on_snd _ _ _ _ _ _ H2), (bind_on_snd _ _ _ _ _ _ H3).
  rewrite (bind_on_snd _ _ _ _ _ _ (rel_GetMsgId p w1)), (bind_on_snd _ _ _ _ _ _ H4).
  rewrite (bind_lift _ _ _ _ Ht), (bind_run _ _ _ _ _ H5).
  erewrite bind_on_fst by reflexivity. cbn beta. by rewrite (bind_run _ _ _ _ _ H6).
Qed.

(** A POST that names no stored request. *)
Lemma Post_not_found p s w xid :
  stoul (req_forward p) = Ret xid → mq_messages s !! xid = None →
  Post (Some p) (s, w)
  = (_ ← ReplyWithCode (Some p) 300 (str "Multiple Replays. Reply Ignored.") [] [] []; mret tt) (s, w).
Proof.
  intros Hx Hr. destruct (Post_run p s w) as (zf & Hzs & ->).
  rewrite decide_False by (by eapply stoul_nonempty). unfold catch_std, post_try.
  rewrite (bind_lift _ _ _ _ Hzs), (bind_lift _ _ _ _ Hx).
  unfold post_find_section. erewrite bind_on_fst by reflexivity. cbn beta. rewrite Hr.
  match goal with |- context [ReplyWithCode (Some p) 300 ?m ?bd ?hs ?ct] =>
    destruct (ReplyWithCode_reliable p 300 m bd hs ct s w) as (w' & Hrep & _) end.
  by rewrite !(bind_run _ _ _ _ _ Hrep).
Qed.

(** A POST whose header is missing or is no number. *)
Lemma Post_bad_header p s w :
  req_forward p = [] ∨ stoul (req_forward p) = Throw (StdException (str "stoul")) →
  ∃ msg, Post (Some p) (s, w) = (_ ← ReplyWithCode (Some p) 400 msg [] [] []; mret tt) (s, w).
Proof.
  intros Hbad. destruct (Post_run p s w) as (zf & Hzs & ->). case_decide as Hf; [by eexists|].
  destruct Hbad as [Hbad|Hx]; [done|]. eexists. unfold catch_std, post_try.
  rewrite (bind_lift _ _ _ _ Hzs), Hx. reflexivity.
Qed.

Lemma refines_messages l b s xid :
  refines l b s → xid ∉ (waiting b).*1 → mq_messages s !! xid = in_progress b !! xid.
Proof.
  intros (_ & _ & _ & Hm & _) Hx. apply option_eq. intros x. rewrite Hm. split; [|auto].
  intros [Hw|Hw]; [|done]. exfalso. apply Hx, list_elem_of_fmap. by exists (xid, x).
Qed.

Lemma refines_finish l b s xid :
  refines l b s → xid ∉ (waiting b).*1 →
  refines l (MkBroker (waiting b) (delete xid (in_progress b))) (post_erase_section xid s).2.
Proof.
  intros (Ho & Hq & Hl & Hm & Hnd & Hdj) Hx. split_and!; cbn; try done.
  - rewrite dom_delete_L. by rewrite Hl.
  - intros j x. rewrite !lookup_delete_Some, Hm. split; [tauto|]. intros [Hj|[Hne Hj]]; [|tauto].
    split; [|by left]. intros ->. apply Hx, list_elem_of_fmap. by exists (j, x).
  - intros j Hj. rewrite lookup_delete_None. auto.
Qed.

Lemma Post_implements l b s w p :
  refines l b s → well_used (CPost (Some p)) b → implements l (CPost (Some p)) b s w.
Proof.
  intros Href Huse.
  assert (Hbad : req_forward p = [] ∨ stoul (req_forward p) = Throw (StdException (str "stoul")) →
      implements l (CPost (Some p)) b s w).
  { intros Hbad. destruct (Post_bad_header p s w Hbad) as [msg Hrun].
    eapply implements_reply with (p := p); [done| |exact Hrun].
    cbn. unfold broker_post. destruct Hbad as [Hf|Hx]; [by rewrite decide_True|].
    case_decide; [done|]. by rewrite Hx. }
  destruct (stoul_cases (req_forward p)) as [[xid Hx]|Hx]; [|by auto].
  pose proof (refines_messages l b s xid Href (Huse xid Hx)) as Hmsg.
  pose proof (stoul_nonempty _ _ Hx) as Hne.
  destruct (in_progress b !! xid) as [r|] eqn:Hin.
  - destruct (Post_found p s w xid r Hx Hmsg) as (w' & Hrun & Ha). unfold implements.
    cbn [run_call mq_Post SyncQueue_IMQ broker_call]. unfold broker_post.
    rewrite decide_False, Hx, Hin, Hrun by done. split; [|done]. by apply refines_finish, Huse.
  - eapply implements_reply with (p := p); [done| |exact (Post_not_found p s w xid Hx Hmsg)].
    cbn. unfold broker_post. rewrite decide_False by done. by rewrite Hx, Hin.
Qed.

Lemma other_implements l b s w p :
  refines l b s →
  implements l (CHead (Some p)) b s w ∧ implements l (COptions (Some p)) b s w ∧
  implements l (CDelete (Some p)) b s w ∧ implements l (CTrace (Some p)) b s w ∧
  implements l (CConnect (Some p)) b s w ∧ implements l (CPatch (Some p)) b s w.
Proof.
  intros Href. pose proof Href as (_ & Hq & _).
  split; [|by split_and!; eapply implements_reply with (p := p)].
  destruct (waiting b) as [|[i r] rest] eqn:Hw; [|destruct (decide (i ≠ 0%Z)) as [Hi|Hi]].
  all: eapply implements_reply with (p := p); [done|..].
  1, 3, 5: cbn [broker_call]; unfold broker_head; rewrite Hw.
  1: reflexivity.
  1: by rewrite (decide_True (P := i ≠ 0%Z)).
  1: by rewrite (decide_False (P := i ≠ 0%Z)).
  all: cbn [run_call mq_Head SyncQueue_IMQ]; unfold Head, head_section; erewrite bind_on_fst by reflexivity;
    cbn beta; rewrite Hq; cbn [fmap list_fmap fst].
  - reflexivity.
  - by rewrite decide_True.
  - by rewrite decide_False.
Qed.

Lemma call_implements l b s w c : refines l b s → well_used c b → implements l c b s w.
Proof.
  intros Href Huse.
  assert (Hnone : ∀ m : M (SyncQueue R * W) unit, (m (s, w)).2 = (s, w) →
    refines l b (m (s, w)).2.1 ∧ answers (m (s, w)).2.2 = answers w ++ []).
  { intros m ->. by rewrite app_nil_r. }
  destruct c as [[p|]|[p|]|[p|]|[p|]|[p|]|[p|]|[p|]|[p|]|[p|]]; try (by apply Hnone);
    try (by apply (other_implements l b s w p Href)).
  - by apply Get_implements.
  - by apply Post_implements.
  - by apply Put_implements.
  - cbn [implements broker_call run_call]. apply Hnone. cbn. unfold Head, head_section.
    erewrite bind_on_fst by reflexivity. case_decide; reflexivity.
Qed.

(** C1: the queue is the broker.  Over requests whose operations succeed, any
    sequence of handler calls in which PUT identifiers are fresh and POSTs
    name no waiting request leaves a state that implements the broker's
    state, and sends exactly the broker's answers, in its order: a GET
    delivers the body of the oldest waiting request, a POST delivers its body
    to the producer of the request it names and acknowledges the consumer. *)
Theorem queue_refines_broker (l : mq_limits) (cs : list (mq_call R)) (b : broker R) (s : SyncQueue R) (w : W) :
  refines l b s → all_well_used l cs b →
  refines l (broker_calls l cs b).1 (run_calls cs (s, w)).1 ∧
  answers (run_calls cs (s, w)).2 = answers w ++ (broker_calls l cs b).2.
Proof.
  revert b s w. induction cs as [|c cs IH]; intros b s w Href Huse; [by rewrite app_nil_r|].
  destruct Huse as [Hc Hcs]. destruct (call_implements l b s w c Href Hc) as [Hr Ha].
  simpl. destruct (run_call c (s, w)) as [res [s' w']]. simpl in *.
  destruct (IH _ s' w' Hr Hcs) as [Hr' Ha']. split; [done|]. by rewrite Ha', Ha, <- app_assoc.
Qed.

(** C37: what a POST that names the oldest request still waiting does, over
    requests whose operations succeed: the producer is answered, but the identifier stays in the queue without its request, and
    the GET that reaches it throws [std::out_of_range] from inside its
    critical section; no consumer is answered and the identifier stays locked
    for ever. *)
Theorem post_of_waiting_request_breaks_get (l : mq_limits) (b : broker R) (s : SyncQueue R) (w : W)
    (p c : R) (i : Z) (r : R) (rest : list (Z * R)) :
  refines l b s → waiting b = (i, r) :: rest → stoul (req_forward p) = Ret i →
  let sw1 := (run_call (CPost (Some p)) (s, w)).2 in
  let '(res, sw2) := run_call (CGet (Some c)) sw1 in
  answers sw1.2 = answers w ++ [(r, 200%Z, req_content p); (p, 200%Z, [])] ∧
  res = Throw (StdException (str "_Map_base::at")) ∧ answers sw2.2 = answers sw1.2 ∧
  i ∈ mq_locked sw2.1 ∧ mq_messages sw2.1 !! i = None.
Proof.
  intros (Ho & Hq & Hl & Hm & Hnd & Hdj) Hw Hx.
  assert (Hr : mq_messages s !! i = Some r) by (apply Hm; left; rewrite Hw; left).
  destruct (Post_found p s w i r Hx Hr) as (w' & Hrun & Ha).
  cbn [run_call mq_Post mq_Get SyncQueue_IMQ]. rewrite Hrun. cbn [snd fst].
  unfold Get. unfold mbind, M_bind, on_fst, get_section. simpl. rewrite Hq, Hw. simpl.
  rewrite lookup_delete_eq. simpl. split_and!; try done; [|by rewrite lookup_delete_eq].
  apply elem_of_union_l, elem_of_singleton_2. done.
Qed.
End broker.

(** ** A store that only keeps the journal *)
Module Journal.
Record request := MkReq { id : Z; content : bytes; forward : bytes }.

Definition store : Type := list (request * Z * bytes).

(** Bodies are cut at 1000 bytes. *)
Definition body (r : request) : bytes := take 1000 (content r).

#[global] Instance Journal_IRequest : IRequest store request := {
  GetMsgId r := mret (id r);
  GetHeaderOption r name _ :=
    mret (zc_of_string (if decide (name = str "X-MSG-FORWARD-UID") then forward r else []));
  GetContent r := mret (zc_of_string (body r));
  GetUri r := mret znull;
  request_Reply r code msg cont len hs close := λ w, (Ret true, w ++ [(r, code, body_of cont len)]);
  SetTelemetry r o := mret tt
}.

Lemma zc_of_string_view b : zstr (zc_of_string b) = Ret b.
Proof.
  assert (Hv : zview (zc_of_string b) = b).
  { unfold zview, zc_of_string, slice. cbn. by rewrite Nat.sub_0_r, drop_0, take_app_length. }
  unfold zstr. rewrite Hv, decide_True; [done|]. unfold zc_wf. cbn. rewrite length_app. simpl. lia.
Qed.

#[global] Instance Journal_laws : IRequestLaws store request.
Proof. by refine {| rid r _ := Some (id r) |}. Defined.

#[global] Program Instance Journal_IReliable : IReliable store request := {
  answers w := w;
  req_id := id;
  req_content := body;
  req_forward := forward
}.
Next Obligation. done. Qed.
Next Obligation.
  intros r w. exists (zc_of_string (body r)). split; [done|].
  unfold body_of, view_pointer, zc_of_string, zlength. cbn. rewrite Z.sub_0_r, u64_small.
  - by rewrite Nat2Z.id, drop_0, take_app_length.
  - unfold in_u64, body. rewrite length_take. unfold u64_modulus. lia.
Qed.
Next Obligation.
  intros r w. exists (zc_of_string (forward r)). split; [done|]. split; [apply zc_of_string_view|].
  unfold zempty, zc_of_string. cbn. apply bool_decide_ext. destruct (forward r); simpl; split; done.
Qed.
Next Obligation.
  intros r w. exists (zc_of_string []), []. split; [|done]. cbn. by rewrite decide_False.
Qed.
Next Obligation. intros r o w. by exists w. Qed.
Next Obligation. intros. by eexists. Qed.

#[global] Instance Journal_stale : StaleText := Live.
End Journal.

(** ** The theorems at concrete inputs *)
Module Demo.
Definition producer (n : Z) : Journal.request := Journal.MkReq n (str "job " ++ to_string n) [].
Definition consumer (n : Z) : Journal.request := Journal.MkReq n [] [].
Definition answer (n to : Z) : Journal.request := Journal.MkReq n (str "done " ++ to_string to) (to_string to).

Definition empty_queue : SyncQueue Journal.request := MkQueue [] ∅ ∅ (str "sms") (MkLimits 0 2 0) (Some ∅).
Definition limits : mq_limits := MkLimits 0 2 0.

(** Two jobs are accepted, the third is refused, the oldest is delivered and
    answered, and its late second answer is ignored. *)
Definition session : list (mq_call Journal.request) :=
  [CPut (Some (producer 11)); CPut (Some (producer 12)); CPut (Some (producer 13)); CGet (Some (consumer 21));
   CPost (Some (answer 22 11)); CPost (Some (answer 23 11)); CHead (Some (consumer 24))].

Example session_answers :
  (broker_calls (W := Journal.store) limits session (MkBroker [] ∅)).2
  = [(producer 13, 507%Z, []); (consumer 21, 200%Z, str "job 11"); (producer 11, 200%Z, str "done 11");
     (answer 22 11, 200%Z, []); (answer 23 11, 300%Z, []); (consumer 24, 200%Z, [])].
Proof. vm_compute. reflexivity. Qed.

Lemma refines_empty : refines limits (MkBroker [] ∅) empty_queue.
Proof.
  split_and!; try done; [|apply NoDup_nil_2].
  intros i r. cbn. rewrite !lookup_empty. split; [done|]. intros [H|H]; [by apply elem_of_nil in H|done].
Qed.
End Demo.

Lemma queue_refines_broker_witness :
  let sw := run_calls Demo.session (Demo.empty_queue, []) in
  refines Demo.limits (broker_calls (W := Journal.store) Demo.limits Demo.session (MkBroker [] ∅)).1 sw.1 ∧
  answers sw.2 = answers [] ++ (broker_calls (W := Journal.store) Demo.limits Demo.session (MkBroker [] ∅)).2.
Proof.
  assert (Hused : all_well_used (W := Journal.store) Demo.limits Demo.session (MkBroker [] ∅)).
  { cbn [all_well_used Demo.session]. split_and!; try exact I; try decided.
    - intros xid Hx. vm_compute in Hx. injection Hx as <-. decided.
    - intros xid Hx. vm_compute in Hx. injection Hx as <-. decided. }
  exact (queue_refines_broker Demo.limits Demo.session (MkBroker [] ∅) Demo.empty_queue [] Demo.refines_empty Hused).
Defined.

Lemma post_of_waiting_request_breaks_get_witness :
  let s := MkQueue [11%Z] ∅ {[11%Z := Demo.producer 11]} (str "sms") Demo.limits (Some ∅) in
  let sw1 := (run_call (CPost (Some (Demo.answer 22 11))) (s, [])).2 in
  let '(res, sw2) := run_call (CGet (Some (Demo.consumer 21))) sw1 in
  answers sw1.2 = answers [] ++ [(Demo.producer 11, 200%Z, req_content (Demo.answer 22 11)); (Demo.answer 22 11, 200%Z, [])] ∧
  res = Throw (StdException (str "_Map_base::at")) ∧ answers sw2.2 = answers sw1.2 ∧
  11%Z ∈ mq_locked sw2.1 ∧ mq_messages sw2.1 !! 11%Z = None.
Proof.
  intros s. assert (Href : refines Demo.limits (MkBroker [(11%Z, Demo.producer 11)] ∅) s).
  { split_and!; [done..| |apply NoDup_singleton|done]. intros i r. cbn.
    rewrite lookup_singleton_Some, list_elem_of_singleton, lookup_empty. split; [intros [<- <-]; auto|].
    intros [[= -> ->]|H]; done. }
  exact (post_of_waiting_request_breaks_get Demo.limits _ s [] (Demo.answer 22 11) (Demo.consumer 21) 11
           (Demo.producer 11) [] Href eq_refl eq_refl).
Defined.

Lemma queue_stored_ok_witness :
  stored_ok Demo.empty_queue (λ r, rid r ([] : Journal.store)) ∧
  let sw' := run_calls Demo.session (Demo.empty_queue, [] : Journal.store) in
  stored_ok sw'.1 (λ r, rid r sw'.2).
Proof.
  assert (H : stored_ok Demo.empty_queue (λ r, rid r ([] : Journal.store))).
  { split; intros i; cbn; rewrite lookup_empty; [done|by intros [? ?]]. }
  split; [exact H|]. exact (queue_stored_ok Demo.session Demo.empty_queue ([] : Journal.store) H).
Defined.

Lemma queue_within_limit_witness :
  within_limit Demo.limits Demo.empty_queue ∧
  within_limit Demo.limits (run_calls Demo.session (Demo.empty_queue, [] : Journal.store)).1.
Proof.
  assert (H : within_limit Demo.limits Demo.empty_queue) by (split; [reflexivity | cbn; lia]).
  split; [exact H|]. exact (queue_within_limit Demo.session Demo.empty_queue ([] : Journal.store) Demo.limits H).
Defined.

Lemma message_removed_only_when_answered_witness :
  let s := MkQueue [] {[11%Z]} {[11%Z := Demo.producer 11]} (str "sms") Demo.limits (Some ∅) in
  let c := CPost (Some (Demo.answer 22 11)) in
  mq_messages s !! 11%Z = Some (Demo.producer 11) ∧
  mq_messages (run_call c (s, [] : Journal.store)).2.1 !! 11%Z ≠ Some (Demo.producer 11) ∧
  ∃ p z counts w0 w', c = CPost (Some p) ∧
    GetHeaderOption p (str "X-MSG-FORWARD-UID") None ([] : Journal.store) = (Ret z, w0) ∧ (GetStats s).1 = Ret counts ∧
    relayed p (Demo.producer 11) z 11 counts w0 w' ∧
    run_call c (s, []) = catch_std (accept_answer (Some p)) (λ _, invalid_answer (Some p)) ((post_erase_section 11 s).2, w').
Proof.
  intros s c. assert (H1 : mq_messages s !! 11%Z = Some (Demo.producer 11)) by reflexivity.
  assert (H2 : mq_messages (run_call c (s, [] : Journal.store)).2.1 !! 11%Z ≠ Some (Demo.producer 11)) by (vm_compute; discriminate).
  split; [exact H1|]. split; [exact H2|].
  exact (message_removed_only_when_answered c s ([] : Journal.store) 11 (Demo.producer 11) H1 H2).
Defined.
