(* ===== verification/SyncQueueConc.v ===== *)
(** * SyncQueueConc: handlers of the synchronous queue running concurrently

    The kernel runs the handlers of one queue from several workers.  Each
    [unique_lock] block of [mq/mq-sync/src/sync-queue.cpp] is atomic, and the
    replies happen between the blocks, without the lock.  A worker is a program
    counter between two blocks; a step runs one block or sends one reply, which
    may also fail with an exception.  The journal records what happened, in
    order. *)
From Stdlib Require Import Ascii String.
From stdpp Require Import options.
From S2P Require Import Prelude Interfaces SyncQueue SyncQueueSpec.

(** Where a worker is.  The numbers are the identifier a PUT brings and the one
    a POST names. *)
Inductive worker_pc (R : Type) :=
  | GetEnter (c : R)
  | GetSend (c : R) (muid : Z) (xrequest : R)
  | GetEmpty (c : R)
  | PutEnter (mid : Z) (p : R)
  | PutRefuse (p : R)
  | PostFind (xid : Z) (p : R)
  | PostSend (xid : Z) (p xrequest : R)
  | PostErase (xid : Z) (p : R)
  | PostAck (p : R)
  | PostMissing (p : R)
  | Finished
  | Failed.
Arguments GetEnter {R}. Arguments GetSend {R}. Arguments GetEmpty {R}. Arguments PutEnter {R}.
Arguments PutRefuse {R}. Arguments PostFind {R}. Arguments PostSend {R}. Arguments PostErase {R}.
Arguments PostAck {R}. Arguments PostMissing {R}. Arguments Finished {R}. Arguments Failed {R}.

Inductive event (R : Type) :=
  | Pushed (mid : Z)                  (* [mq_queue.emplace] *)
  | Popped (muid : Z)                 (* [mq_queue.pop] *)
  | Answered (xrequest p : R).        (* the body of [p] sent to [xrequest] *)
Arguments Pushed {R}. Arguments Popped {R}. Arguments Answered {R}.

Record conf (R : Type) := MkConf {
  shared : SyncQueue R;
  workers : list (worker_pc R);
  journal : list (event R)
}.
Arguments MkConf {R}.
Arguments shared {R}.
Arguments workers {R}.
Arguments journal {R}.

Section steps.
Context {R : Type}.

(** The blocks under the lock. *)
Definition locked_step (pc : worker_pc R) (s : SyncQueue R) : option (worker_pc R * SyncQueue R * list (event R)) :=
  match pc with
  | GetEnter c =>
      let popped := match mq_queue s with [] => [] | muid :: _ => [Popped muid] end in
      match get_section s with
      | (Ret (Some (muid, r)), s') => Some (GetSend c muid r, s', popped)
      | (Ret None, s') => Some (GetEmpty c, s', popped)
      | (_, s') => Some (Failed, s', popped)
      end
  | PutEnter mid p =>
      let '(res, s') := put_section mid p s in
      let pushed := if decide (length (mq_queue s) < length (mq_queue s')) then [Pushed mid] else [] in
      match res with
      | Ret true => Some (Finished, s', pushed)
      | _ => Some (PutRefuse p, s', pushed)
      end
  | PostFind xid p =>
      match post_find_section xid s with
      | (Ret (Some r), s') => Some (PostSend xid p r, s', [])
      | (_, s') => Some (PostMissing p, s', [])
      end
  | PostErase xid p => Some (PostAck p, (post_erase_section xid s).2, [])
  | _ => None
  end.

(** The replies, outside the lock. *)
Definition reply_step (pc : worker_pc R) : option (worker_pc R * list (event R)) :=
  match pc with
  | GetSend _ _ _ | GetEmpty _ | PutRefuse _ | PostAck _ | PostMissing _ => Some (Finished, [])
  | PostSend xid p r => Some (PostErase xid p, [Answered r p])
  | _ => None
  end.

Inductive step : conf R → conf R → Prop :=
  | step_locked i pc pc' s s' ts log evs :
      ts !! i = Some pc → locked_step pc s = Some (pc', s', evs) →
      step (MkConf s ts log) (MkConf s' (<[i := pc']> ts) (log ++ evs))
  | step_reply i pc pc' s ts log evs :
      ts !! i = Some pc → reply_step pc = Some (pc', evs) →
      step (MkConf s ts log) (MkConf s (<[i := pc']> ts) (log ++ evs))
  | step_fail i pc pc' s ts log evs :
      ts !! i = Some pc → reply_step pc = Some (pc', evs) →
      step (MkConf s ts log) (MkConf s (<[i := Failed]> ts) log).

Definition starting (pc : worker_pc R) : bool :=
  match pc with GetEnter _ | PutEnter _ _ | PostFind _ _ => true | _ => false end.

(** The identifiers the journal says were pushed, and popped. *)
Definition pushed_ids (log : list (event R)) : list Z :=
  omap (λ e, match e with Pushed i => Some i | _ => None end) log.
Definition popped_ids (log : list (event R)) : list Z :=
  omap (λ e, match e with Popped i => Some i | _ => None end) log.
(** The identifiers the PUTs that have not run yet bring. *)
Definition put_ids (ts : list (worker_pc R)) : list Z :=
  omap (λ pc, match pc with PutEnter i _ => Some i | _ => None end) ts.

(** ** Order of delivery *)

Lemma locked_step_order pc s pc' s' evs :
  locked_step pc s = Some (pc', s', evs) →
  mq_queue s ++ pushed_ids evs = popped_ids evs ++ mq_queue s' ∧
  (∀ i, i ∈ pushed_ids evs → ∃ p, pc = PutEnter i p) ∧
  length (pushed_ids evs) ≤ 1 ∧ put_ids [pc'] = [].
Proof.
  destruct pc as [c|c m r|c|mid p|p|xid p|xid p r|xid p|p|p| |]; cbn [locked_step]; try done.
  - destruct (get_section_cases s) as [[Hq ->]|(i & q & Hq & ->)].
    + intros [= <- <- <-]. rewrite Hq. cbn. split_and!; [done..|by intros i ?%elem_of_nil|lia|done].
    + destruct (mq_messages s !! i); intros [= <- <- <-]; rewrite Hq; cbn;
        (split_and!; [by rewrite app_nil_r|by intros j ?%elem_of_nil|lia|done]).
  - destruct (put_section_cases mid p s) as [(_ & _ & ->)|[_ ->]].
    + intros [= <- <- <-]. rewrite decide_False by lia. cbn. rewrite app_nil_r.
      split_and!; [done|by intros i ?%elem_of_nil|lia|done].
    + rewrite (decide_True (P := length (mq_queue s) < _)) by (simpl; rewrite length_app; simpl; lia).
      destruct (bool_decide _); intros [= <- <- <-]; cbn;
        (split_and!; [done|intros i ->%list_elem_of_singleton; by eexists|lia|done]).
  - unfold post_find_section, gets. destruct (mq_messages s !! xid); intros [= <- <- <-]; cbn;
      (split_and!; [by rewrite app_nil_r|by intros i ?%elem_of_nil|lia|done]).
  - intros [= <- <- <-]. cbn. split_and!; [by rewrite app_nil_r|by intros i ?%elem_of_nil|lia|done].
Qed.

Lemma reply_step_order pc pc' evs :
  reply_step pc = Some (pc', evs) → pushed_ids evs = [] ∧ popped_ids evs = [] ∧ put_ids [pc'] = [] ∧ put_ids [pc] = [].
Proof. destruct pc; intros [= <- <-]; done. Qed.

Lemma step_order (a b : conf R) :
  pushed_ids (journal a) = popped_ids (journal a) ++ mq_queue (shared a) → step a b →
  pushed_ids (journal b) = popped_ids (journal b) ++ mq_queue (shared b).
Proof.
  intros Ha Hab. destruct Hab as [i pc pc' s s' ts log evs _ Hst|i pc pc' s ts log evs _ Hst|];
    cbn in *; [| |done]; unfold pushed_ids, popped_ids in *; rewrite !omap_app.
  - apply locked_step_order in Hst as [Hst _]. unfold pushed_ids, popped_ids in Hst.
    by rewrite Ha, <- !app_assoc, Hst.
  - apply reply_step_order in Hst as (H1 & H2 & _). unfold pushed_ids, popped_ids in H1, H2.
    by rewrite H1, H2, !app_nil_r.
Qed.

Lemma locked_step_stored_ok f pc s pc' s' evs :
  locked_step pc s = Some (pc', s', evs) → stored_ok s f → (∀ mid p, pc = PutEnter mid p → f p = Some mid) →
  stored_ok s' f.
Proof.
  intros Hst Hok Hf. destruct pc as [c|c m r|c|mid p|p|xid p|xid p r|xid p|p|p| |]; cbn [locked_step] in Hst; try done.
  - pose proof (stored_ok_get s f Hok) as Hg.
    destruct (get_section s) as [[[[i r]|]|e| |] s'']; by simplify_eq/=.
  - pose proof (stored_ok_put mid p s f (Hf _ _ eq_refl) Hok) as Hp.
    destruct (put_section mid p s) as [[[]|e| |] s'']; by simplify_eq/=.
  - unfold post_find_section, gets in Hst. destruct (mq_messages s !! xid); by simplify_eq/=.
  - simplify_eq/=. exact (stored_ok_erase xid s f Hok).
Qed.

(** C8: first in, first out under every interleaving: the identifiers the
    consumers took out so far, followed by those still queued, are the
    identifiers the producers pushed, in that order. *)
Theorem fifo_under_interleaving (k k' : conf R) :
  star step k k' →
  mq_queue (shared k) = [] → journal k = [] →
  pushed_ids (journal k') = popped_ids (journal k') ++ mq_queue (shared k').
Proof.
  intros Hs Hq Hj.
  apply (star_invariant step (λ k, pushed_ids (journal k) = popped_ids (journal k) ++ mq_queue (shared k))) with k;
    [|done|by rewrite Hq, Hj].
  intros a b Ha Hab. by apply (step_order a b).
Qed.

(** ** No identifier is handed out twice *)

Lemma put_ids_insert ts i pc pc' :
  ts !! i = Some pc → put_ids [pc'] = [] → put_ids ts ≡ₚ put_ids [pc] ++ put_ids (<[i := pc']> ts).
Proof.
  intros Hi Hpc'. rewrite <- (take_drop_middle ts i pc Hi) at 1.
  rewrite insert_take_drop by (by eapply lookup_lt_Some). unfold put_ids in *. rewrite !omap_app.
  change (pc :: drop (S i) ts) with ([pc] ++ drop (S i) ts).
  change (pc' :: drop (S i) ts) with ([pc'] ++ drop (S i) ts).
  rewrite !omap_app, Hpc'. cbn [app]. solve_Permutation.
Qed.

(** The identifiers brought and pushed are all different. *)
Definition ids_fresh (k : conf R) : Prop := NoDup (put_ids (workers k) ++ pushed_ids (journal k)).

Lemma step_ids_fresh k k' : ids_fresh k → step k k' → ids_fresh k'.
Proof.
  unfold ids_fresh. intros Hk Hs.
  assert (Hmain : ∀ i pc pc' ts log evs, ts !! i = Some pc → put_ids [pc'] = [] →
      (∀ j, j ∈ pushed_ids evs → ∃ p, pc = PutEnter j p) → length (pushed_ids evs) ≤ 1 →
      NoDup (put_ids ts ++ pushed_ids log) →
      NoDup (put_ids (<[i := pc']> ts) ++ pushed_ids (log ++ evs))).
  { intros i pc pc' ts log evs Hi Hpc' Hp Hlen Hnd. rewrite (put_ids_insert ts i pc pc' Hi Hpc') in Hnd.
    unfold pushed_ids at 1. rewrite omap_app. fold (pushed_ids log) (pushed_ids evs).
    destruct (pushed_ids evs) as [|j [|]] eqn:He; simpl in Hlen; [|destruct (Hp j) as [p ->]; [by left|]|lia].
    - rewrite app_nil_r. rewrite <- app_assoc in Hnd. by apply NoDup_app in Hnd as (_ & _ & ?).
    - eapply NoDup_Permutation_proper; [|exact Hnd]. cbn. solve_Permutation. }
  destruct Hs as [i pc pc' s s' ts log evs Hi Hst|i pc pc' s ts log evs Hi Hst|i pc pc' s ts log evs Hi Hst]; cbn in *.
  - apply locked_step_order in Hst as (_ & Hp & Hl & Hpc'). by eapply Hmain.
  - apply reply_step_order in Hst as (Hp & _ & Hpc' & _). eapply Hmain; [done..| | |done]; rewrite Hp; [|simpl; lia].
    by intros j ?%elem_of_nil.
  - rewrite <- (app_nil_r log). eapply Hmain; [done..| | |done]; [by intros j ?%elem_of_nil|simpl; lia].
Qed.

(** Each accepted request is handed to at most one consumer, under every
    interleaving, when the producers bring different identifiers. *)
Theorem handed_out_once (k k' : conf R) :
  star step k k' → mq_queue (shared k) = [] → journal k = [] → NoDup (put_ids (workers k)) →
  NoDup (popped_ids (journal k')).
Proof.
  intros Hs Hq Hj Hnd.
  assert (Hinv : ids_fresh k' ∧ pushed_ids (journal k') = popped_ids (journal k') ++ mq_queue (shared k')).
  { apply (star_invariant step (λ k, ids_fresh k ∧ pushed_ids (journal k) = popped_ids (journal k) ++ mq_queue (shared k))) with k;
      [|done|].
    - intros a b [Ha Hb] Hab. split; [by eapply step_ids_fresh|]. by apply (step_order a b).
    - split; [|by rewrite Hq, Hj]. unfold ids_fresh. by rewrite Hj, app_nil_r. }
  destruct Hinv as [Hf Ho]. unfold ids_fresh in Hf. rewrite Ho in Hf.
  apply NoDup_app in Hf as (_ & _ & Hf). by apply NoDup_app in Hf as (Hf & _ & _).
Qed.

(** The storage invariant holds under every interleaving too: each stored
    request is stored under its own identifier, which is queued or locked. *)
Theorem stored_ok_under_interleaving (f : R → option Z) (k k' : conf R) :
  star step k k' → stored_ok (shared k) f →
  (∀ mid p, PutEnter mid p ∈ workers k → f p = Some mid) → stored_ok (shared k') f.
Proof.
  intros Hs Hok Hput.
  apply (star_invariant step (λ k, stored_ok (shared k) f ∧ ∀ mid p, PutEnter mid p ∈ workers k → f p = Some mid)) with k;
    [|done|done].
  clear. intros a b [Ha Hp] Hab.
  assert (Hins : ∀ (ts : list (worker_pc R)) i pc', (∀ mid p, PutEnter mid p ∈ ts → f p = Some mid) → put_ids [pc'] = [] →
      ∀ mid p, PutEnter mid p ∈ <[i := pc']> ts → f p = Some mid).
  { intros ts i pc' Hts Hpc' mid p [j Hj]%list_elem_of_lookup.
    apply list_lookup_insert_Some in Hj as [(-> & -> & _)|[_ Hj]]; [done|]. apply Hts. by eapply list_elem_of_lookup_2. }
  destruct Hab as [i pc pc' s s' ts log evs Hi Hst|i pc pc' s ts log evs Hi Hst|i pc pc' s ts log evs Hi Hst]; cbn in *.
  - split; [|apply locked_step_order in Hst as (_ & _ & _ & ?); by eapply Hins].
    eapply locked_step_stored_ok; [done..|]. intros mid p ->. apply Hp. by eapply list_elem_of_lookup_2.
  - split; [done|]. apply reply_step_order in Hst as (_ & _ & ? & _). by eapply Hins.
  - split; [done|]. by eapply Hins.
Qed.
End steps.

(** ** Two answers to one request

    The request is looked up in one block and erased in another, and the reply
    to the producer is sent between the two. *)
Definition two_answers_start : conf nat :=
  MkConf (MkQueue [] {[11%Z]} {[11%Z := 1]} [] (MkLimits 0 0 0) (Some ∅)) [PostFind 11 2; PostFind 11 3] [].

(** The comment of the 300 answer notwithstanding ("Multiple Replays. Reply
    Ignored."), two concurrent POSTs for one request can both answer its
    producer, and both are acknowledged. *)
Theorem two_posts_answer_twice :
  ∃ k, star step two_answers_start k ∧
    journal k = [Answered 1 2; Answered 1 3] ∧ workers k = [PostAck 2; PostAck 3] ∧ mq_messages (shared k) = ∅.
Proof.
  eexists. split; [|split_and!].
  - eapply star_step; [by eapply (step_locked 0)|]. eapply star_step; [by eapply (step_locked 1)|].
    eapply star_step; [by eapply (step_reply 0)|]. eapply star_step; [by eapply (step_reply 1)|].
    eapply star_step; [by eapply (step_locked 0)|]. eapply star_step; [by eapply (step_locked 1)|].
    apply star_refl.
  - reflexivity.
  - reflexivity.
  - vm_compute. reflexivity.
Qed.

(** ** The theorems on a run of two producers and a consumer *)
Module ConcDemo.
Definition start : conf nat :=
  MkConf (MkQueue [] ∅ ∅ [] (MkLimits 0 0 0) (Some ∅)) [PutEnter 11 1; PutEnter 12 2; GetEnter 3] [].

Definition goal : conf nat :=
  MkConf (MkQueue [12%Z] {[11%Z]} (<[12%Z := 2]> {[11%Z := 1]}) [] (MkLimits 0 0 0) (Some ∅)) [Finished; Finished; GetSend 3 11 1]
    [Pushed 11; Pushed 12; Popped 11].

Lemma run : star step start goal.
Proof.
  eapply star_step; [by eapply (step_locked 0)|]. eapply star_step; [by eapply (step_locked 1)|].
  eapply star_step; [by eapply (step_locked 2)|]. apply star_refl.
Qed.
End ConcDemo.

Lemma fifo_under_interleaving_witness :
  star step ConcDemo.start ConcDemo.goal ∧ pushed_ids (journal ConcDemo.goal) = [11%Z] ++ [12%Z].
Proof.
  split; [exact ConcDemo.run|].
  exact (fifo_under_interleaving ConcDemo.start ConcDemo.goal ConcDemo.run eq_refl eq_refl).
Defined.

Lemma handed_out_once_witness : star step ConcDemo.start ConcDemo.goal ∧ NoDup [11%Z].
Proof.
  split; [exact ConcDemo.run|].
  assert (Hn : NoDup (put_ids (workers ConcDemo.start))) by decided.
  exact (handed_out_once ConcDemo.start ConcDemo.goal ConcDemo.run eq_refl eq_refl Hn).
Defined.

Lemma stored_ok_under_interleaving_witness :
  let f := λ r : nat, Some (10 + Z.of_nat r)%Z in stored_ok (shared ConcDemo.goal) f.
Proof.
  intros f. refine (stored_ok_under_interleaving f ConcDemo.start ConcDemo.goal ConcDemo.run _ _).
  - split; intros i; cbn; rewrite lookup_empty; [done|by intros [? ?]].
  - intros mid p Hp. cbn in Hp. rewrite !elem_of_cons, elem_of_nil in Hp.
    destruct Hp as [[= -> ->]|[[= -> ->]|[?|[]]]]; done.
Defined.
