(* ===== verification/Interleave.v ===== *)
(** * Interleave: code as a sequence of atomic actions

    A handler that runs while others do is more than a function on the state:
    between two of its critical sections anything can happen.  [prog] is code
    whose atomic actions are explicit, a free monad over [M]; [run] executes it
    without interruption, and [pstep] interleaves any number of threads, which
    may start at any time.  What holds of every action holds of every
    interleaving, and threads end after the actions they have. *)
From stdpp Require Import options relations.
From S2P Require Import Prelude.

#[local] Open Scope nat_scope.

(** ** Programs *)

(** The end of the code, or an atomic action and what follows it. *)
Inductive prog (W A : Type) : Type :=
  | PDone (o : outcome A)
  | PAct (X : Type) (m : M W X) (k : outcome X → prog W A).
Arguments PDone {W A} o.
Arguments PAct {W A X} m k.

(** One action. *)
Definition act {W A} (m : M W A) : prog W A := PAct m PDone.

(** What an outcome does to the code after it. *)
Definition after {W A B} (f : A → prog W B) (o : outcome A) : prog W B :=
  match o with
  | Ret a => f a
  | Throw e => PDone (Throw e)
  | Terminate => PDone Terminate
  | Undef => PDone Undef
  end.

#[export] Instance prog_ret {W} : MRet (prog W) := λ A a, PDone (Ret a).
#[export] Instance prog_bind {W} : MBind (prog W) := λ A B f,
  fix bind p := match p with PDone o => after f o | PAct m k => PAct m (λ o, bind (k o)) end.

(** [try { p } catch (std::exception &ex) { h }] *)
Fixpoint pcatch_std {W A} (p : prog W A) (h : bytes → prog W A) : prog W A :=
  match p with
  | PDone (Throw (StdException w)) => h w
  | PDone o => PDone o
  | PAct m k => PAct m (λ o, pcatch_std (k o) h)
  end.

(** [try { p } catch (RuntimeException &ex) { h1 } catch (std::exception &ex) { h2 }] *)
Fixpoint pcatch_both {W A} (p : prog W A) (h1 h2 : bytes → prog W A) : prog W A :=
  match p with
  | PDone (Throw (RuntimeException w)) => h1 w
  | PDone (Throw (StdException w)) => h2 w
  | PDone o => PDone o
  | PAct m k => PAct m (λ o, pcatch_both (k o) h1 h2)
  end.

(** [std::packaged_task]: an exception that leaves the code stays in the task. *)
Fixpoint packaged {W} (p : prog W unit) : prog W unit :=
  match p with
  | PDone (Throw _) => PDone (Ret tt)
  | PDone o => PDone o
  | PAct m k => PAct m (λ o, packaged (k o))
  end.

Definition has_ended {W A} (p : prog W A) : bool := match p with PDone _ => true | PAct _ _ => false end.

(** ** Execution without interruption *)
Fixpoint run {W A} (p : prog W A) : M W A := λ s,
  match p with
  | PDone o => (o, s)
  | PAct m k => let '(o, s') := m s in run (k o) s'
  end.

Lemma run_act {W A} (m : M W A) s : run (act m) s = m s.
Proof. unfold act. cbn. by destruct (m s). Qed.

Lemma run_ret {W A} (a : A) (s : W) : run (mret a) s = (Ret a, s).
Proof. done. Qed.

Lemma run_bind {W A B} (p : prog W A) (f : A → prog W B) s :
  run (p ≫= f) s = (run p ≫= λ a, run (f a)) s.
Proof.
  revert s. induction p as [o|X m k IH]; intros s; cbn.
  - unfold mbind, M_bind. by destruct o.
  - specialize (IH (m s).1 (m s).2). unfold mbind, M_bind in *. cbn. destruct (m s) as [o s']. exact IH.
Qed.

Lemma run_catch_std {W A} (p : prog W A) h s :
  run (pcatch_std p h) s = catch_std (run p) (λ w, run (h w)) s.
Proof.
  revert s. induction p as [o|X m k IH]; intros s; cbn.
  - unfold catch_std. cbn. by destruct o as [a|[w|w]| |].
  - unfold catch_std. cbn. destruct (m s) as [o s']. apply IH.
Qed.

Lemma run_packaged {W} (p : prog W unit) (s : W) :
  run (packaged p) s = (match (run p s).1 with Throw _ => Ret tt | o => o end, (run p s).2).
Proof.
  revert s. induction p as [o|X m k IH]; intros s; cbn; [by destruct o|]. destruct (m s) as [o s']. apply IH.
Qed.

(** Two programs that do the same when they run alone. *)
#[export] Instance prog_equiv {W A} : Equiv (prog W A) := λ p q, ∀ s, run p s = run q s.
#[export] Instance prog_equivalence {W A} : Equivalence (≡@{prog W A}).
Proof.
  split; [by intros p s|by intros p q H s; symmetry|].
  intros p q r H1 H2 s. by rewrite (H1 s).
Qed.

#[export] Instance prog_bind_proper {W A B} :
  Proper (pointwise_relation A (≡) ==> (≡) ==> (≡)) (mbind : (A → prog W B) → prog W A → prog W B).
Proof.
  intros f g Hfg p q Hpq s. rewrite !run_bind. unfold mbind, M_bind. rewrite (Hpq s).
  destruct (run q s) as [[a|e| |] s']; [apply Hfg|done..].
Qed.

(** Run alone from a state that satisfies [q], a program is a function of the
    source when its parts are. *)
Definition runs {W A} (q : W → Prop) (p : prog W A) (m : M W A) : Prop := ∀ s, q s → run p s = m s ∧ q (m s).2.

Section runs.
Context {W : Type} (q : W → Prop).

Lemma runs_act {A} (m : M W A) : preserves q m → runs q (act m) m.
Proof. intros Hm s Hs. split; [apply run_act|by apply Hm]. Qed.
Lemma runs_ret {A} (a : A) : runs q (mret a : prog W A) (mret a).
Proof. by intros s Hs. Qed.
Lemma runs_done {A} (o : outcome A) : runs q (PDone o : prog W A) (lift o).
Proof. by intros s Hs. Qed.
Lemma runs_throw {A} e : runs q (PDone (Throw e) : prog W A) (throw e).
Proof. by intros s Hs. Qed.
Lemma runs_bind {A B} (p : prog W A) (f : A → prog W B) m g :
  runs q p m → (∀ a, runs q (f a) (g a)) → runs q (p ≫= f) (m ≫= g).
Proof.
  intros Hp Hf s Hs. rewrite run_bind. unfold mbind, M_bind. destruct (Hp s Hs) as [-> Hq].
  destruct (m s) as [[a|e| |] s']; [by apply Hf|done..].
Qed.
Lemma runs_catch_std {A} (p : prog W A) h m g :
  runs q p m → (∀ w, runs q (h w) (g w)) → runs q (pcatch_std p h) (catch_std m g).
Proof.
  intros Hp Hh s Hs. rewrite run_catch_std. unfold catch_std. destruct (Hp s Hs) as [-> Hq].
  destruct (m s) as [[a|[w|w]| |] s']; [done..|by apply Hh|done|done].
Qed.
Lemma runs_if {A} (b : bool) (p p' : prog W A) m m' :
  runs q p m → runs q p' m' → runs q (if b then p else p') (if b then m else m').
Proof. by destruct b. Qed.
Lemma runs_decide {A} P `{!Decision P} (p p' : prog W A) m m' :
  runs q p m → runs q p' m' → runs q (if decide P then p else p') (if decide P then m else m').
Proof. by case_decide. Qed.
End runs.

(** ** Threads *)

(** The threads, in the order in which they were started, and what they share. *)
Record tconf (W C : Type) := MkThreads { tc_threads : list (C * prog W unit); tc_shared : W }.
Arguments MkThreads {W C}. Arguments tc_threads {W C}. Arguments tc_shared {W C}.

Section threads.
Context {W C : Type} (code : C → prog W unit).
(** When a call may start, and the state that starting it leaves. *)
Context (may_start : tconf W C → C → W → Prop).

Inductive pstep : tconf W C → tconf W C → Prop :=
  | p_start k c s' : may_start k c s' → pstep k (MkThreads (tc_threads k ++ [(c, code c)]) s')
  | p_act ts s i c X (m : M W X) f o s' :
      ts !! i = Some (c, PAct m f) → m s = (o, s') → pstep (MkThreads ts s) (MkThreads (<[i := (c, f o)]> ts) s').

Lemma p_act_to ts s i c X (m : M W X) f o s' p :
  ts !! i = Some (c, PAct m f) → m s = (o, s') → p = f o → pstep (MkThreads ts s) (MkThreads (<[i := (c, p)]> ts) s').
Proof. intros Hi Hm ->. by eapply p_act. Qed.

(** The next action of thread [i], if it has one. *)
Definition thread_move (i : nat) (k : tconf W C) : tconf W C :=
  match tc_threads k !! i with
  | Some (c, PAct m f) =>
      let '(o, s') := m (tc_shared k) in MkThreads (<[i := (c, f o)]> (tc_threads k)) s'
  | _ => k
  end.

Lemma thread_move_star i k : star pstep k (thread_move i k).
Proof.
  destruct k as [ts s]. unfold thread_move. cbn. destruct (ts !! i) as [[c [o|X m f]]|] eqn:Hi; [apply star_refl| |apply star_refl].
  destruct (m s) as [o s'] eqn:Hm. by eapply star_one, p_act.
Qed.

Lemma thread_moves_star tids k : star pstep k (foldl (λ k i, thread_move i k) k tids).
Proof.
  revert k. induction tids as [|i tids IH]; intros k; [apply star_refl|]. cbn. eapply star_trans; [apply thread_move_star|apply IH].
Qed.

(** *** Invariants

    An invariant [I] of the shared state, and an order [le] that every action
    moves along: what a thread learned from an action and [le] preserves is
    still true when it goes on. *)
Section invariant.
Context (le : W → W → Prop) `{!PreOrder le} (I : W → Prop).

Definition guards {A} (m : M W A) : Prop := ∀ s, I s → le s (m s).2 ∧ I (m s).2.

(** Every action that the code can come to from [s0] keeps the invariant and
    moves along the order. *)
Fixpoint keeps_inv {A} (s0 : W) (p : prog W A) : Prop :=
  match p with
  | PDone _ => True
  | PAct m k => ∀ s, le s0 s → I s → le s (m s).2 ∧ I (m s).2 ∧ keeps_inv (m s).2 (k (m s).1)
  end.

Lemma keeps_inv_le {A} s0 s1 (p : prog W A) : le s0 s1 → keeps_inv s0 p → keeps_inv s1 p.
Proof using PreOrder0. destruct p as [o|X m k]; [done|]. intros Hle Hp s Hs HI. apply Hp; [|done]. by transitivity s1. Qed.

Lemma keeps_inv_done {A} s0 (o : outcome A) : keeps_inv s0 (PDone o).
Proof. done. Qed.
Lemma keeps_inv_ret {A} s0 (a : A) : keeps_inv s0 (mret a).
Proof. done. Qed.
Lemma keeps_inv_if {A} s0 (b : bool) (p q : prog W A) :
  keeps_inv s0 p → keeps_inv s0 q → keeps_inv s0 (if b then p else q).
Proof. by destruct b. Qed.
Lemma keeps_inv_decide {A} s0 P `{!Decision P} (p q : prog W A) :
  keeps_inv s0 p → keeps_inv s0 q → keeps_inv s0 (if decide P then p else q).
Proof. by case_decide. Qed.

Lemma keeps_inv_after {A B} s0 (f : A → prog W B) o : (∀ a, o = Ret a → keeps_inv s0 (f a)) → keeps_inv s0 (after f o).
Proof. intros Hf. destruct o; cbn; by auto. Qed.

Lemma keeps_inv_act {A} s0 (m : M W A) : guards m → keeps_inv s0 (act m).
Proof. intros Hm s _ Hs. by destruct (Hm s Hs). Qed.

Lemma keeps_inv_bind {A B} s0 (p : prog W A) (f : A → prog W B) :
  keeps_inv s0 p → (∀ s a, le s0 s → keeps_inv s (f a)) → keeps_inv s0 (p ≫= f).
Proof using PreOrder0.
  revert s0. induction p as [o|X m k IH]; intros s0 Hp Hf.
  { apply keeps_inv_after. intros a _. by apply Hf. }
  intros s Hle Hs. destruct (Hp s Hle Hs) as (H1 & H2 & H3). split_and!; [done..|]. apply IH; [done|].
  intros s1 a Hs1. apply Hf. etrans; [exact Hle|]. by etrans.
Qed.

(** The code after an action may use what the action returned. *)
Lemma keeps_inv_act_bind {A B} s0 (m : M W A) (f : A → prog W B) :
  guards m → (∀ s a s', le s0 s → I s → m s = (Ret a, s') → le s s' → I s' → keeps_inv s' (f a)) →
  keeps_inv s0 (act m ≫= f).
Proof.
  intros Hm Hf s Hle Hs. destruct (Hm s Hs) as [H1 H2]. split_and!; [done..|]. apply keeps_inv_after. intros a Ha.
  eapply Hf; [exact Hle|exact Hs| |done|done]. by destruct (m s); cbn in *; subst.
Qed.

Lemma keeps_inv_catch_std {A} s0 (p : prog W A) h :
  keeps_inv s0 p → (∀ s w, le s0 s → keeps_inv s (h w)) → keeps_inv s0 (pcatch_std p h).
Proof using PreOrder0.
  revert s0. induction p as [o|X m k IH]; intros s0 Hp Hh; [destruct o as [a|[w|w]| |]; cbn; try done; by apply Hh|].
  intros s Hle Hs. destruct (Hp s Hle Hs) as (H1 & H2 & H3). split_and!; [done..|]. apply IH; [done|].
  intros s1 w Hs1. apply Hh. etrans; [exact Hle|]. by etrans.
Qed.

Lemma keeps_inv_catch_both {A} s0 (p : prog W A) h1 h2 :
  keeps_inv s0 p → (∀ s w, le s0 s → keeps_inv s (h1 w)) → (∀ s w, le s0 s → keeps_inv s (h2 w)) →
  keeps_inv s0 (pcatch_both p h1 h2).
Proof using PreOrder0.
  revert s0. induction p as [o|X m k IH]; intros s0 Hp Hh1 Hh2; [destruct o as [a|[w|w]| |]; cbn; try done; [by apply Hh1|by apply Hh2]|].
  intros s Hle Hs. destruct (Hp s Hle Hs) as (H1 & H2 & H3). split_and!; [done..|].
  apply IH; [done|..]; intros s1 w Hs1; [apply Hh1|apply Hh2]; (etrans; [exact Hle|by etrans]).
Qed.

Lemma keeps_inv_packaged s0 (p : prog W unit) : keeps_inv s0 p → keeps_inv s0 (packaged p).
Proof.
  revert s0. induction p as [o|X m k IH]; intros s0 Hp; [by destruct o|]. intros s Hle Hs.
  destruct (Hp s Hle Hs) as (H1 & H2 & H3). split_and!; [done..|by apply IH].
Qed.

(** Code that keeps the invariant and whose end satisfies [Φ]. *)
Fixpoint ends_in {A} (Φ : outcome A → W → Prop) (s0 : W) (p : prog W A) : Prop :=
  match p with
  | PDone o => Φ o s0
  | PAct m k => ∀ s, le s0 s → I s → le s (m s).2 ∧ I (m s).2 ∧ ends_in Φ (m s).2 (k (m s).1)
  end.

(** What the order preserves. *)
Definition stable {A} (Φ : outcome A → W → Prop) : Prop := ∀ o s s', le s s' → Φ o s → Φ o s'.

Lemma ends_in_le {A} (Φ : outcome A → W → Prop) s0 s1 (p : prog W A) :
  stable Φ → le s0 s1 → ends_in Φ s0 p → ends_in Φ s1 p.
Proof using PreOrder0.
  intros HΦ Hle. destruct p as [o|X m k]; [by apply HΦ|]. intros Hp s Hs HI. apply Hp; [|done]. by transitivity s1.
Qed.

(** Once it holds, it holds at the end. *)
Lemma keeps_inv_ends {A} (Φ : outcome A → W → Prop) s0 (p : prog W A) :
  stable Φ → (∀ o, Φ o s0) → keeps_inv s0 p → ends_in Φ s0 p.
Proof using PreOrder0.
  intros HΦ. revert s0. induction p as [o|X m k IH]; intros s0 H0 Hp; [apply H0|]. intros s Hle Hs.
  destruct (Hp s Hle Hs) as (H1 & H2 & H3). split_and!; [done..|]. apply IH; [|done]. intros o.
  eapply HΦ; [|apply H0]. by transitivity s.
Qed.

Lemma ends_in_True {A} s0 (p : prog W A) : ends_in (λ _ _, True) s0 p ↔ keeps_inv s0 p.
Proof.
  revert s0. induction p as [o|X m k IH]; intros s0; [done|]. cbn.
  split; intros Hp s Hle Hs; destruct (Hp s Hle Hs) as (H1 & H2 & H3); (split_and!; [done..|by apply IH]).
Qed.

(** What every action keeps, every interleaving keeps, and the ends of the
    threads are as promised. *)
Lemma interleaving_ends (Φ : C → outcome unit → W → Prop) k k' :
  (∀ c, stable (Φ c)) →
  (∀ k c s', may_start k c s' → I (tc_shared k) → le (tc_shared k) s' ∧ I s' ∧ ends_in (Φ c) s' (code c)) →
  star pstep k k' → I (tc_shared k) → Forall (λ t, ends_in (Φ t.1) (tc_shared k) t.2) (tc_threads k) →
  le (tc_shared k) (tc_shared k') ∧ I (tc_shared k') ∧ Forall (λ t, ends_in (Φ t.1) (tc_shared k') t.2) (tc_threads k').
Proof using PreOrder0.
  intros HΦ Hcode Hs. induction Hs as [k|a b c Hab _ IH]; [done|]. intros Ha Hta.
  assert (Hb : le (tc_shared a) (tc_shared b) ∧ I (tc_shared b) ∧ Forall (λ t, ends_in (Φ t.1) (tc_shared b) t.2) (tc_threads b)).
  { destruct Hab as [k cl s' Hc|ts s i cl X m f o s' Hi Hm]; cbn in *.
    - destruct (Hcode _ _ _ Hc Ha) as (H1 & H2 & H3). split_and!; [done..|]. apply Forall_app.
      split; [|by apply Forall_singleton]. eapply Forall_impl; [exact Hta|]. intros t. by apply ends_in_le.
    - pose proof (Forall_lookup_1 _ _ _ _ Hta Hi) as Hk. destruct (Hk s ltac:(reflexivity) Ha) as (H1 & H2 & H3).
      rewrite Hm in H1, H2, H3. split_and!; [done..|]. apply Forall_insert; [|done].
      eapply Forall_impl; [exact Hta|]. intros t. by apply ends_in_le. }
  destruct Hb as (H1 & H2 & H3). destruct (IH H2 H3) as (H4 & H5 & H6). split_and!; [by etrans|done..].
Qed.

Lemma interleaving_invariant k k' :
  (∀ k c s', may_start k c s' → I (tc_shared k) → le (tc_shared k) s' ∧ I s' ∧ keeps_inv s' (code c)) →
  star pstep k k' → I (tc_shared k) → Forall (λ t, keeps_inv (tc_shared k) t.2) (tc_threads k) →
  le (tc_shared k) (tc_shared k') ∧ I (tc_shared k') ∧ Forall (λ t, keeps_inv (tc_shared k') t.2) (tc_threads k').
Proof using PreOrder0.
  intros Hcode Hs Hk Hts.
  destruct (interleaving_ends (λ _ _ _, True) k k') as (H1 & H2 & H3); [done| |exact Hs|exact Hk| |].
  - intros k1 c s' Hc HI. destruct (Hcode k1 c s' Hc HI) as (? & ? & ?). split_and!; [done..|by apply ends_in_True].
  - eapply Forall_impl; [exact Hts|]. intros t. apply ends_in_True.
  - split_and!; [done..|]. eapply Forall_impl; [exact H3|]. intros t. apply ends_in_True.
Qed.
End invariant.

(** Two invariants are kept together. *)
Lemma guards_and {A} (le1 le2 : W → W → Prop) (I1 I2 : W → Prop) (m : M W A) :
  guards le1 I1 m → guards le2 I2 m → guards (λ s s', le1 s s' ∧ le2 s s') (λ s, I1 s ∧ I2 s) m.
Proof. intros H1 H2 s [Hs1 Hs2]. destruct (H1 s Hs1), (H2 s Hs2). by split_and!. Qed.

Lemma keeps_inv_and {A} (le1 le2 : W → W → Prop) (I1 I2 : W → Prop) s0 (p : prog W A) :
  keeps_inv le1 I1 s0 p → keeps_inv le2 I2 s0 p →
  keeps_inv (λ s s', le1 s s' ∧ le2 s s') (λ s, I1 s ∧ I2 s) s0 p.
Proof.
  revert s0. induction p as [o|X m k IH]; intros s0 H1 H2; [done|]. intros s [Hle1 Hle2] [HI1 HI2].
  destruct (H1 s Hle1 HI1) as (? & ? & ?), (H2 s Hle2 HI2) as (? & ? & ?). split_and!; [done..|]. by apply IH.
Qed.

(** *** Ends *)

(** The code has at most [n] actions. *)
Fixpoint within {A} (n : nat) (p : prog W A) {struct p} : Prop :=
  match p with
  | PDone _ => True
  | PAct m k => match n with O => False | S n => ∀ o, within n (k o) end
  end.

Lemma within_le {A} n n' (p : prog W A) : n ≤ n' → within n p → within n' p.
Proof.
  revert n n'. induction p as [o|X m k IH]; intros [|n] [|n'] Hle Hp; cbn in *; try done; [lia|].
  intros o. apply IH with n; [lia|done].
Qed.

Lemma within_act {A} (m : M W A) : within 1 (act m).
Proof. by intros o. Qed.

Lemma within_after {A B} n (f : A → prog W B) o : (∀ a, within n (f a)) → within n (after f o).
Proof. intros Hf. destruct o; cbn; auto. Qed.

Lemma within_bind {A B} n n' (p : prog W A) (f : A → prog W B) :
  within n p → (∀ a, within n' (f a)) → within (n + n') (p ≫= f).
Proof.
  revert n. induction p as [o|X m k IH]; intros n Hp Hf.
  - apply within_le with n'; [lia|]. by apply within_after.
  - destruct n as [|n]; [done|]. intros o. by apply IH.
Qed.

Lemma within_step {A B} n (m : M W A) (f : A → prog W B) : (∀ a, within n (f a)) → within (S n) (act m ≫= f).
Proof. intros Hf. by apply (within_bind 1 n). Qed.

Lemma within_pure {A B} n (o : outcome A) (f : A → prog W B) : (∀ a, within n (f a)) → within n (PDone o ≫= f).
Proof. apply within_after. Qed.

Lemma within_catch_std {A} n n' (p : prog W A) h :
  within n p → (∀ w, within n' (h w)) → within (n + n') (pcatch_std p h).
Proof.
  revert n. induction p as [o|X m k IH]; intros n Hp Hh.
  - destruct o as [a|[w|w]| |]; cbn; try done. apply within_le with n'; [lia|apply Hh].
  - destruct n as [|n]; [done|]. intros o. by apply IH.
Qed.

Lemma within_catch_both {A} n n' (p : prog W A) h1 h2 :
  within n p → (∀ w, within n' (h1 w)) → (∀ w, within n' (h2 w)) → within (n + n') (pcatch_both p h1 h2).
Proof.
  revert n. induction p as [o|X m k IH]; intros n Hp Hh1 Hh2.
  - destruct o as [a|[w|w]| |]; cbn; try done; (apply within_le with n'; [lia|auto]).
  - destruct n as [|n]; [done|]. intros o. by apply IH.
Qed.

Lemma within_packaged n (p : prog W unit) : within n p → within n (packaged p).
Proof.
  revert n. induction p as [o|X m k IH]; intros n Hp; [by destruct o|]. destruct n as [|n]; [done|]. intros o. by apply IH.
Qed.

(** A step of a thread that runs, as opposed to the start of another one. *)
Definition acts (a b : tconf W C) : Prop := pstep a b ∧ length (tc_threads b) = length (tc_threads a).

Lemma thread_move_acts i k c X (m : M W X) f : tc_threads k !! i = Some (c, PAct m f) → acts k (thread_move i k).
Proof.
  destruct k as [ts s]. cbn. intros Hi. unfold thread_move. cbn. rewrite Hi. destruct (m s) as [o s'] eqn:Hm.
  split; [by eapply p_act|]. cbn. by rewrite length_insert.
Qed.

(** Each of the threads, in turn, has an action left. *)
Fixpoint all_act (tids : list nat) (k : tconf W C) : bool :=
  match tids with
  | [] => true
  | i :: tids =>
      match tc_threads k !! i with Some (_, PAct _ _) => true | _ => false end && all_act tids (thread_move i k)
  end.

Lemma thread_moves_acts tids k :
  all_act tids k = true → nsteps acts (length tids) k (foldl (λ k i, thread_move i k) k tids).
Proof.
  revert k. induction tids as [|i tids IH]; intros k; cbn [all_act length foldl]; [intros _; apply nsteps_O|].
  intros [Hi Ht]%andb_prop. eapply nsteps_l; [|by apply IH].
  destruct (tc_threads k !! i) as [[c [o|X m f]]|] eqn:Hk; [done| |done]. by eapply thread_move_acts.
Qed.

(** Each thread loses one of the actions it has left. *)
Lemma acts_within ns k k' :
  Forall2 (λ n t, within n t.2) ns (tc_threads k) → acts k k' →
  ∃ ns', Forall2 (λ n t, within n t.2) ns' (tc_threads k') ∧ sum_list ns = S (sum_list ns').
Proof.
  intros Hns [Hs Hlen]. destruct Hs as [k c s' _|ts s i c X m f o s' Hi Hm]; cbn in *.
  { rewrite length_app in Hlen. simpl in Hlen. lia. }
  destruct (Forall2_lookup_r _ _ _ _ _ Hns Hi) as (a & Ha & Hw). cbn in Hw. destruct a as [|a]; [done|].
  exists (<[i := a]> ns). split; [apply Forall2_insert; [done|apply Hw]|].
  clear -Ha. revert i Ha. induction ns as [|b ns IH]; intros [|i] Ha; simplify_eq/=; [done|]. rewrite (IH i Ha). lia.
Qed.

Lemma threads_within ns n k k' :
  Forall2 (λ n t, within n t.2) ns (tc_threads k) → nsteps acts n k k' → n ≤ sum_list ns.
Proof.
  intros Hns Hn. revert ns Hns. induction Hn as [k|n k k1 k' Hs Hn IH]; intros ns Hns; [lia|].
  destruct (acts_within ns k k1 Hns Hs) as (ns' & Hns' & ->). apply le_n_S, IH, Hns'.
Qed.

(** Threads that have at most [N] actions, wherever they are. *)
Lemma reachable_within N k k' :
  (∀ c, within N (code c)) → star pstep k k' → Forall (λ t, within N t.2) (tc_threads k) →
  Forall (λ t, within N t.2) (tc_threads k').
Proof.
  intros Hcode. apply (star_invariant pstep (λ k, Forall (λ t, within N t.2) (tc_threads k))).
  clear -Hcode. intros a b Ha Hab. destruct Hab as [k c s' _|ts s i c X m f o s' Hi Hm]; cbn in *.
  - apply Forall_app. split; [done|]. by apply Forall_singleton; cbn.
  - apply Forall_insert; [done|]. pose proof (Forall_lookup_1 _ _ _ _ Ha Hi) as Hw. cbn in Hw |- *.
    destruct N as [|N]; [done|]. apply within_le with N; [lia|apply Hw].
Qed.

Lemma threads_end N n k k' :
  Forall (λ t, within N t.2) (tc_threads k) → nsteps acts n k k' → n ≤ N * length (tc_threads k).
Proof.
  intros Hk Hn. replace (N * length (tc_threads k)) with (sum_list (replicate (length (tc_threads k)) N)).
  - eapply threads_within; [|exact Hn]. by apply (Forall2_replicate_l (λ n (t : C * prog W unit), within n t.2)).
  - generalize (length (tc_threads k)). intros l. induction l as [|l IH]; simpl; [lia|]. rewrite IH. lia.
Qed.

(** Nothing blocks: unless all threads have ended, one of them can go on. *)
Lemma threads_progress k : Forall (λ t, has_ended t.2 = true) (tc_threads k) ∨ ∃ k', acts k k'.
Proof.
  destruct k as [ts s]. cbn.
  destruct (decide (Forall (λ t, has_ended t.2 = true) ts)) as [H|H]; [by left|right].
  apply not_Forall_Exists, Exists_exists in H as ([c p] & Hin & Hp); [|intros t; apply _].
  apply list_elem_of_lookup in Hin as [i Hi]. destruct p as [o|X m f]; [by destruct Hp|].
  destruct (m s) as [o s'] eqn:Hm. eexists. split; [by eapply p_act|]. cbn. by rewrite length_insert.
Qed.
End threads.

#[export] Hint Resolve keeps_inv_act keeps_inv_bind keeps_inv_catch_std keeps_inv_catch_both keeps_inv_done
  keeps_inv_ret keeps_inv_if keeps_inv_decide keeps_inv_packaged : fiber.
#[export] Hint Resolve within_act : fiber.
