(* ===== verification/RelyGuarantee.v ===== *)
(** * RelyGuarantee: what programs end with while others run

    A logic for the programs of [Interleave] in which the threads promise each
    other different things.  A thread relies on the others to move along [R], the
    thread itself moves along [G], all keep [I], and at the end the outcome and
    the state are related by a postcondition. *)
From stdpp Require Import options relations.
From S2P Require Import Prelude Interleave.

#[local] Open Scope nat_scope.

(** A postcondition of code that returns. *)
Definition ret {W A} (Q : A → W → Prop) (o : outcome A) (s : W) : Prop := match o with Ret a => Q a s | _ => True end.

(** ** Programs *)
Section rg.
Context {W : Type} (R G : W → W → Prop) (I : W → Prop).

Fixpoint rg {A} (Φ : outcome A → W → Prop) (s0 : W) (p : prog W A) : Prop :=
  match p with
  | PDone o => Φ o s0
  | PAct m k => ∀ s, R s0 s → I s → G s (m s).2 ∧ I (m s).2 ∧ rg Φ (m s).2 (k (m s).1)
  end.

(** An action that keeps the promises wherever it runs. *)
Definition respects {A} (m : M W A) : Prop := ∀ s, I s → G s (m s).2 ∧ I (m s).2.

Lemma rg_mono {A} (Φ Ψ : outcome A → W → Prop) s0 (p : prog W A) :
  (∀ o s, Φ o s → Ψ o s) → rg Φ s0 p → rg Ψ s0 p.
Proof.
  intros HΦ. revert s0. induction p as [o|X m k IH]; intros s0 Hp; [by apply HΦ|]. intros s Hs HI.
  destruct (Hp s Hs HI) as (H1 & H2 & H3). split_and!; [done..|by apply IH].
Qed.

(** What the others do before the program begins. *)
Lemma rg_rely `{!Transitive R} {A} (Φ : outcome A → W → Prop) s0 s1 (p : prog W A) :
  (∀ o s s', R s s' → Φ o s → Φ o s') → R s0 s1 → rg Φ s0 p → rg Φ s1 p.
Proof.
  intros HΦ Hle. destruct p as [o|X m k]; [by apply HΦ|]. intros Hp s Hs HI. apply Hp; [|done]. by transitivity s1.
Qed.

Lemma rg_bind {A B} (Ψ : outcome A → W → Prop) (Φ : outcome B → W → Prop) s0 (p : prog W A) (f : A → prog W B) :
  rg Ψ s0 p → (∀ o s, Ψ o s → rg Φ s (after f o)) → rg Φ s0 (p ≫= f).
Proof.
  intros Hp Hf. revert s0 Hp. induction p as [o|X m k IH]; intros s0 Hp; [by apply Hf|]. intros s Hs HI.
  destruct (Hp s Hs HI) as (H1 & H2 & H3). split_and!; [done..|by apply IH].
Qed.

Lemma rg_catch_std {A} (Ψ Φ : outcome A → W → Prop) s0 (p : prog W A) h :
  rg Ψ s0 p → (∀ o s, Ψ o s → rg Φ s (match o with Throw (StdException w) => h w | o => PDone o end)) →
  rg Φ s0 (pcatch_std p h).
Proof.
  intros Hp Hf. revert s0 Hp. induction p as [o|X m k IH]; intros s0 Hp.
  { specialize (Hf o s0 Hp). by destruct o as [a|[w|w]| |]. }
  intros s Hs HI. destruct (Hp s Hs HI) as (H1 & H2 & H3). split_and!; [done..|by apply IH].
Qed.

Lemma rg_catch_both {A} (Ψ Φ : outcome A → W → Prop) s0 (p : prog W A) h1 h2 :
  rg Ψ s0 p →
  (∀ o s, Ψ o s → rg Φ s (match o with
    | Throw (RuntimeException w) => h1 w | Throw (StdException w) => h2 w | o => PDone o end)) →
  rg Φ s0 (pcatch_both p h1 h2).
Proof.
  intros Hp Hf. revert s0 Hp. induction p as [o|X m k IH]; intros s0 Hp.
  { specialize (Hf o s0 Hp). by destruct o as [a|[w|w]| |]. }
  intros s Hs HI. destruct (Hp s Hs HI) as (H1 & H2 & H3). split_and!; [done..|by apply IH].
Qed.

Lemma rg_packaged (Φ : outcome unit → W → Prop) s0 (p : prog W unit) :
  rg (λ o s, Φ (match o with Throw _ => Ret tt | o => o end) s) s0 p → rg Φ s0 (packaged p).
Proof.
  revert s0. induction p as [o|X m k IH]; intros s0 Hp; [by destruct o|]. intros s Hs HI.
  destruct (Hp s Hs HI) as (H1 & H2 & H3). split_and!; [done..|by apply IH].
Qed.

Lemma rg_act {A} (Φ : outcome A → W → Prop) s0 (m : M W A) :
  respects m → (∀ s, R s0 s → I s → Φ (m s).1 (m s).2) → rg Φ s0 (act m).
Proof. intros Hm HΦ s Hs HI. destruct (Hm s HI) as [H1 H2]. split_and!; [done..|]. by apply HΦ. Qed.

(** A fact that everybody preserves still holds at the end. *)
Lemma rg_keeping {A} (K : W → Prop) (Φ : outcome A → W → Prop) s0 (p : prog W A) :
  (∀ s s', R s s' → K s → K s') → (∀ s s', G s s' → R s s') → K s0 → rg Φ s0 p → rg (λ o s, Φ o s ∧ K s) s0 p.
Proof.
  intros HK HGR. revert s0. induction p as [o|X m k IH]; intros s0 H0 Hp; [by split|]. intros s Hs HI.
  destruct (Hp s Hs HI) as (H1 & H2 & H3). split_and!; [done..|]. apply IH; [|done].
  eapply HK; [by apply HGR|]. by eapply HK.
Qed.

(** *** Code that returns *)

Lemma rg_ret_done {A} (Q : A → W → Prop) s0 o : (∀ a, o = Ret a → Q a s0) → rg (ret Q) s0 (PDone o).
Proof. intros HQ. destruct o; [by apply HQ|done..]. Qed.

Lemma rg_ret_bind {A B} (P : A → W → Prop) (Q : B → W → Prop) s0 (p : prog W A) (f : A → prog W B) :
  rg (ret P) s0 p → (∀ a s, P a s → rg (ret Q) s (f a)) → rg (ret Q) s0 (p ≫= f).
Proof. intros Hp Hf. eapply rg_bind; [exact Hp|]. intros [a|e| |] s Hs; [by apply Hf|done..]. Qed.

Lemma rg_ret_pure {A B} (Q : B → W → Prop) s0 (o : outcome A) (f : A → prog W B) :
  (∀ a, o = Ret a → rg (ret Q) s0 (f a)) → rg (ret Q) s0 (PDone o ≫= f).
Proof. intros Hf. destruct o; [by apply Hf|done..]. Qed.

(** The code after an action knows what the action returned. *)
Lemma rg_ret_act {A B} (Q : B → W → Prop) s0 (m : M W A) (f : A → prog W B) :
  respects m → (∀ s a s', R s0 s → I s → m s = (Ret a, s') → rg (ret Q) s' (f a)) → rg (ret Q) s0 (act m ≫= f).
Proof.
  intros Hm Hf. eapply (rg_ret_bind (λ a s', ∃ s, R s0 s ∧ I s ∧ m s = (Ret a, s'))).
  - apply rg_act; [done|]. intros s Hs HI. destruct (m s) as [[a|e| |] s'] eqn:Hms; cbn; [by exists s|done..].
  - intros a s' (s & Hs & HI & Hms). by eapply Hf.
Qed.

(** A fact that everybody preserves is still there after an action. *)
Lemma rg_ret_step {A B} (K : W → Prop) (Q : B → W → Prop) s0 (m : M W A) (f : A → prog W B) :
  respects m → K s0 → (∀ s s', R s s' → K s → K s') → (∀ s s', G s s' → R s s') →
  (∀ a s, K s → rg (ret Q) s (f a)) → rg (ret Q) s0 (act m ≫= f).
Proof.
  intros Hm HK Hst HGR Hf. apply rg_ret_act; [done|]. intros s a s' Hs HI Hms. apply Hf.
  destruct (Hm s HI) as [HG _]. rewrite Hms in HG. eapply Hst; [by apply HGR|]. by eapply Hst.
Qed.

Lemma rg_ret_catch_std {A} (Q : A → W → Prop) s0 (p : prog W A) h :
  rg (ret Q) s0 p → (∀ w s, rg (ret Q) s (h w)) → rg (ret Q) s0 (pcatch_std p h).
Proof. intros Hp Hh. eapply rg_catch_std; [exact Hp|]. intros [a|[w|w]| |] s Hs; [done|done|apply Hh|done|done]. Qed.
End rg.

(** A weaker rely, a stronger guarantee. *)
Lemma rg_weaken {W A} (R R' G G' : W → W → Prop) (I : W → Prop) (Φ : outcome A → W → Prop) s0 (p : prog W A) :
  (∀ s s', R' s s' → R s s') → (∀ s s', G s s' → G' s s') → rg R G I Φ s0 p → rg R' G' I Φ s0 p.
Proof.
  intros HR HG. revert s0. induction p as [o|X m k IH]; intros s0 Hp; [done|]. intros s Hs HI.
  destruct (Hp s (HR _ _ Hs) HI) as (H1 & H2 & H3). split_and!; [by apply HG|done|by apply IH].
Qed.

(** *** Code that is defined

    It returns or throws; it does not end the process, and it has undefined
    behaviour only in a state that satisfies [X].  Here everybody keeps to the same
    order and invariant. *)
Definition defined {W A} (X : W → Prop) (Q : A → W → Prop) (o : outcome A) (s : W) : Prop :=
  match o with Ret a => Q a s | Throw _ => True | Terminate => False | Undef => X s end.

Section defined.
Context {W : Type} (le : W → W → Prop) {ORDER : PreOrder le} (I X : W → Prop) (X_stays : ∀ s s', le s s' → X s → X s').

Abbreviation runs_defined := (rg le le I).

Lemma defined_bind {A B} (P : A → W → Prop) (Q : B → W → Prop) s0 (p : prog W A) (f : A → prog W B) :
  runs_defined (defined X P) s0 p → (∀ a s, P a s → runs_defined (defined X Q) s (f a)) → runs_defined (defined X Q) s0 (p ≫= f).
Proof using Type. intros Hp Hf. eapply rg_bind; [exact Hp|]. intros [a|e| |] s Hs; [by apply Hf|done..]. Qed.

Lemma defined_pure {A B} (Q : B → W → Prop) s0 (o : outcome A) (f : A → prog W B) :
  defined X (λ a _, runs_defined (defined X Q) s0 (f a)) o s0 → runs_defined (defined X Q) s0 (PDone o ≫= f).
Proof using Type. by destruct o. Qed.

Lemma defined_act {A} (Q : A → W → Prop) s0 (m : M W A) :
  guards le I m → (∀ s, le s0 s → I s → defined X Q (m s).1 (m s).2) → runs_defined (defined X Q) s0 (act m).
Proof using Type. apply rg_act. Qed.

(** An action that cannot fail, given a fact that stays. *)
Lemma defined_step {A B} (K : W → Prop) (P : A → Prop) (Q : B → W → Prop) s0 (m : M W A) (f : A → prog W B) :
  (∀ s s', le s s' → K s → K s') → guards le I m → K s0 →
  (∀ s, K s → I s → defined X (λ a _, P a) (m s).1 s) →
  (∀ a s, K s → P a → runs_defined (defined X Q) s (f a)) → runs_defined (defined X Q) s0 (act m ≫= f).
Proof using X_stays.
  intros HK Hm H0 HP Hf. apply (defined_bind (λ a s, K s ∧ P a)); [|intros a s [H1 H2]; by apply Hf].
  apply defined_act; [done|]. intros s Hs HI. assert (Hk : K s) by by eapply HK. destruct (Hm s HI) as [Hle _].
  pose proof (HP s Hk HI) as Hd. destruct (m s) as [[a|e| |] s']; cbn in *; [|done..|by eapply X_stays]. split; [by eapply HK|done].
Qed.

Lemma defined_catch_std {A} (K : W → Prop) (Q : A → W → Prop) s0 (p : prog W A) h :
  (∀ s s', le s s' → K s → K s') → K s0 → runs_defined (defined X Q) s0 p →
  (∀ w s, K s → runs_defined (defined X Q) s (h w)) → runs_defined (defined X Q) s0 (pcatch_std p h).
Proof using Type.
  intros HK H0 Hp Hh. eapply rg_catch_std; [by apply (rg_keeping _ _ _ K); [| | |exact Hp]|].
  intros [a|[w|w]| |] s [H1 H2]; [done|done|by apply Hh|done|done].
Qed.

Lemma defined_catch_both {A} (K : W → Prop) (Q : A → W → Prop) s0 (p : prog W A) h1 h2 :
  (∀ s s', le s s' → K s → K s') → K s0 → runs_defined (defined X Q) s0 p →
  (∀ w s, K s → runs_defined (defined X Q) s (h1 w)) → (∀ w s, K s → runs_defined (defined X Q) s (h2 w)) →
  runs_defined (defined X Q) s0 (pcatch_both p h1 h2).
Proof using Type.
  intros HK H0 Hp Hh1 Hh2. eapply rg_catch_both; [by apply (rg_keeping _ _ _ K); [| | |exact Hp]|].
  intros [a|[w|w]| |] s [H1 H2]; [done|by apply Hh1|by apply Hh2|done|done].
Qed.

(** The task of a thread returns, or has undefined behaviour of the kind. *)
Lemma defined_packaged s0 (p : prog W unit) :
  runs_defined (defined X (λ _ _, True)) s0 p → runs_defined (λ o s, o = Ret tt ∨ (o = Undef ∧ X s)) s0 (packaged p).
Proof using Type. intros Hp. apply rg_packaged. eapply rg_mono; [|exact Hp]. intros [[]|e| |] s Hs; cbn in *; auto. done. Qed.

Lemma rg_ends_in {A} (Φ : outcome A → W → Prop) s0 (p : prog W A) : runs_defined Φ s0 p → ends_in le I Φ s0 p.
Proof using Type.
  revert s0. induction p as [o|Y m k IH]; intros s0 Hp; [done|]. intros s Hs HI.
  destruct (Hp s Hs HI) as (H1 & H2 & H3). split_and!; [done..|by apply IH].
Qed.
End defined.

(** ** Threads *)

(** What the threads were started for. *)
Definition calls_of {W C} (k : tconf W C) : list C := (tc_threads k).*1.

(** When the starts differ in the end, each differed from those before. *)
Lemma starts_distinct {W C B} (code : C → prog W unit) (may_start : tconf W C → C → W → Prop) (f : C → B) k k' :
  star (pstep code may_start) k k' → NoDup (f <$> calls_of k') →
  star (pstep code (λ k c s, may_start k c s ∧ f c ∉ f <$> calls_of k)) k k'.
Proof.
  intros Hs. pattern k'. eapply (star_invariant (pstep code may_start)); [|exact Hs|intros _; apply star_refl].
  intros a b Ha Hab. destruct Hab as [k0 c s' Hc|ts s i c X m g o s' Hi Hm].
  - unfold calls_of. cbn. rewrite !fmap_app. cbn. intros [Hnd [Hnot _]]%NoDup_app.
    eapply star_trans; [by apply Ha|]. apply star_one, p_start. split; [done|]. intros Hin. by apply (Hnot _ Hin), list_elem_of_here.
  - intros Hnd. eapply star_trans; [apply Ha|by eapply star_one, p_act]. revert Hnd. unfold calls_of. cbn.
    rewrite list_fmap_insert. cbn. by rewrite list_insert_id; [|rewrite list_lookup_fmap, Hi].
Qed.

(** The promises of a thread depend on what it was started for.  Two threads are
    [apart] when what the first does is what the second relies on.  [J] relates
    what was started to the state. *)
Section threads.
Context {W C : Type} (code : C → prog W unit) (may_start : tconf W C → C → W → Prop).
Context (R G : C → W → W → Prop) {ORDER : ∀ c, PreOrder (R c)} (I : W → Prop) (J : list C → W → Prop).
Context (Φ : C → outcome unit → W → Prop) (apart : C → C → Prop).

Context (Φ_stable : ∀ c o s s', R c s s' → Φ c o s → Φ c o s').
Context (apart_rely : ∀ c c' s s', apart c c' → G c s s' → R c' s s').
Context (J_acts : ∀ cs c s s', c ∈ cs → G c s s' → J cs s → J cs s').

Context (start : ∀ k c s', may_start k c s' → I (tc_shared k) → J (calls_of k) (tc_shared k) →
  I s' ∧ J (calls_of k ++ [c]) s' ∧ rg (R c) (G c) I (Φ c) s' (code c) ∧
  Forall (λ c', apart c c' ∧ apart c' c ∧ R c' (tc_shared k) s') (calls_of k)).

Definition sound (k : tconf W C) : Prop :=
  I (tc_shared k) ∧ J (calls_of k) (tc_shared k) ∧
  Forall (λ t, rg (R t.1) (G t.1) I (Φ t.1) (tc_shared k) t.2) (tc_threads k) ∧
  ∀ i j c c', i ≠ j → calls_of k !! i = Some c → calls_of k !! j = Some c' → apart c c'.

Lemma sound_start k c s' : may_start k c s' → sound k → sound (MkThreads (tc_threads k ++ [(c, code c)]) s').
Proof using All.
  intros Hc (HI & HJ & Hts & Hap). destruct (start k c s' Hc HI HJ) as (H1 & H2 & H3 & H4).
  assert (Hcalls : calls_of (MkThreads (tc_threads k ++ [(c, code c)]) s') = calls_of k ++ [c]) by (unfold calls_of; cbn; by rewrite fmap_app).
  rewrite Forall_forall in H4. unfold sound. rewrite Hcalls. split_and!; [done|done| |].
  - cbn. apply Forall_app. split; [|by apply Forall_singleton]. rewrite Forall_forall in Hts |- *. intros t Ht.
    destruct (H4 t.1) as (_ & _ & HR); [by apply list_elem_of_fmap_2|]. eapply rg_rely; [apply _|apply Φ_stable|exact HR|by apply Hts].
  - intros i j ci cj Hij [Hi|[Hli Hi]]%lookup_app_Some [Hj|[Hlj Hj]]%lookup_app_Some.
    + by eapply Hap.
    + apply list_lookup_singleton_Some in Hj as [_ <-]. by apply H4, list_elem_of_lookup_2 with i.
    + apply list_lookup_singleton_Some in Hi as [_ <-]. by apply H4, list_elem_of_lookup_2 with j.
    + apply list_lookup_singleton_Some in Hi as [Hi _], Hj as [Hj _]. lia.
Qed.

Lemma sound_act ts s i c X (m : M W X) f o s' :
  ts !! i = Some (c, PAct m f) → m s = (o, s') → sound (MkThreads ts s) → sound (MkThreads (<[i := (c, f o)]> ts) s').
Proof using All.
  intros Hi Hm (HI & HJ & Hts & Hap). cbn in *.
  pose proof (Forall_lookup_1 _ _ _ _ Hts Hi) as Hk. cbn in Hk.
  assert (Hc : calls_of (MkThreads ts s) !! i = Some c) by (unfold calls_of; cbn; by rewrite list_lookup_fmap, Hi).
  assert (Hcalls : calls_of (MkThreads (<[i := (c, f o)]> ts) s') = calls_of (MkThreads ts s)).
  { unfold calls_of in *. cbn in *. rewrite list_fmap_insert. cbn. by rewrite list_insert_id. }
  destruct (Hk s ltac:(reflexivity) HI) as (H1 & H2 & H3). rewrite Hm in H1, H2, H3. cbn in H1, H2, H3.
  unfold sound. rewrite Hcalls. split_and!; [done| | |done].
  - eapply J_acts; [by eapply list_elem_of_lookup_2|exact H1|exact HJ].
  - cbn. apply Forall_lookup_2. intros j t Hj. destruct (decide (j = i)) as [->|Hne].
    + rewrite list_lookup_insert_eq in Hj by by eapply lookup_lt_Some. by injection Hj as <-.
    + rewrite list_lookup_insert_ne in Hj by done. pose proof (Forall_lookup_1 _ _ _ _ Hts Hj) as Ht.
      eapply rg_rely; [apply _|apply Φ_stable| |exact Ht]. eapply apart_rely; [|exact H1].
      eapply (Hap i j); [done|exact Hc|]. unfold calls_of. cbn. by rewrite list_lookup_fmap, Hj.
Qed.

(** All keep their promises, and end as they should. *)
Lemma interleaving_sound k k' : star (pstep code may_start) k k' → sound k → sound k'.
Proof using All.
  apply (star_invariant (pstep code may_start) sound). intros a b Ha Hab.
  destruct Hab as [k0 c s' Hc|ts s i c X m f o s' Hi Hm]; [by apply sound_start|by eapply sound_act].
Qed.
End threads.
