(* ===== verification/QueueProg.v ===== *)
(** * QueueProg: the queue handlers as sequences of atomic actions

    The handlers of [mq/mq-sync/src/sync-queue.cpp] once more, with their atomic
    actions explicit: each [unique_lock] block and each operation on a request
    is one action, and other threads run between any two of them.  The operations
    that write to the request of another connection ([SetTelemetry] in [Get] and
    [Post], [Reply] in [Post]) take no lock: each of them has a beginning and an
    end, and a second one that begins on a field of the same request that the
    first still works on is a data race, undefined behaviour.  [SetTelemetry]
    writes one field of the telemetry; [Reply] reads both, and its use of the
    handle overlaps only with another [Reply].  Run alone the programs are the
    handlers of [SyncQueue]; their invariants hold under every interleaving, over
    any implementation of [IRequest]. *)
From Stdlib Require Import Ascii String.
From stdpp Require Import options relations.
From S2P Require Import Prelude Interleave ZcString Numerals HttpReply Interfaces SyncQueue SyncQueueSpec.

#[local] Open Scope nat_scope.

(** ** The handlers *)
Section handlers.
Context {W R : Type} `{!IRequest W R, !StaleText}.

Abbreviation hprog := (prog (SyncQueue R * W)).

(** A block under the lock, and a call of a request. *)
Definition section {A} (m : M (SyncQueue R) A) : hprog A := act (on_fst m).
Definition request {A} (m : M W A) : hprog A := act (on_snd m).

(** A handler begins to work on fields of a stored request, which other handlers
    can find too; when one of them is being worked on already, that is a race,
    and a race undoes everything. *)
Definition start_writing (i : gset (Z * TeleOption)) : M (SyncQueue R) unit := λ s,
  match mq_writing s with
  | None => (Undef, s)
  | Some g => if decide (i ## g) then (Ret tt, with_writing (Some (i ∪ g)) s) else (Undef, with_writing None s)
  end.
Definition stop_writing (i : gset (Z * TeleOption)) (s : SyncQueue R) : SyncQueue R :=
  with_writing ((λ g, g ∖ i) <$> mq_writing s) s.

(** The operation, at the end of which the handler has written. *)
Definition then_stop {A : Type} (i : gset (Z * TeleOption)) (m : M (SyncQueue R * W) A) : M (SyncQueue R * W) A := λ sw,
  let '(o, sw') := m sw in (o, (stop_writing i sw'.1, sw'.2)).
Definition shared_request {A : Type} (i : gset (Z * TeleOption)) (m : M W A) : hprog A :=
  _ ← section (start_writing i); act (then_stop i (on_snd m)).

(** What [SetTelemetry] writes of the request stored as message [mid], and what
    [Reply] reads, next to the handle of the connection, which no other
    operation uses. *)
Definition time_of (mid : Z) (opt : TeleOption) : gset (Z * TeleOption) := {[(mid, opt)]}.
Definition times_of (mid : Z) : gset (Z * TeleOption) := {[(mid, EmplaceAt); (mid, ExtractAt)]}.

Definition pReplyWithCode_view (unknown : IUnknown R) (Code : Z) (Message : bytes) (Body : zcstring)
    (headers : list (cptr * cptr)) (ContentType : bytes) : hprog bool :=
  match unknown with
  | None => mret false
  | Some r =>
      counts ← section GetStats;
      request (request_Reply r Code (Some Message) (view_pointer Body) (zlength Body)
                 (headers ++ queue_fields counts ContentType) true)
  end.

(** [ReplyWithCode(xrequest, 200, "OK", ...)]: the answer to the request stored as
    message [xid]. *)
Definition pReplyProducer (xid : Z) (xrequest : R) (Body : zcstring) (headers : list (cptr * cptr)) (ContentType : bytes) :
    hprog bool :=
  counts ← section GetStats;
  shared_request (times_of xid) (request_Reply xrequest 200 (Some (str "OK")) (view_pointer Body) (zlength Body)
                        (headers ++ queue_fields counts ContentType) true).

Definition pReplyWithCode (unknown : IUnknown R) (Code : Z) (Message : bytes) (Body : bytes)
    (headers : list (cptr * cptr)) (ContentType : bytes) : hprog bool :=
  match unknown with
  | None => mret false
  | Some r =>
      counts ← section GetStats;
      request (request_Reply r Code (Some Message) (Some (Body ++ [NUL])) (Z.of_nat (length Body))
                 (headers ++ queue_fields counts ContentType) true)
  end.

Definition pGet (unknown : IUnknown R) : hprog unit :=
  match unknown with
  | None => PDone (Throw not_implemented)
  | Some _ =>
      x ← section get_section;
      match x with
      | Some (muid, xrequest) =>
          _ ← shared_request (time_of muid EmplaceAt) (SetTelemetry xrequest EmplaceAt);
          body ← request (GetContent xrequest);
          ct ← request (GetHeaderOption xrequest (str "Content-Type") (Some (str "application/json")));
          ct ← PDone (zstr ct);
          _ ← pReplyWithCode_view unknown 200 (str "OK") body [forward_field muid] ct;
          mret tt
      | None => _ ← pReplyWithCode unknown 204 (str "Queue is empty") [] [] []; mret tt
      end
  end.

Definition ppost_try (unknown : IUnknown R) (r : R) (x_mid : zcstring) : hprog unit :=
  xs ← PDone (zstr x_mid);
  xid ← PDone (stoul xs);
  client ← section (post_find_section xid);
  match client with
  | Some xrequest =>
      _ ← shared_request (time_of xid ExtractAt) (SetTelemetry xrequest ExtractAt);
      body ← request (GetContent r);
      mid ← request (GetMsgId r);
      ct ← request (GetHeaderOption r (str "Content-Type") (Some (str "application/json")));
      ct ← PDone (zstr ct);
      ok ← pReplyProducer xid xrequest body [forward_field mid] ct;
      if ok : bool then
        _ ← section (post_erase_section xid);
        _ ← pReplyWithCode unknown 200 (str "OK") [] [] [];
        mret tt
      else
        _ ← pReplyWithCode unknown 499 (str "Unable to sent client response") [] [] [];
        mret tt
  | None => _ ← pReplyWithCode unknown 300 (str "Multiple Replays. Reply Ignored.") [] [] []; mret tt
  end.

Definition pPost (unknown : IUnknown R) : hprog unit :=
  match unknown with
  | None => PDone (Throw not_implemented)
  | Some r =>
      x_mid ← request (GetHeaderOption r (str "X-MSG-FORWARD-UID") None);
      if zempty x_mid then
        _ ← pReplyWithCode unknown 400 (str "Bad Request. Header `X-MSG-FORWARD-UID` not found") [] [] [];
        mret tt
      else
        pcatch_std (ppost_try unknown r x_mid) (λ _,
          _ ← pReplyWithCode unknown 400 (str "Bad Request. Invalid `X-MSG-FORWARD-UID` header") [] [] [];
          mret tt)
  end.

Definition pPut (unknown : IUnknown R) : hprog unit :=
  match unknown with
  | None => PDone (Throw not_implemented)
  | Some r =>
      mid ← request (GetMsgId r);
      accepted ← section (put_section mid r);
      if accepted : bool then mret tt
      else
        s ← section get;
        _ ← pReplyWithCode unknown 507 (str "Insufficient Storage") []
              [(Live (str "X-MQ-QUEUE-LIMIT"), Live (to_string (LimitSize (mq_options s))))] [];
        mret tt
  end.

Definition pHead (unknown : IUnknown R) : hprog unit :=
  mid ← section head_section;
  _ ← (if decide (mid ≠ 0%Z) then
         pReplyWithCode unknown 200 (str "OK") [] [(Live (str "X-MSG-HEAD-UID"), Live (to_string mid))] []
       else pReplyWithCode unknown 204 (str "Queue is empty") [] [] []);
  mret tt.

Definition pOptions (unknown : IUnknown R) : hprog unit :=
  _ ← pReplyWithCode unknown 200 (str "OK") options_text [] (str "text/plain"); mret tt.

(** DELETE, TRACE, CONNECT and PATCH differ in two texts. *)
Definition prefused (unknown : IUnknown R) (Message methods : bytes) : hprog unit :=
  _ ← pReplyWithCode unknown 405 Message [] (allow_fields methods) []; mret tt.

Definition call_prog (c : mq_call R) : hprog unit :=
  match c with
  | CGet u => pGet u | CPost u => pPost u | CPut u => pPut u | CHead u => pHead u | COptions u => pOptions u
  | CDelete u => prefused u (str "Method DELETE Not Allowed") queue_methods
  | CTrace u => prefused u (str "Method TRACE Not Allowed") (str "PUT")
  | CConnect u => prefused u (str "Method CONNECT Not Allowed") queue_methods
  | CPatch u => prefused u (str "Method PATCH Not Allowed") queue_methods
  end.

(** *** Alone, they are the handlers *)

(** No handler is working on the request of another connection. *)
Definition quiet (sw : SyncQueue R * W) : Prop := mq_writing sw.1 = Some ∅.

Lemma section_quiet {A} (m : M (SyncQueue R) A) : (∀ s, mq_writing (m s).2 = mq_writing s) → preserves quiet (on_fst m).
Proof. intros Hm [s w] Hs. unfold on_fst, quiet in *. cbn in *. specialize (Hm s). destruct (m s). cbn in *. congruence. Qed.
Lemma request_quiet {A} (m : M W A) : preserves quiet (on_snd m).
Proof. intros [s w] Hs. unfold on_snd. cbn. by destruct (m w). Qed.

Lemma get_section_writing s : mq_writing (get_section (R := R) s).2 = mq_writing s.
Proof. destruct (get_section_cases s) as [[_ ->]|(j & q & _ & ->)]; [done|]. cbn. by destruct (mq_messages s !! j). Qed.
Lemma put_section_writing mid r s : mq_writing (put_section (R := R) mid r s).2 = mq_writing s.
Proof. destruct (put_section_cases mid r s) as [(_ & _ & ->)|[_ ->]]; [done|]. cbn. repeat case_match; done. Qed.

Lemma get_section_quiet : preserves quiet (on_fst (get_section (R := R))).
Proof. apply section_quiet, get_section_writing. Qed.
Lemma put_section_quiet mid r : preserves quiet (on_fst (put_section (R := R) mid r)).
Proof. apply section_quiet, put_section_writing. Qed.
Lemma gets_quiet {A} (f : SyncQueue R → A) : preserves quiet (on_fst (gets f)).
Proof. by apply section_quiet. Qed.
Lemma get_quiet : preserves quiet (on_fst get).
Proof. by apply section_quiet. Qed.
Lemma erase_quiet xid : preserves quiet (on_fst (post_erase_section (R := R) xid)).
Proof. by apply section_quiet. Qed.
#[local] Hint Resolve request_quiet get_section_quiet put_section_quiet gets_quiet get_quiet erase_quiet : fiber.

Lemma shared_request_runs {A} i (m : M W A) : runs quiet (shared_request i m) (on_snd m).
Proof.
  intros [s w] Hs. unfold quiet in Hs. cbn in Hs. split; [|by apply request_quiet].
  unfold shared_request. rewrite run_bind. unfold section, mbind, M_bind. rewrite run_act. unfold on_fst, start_writing. cbn.
  rewrite Hs, decide_True by apply disjoint_empty_r. cbn. rewrite ?run_act. unfold then_stop, on_snd. cbn. destruct (m w) as [o w'].
  unfold stop_writing. cbn. rewrite (right_id_L ∅ (∪)), difference_diag_L.
  destruct s. cbn in *. by subst.
Qed.

Ltac run_parts known :=
  unfold section, request, GetStats, post_find_section, head_section;
  repeat first
    [ known tt | apply shared_request_runs | apply runs_act; solve [auto with fiber] | apply runs_ret | apply runs_throw | apply runs_done
    | apply runs_bind; [|intros ?]
    | apply runs_catch_std; [|intros ?]
    | apply runs_if | apply runs_decide
    | split_match ].

Lemma pReplyWithCode_view_runs u code msg body hs ct :
  runs quiet (pReplyWithCode_view u code msg body hs ct) (ReplyWithCode_view u code msg body hs ct).
Proof. unfold pReplyWithCode_view, ReplyWithCode_view. destruct u; run_parts ltac:(fun _ => fail). Qed.
Lemma pReplyWithCode_runs u code msg body hs ct :
  runs quiet (pReplyWithCode u code msg body hs ct) (ReplyWithCode u code msg body hs ct).
Proof. unfold pReplyWithCode, ReplyWithCode. destruct u; run_parts ltac:(fun _ => fail). Qed.

Lemma pReplyProducer_runs xid x body hs ct :
  runs quiet (pReplyProducer xid x body hs ct) (ReplyWithCode_view (Some x) 200 (str "OK") body hs ct).
Proof. unfold pReplyProducer, ReplyWithCode_view. run_parts ltac:(fun _ => fail). Qed.

Ltac run_handler := run_parts ltac:(fun _ => first
  [apply pReplyWithCode_view_runs | apply pReplyWithCode_runs | apply pReplyProducer_runs]).

(** From a state where no handler is at work on a request. *)
Lemma call_prog_run_call (c : mq_call R) : runs quiet (call_prog c) (run_call c).
Proof.
  destruct c as [u|u|u|u|u|u|u|u|u]; cbn [call_prog run_call mq_Get mq_Post mq_Put mq_Head mq_Options mq_Delete mq_Trace
    mq_Connect mq_Patch SyncQueue_IMQ].
  - unfold pGet, Get. destruct u; run_handler.
  - unfold pPost, Post, ppost_try, post_try. destruct u; run_handler.
  - unfold pPut, Put. destruct u; run_handler.
  - unfold pHead, Head. run_handler.
  - unfold pOptions, Options. run_handler.
  - unfold prefused, Delete. run_handler.
  - unfold prefused, Trace. run_handler.
  - unfold prefused, Connect. run_handler.
  - unfold prefused, Patch. run_handler.
Qed.

End handlers.

(** ** Invariants under every interleaving *)
Section invariants.
Context {W R : Type} `{!IRequest W R, LAWS : !IRequestLaws W R, !StaleText}.

(** Requests keep the identifiers they have. *)
Definition rids_kept (sw sw' : SyncQueue R * W) : Prop := ∀ r i, rid r sw.2 = Some i → rid r sw'.2 = Some i.
#[export] Instance rids_kept_preorder : PreOrder rids_kept.
Proof. split; [by intros sw r i|]. intros a b c H1 H2 r i Hr. by apply H2, H1. Qed.

(** A property of the queue that mentions the identifiers of requests. *)
Context (P : SyncQueue R → (R → option Z) → Prop).
Context (P_ext : ∀ s f g, (∀ r i, f r = Some i → g r = Some i) → P s f → P s g).
Context (P_get : ∀ s f, P s f → P (get_section s).2 f).
Context (P_erase : ∀ xid s f, P s f → P (post_erase_section xid s).2 f).
Context (P_put : ∀ mid r s f, f r = Some mid → P s f → P (put_section mid r s).2 f).
Context (P_writing : ∀ g s f, P s f → P (with_writing g s) f).

Abbreviation inv := (state_ok P).
Abbreviation safe := (keeps_inv rids_kept inv).

Lemma request_guards {A} (m : M W A) : (∀ w r, rid r (m w).2 = rid r w) → guards rids_kept inv (on_snd m).
Proof using P_ext.
  intros Hm [s w] Hs. unfold on_snd, state_ok, rids_kept in *. cbn in *. specialize (Hm w). destruct (m w) as [o w']. cbn in *.
  split; [intros r i; by rewrite Hm|]. eapply P_ext; [|exact Hs]. intros r i. by rewrite Hm.
Qed.

Lemma section_guards {A} (m : M (SyncQueue R) A) : (∀ s f, P s f → P (m s).2 f) → guards rids_kept inv (on_fst m).
Proof.
  intros Hm [s w] Hs. unfold on_fst, state_ok, rids_kept in *. cbn in *. specialize (Hm s _ Hs).
  destruct (m s) as [o s']. by cbn in *.
Qed.

Lemma reads_guards {A} (f : SyncQueue R → A) : guards rids_kept inv (on_fst (gets f)).
Proof. by apply section_guards. Qed.
Lemma get_guards : guards rids_kept inv (on_fst get).
Proof. by apply section_guards. Qed.
Lemma get_section_guards : guards rids_kept inv (on_fst get_section).
Proof using P_get. by apply section_guards. Qed.
Lemma erase_guards xid : guards rids_kept inv (on_fst (post_erase_section xid)).
Proof using P_erase. apply section_guards, P_erase. Qed.
Lemma GetMsgId_guards r : guards rids_kept inv (on_snd (GetMsgId r)).
Proof using P_ext. apply request_guards. intros w r'. by rewrite GetMsgId_rid. Qed.
Lemma GetHeaderOption_guards r o d : guards rids_kept inv (on_snd (GetHeaderOption r o d)).
Proof using P_ext. apply request_guards. intros. apply GetHeaderOption_stable. Qed.
Lemma GetContent_guards r : guards rids_kept inv (on_snd (GetContent r)).
Proof using P_ext. apply request_guards. intros. apply GetContent_stable. Qed.
Lemma SetTelemetry_guards r o : guards rids_kept inv (on_snd (SetTelemetry r o)).
Proof using P_ext. apply request_guards. intros. apply SetTelemetry_stable. Qed.
Lemma Reply_guards r code msg content len hs close :
  guards rids_kept inv (on_snd (request_Reply r code msg content len hs close)).
Proof using P_ext. apply request_guards. intros. apply Reply_stable. Qed.
Lemma start_guards i : guards rids_kept inv (on_fst (start_writing i)).
Proof using P_writing.
  apply section_guards. intros s f Hs. unfold start_writing. destruct (mq_writing s); [case_decide|]; cbn; by try apply P_writing.
Qed.
Lemma stop_guards {A} i (m : M (SyncQueue R * W) A) : guards rids_kept inv m → guards rids_kept inv (then_stop i m).
Proof using P_writing.
  intros Hm sw Hs. destruct (Hm sw Hs) as [H1 H2]. unfold then_stop. destruct (m sw) as [o [s w]]. cbn in *.
  split; [exact H1|]. by apply P_writing.
Qed.
#[local] Hint Resolve reads_guards get_guards get_section_guards erase_guards GetMsgId_guards GetHeaderOption_guards
  GetContent_guards SetTelemetry_guards Reply_guards start_guards stop_guards : fiber.

Ltac safe_walk :=
  unfold section, request, shared_request, section, GetStats, post_find_section, head_section;
  repeat first
    [ progress auto with fiber
    | apply keeps_inv_act
    | apply keeps_inv_bind; [typeclasses eauto| |intros]
    | apply keeps_inv_catch_std; [typeclasses eauto| |intros]
    | split_match ].

Lemma pReplyWithCode_safe sw u code msg body hs ct : safe sw (pReplyWithCode u code msg body hs ct).
Proof using P_ext. unfold pReplyWithCode. destruct u; safe_walk. Qed.
Lemma pReplyWithCode_view_safe sw u code msg body hs ct : safe sw (pReplyWithCode_view u code msg body hs ct).
Proof using P_ext. unfold pReplyWithCode_view. destruct u; safe_walk. Qed.
Lemma pReplyProducer_safe sw xid x body hs ct : safe sw (pReplyProducer xid x body hs ct).
Proof using P_ext P_writing. unfold pReplyProducer. safe_walk. Qed.
#[local] Hint Resolve pReplyWithCode_safe pReplyWithCode_view_safe pReplyProducer_safe : fiber.

(** PUT remembers the identifier it asked for. *)
Lemma pPut_safe sw u : safe sw (pPut u).
Proof using P_ext P_put LAWS.
  destruct u as [r|]; [|done]. unfold pPut, request. apply keeps_inv_act_bind; [auto with fiber|].
  intros sw1 mid sw2 _ _ Hid _ _. unfold on_snd in Hid. rewrite GetMsgId_rid in Hid.
  destruct (rid r sw1.2) as [i|] eqn:Hi; cbn in Hid; [|done]. injection Hid as <- <-.
  apply keeps_inv_bind; [typeclasses eauto| |intros; safe_walk]. intros [s w] Hle Hs. cbn in *.
  assert (Hr : rid r w = Some i) by by apply (Hle r i).
  pose proof (P_put i r s (λ r, rid r w) Hr Hs) as Hp. unfold on_fst. cbn. destruct (put_section i r s) as [o s'].
  split; [by intros r' j|]. split; [exact Hp|done].
Qed.

Lemma call_prog_safe sw (c : mq_call R) : safe sw (call_prog c).
Proof using P_ext P_get P_erase P_put P_writing LAWS.
  destruct c as [u|u|u|u|u|u|u|u|u]; cbn [call_prog]; [| |apply pPut_safe|..];
    unfold pGet, pPost, ppost_try, pHead, pOptions, prefused; safe_walk.
Qed.

(** A call may start whenever the queue is as it was and requests that exist
    keep their identifiers; new ones may have come. *)
Definition requests_grow (k : tconf (SyncQueue R * W) (mq_call R)) (_ : mq_call R) (sw : SyncQueue R * W) : Prop :=
  sw.1 = (tc_shared k).1 ∧ rids_kept (tc_shared k) sw.

Lemma calls_interleaved k k' :
  star (pstep call_prog requests_grow) k k' → tc_threads k = [] → inv (tc_shared k) → inv (tc_shared k').
Proof using P_ext P_get P_erase P_put P_writing LAWS.
  intros Hs Hnil HI. apply (interleaving_invariant call_prog requests_grow rids_kept inv) in Hs as (_ & Hinv & _); [done| |done|by rewrite Hnil].
  intros k1 c [s w] [Hq Hr] Hk1. cbn in *. subst s. split; [exact Hr|]. split; [|apply call_prog_safe].
  unfold state_ok in *. cbn. eapply P_ext; [|exact Hk1]. exact Hr.
Qed.
End invariants.

(** What requests promise to concurrent handlers: their operations keep an
    invariant [J] and move along an order [leW]. *)
Class IRequestGuards {W R : Type} `{!IRequest W R} (leW : W → W → Prop) (J : W → Prop) := {
  GetMsgId_guarded : ∀ r, guards leW J (GetMsgId r);
  GetHeaderOption_guarded : ∀ r o d, guards leW J (GetHeaderOption r o d);
  GetContent_guarded : ∀ r, guards leW J (GetContent r);
  request_Reply_guarded : ∀ r code msg content len hs close, guards leW J (request_Reply r code msg content len hs close);
  SetTelemetry_guarded : ∀ r o, guards leW J (SetTelemetry r o)
}.
#[export] Hint Resolve GetMsgId_guarded GetHeaderOption_guarded GetContent_guarded request_Reply_guarded
  SetTelemetry_guarded : fiber.

Lemma guards_on_snd {Q W A} (leW : W → W → Prop) (J : W → Prop) (m : M W A) :
  guards leW J m → guards (λ a b : Q * W, leW a.2 b.2) (λ a, J a.2) (on_snd m).
Proof. intros Hm [q w] Hw. specialize (Hm w Hw). unfold on_snd. cbn in *. by destruct (m w). Qed.

Section requests.
Context {W R : Type} `{!IRequest W R, !StaleText} (leW : W → W → Prop) `{!PreOrder leW} (J : W → Prop) `{!IRequestGuards leW J}.

Abbreviation le := (λ a b : SyncQueue R * W, leW a.2 b.2).
Abbreviation inv := (λ a : SyncQueue R * W, J a.2).

#[export] Instance snd_preorder {Q} : PreOrder (λ a b : Q * W, leW a.2 b.2).
Proof using PreOrder0. split; [by intros a|]. intros a b c H1 H2. by etrans. Qed.

Lemma section_untouched {A} (m : M (SyncQueue R) A) : guards le inv (on_fst m).
Proof using PreOrder0. intros [s w] Hw. unfold on_fst. cbn in *. by destruct (m s). Qed.
Lemma stop_untouched {A} i (m : M (SyncQueue R * W) A) : guards le inv m → guards le inv (then_stop i m).
Proof. intros Hm sw Hs. specialize (Hm sw Hs). unfold then_stop. by destruct (m sw) as [o [s w]]. Qed.
#[local] Hint Resolve section_untouched guards_on_snd stop_untouched : fiber.

(** The handlers promise the same for all they do. *)
Lemma call_prog_guarded sw (c : mq_call R) : keeps_inv le inv sw (call_prog c).
Proof using PreOrder0 IRequestGuards0.
  destruct c as [u|u|u|u|u|u|u|u|u]; cbn [call_prog];
    unfold pGet, pPost, ppost_try, pPut, pHead, pOptions, prefused, pReplyWithCode, pReplyWithCode_view, pReplyProducer,
      shared_request, section, request;
    repeat first
      [ progress auto with fiber
      | apply keeps_inv_act
      | apply keeps_inv_bind; [typeclasses eauto| |intros]
      | apply keeps_inv_catch_std; [typeclasses eauto| |intros]
      | split_match ].
Qed.
End requests.

Section calls.
Context {W R : Type} `{!IRequest W R, LAWS : !IRequestLaws W R, !StaleText}.

(** C9: whatever handlers run at once, whatever their requests do and whenever
    they start, under every interleaving of their critical sections and request
    calls each stored request is under its own identifier, which is queued or
    locked, and the queue does not outgrow its limit. *)
Theorem queue_safe_interleaved (l : mq_limits) (k k' : tconf (SyncQueue R * W) (mq_call R)) :
  star (pstep call_prog requests_grow) k k' → tc_threads k = [] →
  stored_ok (tc_shared k).1 (λ r, rid r (tc_shared k).2) → within_limit l (tc_shared k).1 →
  stored_ok (tc_shared k').1 (λ r, rid r (tc_shared k').2) ∧ within_limit l (tc_shared k').1.
Proof.
  intros Hs Hnil Hok Hlim. split.
  - apply (calls_interleaved stored_ok) with k; [|apply stored_ok_get|apply stored_ok_erase|apply stored_ok_put|by intros g s f []|done..].
    intros s f g Hfg [H1 H2]. split; [|done]. intros i r Hi. by apply Hfg, H1.
  - apply (calls_interleaved (λ s _, within_limit l s)) with k; [done| | |  |by intros g s _|done..].
    + intros s _. apply within_limit_get. + done. + intros mid r s _ _. apply within_limit_put.
Qed.

End calls.

(** ** A race stays

    After a race nothing that the program does is defined, so that the record
    of one is never taken back. *)
Definition races_kept {W R : Type} (a b : SyncQueue R * W) : Prop := mq_writing a.1 = None → mq_writing b.1 = None.
#[export] Instance races_kept_preorder {W R} : PreOrder (races_kept (W := W) (R := R)).
Proof. split; unfold races_kept; [by intros a|]. intros a b c. auto. Qed.

Section races.
Context {W R : Type} `{!IRequest W R, !StaleText}.

Abbreviation ok := (guards races_kept (λ _ : SyncQueue R * W, True)).

Lemma section_races {A} (m : M (SyncQueue R) A) : (∀ s, mq_writing (m s).2 = mq_writing s) → ok (on_fst m).
Proof.
  intros Hm [s w] _. split; [|exact I]. unfold on_fst, races_kept in *. cbn in *. specialize (Hm s). destruct (m s). cbn in *. congruence.
Qed.
Lemma request_races {A} (m : M W A) : ok (on_snd m).
Proof. intros [s w] _. split; [|exact I]. unfold on_snd, races_kept. cbn. by destruct (m w). Qed.
Lemma get_section_races : ok (on_fst get_section).
Proof. apply section_races, get_section_writing. Qed.
Lemma put_section_races mid r : ok (on_fst (put_section mid r)).
Proof. apply section_races, put_section_writing. Qed.
Lemma gets_races {A} (f : SyncQueue R → A) : ok (on_fst (gets f)).
Proof. by apply section_races. Qed.
Lemma get_races : ok (on_fst get).
Proof. by apply section_races. Qed.
Lemma erase_races xid : ok (on_fst (post_erase_section xid)).
Proof. by apply section_races. Qed.
Lemma start_races i : ok (on_fst (start_writing i)).
Proof.
  intros [s w] _. split; [|exact I]. unfold on_fst, start_writing, races_kept. cbn. destruct (mq_writing s) eqn:Hs; [|by cbn; rewrite Hs].
  done.
Qed.
Lemma stop_races {A} i (m : M (SyncQueue R * W) A) : ok m → ok (then_stop i m).
Proof.
  intros Hm sw Hs. destruct (Hm sw Hs) as [H1 _]. unfold then_stop, races_kept in *. destruct (m sw) as [o [s w]]. cbn in *.
  split; [|exact I]. intros Hn. by rewrite (H1 Hn).
Qed.
#[local] Hint Resolve request_races get_section_races put_section_races gets_races get_races erase_races start_races stop_races : fiber.

Lemma call_prog_races sw (c : mq_call R) : keeps_inv races_kept (λ _, True) sw (call_prog c).
Proof.
  destruct c as [u|u|u|u|u|u|u|u|u]; cbn [call_prog];
    unfold pGet, pPost, ppost_try, pPut, pHead, pOptions, prefused, pReplyWithCode, pReplyWithCode_view, pReplyProducer,
      shared_request, section, request, GetStats, post_find_section, head_section;
    repeat first
      [ progress auto with fiber
      | apply keeps_inv_act
      | apply keeps_inv_bind; [typeclasses eauto| |intros]
      | apply keeps_inv_catch_std; [typeclasses eauto| |intros]
      | split_match ].
Qed.

(** Calls that start in the state that they find. *)
Lemma races_last (may_start : tconf (SyncQueue R * W) (mq_call R) → mq_call R → SyncQueue R * W → Prop) sw k k' :
  (∀ k c sw, may_start k c sw → races_kept (tc_shared k) sw) →
  star (pstep call_prog may_start) (MkThreads [] sw) k → star (pstep call_prog may_start) k k' →
  mq_writing (tc_shared k).1 = None → mq_writing (tc_shared k').1 = None.
Proof.
  intros Hstart H1 H2.
  assert (Hcode : ∀ k c sw, may_start k c sw → True →
    races_kept (tc_shared k) sw ∧ True ∧ keeps_inv races_kept (λ _, True) sw (call_prog c)).
  { intros k1 c sw1 Hc _. split_and!; [by eapply Hstart|done|apply call_prog_races]. }
  apply (interleaving_invariant call_prog may_start races_kept (λ _, True)) in H1 as (_ & _ & Hts); [|exact Hcode|done|by apply Forall_nil_2].
  by apply (interleaving_invariant call_prog may_start races_kept (λ _, True)) in H2 as (H3 & _ & _).
Qed.
End races.

(** ** The handlers end *)
Section ends.
Context {W R : Type} `{!IRequest W R, !StaleText}.

Lemma pReplyWithCode_within n u code msg body hs ct (f : bool → prog (SyncQueue R * W) unit) :
  (∀ b, within n (f b)) → within (S (S n)) (pReplyWithCode u code msg body hs ct ≫= f).
Proof.
  intros Hf. apply (within_bind 2 n); [|exact Hf]. destruct u; [|exact I]. apply within_step. intros ?. apply within_act.
Qed.
Lemma pReplyWithCode_view_within n u code msg body hs ct (f : bool → prog (SyncQueue R * W) unit) :
  (∀ b, within n (f b)) → within (S (S n)) (pReplyWithCode_view u code msg body hs ct ≫= f).
Proof.
  intros Hf. apply (within_bind 2 n); [|exact Hf]. destruct u; [|exact I]. apply within_step. intros ?. apply within_act.
Qed.

Lemma pReplyProducer_within n xid x body hs ct (f : bool → prog (SyncQueue R * W) unit) :
  (∀ b, within n (f b)) → within (S (S (S n))) (pReplyProducer xid x body hs ct ≫= f).
Proof.
  intros Hf. apply (within_bind 3 n); [|exact Hf]. apply within_step. intros ?. apply within_step. intros ?. apply within_act.
Qed.
Lemma shared_request_within {A} n i (m : M W A) (f : A → prog (SyncQueue R * W) unit) :
  (∀ a, within n (f a)) → within (S (S n)) (shared_request i m ≫= f).
Proof. intros Hf. apply (within_bind 2 n); [|exact Hf]. apply within_step. intros ?. apply within_act. Qed.

Ltac count :=
  repeat lazymatch goal with
  | |- within _ (PDone _ ≫= _) => apply within_pure; intros ?
  | |- within _ (act _ ≫= _) => apply within_step; intros ?
  | |- within _ (shared_request _ _ ≫= _) => apply shared_request_within; intros ?
  | |- within _ (pReplyProducer _ _ _ _ _ ≫= _) => apply pReplyProducer_within; intros ?
  | |- within _ (pReplyWithCode _ _ _ _ _ _ ≫= _) => apply pReplyWithCode_within; intros ?
  | |- within _ (pReplyWithCode_view _ _ _ _ _ _ ≫= _) => apply pReplyWithCode_view_within; intros ?
  | |- within _ (match ?x with _ => _ end) => destruct x
  | |- within _ (match ?x with _ => _ end ≫= _) => destruct x
  | |- within _ _ => exact I
  end.

Lemma ppost_try_within u r z : within 12 (ppost_try u r z).
Proof. unfold ppost_try, section, request. count. Qed.

(** A POST takes at most 15 actions, the others fewer. *)
Lemma call_prog_within (c : mq_call R) : within 15 (call_prog c).
Proof.
  destruct c as [u|u|u|u|u|u|u|u|u]; cbn [call_prog]; unfold pGet, pPost, pPut, pHead, pOptions, prefused, section, request.
  2: { destruct u; [|exact I]. apply within_step. intros z. destruct (zempty z); [count|].
       apply (within_catch_std 12 2); [apply ppost_try_within|]. intros ?. count. }
  all: count.
Qed.

(** Handlers end: whatever calls have started and wherever they are, their
    threads take at most 15 more actions each however they interleave, and until
    all have ended one of them can go on, so that no thread waits for another. *)
Lemma calls_terminate (may_start : tconf (SyncQueue R * W) (mq_call R) → mq_call R → SyncQueue R * W → Prop)
    (sw : SyncQueue R * W) (k k' : tconf (SyncQueue R * W) (mq_call R)) (n : nat) :
  star (pstep call_prog may_start) (MkThreads [] sw) k →
  nsteps (acts call_prog may_start) n k k' →
  n ≤ 15 * length (tc_threads k) ∧
  (Forall (λ t, has_ended t.2 = true) (tc_threads k') ∨ ∃ k'', acts call_prog may_start k' k'').
Proof.
  intros Hs Hn. split; [|apply threads_progress]. eapply threads_end; [|exact Hn].
  eapply reachable_within; [apply call_prog_within|exact Hs|apply Forall_nil_2].
Qed.
End ends.
