(* ===== verification/BrokerConc.v ===== *)
(** * BrokerConc: concurrent handlers are an atomic broker

    The handlers of [mq/mq-sync/src/sync-queue.cpp] run on many workers and
    release the lock between their blocks, so that a call is spread over time.
    Over requests whose operations succeed ([IReliable]) the calls are
    linearizable all the same: each one seems to happen at one moment between its
    start and its end, when it does what the broker of [Broker] does and
    answers what the broker answers.

    The moment of GET, PUT and HEAD is their block under the lock; that of a
    POST is its first block, from which on its job counts as finished although
    the second block takes it out of the tables later ([Holding]).

    This holds for calls that start properly and until two handlers work on the
    same field of one request at once, which is undefined behaviour; two POSTs
    for one job can always come to that ([two_posts_race]). *)
From Stdlib Require Import Ascii String.
From stdpp Require Import options relations.
From S2P Require Import Prelude Interleave ZcString Numerals HttpReply Interfaces SyncQueue SyncQueueSpec QueueProg Broker.

#[local] Open Scope nat_scope.
#[local] Arguments str : simpl never.

Section conc.
Context {W R : Type} `{!IRequest W R, !IReliable W R, !StaleText}.

Abbreviation answer := (R * Z * bytes)%type.
Abbreviation calls := (tconf (SyncQueue R * W) (mq_call R)).

(** ** Calls *)

(** The identifier a PUT brings, and the one a POST names. *)
Definition put_id (c : mq_call R) : option Z := match c with CPut (Some p) => Some (req_id p) | _ => None end.
Definition post_id (c : mq_call R) : option Z :=
  match c with
  | CPost (Some p) => match stoul (req_forward p) with Ret xid => Some xid | _ => None end
  | _ => None
  end.

Definition has_request (c : mq_call R) : bool :=
  match c with
  | CGet u | CPost u | CPut u | CHead u | COptions u | CDelete u | CTrace u | CConnect u | CPatch u =>
      bool_decide (is_Some u)
  end.

(** When a call may start: a PUT brings an identifier that no other call has
    named; a POST names a job that does not wait in the queue, is not just
    being put there and has not been named by a POST before. *)
Definition proper_start (k : calls) (c : mq_call R) (sw : SyncQueue R * W) : Prop :=
  sw = tc_shared k ∧ has_request c = true ∧
  (∀ i, put_id c = Some i → (i ∉ mq_queue (tc_shared k).1) ∧ mq_messages (tc_shared k).1 !! i = None ∧
    Forall (λ t, put_id t.1 ≠ Some i ∧ post_id t.1 ≠ Some i) (tc_threads k)) ∧
  (∀ i, post_id c = Some i → (i ∉ mq_queue (tc_shared k).1) ∧
    Forall (λ t, post_id t.1 ≠ Some i ∧ (put_id t.1 = Some i → has_ended t.2 = true)) (tc_threads k)).

(** What the broker answers to each of a sequence of calls. *)
Fixpoint broker_trace (l : mq_limits) (cs : list (mq_call R)) (b : broker R) : list (list answer) :=
  match cs with
  | [] => []
  | c :: cs => (broker_call l c b).2 :: broker_trace l cs (broker_call l c b).1
  end.

(** The calls of the threads [lin], and the answers of thread [i] in a journal
    that names the thread of each answer. *)
Definition calls_at (ts : list (mq_call R * prog (SyncQueue R * W) unit)) (lin : list nat) : list (mq_call R) :=
  omap (λ i, fst <$> ts !! i) lin.
Definition answers_of (i : nat) (log : list (nat * answer)) : list answer := (filter (λ e, e.1 = i) log).*2.

(** [lin] is an order in which the calls may have happened one after the other:
    it has every call that has ended, every call in it has given the first of
    the answers that the broker gives it there, all of them when it has ended,
    and no other call has given any; when all have ended the queue is the
    broker's. *)
Definition linearization (l : mq_limits) (b0 : broker R) (w0 : W) (k : calls) (lin : list nat) (log : list (nat * answer)) : Prop :=
  NoDup lin ∧ (∀ i, i ∈ lin → i < length (tc_threads k)) ∧
  (∀ i t, tc_threads k !! i = Some t → has_ended t.2 = true → i ∈ lin) ∧
  answers (tc_shared k).2 = answers w0 ++ log.*2 ∧
  (∀ i, i ∉ lin → answers_of i log = []) ∧
  (∀ n i t, lin !! n = Some i → tc_threads k !! i = Some t →
     ∃ ans, broker_trace l (calls_at (tc_threads k) lin) b0 !! n = Some ans ∧
       answers_of i log `prefix_of` ans ∧ (has_ended t.2 = true → answers_of i log = ans)) ∧
  (Forall (λ t, has_ended t.2 = true) (tc_threads k) →
     refines l (broker_calls l (calls_at (tc_threads k) lin) b0).1 (tc_shared k).1).

(** ** What a thread does *)

(** Where a call is: before its moment; after it, with answers left to send;
    and between the blocks of a POST, with its job still in the tables. *)
Inductive phase :=
  | Before
  | Holding (xid : Z) (r : R) (rest : list answer)
  | Replying (rest : list answer).

Definition remaining (ph : phase) : list answer :=
  match ph with Before => [] | Holding _ _ rest | Replying rest => rest end.

(** The queue implements the broker, where the jobs [h] of the POSTs that have
    not come to their second block are still in progress. *)
Definition refines_held (l : mq_limits) (b : broker R) (h : gmap Z R) (s : SyncQueue R) : Prop :=
  refines l (MkBroker (waiting b) (in_progress b ∪ h)) s ∧ in_progress b ##ₘ h.

(** One action: what it does to the broker and the held jobs, and what it sends. *)
Inductive moves (l : mq_limits) (c : mq_call R) :
    phase → broker R → gmap Z R → list answer → phase → broker R → gmap Z R → Prop :=
  | move_stay ph b h : moves l c ph b h [] ph b h
  | move_decide b h a rest b' : broker_call l c b = (b', a ++ rest) → moves l c Before b h a (Replying rest) b' h
  | move_claim b h xid r rest :
      post_id c = Some xid → in_progress b !! xid = Some r →
      broker_call l c b = (MkBroker (waiting b) (delete xid (in_progress b)), rest) →
      moves l c Before b h [] (Holding xid r rest) (MkBroker (waiting b) (delete xid (in_progress b))) (<[xid := r]> h)
  | move_reply_holding b h xid r a rest : moves l c (Holding xid r (a ++ rest)) b h a (Holding xid r rest) b h
  | move_release b h xid r rest : moves l c (Holding xid r rest) b h [] (Replying rest) b (delete xid h)
  | move_reply b h a rest : moves l c (Replying (a ++ rest)) b h a (Replying rest) b h.

Definition own (ph : phase) (h : gmap Z R) : Prop :=
  match ph with Holding xid r _ => h !! xid = Some r | _ => True end.

Definition ready (c : mq_call R) (b : broker R) (h : gmap Z R) : Prop :=
  well_used c (MkBroker (waiting b) (in_progress b ∪ h)) ∧ ∀ xid, post_id c = Some xid → h !! xid = None.

(** The code of call [c] from phase [ph] on makes such moves only, whatever the
    other threads do in between, and returns, unless a race is recorded. *)
Fixpoint follows (l : mq_limits) (c : mq_call R) (ph : phase) (p : prog (SyncQueue R * W) unit) : Prop :=
  match p with
  | PDone o => o = Ret tt ∧ ph = Replying []
  | PAct m k => ∀ b h s w, refines_held l b h s → own ph h → (ph = Before → ready c b h) →
      mq_writing (m (s, w)).2.1 = None ∨
      ∃ a ph' b' h', moves l c ph b h a ph' b' h' ∧ refines_held l b' h' (m (s, w)).2.1 ∧
        answers (m (s, w)).2.2 = answers w ++ a ∧ follows l c ph' (k (m (s, w)).1)
  end.

Section code.
Context (l : mq_limits) (c : mq_call R).

(** A call of a request that sends nothing. *)
Lemma follows_request {A} ph (m : M W A) (Q : A → Prop) f :
  (∀ w, ∃ x w', m w = (Ret x, w') ∧ answers w' = answers w ∧ Q x) → (∀ x, Q x → follows l c ph (f x)) →
  follows l c ph (request m ≫= f).
Proof.
  intros Hm Hf b h s w Href _ _. destruct (Hm w) as (x & w' & Hx & Ha & HQ).
  right. exists [], ph, b, h. unfold on_snd. cbn. rewrite Hx. cbn. rewrite app_nil_r. split_and!; [constructor|done..|by apply Hf].
Qed.

(** A block under the lock. *)
Lemma follows_section {A} ph (m : M (SyncQueue R) A) f :
  (∀ b h s, refines_held l b h s → own ph h → (ph = Before → ready c b h) →
     ∃ x s' ph' b' h', m s = (Ret x, s') ∧ moves l c ph b h [] ph' b' h' ∧ refines_held l b' h' s' ∧ follows l c ph' (f x)) →
  follows l c ph (section m ≫= f).
Proof.
  intros Hm b h s w Href Hown Hready. destruct (Hm b h s Href Hown Hready) as (x & s' & ph' & b' & h' & Hx & H1 & H2 & H3).
  right. exists [], ph', b', h'. unfold on_fst. cbn [fst snd]. rewrite Hx, app_nil_r. by split_and!.
Qed.

Lemma follows_read {A} ph (g : SyncQueue R → A) f :
  (∀ x, follows l c ph (f x)) → follows l c ph (section (gets g) ≫= f).
Proof. intros Hf. apply follows_section. intros b h s Href _ _. exists (g s), s, ph, b, h. by split_and!; [|constructor|..]. Qed.

Lemma follows_read_bind {A B} ph (g : SyncQueue R → A) (k : A → prog (SyncQueue R * W) B) f :
  (∀ x, follows l c ph (k x ≫= f)) → follows l c ph ((section (gets g) ≫= k) ≫= f).
Proof.
  intros Hf b h s w Href _ _. right. exists [], ph, b, h. unfold on_fst. cbn. rewrite app_nil_r.
  split_and!; [constructor|done..|apply Hf].
Qed.

(** Writing to the request of another connection: its beginning, at which a race
    may be recorded, and its end. *)
Lemma follows_start {A} ph i (p : prog (SyncQueue R * W) A) f :
  follows l c ph (p ≫= f) → follows l c ph ((section (start_writing i) ≫= λ _, p) ≫= f).
Proof.
  intros Hf b h s w Href _ _. unfold on_fst, start_writing. cbn.
  destruct (mq_writing s) as [ws|] eqn:Hs; [case_decide|]; [|by left..].
  right. exists [], ph, b, h. cbn. rewrite app_nil_r. by split_and!; [constructor|..].
Qed.

Lemma follows_shared {A} ph i (m : M W A) (Q : A → Prop) f :
  (∀ w, ∃ x w', m w = (Ret x, w') ∧ answers w' = answers w ∧ Q x) → (∀ x, Q x → follows l c ph (f x)) →
  follows l c ph (shared_request i m ≫= f).
Proof.
  intros Hm Hf. apply follows_start.
  intros b h s w Href _ _. destruct (Hm w) as (x & w' & Hx & Ha & HQ). right.
  exists [], ph, b, h. unfold then_stop, on_snd. cbn. rewrite Hx. cbn. rewrite app_nil_r. by split_and!; [constructor|..|apply Hf].
Qed.

(** The answer that is due. *)
Inductive due : phase → answer → phase → Prop :=
  | due_replying a rest : due (Replying (a :: rest)) a (Replying rest)
  | due_holding xid r a rest : due (Holding xid r (a :: rest)) a (Holding xid r rest).

Lemma follows_reply ph ph' a (m : M W bool) f :
  due ph a ph' → (∀ w, ∃ w', m w = (Ret true, w') ∧ answers w' = answers w ++ [a]) → follows l c ph' (f true) →
  follows l c ph (request m ≫= f).
Proof.
  intros Hdue Hm Hf b h s w Href _ _. destruct (Hm w) as (w' & Hx & Ha).
  right. exists [a], ph', b, h. unfold on_snd. cbn. rewrite Hx. cbn. split_and!; [|done..].
  destruct Hdue; [apply (move_reply _ _ b h [_])|apply (move_reply_holding _ _ b h _ _ [_])].
Qed.

Lemma follows_pReplyWithCode ph ph' p code msg body hs ct f :
  due ph (p, code, body) ph' → follows l c ph' (f true) → follows l c ph (pReplyWithCode (Some p) code msg body hs ct ≫= f).
Proof.
  intros Hdue Hf. apply follows_read_bind. intros counts.
  eapply follows_reply; [exact Hdue| |exact Hf]. intros w.
  match goal with |- context [request_Reply p code ?m ?b ?n ?h ?cl w] =>
    destruct (rel_Reply p code m b n h cl w) as (w' & Hr & Ha) end.
  exists w'. split; [exact Hr|]. rewrite Ha. unfold body_of. by rewrite Nat2Z.id, take_app_length.
Qed.

Lemma follows_pReplyWithCode_view ph ph' p code msg z hs ct f :
  due ph (p, code, body_of (view_pointer z) (zlength z)) ph' → follows l c ph' (f true) →
  follows l c ph (pReplyWithCode_view (Some p) code msg z hs ct ≫= f).
Proof.
  intros Hdue Hf. apply follows_read_bind. intros counts.
  eapply follows_reply; [exact Hdue| |exact Hf]. intros w.
  match goal with |- context [request_Reply p code ?m ?b ?n ?h ?cl w] =>
    destruct (rel_Reply p code m b n h cl w) as (w' & Hr & Ha) end.
  by exists w'.
Qed.

Lemma follows_pReplyProducer ph ph' xid p z hs ct f :
  due ph (p, 200%Z, body_of (view_pointer z) (zlength z)) ph' → follows l c ph' (f true) →
  follows l c ph (pReplyProducer xid p z hs ct ≫= f).
Proof.
  intros Hdue Hf. apply follows_read_bind. intros counts.
  apply follows_start. intros b h s w Href _ _. right.
  match goal with |- context [request_Reply p 200 ?m ?b ?n ?h ?cl] =>
    destruct (rel_Reply p 200 m b n h cl w) as (w' & Hr & Ha) end.
  exists [(p, 200%Z, body_of (view_pointer z) (zlength z))], ph', b, h. unfold then_stop, on_snd. cbn. rewrite Hr. cbn.
  split_and!; [|done..]. destruct Hdue; [apply (move_reply _ _ b h [_])|apply (move_reply_holding _ _ b h _ _ [_])].
Qed.

(** A call that does not depend on the broker happens at its first action. *)
Lemma follows_now p rest :
  (∀ b, broker_call l c b = (b, rest)) → has_ended p = false → follows l c (Replying rest) p → follows l c Before p.
Proof.
  intros Hc Hp Hf. destruct p as [o|X m k]; [done|]. intros b h s w Href _ _.
  destruct (Hf b h s w Href I ltac:(done)) as [Hrace|(a & ph' & b' & h' & Hmove & Hrest)]; [by left|].
  right. exists a, ph', b', h'. split; [|exact Hrest].
  inversion Hmove; subst; apply move_decide; [apply (Hc b')|apply Hc].
Qed.

(** Nothing throws, so that handlers do not matter. *)
Lemma follows_catch ph p h : follows l c ph p → follows l c ph (pcatch_std p h).
Proof.
  revert ph. induction p as [o|X m k IH]; intros ph Hp; [by destruct Hp as [-> ->]|].
  intros b hm s w Href Hown Hready. destruct (Hp b hm s w Href Hown Hready) as [Hrace|(a & ph' & b' & h' & H1 & H2 & H3 & H4)]; [by left|].
  right. exists a, ph', b', h'. split_and!; [done..|]. by apply IH.
Qed.

Lemma follows_end o : o = Ret tt → follows l c (Replying []) (PDone o).
Proof. done. Qed.
End code.

(** *** The handlers *)
Section handlers.
#[local] Arguments follows : simpl never.
Context (l : mq_limits).

Lemma held_waiting b h s i : refines_held l b h s → i ∈ (waiting b).*1 → in_progress b !! i = None ∧ h !! i = None.
Proof. intros [(_ & _ & _ & _ & _ & Hdj) _] Hi. apply Hdj in Hi. cbn in Hi. by apply lookup_union_None in Hi. Qed.

Lemma SetTelemetry_quiet (r : R) o w : ∃ (x : unit) w', SetTelemetry r o w = (Ret x, w') ∧ answers w' = answers w ∧ True.
Proof. destruct (rel_SetTelemetry r o w) as (w' & H1 & H2). by exists tt, w'. Qed.
Lemma GetMsgId_quiet (r : R) w : ∃ x w', GetMsgId r w = (Ret x, w') ∧ answers w' = answers w ∧ x = req_id r.
Proof. exists (req_id r), w. split_and!; [apply rel_GetMsgId|done..]. Qed.
Lemma GetContent_quiet (r : R) w :
  ∃ z w', GetContent r w = (Ret z, w') ∧ answers w' = answers w ∧ body_of (view_pointer z) (zlength z) = req_content r.
Proof. destruct (rel_GetContent r w) as (z & H1 & H2). by exists z, w. Qed.
Lemma type_quiet (r : R) w :
  ∃ z w', GetHeaderOption r (str "Content-Type") (Some (str "application/json")) w = (Ret z, w') ∧
    answers w' = answers w ∧ ∃ t, zstr z = Ret t.
Proof. destruct (rel_type r w) as (z & t & H1 & H2). exists z, w. split_and!; [done..|by exists t]. Qed.
Lemma forward_quiet (r : R) w :
  ∃ z w', GetHeaderOption r (str "X-MSG-FORWARD-UID") None w = (Ret z, w') ∧ answers w' = answers w ∧
    zstr z = Ret (req_forward r) ∧ zempty z = bool_decide (req_forward r = []).
Proof. destruct (rel_forward r w) as (z & H1 & H2 & H3). by exists z, w. Qed.

(** The end of most handlers: one answer and the return. *)
Lemma follows_answer c p code msg body hs ct :
  follows l c (Replying [(p, code, body)]) (_ ← pReplyWithCode (Some p) code msg body hs ct; mret tt).
Proof. eapply follows_pReplyWithCode; [constructor|done]. Qed.

Lemma pGet_follows c : follows l (CGet (Some c)) Before (pGet (Some c)).
Proof.
  apply follows_section. intros b h s Href _ _. pose proof Href as [Hr Hdj]. destruct (waiting b) as [|[i r] rest] eqn:Hw.
  - exists None, s, (Replying [(c, 204%Z, [])]), b, h. split_and!; [exact (get_section_empty l _ s Hr eq_refl)| |done|apply follows_answer].
    apply move_decide. cbn. unfold broker_get. by rewrite Hw.
  - destruct (get_section_refines l _ s i r rest Hr eq_refl) as (s' & Hs & Hr'). cbn in Hr'.
    destruct (held_waiting b h s i Href) as [_ Hh]; [rewrite Hw; left|].
    exists (Some (i, r)), s', (Replying [(c, 200%Z, req_content r)]), (MkBroker rest (<[i := r]> (in_progress b))), h.
    split_and!; [done| | |].
    + apply move_decide. cbn. unfold broker_get. by rewrite Hw.
    + split; cbn; [by rewrite <- insert_union_l|]. by apply map_disjoint_insert_l_2.
    + eapply follows_shared; [apply SetTelemetry_quiet|]. intros _ _.
      eapply follows_request; [apply GetContent_quiet|]. intros z Hz.
      eapply follows_request; [apply type_quiet|]. intros zt [t Ht]. rewrite Ht, <- Hz.
      eapply follows_pReplyWithCode_view; [constructor|done].
Qed.

Lemma pPut_follows p : follows l (CPut (Some p)) Before (pPut (Some p)).
Proof.
  eapply follows_request; [apply GetMsgId_quiet|]. intros mid ->.
  apply follows_section. intros b h s Href _ Hready. pose proof Href as [Hr Hdj]. destruct (Hready eq_refl) as [[Hf1 Hf2] _].
  destruct (decide (LimitSize l = 0 ∨ Z.of_nat (length (waiting b)) < LimitSize l)%Z) as [Hlim|Hlim].
  - destruct (put_section_refines l _ s (req_id p) p Hr Hf1 Hf2 Hlim) as (s' & Hs & Hr').
    exists true, s', (Replying []), (MkBroker (waiting b ++ [(req_id p, p)]) (in_progress b)), h.
    split_and!; [done| |split; [exact Hr'|done]|done].
    apply move_decide. cbn. unfold broker_put. by rewrite decide_True.
  - exists false, s, (Replying [(p, 507%Z, [])]), b, h. split_and!; [exact (put_section_full l _ s (req_id p) p Hr Hlim)| |done|].
    + apply move_decide. cbn. unfold broker_put. by rewrite decide_False.
    + apply (follows_read l _ _ (λ s, s)). intros s1. apply follows_answer.
Qed.

Lemma pHead_follows p : follows l (CHead (Some p)) Before (pHead (Some p)).
Proof.
  apply follows_section. intros b h s Href _ _. pose proof Href as [(_ & Hq & _) _]. cbn in Hq.
  set (mid := match (waiting b).*1 with [] => 0%Z | mid :: _ => mid end).
  exists mid, s, (Replying [(p, if decide (mid ≠ 0%Z) then 200%Z else 204%Z, [])]), b, h. split_and!; [| |done|].
  - unfold head_section, gets. by rewrite Hq.
  - apply move_decide. cbn. unfold broker_head, mid. destruct (waiting b) as [|[i r] rest]; cbn; [done|]. by case_decide.
  - case_decide; apply follows_answer.
Qed.

(** A POST of a known job, from its second action on. *)
Lemma ppost_found_follows p z xid :
  zstr z = Ret (req_forward p) → stoul (req_forward p) = Ret xid →
  follows l (CPost (Some p)) Before (ppost_try (Some p) p z).
Proof.
  intros Hz Hx. unfold ppost_try. rewrite Hz. cbn [mbind prog_bind after]. rewrite Hx.
  apply follows_section. intros b h s Href _ Hready. pose proof Href as [Hr Hdj].
  assert (Hid : post_id (CPost (Some p)) = Some xid) by (cbn; by rewrite Hx).
  destruct (Hready eq_refl) as [Hnw Hh]. specialize (Hnw xid Hx). specialize (Hh xid Hid). cbn in Hnw.
  pose proof (refines_messages l _ s xid Hr Hnw) as Hmsg. cbn in Hmsg. rewrite lookup_union_l in Hmsg by done.
  assert (Hcall : broker_call l (CPost (Some p)) b =
    match in_progress b !! xid with
    | Some r => (MkBroker (waiting b) (delete xid (in_progress b)), [(r, 200%Z, req_content p); (p, 200%Z, [])])
    | None => (b, [(p, 300%Z, [])])
    end).
  { cbn. unfold broker_post. rewrite decide_False by (by eapply stoul_nonempty). by rewrite Hx. }
  destruct (in_progress b !! xid) as [r|] eqn:Hin.
  - eexists (Some r), s, (Holding xid r _), _, _. split_and!; [by unfold post_find_section, gets; rewrite Hmsg|by apply move_claim| |].
    + split; cbn; [|apply map_disjoint_insert_r_2; [apply lookup_delete_eq|by apply map_disjoint_delete_l]].
      replace (delete xid (in_progress b) ∪ <[xid:=r]> h) with (in_progress b ∪ h); [done|].
      apply map_eq. intros j. rewrite !lookup_union, lookup_delete, lookup_insert.
      repeat case_decide; subst; try done. by rewrite Hin, Hh.
    + eapply follows_shared; [apply SetTelemetry_quiet|]. intros _ _.
      eapply follows_request; [apply GetContent_quiet|]. intros zc Hzc.
      eapply follows_request; [apply GetMsgId_quiet|]. intros mid _.
      eapply follows_request; [apply type_quiet|]. intros zt [t Ht]. rewrite Ht, <- Hzc.
      eapply follows_pReplyProducer; [constructor|].
      apply follows_section. intros b1 h1 s1 Href1 Hown1 _. pose proof Href1 as [Hr1 Hdj1]. cbn in Hown1.
      exists tt, (post_erase_section xid s1).2, (Replying [(p, 200%Z, [])]), b1, (delete xid h1).
      split_and!; [done|constructor| |apply follows_answer]. split; [|by apply map_disjoint_delete_r].
      assert (Hnw1 : xid ∉ (waiting b1).*1).
      { intros Hw. destruct (held_waiting b1 h1 s1 xid Href1 Hw) as [_ Hno]. congruence. }
      pose proof (refines_finish l _ s1 xid Hr1 Hnw1) as Hfin. cbn in Hfin. rewrite delete_union in Hfin.
      rewrite (delete_id (in_progress b1)) in Hfin; [exact Hfin|]. by eapply map_disjoint_Some_r.
  - exists None, s, (Replying [(p, 300%Z, [])]), b, h.
    split_and!; [by unfold post_find_section, gets; rewrite Hmsg|by apply move_decide|done|apply follows_answer].
Qed.

Lemma pPost_follows p : follows l (CPost (Some p)) Before (pPost (Some p)).
Proof.
  eapply follows_request; [apply forward_quiet|]. intros z [Hz He]. rewrite He.
  assert (Hbad : ∀ msg, (∀ b, broker_call l (CPost (Some p)) b = (b, [(p, 400%Z, [])])) →
    follows l (CPost (Some p)) Before (_ ← pReplyWithCode (Some p) 400 msg [] [] []; mret tt)).
  { intros msg Hb. by eapply follows_now; [exact Hb|done|apply follows_answer]. }
  case_bool_decide as Hf.
  { apply Hbad. intros b. cbn. unfold broker_post. by rewrite decide_True. }
  destruct (stoul_cases (req_forward p)) as [[xid Hx]|Hx].
  - apply follows_catch. by eapply ppost_found_follows.
  - unfold ppost_try. rewrite Hz. cbn [mbind prog_bind after]. rewrite Hx. cbn [mbind prog_bind after pcatch_std].
    apply Hbad. intros b. cbn. unfold broker_post. rewrite decide_False by done. by rewrite Hx.
Qed.

Lemma call_prog_follows c : has_request c = true → follows l c Before (call_prog c).
Proof.
  assert (Hconst : ∀ c p code msg body hs ct, (∀ b, broker_call l c b = (b, [(p, code, body)])) →
    follows l c Before (_ ← pReplyWithCode (Some p) code msg body hs ct; mret tt)).
  { intros ? p code msg body hs ct Hb. by eapply follows_now; [exact Hb|done|apply follows_answer]. }
  destruct c as [[p|]|[p|]|[p|]|[p|]|[p|]|[p|]|[p|]|[p|]|[p|]]; intros Hreq; try done.
  - apply pGet_follows.
  - apply pPost_follows.
  - apply pPut_follows.
  - apply pHead_follows.
  - by apply Hconst.
  - by apply Hconst.
  - by apply Hconst.
  - by apply Hconst.
  - by apply Hconst.
Qed.
End handlers.

(** ** All threads together *)
Section together.
Context (l : mq_limits).

Abbreviation threads := (list (mq_call R * prog (SyncQueue R * W) unit)).

(** The phases of the threads, the broker and the held jobs fit together. *)
Record protocol (ts : threads) (phs : list phase) (b : broker R) (h : gmap Z R) : Prop := {
  pr_follows : Forall2 (λ t ph, follows l t.1 ph t.2) ts phs;
  pr_holds i t xid r rest :
    ts !! i = Some t → phs !! i = Some (Holding xid r rest) → h !! xid = Some r ∧ post_id t.1 = Some xid;
  pr_held xid : is_Some (h !! xid) → ∃ i r rest, phs !! i = Some (Holding xid r rest);
  pr_put i t x : ts !! i = Some t → phs !! i = Some Before → put_id t.1 = Some x →
    (x ∉ (waiting b).*1) ∧ in_progress b !! x = None ∧ h !! x = None;
  pr_post i t x : ts !! i = Some t → phs !! i = Some Before → post_id t.1 = Some x → (x ∉ (waiting b).*1) ∧ h !! x = None;
  pr_apart i j t t' x : ts !! i = Some t → ts !! j = Some t' → phs !! i = Some Before → phs !! j = Some Before →
    post_id t.1 = Some x → put_id t'.1 ≠ Some x;
  pr_posts i j t t' x : ts !! i = Some t → ts !! j = Some t' → post_id t.1 = Some x → post_id t'.1 = Some x → i = j;
  pr_puts i j t t' x : ts !! i = Some t → ts !! j = Some t' → put_id t.1 = Some x → put_id t'.1 = Some x → i = j
}.

Lemma broker_call_effect c b :
  let b' := (broker_call l c b).1 in
  (∀ x, x ∈ (waiting b').*1 → x ∈ (waiting b).*1 ∨ put_id c = Some x) ∧
  (∀ x, is_Some (in_progress b' !! x) → is_Some (in_progress b !! x) ∨ x ∈ (waiting b).*1).
Proof.
  destruct c as [[p|]|[p|]|[p|]|[p|]|[p|]|[p|]|[p|]|[p|]|[p|]]; cbn; try by auto.
  - unfold broker_get. destruct (waiting b) as [|[i r] rest] eqn:Hw; cbn; [by rewrite Hw; auto|]. split.
    + intros x Hx. left. by right.
    + intros x Hx. destruct (decide (i = x)) as [->|Hne]; [right; left|]. rewrite lookup_insert_ne in Hx by done. auto.
  - unfold broker_post. case_decide; [by auto|]. destruct (stoul _) as [xid|e| |]; [|by auto..].
    destruct (in_progress b !! xid) eqn:Hin; [|by auto]. cbn. split; [by auto|]. intros x Hx. left.
    destruct (decide (xid = x)) as [->|Hne]; [by rewrite lookup_delete_eq in Hx; destruct Hx|]. by rewrite lookup_delete_ne in Hx.
  - unfold broker_put. case_decide; [|by auto]. cbn. split; [|by auto]. intros x.
    rewrite fmap_app, elem_of_app. cbn [fmap list_fmap fst]. rewrite list_elem_of_singleton. intros [Hx| ->]; auto.
Qed.

Lemma moves_effect c ph b h a ph' b' h' :
  moves l c ph b h a ph' b' h' →
  (∀ x, x ∈ (waiting b').*1 → x ∈ (waiting b).*1 ∨ (put_id c = Some x ∧ ph = Before)) ∧
  (∀ x, is_Some (in_progress b' !! x) → is_Some (in_progress b !! x) ∨ x ∈ (waiting b).*1) ∧
  (∀ x, is_Some (h' !! x) → is_Some (h !! x) ∨ (post_id c = Some x ∧ ph = Before)) ∧
  (ph' = Before → ph = Before).
Proof.
  intros Hm. destruct Hm as [ph b h|b h a rest b' Hb|b h xid r rest Hid Hin Hb|b h xid r a rest|b h xid r rest|b h a rest].
  1, 4, 6: by split_and!; auto.
  - pose proof (broker_call_effect c b) as [H1 H2]. rewrite Hb in H1, H2. cbn in H1, H2.
    split_and!; [|done|by auto|done]. intros x Hx. destruct (H1 x Hx); auto.
  - split_and!; [by auto| | |done]; cbn.
    + intros x Hx. left. destruct (decide (xid = x)) as [->|Hne]; [by eexists|]. by rewrite lookup_delete_ne in Hx.
    + intros x Hx. destruct (decide (xid = x)) as [->|Hne]; [by auto|]. left. by rewrite lookup_insert_ne in Hx.
  - split_and!; [by auto..| |done]. intros x Hx. left.
    destruct (decide (xid = x)) as [->|Hne]; [by rewrite lookup_delete_eq in Hx; destruct Hx|]. by rewrite lookup_delete_ne in Hx.
Qed.

Lemma moves_cases c ph b h a ph' b' h' :
  moves l c ph b h a ph' b' h' →
  (b' = b ∧ remaining ph = a ++ remaining ph' ∧ (ph = Before ↔ ph' = Before)) ∨
  (ph = Before ∧ ph' ≠ Before ∧ broker_call l c b = (b', a ++ remaining ph')).
Proof.
  intros Hm. destruct Hm; [by left|by right|by right|by left..].
Qed.

(** The calls and phases of the other threads. *)
Lemma lookup_insert_call (ts : threads) i c p p' j t :
  ts !! i = Some (c, p) → <[i := (c, p')]> ts !! j = Some t → ∃ t0, ts !! j = Some t0 ∧ t0.1 = t.1.
Proof.
  intros Hi Hj. destruct (decide (i = j)) as [->|Hne].
  - rewrite list_lookup_insert_eq in Hj by (by eapply lookup_lt_Some). injection Hj as <-. by eexists.
  - rewrite list_lookup_insert_ne in Hj by done. by eexists.
Qed.

Lemma protocol_act ts phs b h i c p ph a ph' b' h' p' :
  protocol ts phs b h → ts !! i = Some (c, p) → phs !! i = Some ph → moves l c ph b h a ph' b' h' →
  follows l c ph' p' → protocol (<[i := (c, p')]> ts) (<[i := ph']> phs) b' h'.
Proof.
  intros Hp Hi Hph Hm Hf. destruct Hp as [Hfol Hholds Hheld Hput Hpost Hapart Hposts Hputs].
  destruct (moves_effect c ph b h a ph' b' h' Hm) as (Ew & Ei & Eh & Eb).
  pose proof (lookup_lt_Some _ _ _ Hph) as Hlt.
  assert (HB : ∀ j, <[i := ph']> phs !! j = Some Before → phs !! j = Some Before).
  { intros j Hj. destruct (decide (i = j)) as [->|Hne]; [|by rewrite list_lookup_insert_ne in Hj].
    rewrite list_lookup_insert_eq in Hj by done. injection Hj as Hj. rewrite Hph. f_equal. by apply Eb. }
  assert (Hsame : ∀ j t, <[i := (c, p')]> ts !! j = Some t → ∃ t0, ts !! j = Some t0 ∧ t0.1 = t.1).
  { intros j t. by eapply lookup_insert_call. }
  split.
  - by apply Forall2_insert.
  - intros j t xid r rest Hj Hpj. destruct (Hsame j t Hj) as (t0 & Hj0 & <-). destruct (decide (i = j)) as [->|Hne].
    + rewrite list_lookup_insert_eq in Hpj by done. injection Hpj as ->. rewrite Hi in Hj0. injection Hj0 as <-. cbn.
      inversion Hm; subst; [by apply (Hholds j (c, p) xid r rest)| |by apply (Hholds j (c, p) xid r (a ++ rest))].
      by rewrite lookup_insert_eq.
    + rewrite list_lookup_insert_ne in Hpj by done. destruct (Hholds j t0 xid r rest Hj0 Hpj) as [Hh Hid]. split; [|done].
      inversion Hm; subst; try done; [rewrite lookup_insert_ne|rewrite lookup_delete_ne]; try done; intros ->.
      * by apply Hne, (Hposts i j (c, p) t0 xid).
      * destruct (Hholds i (c, p) xid r0 rest0 Hi Hph) as [_ Hid']. by apply Hne, (Hposts i j (c, p) t0 xid).
  - assert (Hother : ∀ xid j r rest, phs !! j = Some (Holding xid r rest) → i ≠ j →
      ∃ i' r' rest', <[i := ph']> phs !! i' = Some (Holding xid r' rest')).
    { intros xid j r rest Hj Hne. exists j, r, rest. by rewrite list_lookup_insert_ne. }
    assert (Hself : ∀ xid r rest, ph' = Holding xid r rest → ∃ i' r' rest', <[i := ph']> phs !! i' = Some (Holding xid r' rest')).
    { intros xid r rest ->. exists i, r, rest. by apply list_lookup_insert_eq. }
    intros xid Hx. inversion Hm; subst.
    1, 2, 4, 6: destruct (Hheld xid Hx) as (j & r1 & rest1 & Hj); destruct (decide (i = j)) as [->|Hne]; [|by eapply Hother];
      rewrite Hph in Hj; injection Hj as Hj; subst; try done; by eapply Hself.
    + destruct (decide (xid0 = xid)) as [->|Hx0]; [by eapply Hself|]. rewrite lookup_insert_ne in Hx by done.
      destruct (Hheld xid Hx) as (j & r1 & rest1 & Hj). eapply Hother; [exact Hj|]. intros ->. by rewrite Hph in Hj.
    + destruct (decide (xid0 = xid)) as [->|Hx0]; [rewrite lookup_delete_eq in Hx; by destruct Hx|].
      rewrite lookup_delete_ne in Hx by done. destruct (Hheld xid Hx) as (j & r1 & rest1 & Hj).
      eapply Hother; [exact Hj|]. intros ->. rewrite Hph in Hj. by injection Hj as ->.
  - intros j t x Hj HBj Hid. destruct (Hsame j t Hj) as (t0 & Hj0 & Heq). rewrite <- Heq in Hid. apply HB in HBj as HBj0.
    destruct (Hput j t0 x Hj0 HBj0 Hid) as (H1 & H2 & H3). split_and!.
    + intros Hx0. destruct (Ew x Hx0) as [Hx|[Hc Hph0]]; [done|]. subst ph. pose proof (Hputs i j (c, p) t0 x Hi Hj0 Hc Hid) as ->.
      rewrite list_lookup_insert_eq in HBj by done. injection HBj as ->. by inversion Hm; subst.
    + apply eq_None_not_Some. intros [Hx|Hx]%Ei; [rewrite H2 in Hx; by destruct Hx|done].
    + apply eq_None_not_Some. intros [Hx|[Hc ->]]%Eh; [rewrite H3 in Hx; by destruct Hx|].
      by apply (Hapart i j (c, p) t0 x).
  - intros j t x Hj HBj Hid. destruct (Hsame j t Hj) as (t0 & Hj0 & Heq). rewrite <- Heq in Hid. apply HB in HBj as HBj0.
    destruct (Hpost j t0 x Hj0 HBj0 Hid) as (H1 & H2). split.
    + intros [Hx|[Hc ->]]%Ew; [done|]. by apply (Hapart j i t0 (c, p) x).
    + apply eq_None_not_Some. intros Hx0. destruct (Eh x Hx0) as [Hx|[Hc ->]]; [rewrite H2 in Hx; by destruct Hx|].
      pose proof (Hposts i j (c, p) t0 x Hi Hj0 Hc Hid) as ->. rewrite list_lookup_insert_eq in HBj by done. injection HBj as ->.
      inversion Hm; subst. rewrite H2 in Hx0. by destruct Hx0.
  - intros j k t t' x Hj Hk HBj HBk. destruct (Hsame j t Hj) as (t0 & Hj0 & <-), (Hsame k t' Hk) as (t1 & Hk0 & <-).
    apply (Hapart j k t0 t1 x); auto.
  - intros j k t t' x Hj Hk. destruct (Hsame j t Hj) as (t0 & Hj0 & <-), (Hsame k t' Hk) as (t1 & Hk0 & <-). by apply Hposts.
  - intros j k t t' x Hj Hk. destruct (Hsame j t Hj) as (t0 & Hj0 & <-), (Hsame k t' Hk) as (t1 & Hk0 & <-). by apply Hputs.
Qed.

(** A call that may start is added in its first phase. *)
Lemma protocol_start ts phs b h s w c sw :
  protocol ts phs b h → refines_held l b h s → proper_start (MkThreads ts (s, w)) c sw →
  protocol (ts ++ [(c, call_prog c)]) (phs ++ [Before]) b h.
Proof.
  intros Hp [Hr Hdj] (_ & Hreq & Hput & Hpost). cbn in Hput, Hpost. destruct Hp as [Hfol Hholds Hheld Hput0 Hpost0 Hapart Hposts Hputs].
  pose proof (Forall2_length _ _ _ Hfol) as Hlen. pose proof Hr as (_ & Hq & _ & Hm & _). cbn in Hq, Hm. rewrite Hq in Hput, Hpost.
  assert (Hnew : ∀ i t, (ts ++ [(c, call_prog c)]) !! i = Some t → ts !! i = Some t ∨ i = length ts ∧ t = (c, call_prog c)).
  { intros i t [?|[H1 H2]]%lookup_app_Some; [by left|right]. apply list_lookup_singleton_Some in H2 as [H2 <-]. split; [lia|done]. }
  assert (Hph : ∀ i t ph, ts !! i = Some t → (phs ++ [Before]) !! i = Some ph → phs !! i = Some ph).
  { intros i t ph Hi Hp. rewrite lookup_app_l in Hp; [done|]. rewrite <- Hlen. by eapply lookup_lt_Some. }
  assert (Hnone : ∀ x, mq_messages s !! x = None → in_progress b !! x = None ∧ h !! x = None).
  { intros x Hx. apply lookup_union_None. apply eq_None_not_Some. intros [r Hu].
    assert (mq_messages s !! x = Some r) by (apply Hm; by right). congruence. }
  assert (Htouch : ∀ xid t i, ts !! i = Some t → Forall (λ t, post_id t.1 ≠ Some xid ∧ (put_id t.1 = Some xid → has_ended t.2 = true)) ts →
    post_id t.1 ≠ Some xid ∧ (put_id t.1 = Some xid → phs !! i ≠ Some Before)).
  { intros xid t i Hi Hall. pose proof (Forall_lookup_1 _ _ _ _ Hall Hi) as [H1 H2]. split; [done|]. intros Hid HB.
    pose proof (Forall2_lookup_lr _ _ _ _ _ _ Hfol Hi HB) as Hf. specialize (H2 Hid).
    destruct t as [c' [o|X m f]]; [|done]. by destruct Hf. }
  split.
  - apply Forall2_app; [done|]. apply Forall2_cons; split; [by apply call_prog_follows|by apply Forall2_nil].
  - intros i t xid r rest [Hi|[-> ->]]%Hnew Hpi; [by eapply Hholds; [|eapply Hph]|].
    rewrite lookup_app_r, Hlen, Nat.sub_diag in Hpi by lia. done.
  - intros xid (i & r & rest & Hi)%Hheld. exists i, r, rest. by apply lookup_app_l_Some.
  - intros i t x [Hi|[-> ->]]%Hnew Hpi Hid; [by eapply Hput0; [|eapply Hph|]|].
    destruct (Hput x Hid) as (H1 & H2 & _). split; [done|by apply Hnone].
  - intros i t x [Hi|[-> ->]]%Hnew Hpi Hid; [by eapply Hpost0; [|eapply Hph|]|].
    destruct (Hpost x Hid) as [H1 H2]. split; [done|]. apply eq_None_not_Some. intros (i & r & rest & Hi)%Hheld.
    destruct (Forall2_lookup_r _ _ _ _ _ Hfol Hi) as (t & Ht & _). destruct (Hholds i t x r rest Ht Hi) as [_ Hid'].
    by destruct (Htouch x t i Ht H2).
  - intros i j t t' x [Hi|[-> ->]]%Hnew [Hj|[-> ->]]%Hnew HBi HBj Hid Hid'.
    + by apply (Hapart i j t t' x); eauto.
    + destruct (Hput x Hid') as (_ & _ & Hall). pose proof (Forall_lookup_1 _ _ _ _ Hall Hi) as [_ Hno]. done.
    + destruct (Hpost x Hid) as [_ Hall]. destruct (Htouch x t' j Hj Hall) as [_ Hno]. by eapply Hno, Hph.
    + cbn in Hid, Hid'. by destruct c as [[]|[]|[]|[]|[]|[]|[]|[]|[]].
  - intros i j t t' x [Hi|[-> ->]]%Hnew [Hj|[-> ->]]%Hnew Hid Hid'; [by apply (Hposts i j t t' x)| | |done].
    + destruct (Hpost x Hid') as [_ Hall]. by destruct (Htouch x t i Hi Hall).
    + destruct (Hpost x Hid) as [_ Hall]. by destruct (Htouch x t' j Hj Hall).
  - intros i j t t' x [Hi|[-> ->]]%Hnew [Hj|[-> ->]]%Hnew Hid Hid'; [by apply (Hputs i j t t' x)| | |done].
    + destruct (Hput x Hid') as (_ & _ & Hall). by pose proof (Forall_lookup_1 _ _ _ _ Hall Hi) as [Hno _].
    + destruct (Hput x Hid) as (_ & _ & Hall). by pose proof (Forall_lookup_1 _ _ _ _ Hall Hj) as [Hno _].
Qed.

(** *** The order and the journal *)

Lemma broker_calls_snoc cs c b :
  broker_calls l (cs ++ [c]) b =
  ((broker_call l c (broker_calls l cs b).1).1, (broker_calls l cs b).2 ++ (broker_call l c (broker_calls l cs b).1).2).
Proof.
  revert b. induction cs as [|c' cs IH]; intros b; cbn; [by rewrite app_nil_r|]. rewrite IH. cbn. by rewrite app_assoc.
Qed.

Lemma broker_trace_snoc cs c b :
  broker_trace l (cs ++ [c]) b = broker_trace l cs b ++ [(broker_call l c (broker_calls l cs b).1).2].
Proof. revert b. induction cs as [|c' cs IH]; intros b; cbn; [done|]. by rewrite IH. Qed.

Lemma length_broker_trace cs b : length (broker_trace l cs b) = length cs.
Proof. revert b. induction cs as [|c cs IH]; intros b; cbn; [done|]. by rewrite IH. Qed.

Lemma calls_at_act (ts : threads) i c p p' lin : ts !! i = Some (c, p) → calls_at (<[i := (c, p')]> ts) lin = calls_at ts lin.
Proof.
  intros Hi. unfold calls_at. induction lin as [|j lin IH]; [done|]. cbn.
  replace (fst <$> <[i := (c, p')]> ts !! j) with (fst <$> ts !! j); [by rewrite IH|].
  destruct (decide (i = j)) as [->|Hne]; [|by rewrite list_lookup_insert_ne].
  rewrite list_lookup_insert_eq by (by eapply lookup_lt_Some). by rewrite Hi.
Qed.

Lemma calls_at_start (ts : threads) t lin : (∀ i, i ∈ lin → i < length ts) → calls_at (ts ++ [t]) lin = calls_at ts lin.
Proof.
  intros Hlin. unfold calls_at. induction lin as [|j lin IH]; [done|]. cbn.
  rewrite lookup_app_l by (apply Hlin; left). rewrite IH; [done|]. intros i Hi. apply Hlin. by right.
Qed.

Lemma length_calls_at (ts : threads) lin : (∀ i, i ∈ lin → i < length ts) → length (calls_at ts lin) = length lin.
Proof.
  intros Hlin. unfold calls_at. induction lin as [|j lin IH]; [done|]. cbn.
  destruct (lookup_lt_is_Some_2 ts j (Hlin j ltac:(left))) as [t ->]. cbn. f_equal. apply IH. intros i Hi. apply Hlin. by right.
Qed.

Lemma untag (i : nat) (a : list answer) : (pair i <$> a).*2 = a.
Proof. induction a as [|x a IH]; [done|]. cbn. by rewrite IH. Qed.

Lemma answers_of_act i j log (a : list answer) :
  answers_of i (log ++ (pair j <$> a)) = answers_of i log ++ if decide (i = j) then a else [].
Proof.
  unfold answers_of. rewrite filter_app, fmap_app. f_equal. case_decide as Hij.
  - subst. induction a as [|x a IH]; [done|]. rewrite fmap_cons, filter_cons_True, fmap_cons by done. by rewrite IH.
  - induction a as [|x a IH]; [done|]. rewrite fmap_cons, filter_cons_False by (cbn; congruence). exact IH.
Qed.

(** The order in which the calls happened so far, and who sent what. *)
Record history (b0 : broker R) (w0 : W) (ts : threads) (phs : list phase) (lin : list nat) (log : list (nat * answer))
    (b : broker R) (w : W) : Prop := {
  hi_length : length ts = length phs;
  hi_nodup : NoDup lin;
  hi_lin i : i ∈ lin ↔ ∃ ph, phs !! i = Some ph ∧ ph ≠ Before;
  hi_broker : b = (broker_calls l (calls_at ts lin) b0).1;
  hi_answers : answers w = answers w0 ++ log.*2;
  hi_none i : i ∉ lin → answers_of i log = [];
  hi_some n i ph : lin !! n = Some i → phs !! i = Some ph →
    broker_trace l (calls_at ts lin) b0 !! n = Some (answers_of i log ++ remaining ph)
}.

Lemma history_range b0 w0 ts phs lin log b w i : history b0 w0 ts phs lin log b w → i ∈ lin → i < length ts.
Proof. intros Hh (ph & Hi & _)%(hi_lin _ _ _ _ _ _ _ _ Hh). rewrite (hi_length _ _ _ _ _ _ _ _ Hh). by eapply lookup_lt_Some. Qed.

Lemma history_start b0 w0 ts phs lin log b w t :
  history b0 w0 ts phs lin log b w → history b0 w0 (ts ++ [t]) (phs ++ [Before]) lin log b w.
Proof.
  intros Hh. pose proof (λ i, history_range _ _ _ _ _ _ _ _ i Hh) as Hr. destruct Hh as [Hlen Hnd Hlin Hb Ha Hn Hs].
  assert (Hph : ∀ i ph, i ∈ lin → (phs ++ [Before]) !! i = Some ph → phs !! i = Some ph).
  { intros i ph Hi. by rewrite lookup_app_l by (rewrite <- Hlen; auto). }
  split; [by rewrite !length_app, Hlen|done| |by rewrite calls_at_start|done..|].
  - intros i. rewrite Hlin. split.
    + intros (ph & Hi & Hne). exists ph. split; [by apply lookup_app_l_Some|done].
    + intros (ph & [Hi|[_ Hi]]%lookup_app_Some & Hne); [by exists ph|]. by apply list_lookup_singleton_Some in Hi as [_ <-].
  - intros n i ph Hni Hi. rewrite calls_at_start by done. apply Hs; [done|]. apply Hph; [by eapply list_elem_of_lookup_2|done].
Qed.

(** An action of thread [i], whose call may have happened by it. *)
Lemma history_act b0 w0 ts phs lin log b w w' i c p ph a ph' b' h h' p' :
  history b0 w0 ts phs lin log b w → ts !! i = Some (c, p) → phs !! i = Some ph → moves l c ph b h a ph' b' h' →
  answers w' = answers w ++ a →
  ∃ lin', history b0 w0 (<[i := (c, p')]> ts) (<[i := ph']> phs) (lin ++ lin') (log ++ (pair i <$> a)) b' w'.
Proof.
  intros Hh Hi Hph Hm Hw. pose proof (λ i, history_range _ _ _ _ _ _ _ _ i Hh) as Hr. destruct Hh as [Hlen Hnd Hlin Hb Ha Hn Hs].
  pose proof (lookup_lt_Some _ _ _ Hph) as Hlt.
  assert (Hans : answers w' = answers w0 ++ (log ++ (pair i <$> a)).*2).
  { rewrite Hw, Ha, fmap_app, <- app_assoc. by rewrite untag. }
  assert (Hlook : ∀ j ph1, <[i := ph']> phs !! j = Some ph1 → i = j ∧ ph1 = ph' ∨ i ≠ j ∧ phs !! j = Some ph1).
  { intros j ph1 Hj. apply list_lookup_insert_Some in Hj as [(-> & -> & _)|[Hne Hj]]; auto. }
  destruct (moves_cases c ph b h a ph' b' h' Hm) as [(-> & Hrem & HB)|(-> & Hne & Hcall)].
  - exists []. rewrite app_nil_r. split; [by rewrite !length_insert|done| |by rewrite calls_at_act with (p := p)|done| |].
    + intros j. rewrite Hlin. split; intros (ph1 & Hj & H1).
      * destruct (decide (i = j)) as [->|Hij]; [exists ph'|exists ph1; by rewrite list_lookup_insert_ne].
        rewrite list_lookup_insert_eq by done. split; [done|]. rewrite Hph in Hj. injection Hj as <-. tauto.
      * destruct (Hlook j ph1 Hj) as [[<- ->]|[Hij Hj']]; [exists ph|by exists ph1]. split; [done|tauto].
    + intros j Hj. rewrite answers_of_act, Hn by done. case_decide as Hij; [subst j|done].
      assert (ph = Before) as -> by (destruct ph; [done|..]; exfalso; apply Hj, Hlin; eexists; by split; [exact Hph|]).
      by destruct a.
    + intros n j ph1 Hnj Hj. rewrite calls_at_act with (p := p), answers_of_act by done.
      destruct (Hlook j ph1 Hj) as [[<- ->]|[Hij Hj']].
      * rewrite decide_True, <- app_assoc, <- Hrem by done. by apply Hs.
      * rewrite decide_False, app_nil_r by done. by apply Hs.
  - assert (Hni : i ∉ lin) by (intros (ph1 & Hi1 & Hb1)%Hlin; rewrite Hph in Hi1; by injection Hi1 as <-).
    exists [i]. assert (Hcs : calls_at (<[i := (c, p')]> ts) (lin ++ [i]) = calls_at ts lin ++ [c]).
    { rewrite calls_at_act with (p := p) by done. unfold calls_at. rewrite omap_app. cbn. by rewrite Hi. }
    split; [by rewrite !length_insert| | | |done| |].
    + apply NoDup_app. split_and!; [done| |apply NoDup_singleton]. by intros j Hj ->%list_elem_of_singleton.
    + intros j. rewrite elem_of_app, list_elem_of_singleton, Hlin. split.
      * intros [(ph1 & Hj & H1)| ->]; [exists ph1|exists ph'; by rewrite list_lookup_insert_eq].
        rewrite list_lookup_insert_ne; [done|]. intros ->. rewrite Hph in Hj. by injection Hj as <-.
      * intros (ph1 & Hj & H1). destruct (Hlook j ph1 Hj) as [[<- ->]|[Hij Hj']]; [by right|left; by exists ph1].
    + rewrite Hcs, broker_calls_snoc. cbn. by rewrite <- Hb, Hcall.
    + intros j Hj. rewrite answers_of_act. rewrite elem_of_app, list_elem_of_singleton in Hj. rewrite Hn by tauto.
      rewrite decide_False; [done|]. intros ->. tauto.
    + intros n j ph1 Hnj Hj. rewrite Hcs, broker_trace_snoc, answers_of_act.
      assert (Htl : length (broker_trace l (calls_at ts lin) b0) = length lin) by by rewrite length_broker_trace, length_calls_at.
      apply lookup_app_Some in Hnj as [Hnj|[Hle Hnj]].
      * assert (Hij : i ≠ j) by (intros ->; apply Hni; by eapply list_elem_of_lookup_2).
        destruct (Hlook j ph1 Hj) as [[? _]|[_ Hj']]; [done|]. rewrite decide_False, app_nil_r by done.
        apply lookup_app_l_Some. by apply Hs.
      * apply list_lookup_singleton_Some in Hnj as [Hz <-]. destruct (Hlook i ph1 Hj) as [[_ ->]|[? _]]; [|done].
        rewrite decide_True, Hn by done. rewrite lookup_app_r, Htl by lia.
        replace (n - length lin) with 0 by lia. cbn. by rewrite <- Hb, Hcall.
Qed.

(** *** The invariant of all runs *)
Definition linearizing (b0 : broker R) (w0 : W) (k : calls) (lin : list nat) (log : list (nat * answer)) : Prop :=
  ∃ phs b h, protocol (tc_threads k) phs b h ∧ refines_held l b h (tc_shared k).1 ∧
    history b0 w0 (tc_threads k) phs lin log b (tc_shared k).2.

Lemma linearizing_step b0 w0 k k' lin log :
  linearizing b0 w0 k lin log → pstep call_prog proper_start k k' →
  mq_writing (tc_shared k').1 = None ∨ ∃ lin' log', linearizing b0 w0 k' (lin ++ lin') (log ++ log').
Proof.
  intros (phs & b & h & Hp & Hr & Hh) Hs. destruct Hs as [k c sw Hstart|ts [s w] i c X m f o [s' w'] Hi Hm].
  - right. exists [], []. rewrite !app_nil_r. destruct k as [ts [s w]]. pose proof Hstart as [-> _]. cbn in *.
    exists (phs ++ [Before]), b, h. split_and!; [by eapply protocol_start|done|by apply history_start].
  - cbn in *. destruct (Forall2_lookup_l _ _ _ _ _ (pr_follows _ _ _ _ Hp) Hi) as (ph & Hph & Hf). cbn in Hf.
    destruct (Hf b h s w Hr) as [Hrace|(a & ph' & b' & h' & Hmove & Hr' & Ha & Hf')].
    + destruct ph as [|xid r rest|rest]; [done| |done]. by destruct (pr_holds _ _ _ _ Hp i _ xid r rest Hi Hph).
    + intros ->. split; [|intros xid Hid; by destruct (pr_post _ _ _ _ Hp i _ xid Hi Hph Hid)].
      destruct c as [[p|]|[p|]|[p|]|[p|]|[p|]|[p|]|[p|]|[p|]|[p|]]; try done; cbn.
      * intros xid Hx. destruct (pr_post _ _ _ _ Hp i _ xid Hi Hph) as [Hno _]; [cbn; by rewrite Hx|done].
      * destruct (pr_put _ _ _ _ Hp i _ (req_id p) Hi Hph eq_refl) as (H1 & H2 & H3). split; [done|by apply lookup_union_None].
    + left. by rewrite Hm in Hrace.
    + right. rewrite Hm in Hr', Ha, Hf'. cbn in Hr', Ha, Hf'.
      destruct (history_act b0 w0 ts phs lin log b w w' i c (PAct m f) ph a ph' b' h h' (f o) Hh Hi Hph Hmove Ha) as (lin' & Hh').
      exists lin', (pair i <$> a), (<[i := ph']> phs), b', h'. split_and!; [by eapply protocol_act|done|done].
Qed.

Lemma linearizing_star b0 w0 sw k k' lin log :
  star (pstep call_prog proper_start) (MkThreads [] sw) k → star (pstep call_prog proper_start) k k' →
  mq_writing (tc_shared k').1 ≠ None → linearizing b0 w0 k lin log →
  ∃ lin' log', linearizing b0 w0 k' (lin ++ lin') (log ++ log').
Proof.
  intros H0 Hs Hno. revert lin log. induction Hs as [k|k k1 k2 Hstep Hs IH]; intros lin log Hk.
  - exists [], []. by rewrite !app_nil_r.
  - assert (H1 : star (pstep call_prog proper_start) (MkThreads [] sw) k1) by (eapply star_trans; [exact H0|by apply star_one]).
    destruct (linearizing_step b0 w0 k k1 lin log Hk Hstep) as [Hrace|(lin1 & log1 & Hk1)].
    { exfalso. apply Hno. eapply races_last; [|exact H1|exact Hs|exact Hrace]. by intros ? ? ? [-> _]. }
    destruct (IH H1 Hno _ _ Hk1) as (lin2 & log2 & H2). exists (lin1 ++ lin2), (log1 ++ log2). by rewrite !app_assoc.
Qed.

Lemma linearizing_start b0 s0 w0 : refines l b0 s0 → linearizing b0 w0 (MkThreads [] (s0, w0)) [] [].
Proof.
  intros Hr. exists [], b0, ∅. split_and!.
  - split; cbn; try done; try by intros *; rewrite lookup_nil. intros xid. rewrite lookup_empty. by intros [? ?].
  - split; [|apply map_disjoint_empty_r]. cbn. rewrite map_union_empty. by destruct b0.
  - split; cbn; try done; [apply NoDup_nil_2| |by rewrite app_nil_r]. intros i. rewrite elem_of_nil. split; [done|]. by intros (ph & Hi & _).
Qed.

(** What the invariant says of calls. *)
Lemma linearizing_linearization b0 w0 k lin log : linearizing b0 w0 k lin log → linearization l b0 w0 k lin log.
Proof.
  intros (phs & b & h & Hp & Hr & Hh).
  assert (Hend : ∀ i t, tc_threads k !! i = Some t → has_ended t.2 = true → phs !! i = Some (Replying [])).
  { intros i [c p] Hi He. destruct (Forall2_lookup_l _ _ _ _ _ (pr_follows _ _ _ _ Hp) Hi) as (ph & Hph & Hf).
    cbn in *. destruct p; [|done]. destruct Hf as [_ ->]. done. }
  pose proof (λ i, history_range _ _ _ _ _ _ _ _ i Hh) as Hrange. destruct Hh as [Hlen Hnd Hlin Hb Ha Hn Hs]. split_and!; try done.
  - intros i t Hi He. apply Hlin. exists (Replying []). split; [by eapply Hend|done].
  - intros n i t Hni Hi. assert (Hin : i ∈ lin) by by eapply list_elem_of_lookup_2. apply Hlin in Hin as (ph & Hph & _).
    exists (answers_of i log ++ remaining ph). split_and!; [by apply Hs|by apply prefix_app_r|].
    intros He. rewrite (Hend i t Hi He) in Hph. injection Hph as <-. by rewrite app_nil_r.
  - intros Hall. rewrite <- Hb. destruct Hr as [Hr _]. replace h with (∅ : gmap Z R) in Hr; [rewrite map_union_empty in Hr; by destruct b|].
    symmetry. apply map_empty. intros xid. apply eq_None_not_Some. intros (i & r & rest & Hi)%(pr_held _ _ _ _ Hp).
    destruct (Forall2_lookup_r _ _ _ _ _ (pr_follows _ _ _ _ Hp) Hi) as (t & Ht & _).
    pose proof (Forall_lookup_1 _ _ _ _ Hall Ht) as He. rewrite (Hend i t Ht He) in Hi. done.
Qed.
End together.

(** C2: the concurrent queue is an atomic broker, for calls that start properly.
    Calls run at once on a queue that implements the broker [b0], their critical
    sections and request calls interleaving in any way, where ([proper_start]) no
    PUT brings an identifier in use, no POST names a job that still waits in the
    queue and no two POSTs name the same job, and no two handlers worked on the same field of one request at once.  Then there is an order of the calls, fitting the times
    at which they started and ended (what has ended is in the order of an earlier
    state, and that order only grows at its end), in which the broker gives each
    call the answers that it has sent and, when all have ended, the state that is
    left. *)
Theorem queue_linearizable (l : mq_limits) (b0 : broker R) (s0 : SyncQueue R) (w0 : W) (k1 k2 : calls) :
  refines l b0 s0 →
  star (pstep call_prog proper_start) (MkThreads [] (s0, w0)) k1 → star (pstep call_prog proper_start) k1 k2 →
  mq_writing (tc_shared k2).1 ≠ None →
  ∃ lin1 log1 lin2 log2,
    linearization l b0 w0 k1 lin1 log1 ∧ linearization l b0 w0 k2 (lin1 ++ lin2) (log1 ++ log2).
Proof.
  intros Hr H1 H2 Hno. pose proof (linearizing_start l b0 s0 w0 Hr) as H0.
  assert (Hno1 : mq_writing (tc_shared k1).1 ≠ None).
  { intros Hrace. apply Hno. eapply races_last; [|exact H1|exact H2|exact Hrace]. by intros ? ? ? [-> _]. }
  destruct (linearizing_star l b0 w0 _ _ k1 [] [] (star_refl _ _) H1 Hno1 H0) as (lin1 & log1 & Hk1).
  destruct (linearizing_star l b0 w0 _ k1 k2 _ _ H1 H2 Hno Hk1) as (lin2 & log2 & Hk2).
  exists lin1, log1, lin2, log2. split; by apply linearizing_linearization.
Qed.

(** *** Runs that can be computed *)
Definition start_call (c : mq_call R) (k : calls) : calls := MkThreads (tc_threads k ++ [(c, call_prog c)]) (tc_shared k).

Definition startable (k : calls) (c : mq_call R) : bool :=
  has_request c &&
  match put_id c with
  | Some i => bool_decide ((i ∉ mq_queue (tc_shared k).1) ∧ mq_messages (tc_shared k).1 !! i = None ∧
      Forall (λ t, put_id t.1 ≠ Some i ∧ post_id t.1 ≠ Some i) (tc_threads k))
  | None => true
  end &&
  match post_id c with
  | Some i => bool_decide ((i ∉ mq_queue (tc_shared k).1) ∧
      Forall (λ t, post_id t.1 ≠ Some i ∧ (put_id t.1 = Some i → has_ended t.2 = true)) (tc_threads k))
  | None => true
  end.

Lemma startable_star k c : startable k c = true → star (pstep call_prog proper_start) k (start_call c k).
Proof.
  unfold startable. intros [[Hreq H1]%andb_prop H2]%andb_prop. apply star_one, p_start. split_and!; [done|done|..].
  - intros i Hi. rewrite Hi in H1. by apply bool_decide_eq_true_1 in H1.
  - intros i Hi. rewrite Hi in H2. by apply bool_decide_eq_true_1 in H2.
Qed.
End conc.

(** ** Two POSTs for one job

    Two answers to a job that is stored can arrive at once: both POSTs find its
    request before either takes it out of the tables, and both begin to write
    its telemetry. *)
Section race.
Context {W R : Type} `{!IRequest W R, !IReliable W R, !StaleText}.

Abbreviation calls := (tconf (SyncQueue R * W) (mq_call R)).

(** A call may start at any time. *)
Definition starts_any (k : calls) (_ : mq_call R) (sw : SyncQueue R * W) : Prop := sw = tc_shared k.
Abbreviation steps := (star (pstep call_prog starts_any)).

(** A POST comes to the point where it begins to write to the request it found. *)
Lemma post_comes_to_writing (ts : list (mq_call R * prog (SyncQueue R * W) unit)) s w n c (p r : R) i :
  ts !! n = Some (c, pPost (Some p)) → req_forward p ≠ [] → stoul (req_forward p) = Ret i → mq_messages s !! i = Some r →
  ∃ f : outcome unit → prog (SyncQueue R * W) unit,
    steps (MkThreads ts (s, w)) (MkThreads (<[n := (c, PAct (on_fst (start_writing (time_of i ExtractAt))) f)]> ts) (s, w)) ∧ f Undef = PDone Undef.
Proof.
  intros Hn Hne Hi Hr. destruct (rel_forward p w) as (z & Hz & Hzs & Hze).
  rewrite bool_decide_eq_false_2 in Hze by done.
  set (h := λ _ : bytes, _ ← pReplyWithCode (Some p) 400 (str "Bad Request. Invalid `X-MSG-FORWARD-UID` header") [] [] [];
    mret tt : prog (SyncQueue R * W) unit).
  set (p1 := pcatch_std (ppost_try (Some p) p z) h).
  assert (H1 : steps (MkThreads ts (s, w)) (MkThreads (<[n := (c, p1)]> ts) (s, w))).
  { apply star_one. eapply p_act_to; [exact Hn|unfold on_snd; cbn; by rewrite Hz|]. cbn. by rewrite Hze. }
  assert (Hp1 : ∃ g, p1 = PAct (on_fst (post_find_section i)) g ∧ ∃ f, g (Ret (Some r)) = PAct (on_fst (start_writing (time_of i ExtractAt))) f ∧ f Undef = PDone Undef).
  { unfold p1, ppost_try. rewrite Hzs. cbn [mbind prog_bind after]. rewrite Hi. cbn [mbind prog_bind after].
    eexists. split; [reflexivity|]. eexists. split; reflexivity. }
  destruct Hp1 as (g & Hp1 & f & Hg & Hf). exists f. split; [|exact Hf]. eapply star_trans; [exact H1|].
  rewrite <- (list_insert_insert_eq ts n (c, PAct (on_fst (start_writing (time_of i ExtractAt))) f) (c, p1)). apply star_one.
  eapply p_act_to; [rewrite Hp1; by apply list_lookup_insert_eq, (lookup_lt_Some _ _ _ Hn)| |exact (eq_sym Hg)].
  unfold on_fst, post_find_section, gets. cbn. by rewrite Hr.
Qed.

(** C32: two clients that answer the same stored job at once race: for requests
    whose operations succeed, the POSTs can interleave so that the second begins
    to write the telemetry of the job's request while the first is writing it,
    without a lock, which is undefined behaviour. *)
Theorem two_posts_race (s : SyncQueue R) (w : W) (p1 p2 r : R) (i : Z) :
  mq_messages s !! i = Some r → mq_writing s = Some ∅ →
  req_forward p1 ≠ [] → stoul (req_forward p1) = Ret i → req_forward p2 ≠ [] → stoul (req_forward p2) = Ret i →
  ∃ k, star (pstep call_prog starts_any) (MkThreads [] (s, w)) k ∧
    (tc_threads k).*1 = [CPost (Some p1); CPost (Some p2)] ∧
    mq_writing (tc_shared k).1 = None ∧ snd <$> tc_threads k !! 1 = Some (PDone Undef).
Proof.
  intros Hr Hw Hne1 H1 Hne2 H2.
  set (t1 := (CPost (Some p1), pPost (Some p1) : prog (SyncQueue R * W) unit)).
  set (t2 := (CPost (Some p2), pPost (Some p2) : prog (SyncQueue R * W) unit)).
  assert (Hstart : steps (MkThreads [] (s, w)) (MkThreads [t1; t2] (s, w))).
  { assert (Hc : ∀ k c, steps k (start_call c k)) by (intros; by apply star_one, p_start).
    eapply star_trans; [apply (Hc _ (CPost (Some p1)))|]. exact (Hc _ (CPost (Some p2))). }
  destruct (post_comes_to_writing [t1; t2] s w 0 (CPost (Some p1)) p1 r i eq_refl Hne1 H1 Hr) as (f1 & Hs1 & _).
  destruct (post_comes_to_writing [(CPost (Some p1), PAct (on_fst (start_writing (time_of i ExtractAt))) f1); t2] s w 1 (CPost (Some p2)) p2 r i eq_refl
    Hne2 H2 Hr) as (f2 & Hs2 & Hf2).
  assert (Hg1 : on_fst (start_writing (time_of i ExtractAt)) (s, w) = (Ret tt, (with_writing (Some (time_of i ExtractAt)) s, w))).
  { unfold on_fst, start_writing. cbn. rewrite Hw, decide_True by apply disjoint_empty_r. cbn. by rewrite (right_id_L ∅ (∪)). }
  assert (Hg2 : on_fst (start_writing (time_of i ExtractAt)) (with_writing (Some (time_of i ExtractAt)) s, w) =
    (Undef, (with_writing None (with_writing (Some (time_of i ExtractAt)) s), w))).
  { unfold on_fst, start_writing. cbn. rewrite decide_False; [done|]. unfold time_of. set_solver. }
  eexists. split.
  - eapply star_trans; [exact Hstart|]. eapply star_trans; [exact Hs1|]. eapply star_trans; [exact Hs2|].
    eapply star_step; [eapply (p_act _ _ _ _ 0); [reflexivity|exact Hg1]|].
    apply star_one. eapply (p_act _ _ _ _ 1); [reflexivity|exact Hg2].
  - cbn. rewrite Hf2. by split_and!.
Qed.
End race.

(** ** A job on its way while another call runs

    PUT 11 has asked for its identifier when PUT 12 comes and is stored first; a
    GET takes job 12 and stops, the result of job 12 is posted, and only
    then do PUT 11 and the GET go on. *)
Module Overlap.
Abbreviation run := (foldl (λ (k : tconf (SyncQueue Journal.request * Journal.store) (mq_call Journal.request)) i, thread_move i k)).

Definition begun : tconf (SyncQueue Journal.request * Journal.store) (mq_call Journal.request) :=
  run (start_call (CPut (Some (Demo.producer 11))) (MkThreads [] (Demo.empty_queue, []))) [0].
Definition taken : tconf (SyncQueue Journal.request * Journal.store) (mq_call Journal.request) :=
  run (start_call (CGet (Some (Demo.consumer 21))) (start_call (CPut (Some (Demo.producer 12))) begun)) [1; 1; 2].
Definition posted : tconf (SyncQueue Journal.request * Journal.store) (mq_call Journal.request) :=
  run (start_call (CPost (Some (Demo.answer 22 12))) taken) (replicate 14 3 ++ [0] ++ replicate 9 2).
End Overlap.

Lemma queue_linearizable_witness :
  answers (tc_shared Overlap.posted).2 =
    [(Demo.producer 12, 200%Z, str "done 12"); (Demo.answer 22 12, 200%Z, []); (Demo.consumer 21, 200%Z, str "job 12")] ∧
  mq_queue (tc_shared Overlap.posted).1 = [11%Z] ∧
  ∃ lin1 log1 lin2 log2,
    linearization Demo.limits (MkBroker [] ∅) [] Overlap.taken lin1 log1 ∧
    linearization Demo.limits (MkBroker [] ∅) [] Overlap.posted (lin1 ++ lin2) (log1 ++ log2).
Proof.
  split; [vm_compute; reflexivity|]. split; [vm_compute; reflexivity|].
  apply (queue_linearizable Demo.limits (MkBroker [] ∅) Demo.empty_queue [] Overlap.taken Overlap.posted Demo.refines_empty).
  - unfold Overlap.taken. eapply star_trans; [|apply thread_moves_star].
    eapply star_trans; [|apply startable_star; vm_compute; reflexivity].
    eapply star_trans; [|apply startable_star; vm_compute; reflexivity].
    unfold Overlap.begun. eapply star_trans; [|apply thread_moves_star]. apply startable_star. vm_compute. reflexivity.
  - unfold Overlap.posted. eapply star_trans; [|apply thread_moves_star]. apply startable_star. vm_compute. reflexivity.
  - vm_compute. discriminate.
Defined.

Lemma start_call_grows {R W} `{!IRequest W R, !IRequestLaws W R, !StaleText} (k : tconf (SyncQueue R * W) (mq_call R)) c :
  star (pstep call_prog requests_grow) k (start_call c k).
Proof. by apply star_one, p_start. Qed.

Lemma queue_safe_interleaved_witness :
  let s := (tc_shared Overlap.posted).1 in
  stored_ok s (λ r, Some (Journal.id r)) ∧ within_limit Demo.limits s ∧ is_Some (mq_messages s !! 11%Z).
Proof.
  destruct (queue_safe_interleaved Demo.limits (MkThreads [] (Demo.empty_queue, [])) Overlap.posted) as [H1 H2].
  - unfold Overlap.posted, Overlap.taken, Overlap.begun.
    eapply star_trans; [|apply thread_moves_star]. eapply star_trans; [|apply start_call_grows].
    eapply star_trans; [|apply thread_moves_star]. do 2 (eapply star_trans; [|apply start_call_grows]).
    eapply star_trans; [|apply thread_moves_star]. apply start_call_grows.
  - reflexivity.
  - split; [|intros i]; cbn; [intros i r|]; rewrite lookup_empty; [done|by intros []].
  - by split.
  - split; [exact H1|]. split; [exact H2|]. vm_compute. by eexists.
Defined.

(** Two clients answer job 11 at once. *)
Lemma two_posts_race_witness :
  let s := MkQueue [] {[11%Z]} {[11%Z := Demo.producer 11]} (str "sms") Demo.limits (Some ∅) in
  ∃ k, star (pstep call_prog starts_any) (MkThreads [] (s, [] : Journal.store)) k ∧
    (tc_threads k).*1 = [CPost (Some (Demo.answer 22 11)); CPost (Some (Demo.answer 23 11))] ∧
    mq_writing (tc_shared k).1 = None ∧ snd <$> tc_threads k !! 1 = Some (PDone Undef).
Proof.
  intros s. apply (two_posts_race s ([] : Journal.store) (Demo.answer 22 11) (Demo.answer 23 11) (Demo.producer 11) 11);
    first [reflexivity | vm_compute; reflexivity | vm_compute; discriminate].
Defined.
