(* ===== verification/QueueInit.v ===== *)
(** * QueueInit: starting and stopping the synchronous queue

    [Initialize], [Finalize], [GetInfo], [Serialize] and [UnSerialize] of
    [mq/mq-sync/src/sync-queue.cpp], and the kernel's [Write] and [Read] of
    [kernel/main/kernel.cpp] that the last two call.  Whether a Dom object
    implements an interface is a parameter. *)
From Stdlib Require Import Ascii String.
From stdpp Require Import options.
From S2P Require Import Prelude Numerals OptionParse Config SyncQueue.

#[local] Open Scope Z_scope.

(** What [GetConfigValue] of the object behind [IConfig] answers. *)
Definition config_reader : Type := bytes → bytes → bytes.

(** [try { stol(...) } catch (...) { 0 }], converted to [size_t]. *)
Definition limit_option (text : bytes) : Z := match stol text with Ret v => u64 v | _ => 0 end.

(** The options both queue modules read. *)
Definition read_limits (get : config_reader) : outcome mq_limits :=
  period ← time_period (get (str "queue-limit-request") (str "0s"));
  let size := limit_option (get (str "queue-limit-size") (str "0")) in
  let tasks := limit_option (get (str "queue-limit-tasks") (str "0")) in
  Ret (MkLimits tasks size period).

(** [Kernel::Write] prints its arguments; [Kernel::Read] restores nothing. *)
Definition Kernel_Write (Key Name Value : bytes) (log : list (bytes * bytes * bytes)) : bool * list (bytes * bytes * bytes) :=
  (true, log ++ [(Key, Name, Value)]).
Definition Kernel_Read (Key : bytes) : option (bytes * bytes) := None.

Section queue.
Context {R : Type}.

(** [Serialize]: the calls of [Write], when the kernel implements
    [ISerialize]. *)
Definition Serialize (serialize : bool) (s : SyncQueue R) (log : list (bytes * bytes * bytes)) : list (bytes * bytes * bytes) :=
  if serialize then
    let log := foldl (λ log mid, (Kernel_Write (mq_name s ++ str ".locked") (str "id") (to_string mid) log).2) log (elements (mq_locked s)) in
    foldl (λ log mid, (Kernel_Write (mq_name s ++ str ".message") (str "id") (to_string mid) log).2) log (map_to_list (mq_messages s)).*1
  else log.

(** [UnSerialize]: the two loops over [Read]; the number of messages. *)
Fixpoint read_loop (fuel : nat) (Key : bytes) (n : nat) : option nat :=
  match Kernel_Read Key with
  | None => Some n
  | Some _ => match fuel with O => None | S fuel => read_loop fuel Key (S n) end
  end.

Definition UnSerialize (serialize : bool) (s : SyncQueue R) : option nat :=
  if serialize then
    match read_loop 0 (mq_name s ++ str ".locked") 0 with
    | Some _ => read_loop 0 (mq_name s ++ str ".message") 0
    | None => None
    end
  else Some 0%nat.

(** [Initialize(Name, pIKernel, pIConfig)]: the options keep what the memory
    held when the object does not give an [IConfig]. *)
Definition Initialize (Name : bytes) (kernel : bool) (config_ : option config_reader) : M (SyncQueue R) bool :=
  _ ← modify (λ s, MkQueue (mq_queue s) (mq_locked s) (mq_messages s) Name (mq_options s) (mq_writing s));
  if kernel then
    _ ← match config_ with
        | Some get =>
            limits ← lift (read_limits get);
            modify (λ s, MkQueue (mq_queue s) (mq_locked s) (mq_messages s) (mq_name s) limits (mq_writing s))
        | None => mret tt
        end;
    mret true
  else mret false.

Definition GetInfo : bytes * bytes := (str "Sync.MQ.Queue", str "0.0.1").

(** [Finalize] *)
Definition Finalize (serialize : bool) (s : SyncQueue R) (log : list (bytes * bytes * bytes)) : list (bytes * bytes * bytes) :=
  Serialize serialize s log.

(** The constructor, which leaves in the options what the memory held, and the
    destructor. *)
Definition SyncQueue_new (memory : mq_limits) : SyncQueue R := MkQueue [] ∅ ∅ [] memory (Some ∅).
Definition SyncQueue_destroy : bool → SyncQueue R → list (bytes * bytes * bytes) → list (bytes * bytes * bytes) := Finalize.
End queue.

(** The view of a configuration section as an [IConfig]: it refuses to be
    queried, so that no queue module ever reads its options. *)
Definition config_interface (c : ConfigImpl) : option config_reader :=
  if ConfigImpl_QueryInterface c then Some (GetConfigValue c) else None.

Lemma kernel_loop_write log key ids :
  foldl (λ log mid, (Kernel_Write key (str "id") (to_string mid) log).2) log ids
  = log ++ ((λ mid, (key, str "id", to_string mid)) <$> ids).
Proof.
  revert log. induction ids as [|mid ids IH]; intros log; cbn [foldl fmap list_fmap]; [by rewrite app_nil_r|].
  rewrite IH. cbn [Kernel_Write snd]. by rewrite <- app_assoc.
Qed.

(** What [Finalize] writes: the locked identifiers, then those of the messages. *)
Lemma Finalize_writes {R} (s : SyncQueue R) :
  Finalize true s [] =
    ((λ mid, (mq_name s ++ str ".locked", str "id", to_string mid)) <$> elements (mq_locked s))
    ++ ((λ mid, (mq_name s ++ str ".message", str "id", to_string mid)) <$> (map_to_list (mq_messages s)).*1).
Proof. unfold Finalize, Serialize. by rewrite !kernel_loop_write. Qed.

Lemma limit_option_printed n : 0 ≤ n → in_i64 n → limit_option (to_string n) = n.
Proof. intros Hn Hi. unfold limit_option. rewrite stol_printed by done. apply u64_small. unfold in_i64, in_u64, u64_modulus in *. lia. Qed.

(** [Initialize] reads the limits of the queue from the object behind
    [IConfig]: a printed number is the limit, a text that is no number counts
    as 0, which is no limit, and the period is in seconds.  With the kernel's
    own configuration object, whose [QueryInterface] refuses every interface,
    nothing is read: the limits keep whatever the memory held. *)
Theorem Initialize_limits {R} (Name : bytes) (get : config_reader) (c : ConfigImpl) (s : SyncQueue R) (size seconds : Z) :
  get (str "queue-limit-size") (str "0") = to_string size →
  Forall (λ c, isdigit c = false) (get (str "queue-limit-tasks") (str "0")) →
  get (str "queue-limit-request") (str "0s") = period_text None None (Some seconds) →
  0 ≤ size → in_i64 size → 0 ≤ seconds → in_i64 seconds →
  Initialize Name true (Some get) s =
    (Ret true, MkQueue (mq_queue s) (mq_locked s) (mq_messages s) Name (MkLimits 0 size seconds) (mq_writing s)) ∧
  Initialize Name true (config_interface c) s =
    (Ret true, MkQueue (mq_queue s) (mq_locked s) (mq_messages s) Name (mq_options s) (mq_writing s)).
Proof.
  intros Hsize Htasks Hper H0 Hi H1 Hi1. split; [|done].
  assert (Hr : read_limits get = Ret (MkLimits 0 size seconds)); [|unfold Initialize, mbind, M_bind, lift, modify; by rewrite Hr].
  unfold read_limits. rewrite Hper, Hsize, limit_option_printed by done.
  rewrite period_seconds by done. outcome_simpl. unfold limit_option. by rewrite stol_no_digits.
Qed.

Definition demo_reader : config_reader := λ k d,
  if decide (k = str "queue-limit-size") then str "10" else if decide (k = str "queue-limit-tasks") then str "many" else d.

Lemma Initialize_limits_witness :
  Initialize (R := nat) (str "sms") true (Some demo_reader) (MkQueue [] ∅ ∅ [] (MkLimits 7 7 7) (Some ∅)) =
    (Ret true, MkQueue [] ∅ ∅ (str "sms") (MkLimits 0 10 0) (Some ∅)) ∧
  Initialize (str "sms") true (config_interface (Config ∅ [] [] [] [])) (MkQueue (R := nat) [] ∅ ∅ [] (MkLimits 7 7 7) (Some ∅)) =
    (Ret true, MkQueue [] ∅ ∅ (str "sms") (MkLimits 7 7 7) (Some ∅)).
Proof.
  refine (Initialize_limits (str "sms") demo_reader (Config ∅ [] [] [] []) (MkQueue [] ∅ ∅ [] (MkLimits 7 7 7) (Some ∅)) 10 0 _ _ _ _ _ _ _);
    [vm_compute; reflexivity|decided|vm_compute; reflexivity|unfold in_i64; lia..].
Defined.
