(* ===== verification/SyncSapi.v ===== *)
(** * SyncSapi: the SAPI queue module, [mq/mq-sync/src/sync-sapi.cpp]

    A [PUT] is stored and executed by a detached thread, at most [LimitTasks]
    at a time; every other method is refused.  The critical sections, the
    handlers, the body of a thread, the interleavings of the threads with their
    end, and [WorkingThread], which is never started.  What
    a [Dom::Interface] holds after it was moved from belongs to the Dom library
    and is a parameter, [MovedFrom]. *)
From Stdlib Require Import Ascii String.
From stdpp Require Import options relations.
From S2P Require Import Prelude ZcString Numerals Regex OptionParse Uri Config HttpReply Interfaces SyncQueue Broker QueueInit.

#[local] Open Scope Z_scope.

Class MovedFrom (R : Type) := moved : R → option R.

(** ** The state: the [mq_*] fields; the options have no value until
    [Initialize] reads them, a stored interface may be null, and [sq_threads]
    counts the detached threads that have not ended. *)
Record SyncSapi (R : Type) := MkSapi {
  sq_working : bool;
  sq_workers : Z;
  sq_joinable : bool;               (* [mq_process] *)
  sq_queue : list Z;
  sq_messages : gmap Z (option R);
  sq_options : option mq_limits;
  sq_class : bytes; sq_script : bytes; sq_name : bytes;
  sq_threads : Z
}.
Arguments MkSapi {R}. Arguments sq_working {R}. Arguments sq_workers {R}. Arguments sq_joinable {R}.
Arguments sq_queue {R}. Arguments sq_messages {R}. Arguments sq_options {R}. Arguments sq_class {R}.
Arguments sq_script {R}. Arguments sq_name {R}. Arguments sq_threads {R}.

Section state.
Context {R : Type}.
Implicit Types s : SyncSapi R.

Definition sapi_queue (q : list Z) (m : gmap Z (option R)) s : SyncSapi R :=
  MkSapi (sq_working s) (sq_workers s) (sq_joinable s) q m (sq_options s) (sq_class s) (sq_script s) (sq_name s) (sq_threads s).
Definition sapi_workers (w t : Z) s : SyncSapi R :=
  MkSapi (sq_working s) w (sq_joinable s) (sq_queue s) (sq_messages s) (sq_options s) (sq_class s) (sq_script s) (sq_name s) t.
Definition sapi_working (b : bool) s : SyncSapi R :=
  MkSapi b (sq_workers s) (sq_joinable s) (sq_queue s) (sq_messages s) (sq_options s) (sq_class s) (sq_script s) (sq_name s) (sq_threads s).

(** [SyncSAPIHandler::SyncSAPIHandler] *)
Definition SyncSapi_new : SyncSapi R := MkSapi false 0 false [] ∅ None [] [] [] 0.

(** [Initialize(Name, pIKernel, pIConfig)] *)
Definition Sapi_Initialize (Name : bytes) (kernel : bool) (config_ : option config_reader) : M (SyncSapi R) bool :=
  _ ← modify (λ s, MkSapi (sq_working s) (sq_workers s) (sq_joinable s) (sq_queue s) (sq_messages s) (sq_options s)
                     (sq_class s) (sq_script s) Name (sq_threads s));
  if kernel then
    match config_ with
    | Some get =>
        limits ← lift (read_limits get);
        _ ← modify (λ s, MkSapi (sq_working s) (sq_workers s) (sq_joinable s) (sq_queue s) (sq_messages s) (Some limits)
                     (sq_class s) (sq_script s) (sq_name s) (sq_threads s));
        match parseSapiUri (get (str "channel-sapi") []) with
        | None => mret false
        | Some (class_, script) =>
            _ ← modify (λ s, MkSapi true (sq_workers s) (sq_joinable s) (sq_queue s) (sq_messages s) (sq_options s)
                         class_ script (sq_name s) (sq_threads s));
            mret true
        end
    | None => _ ← modify (sapi_working true); mret true
    end
  else mret false.

Definition Sapi_GetInfo : bytes * bytes := (str "Sync.MQ.SAPI", str "0.0.1").

(** [Finalize]: joining a thread that was never started throws. *)
Definition Sapi_Finalize : M (SyncSapi R) unit :=
  s ← get;
  if sq_working s then
    _ ← modify (sapi_working false);
    if sq_joinable s then mret tt else throw (StdException (str "Invalid argument"))
  else mret tt.

(** [~SyncSAPIHandler]: a destructor lets no exception out. *)
Definition SyncSapi_destroy : M (SyncSapi R) unit := λ s,
  match Sapi_Finalize s with (Throw _, s') => (Terminate, s') | r => r end.

(** ** The critical sections *)

(** [(int32_t)mq_options.LimitTasks] *)
Definition i32 (z : Z) : Z := let m := z `mod` 2 ^ 32 in if decide (m < 2 ^ 31) then m else m - 2 ^ 32.

(** May a thread be started for a message? *)
Definition may_spawn (limits : mq_limits) (workers : Z) : bool :=
  bool_decide (LimitTasks limits = 0) || bool_decide (workers < i32 (LimitTasks limits)).

(** The block of [Put] after the null checks: [emplace] of the message, then
    of the identifier the moved-from [request] still answers, then the thread.
    [None]: the request is refused. *)
Definition sapi_put_section `{!MovedFrom R} (mid : Z) (request : R) (id_after : option Z) : M (SyncSapi R) bool := λ s,
  match sq_options s with
  | None => (Undef, s)
  | Some limits =>
      if decide (LimitSize limits = 0 ∨ Z.of_nat (length (sq_queue s)) < LimitSize limits) then
        match sq_messages s !! mid with
        | Some _ => (Ret false, s)
        | None =>
            let s := sapi_queue (sq_queue s) (<[mid := Some request]> (sq_messages s)) s in
            match id_after with
            | None => (Undef, s)
            | Some mid' =>
                let s := sapi_queue (sq_queue s ++ [mid']) (sq_messages s) s in
                (Ret true, if may_spawn limits (sq_workers s) then sapi_workers (sq_workers s + 1) (sq_threads s + 1) s else s)
            end
        end
      else (Ret false, s)
  end.

(** The block of [ExecuteThread]: [None] when the queue is empty; the stored
    interface is moved out, and stays behind as what a move leaves. *)
Definition execute_section `{!MovedFrom R} : M (SyncSapi R) (option (option R)) := λ s,
  match sq_queue s with
  | [] => (Ret None, s)
  | msgid :: rest =>
      let s := sapi_queue rest (sq_messages s) s in
      match sq_messages s !! msgid with
      | Some r => (Ret (Some r), sapi_queue rest (<[msgid := r ≫= moved]> (sq_messages s)) s)
      | None => (Throw (StdException (str "_Map_base::at")), s)
      end
  end.

(** [mq_workers--] at the end of a thread. *)
Definition execute_end : SyncSapi R → SyncSapi R := λ s, sapi_workers (sq_workers s - 1) (sq_threads s - 1) s.
Definition execute_again (s : SyncSapi R) : bool := sq_working s && negb (bool_decide (sq_queue s = [])).
End state.

(** ** The handlers *)
Section handlers.
Context {W R : Type} `{!IRequest W R, !MovedFrom R}.

Abbreviation sapi := (M (SyncSapi R * W)).

Definition Sapi_ReplyWithCode (unknown : IUnknown R) (Code : Z) (Message : option bytes) (Body : bytes)
    (headers : list (cptr * cptr)) : sapi unit :=
  match unknown with
  | None => mret tt
  | Some request =>
      n ← on_fst (gets (λ s, Z.of_nat (length (sq_queue s))));
      _ ← on_snd (request_Reply request Code Message (Some (Body ++ [NUL])) (Z.of_nat (length Body))
             (headers ++ [(Live (str "X-MQ-CLASS"), Live (str "Sync.MQ.SAPI")); (Live (str "X-MQ-QUEUE"), Live (to_string n));
                          (Live (str "Content-Type"), Live (str "application/json"))]) true);
      mret tt
  end.

Definition Sapi_Put (unknown : IUnknown R) : sapi unit :=
  match unknown with
  | None => throw not_implemented
  | Some request =>
      working ← on_fst (gets sq_working);
      if working : bool then
        mid ← on_snd (GetMsgId request);
        id_after ← (match moved request with Some r => m ← on_snd (GetMsgId r); mret (Some m) | None => mret None end);
        stored ← on_fst (sapi_put_section mid request id_after);
        if stored : bool then mret tt
        else
          limits ← on_fst (gets sq_options);
          limits ← lift (or_undef limits);
          Sapi_ReplyWithCode unknown 507 (Some (str "Insufficient Storage")) []
            [(Live (str "X-MQ-LIMIT"), Live (to_string (LimitSize limits)))]
      else
        _ ← on_snd (request_Reply request 521 (Some (str "SyncQueue is down pending")) (Some [NUL]) 0 [] true);
        mret tt
  end.

Definition sapi_refuse (Message : bytes) (unknown : IUnknown R) : sapi unit :=
  Sapi_ReplyWithCode unknown 405 (Some Message) [] (allow_fields (str "PUT")).

Definition Sapi_Get : IUnknown R → sapi unit := sapi_refuse (str "Method GET Not Allowed").
Definition Sapi_Post : IUnknown R → sapi unit := sapi_refuse (str "Method GET Not Allowed").
Definition Sapi_Head : IUnknown R → sapi unit := sapi_refuse (str "Method HEAD Not Allowed").
Definition Sapi_Options : IUnknown R → sapi unit := sapi_refuse (str "Method OPTIONS Not Allowed").
Definition Sapi_Delete : IUnknown R → sapi unit := sapi_refuse (str "Method DELETE Not Allowed").
Definition Sapi_Trace : IUnknown R → sapi unit := sapi_refuse (str "Method TRACE Not Allowed").
Definition Sapi_Connect : IUnknown R → sapi unit := sapi_refuse (str "Method CONNECT Not Allowed").
Definition Sapi_Patch : IUnknown R → sapi unit := sapi_refuse (str "Method PATCH Not Allowed").

#[export] Instance SyncSapi_IMQ : IMQ (SyncSapi R) W R := {
  mq_Get := Sapi_Get; mq_Post := Sapi_Post; mq_Put := Sapi_Put; mq_Head := Sapi_Head; mq_Options := Sapi_Options;
  mq_Delete := Sapi_Delete; mq_Trace := Sapi_Trace; mq_Connect := Sapi_Connect; mq_Patch := Sapi_Patch
}.

(** One round of [ExecuteThread]: [false] when the queue was empty. *)
Definition execute_round : sapi bool :=
  x ← on_fst execute_section;
  match x with
  | None => mret false
  | Some request =>
      _ ← catch_all
            (Sapi_ReplyWithCode request 200 None (str "{}") [(Live (str "XSample-HEADER"), Live (str "909"))])
            (Sapi_ReplyWithCode request 503 (Some (str "SAPI Endpoint error")) [] []);
      mret true
  end.

(** [ExecuteThread]: nothing when the fuel is spent.  An exception that leaves
    a thread ends the process. *)
Fixpoint execute_loop (fuel : nat) : sapi (option unit) :=
  match fuel with
  | O => mret None
  | S fuel =>
      more ← execute_round;
      again ← on_fst (gets execute_again);
      if (more && again)%bool then execute_loop fuel
      else _ ← on_fst (modify execute_end); mret (Some tt)
  end.

Definition ExecuteThread (fuel : nat) : sapi (option unit) := λ sw,
  match execute_loop fuel sw with (Throw _, sw') => (Terminate, sw') | r => r end.
End handlers.

(** ** The life of the module *)

(** Started with the kernel's own configuration object, the module accepts
    work it cannot do: [Initialize] succeeds without reading an option, the
    first [PUT] reads the limit that was never set, which is undefined, and the
    destructor ends the process, because it joins a thread never started. *)
Theorem sapi_with_kernel_config {W R : Type} `{!IRequest W R, !IRequestLaws W R, !MovedFrom R} (Name : bytes) (c : ConfigImpl)
    (request : R) (mid : Z) (w : W) :
  rid request w = Some mid → match moved request with Some r => r = request | None => True end →
  ∃ s, Sapi_Initialize (R := R) Name true (config_interface c) SyncSapi_new = (Ret true, s) ∧
    (Sapi_Put (Some request) (s, w)).1 = Undef ∧ (SyncSapi_destroy s).1 = Terminate.
Proof.
  intros Hid Hm. eexists. split; [reflexivity|]. split; [|reflexivity].
  unfold Sapi_Put, mbind, M_bind, on_fst, on_snd, gets. cbn.
  rewrite GetMsgId_rid, Hid. cbn. destruct (moved request) as [r|]; [subst r|done].
  cbn. unfold on_snd. cbn. by rewrite GetMsgId_rid, Hid.
Qed.

(** ** One thread alone *)
Section alone.
Context {W R : Type} `{!IRequest W R, !IReliable W R, !MovedFrom R}.

Lemma body_of_string Body : body_of (Some (Body ++ [NUL])) (Z.of_nat (length Body)) = Body.
Proof. unfold body_of. cbn. by rewrite Nat2Z.id, take_app_length. Qed.

Lemma Sapi_ReplyWithCode_run r Code Message Body headers s w :
  ∃ w', Sapi_ReplyWithCode (Some r) Code Message Body headers (s, w) = (Ret tt, (s, w')) ∧
    answers w' = answers w ++ [(r, Code, Body)].
Proof.
  unfold Sapi_ReplyWithCode.
  destruct (rel_Reply r Code Message (Some (Body ++ [NUL])) (Z.of_nat (length Body))
    (headers ++ [(Live (str "X-MQ-CLASS"), Live (str "Sync.MQ.SAPI")); (Live (str "X-MQ-QUEUE"), Live (to_string (Z.of_nat (length (sq_queue s)))));
       (Live (str "Content-Type"), Live (str "application/json"))]) true w) as (w' & Hr & Ha).
  exists w'. rewrite body_of_string in Ha. split; [|done].
  erewrite bind_on_fst by reflexivity. erewrite bind_on_snd by exact Hr. done.
Qed.

(** The messages that wait, in the order of the queue. *)
Definition waiting_jobs (s : SyncSapi R) (rs : list R) : Prop :=
  NoDup (sq_queue s) ∧ Forall2 (λ mid r, sq_messages s !! mid = Some (Some r)) (sq_queue s) rs.

Lemma execute_round_run s w mid r q rs :
  sq_queue s = mid :: q → waiting_jobs s (r :: rs) →
  ∃ s' w', execute_round (s, w) = (Ret true, (s', w')) ∧ sq_queue s' = q ∧ waiting_jobs s' rs ∧
    sq_working s' = sq_working s ∧ sq_workers s' = sq_workers s ∧ answers w' = answers w ++ [(r, 200, str "{}")].
Proof.
  intros Hq [Hnd Hall]. rewrite Hq in Hnd, Hall. apply NoDup_cons in Hnd as [Hmid Hnd]. apply Forall2_cons in Hall as [Hr Hall].
  set (s1 := sapi_queue q (<[mid := Some r ≫= moved]> (sq_messages s)) (sapi_queue q (sq_messages s) s)).
  destruct (Sapi_ReplyWithCode_run r 200 None (str "{}") [(Live (str "XSample-HEADER"), Live (str "909"))] s1 w) as (w' & Hw & Ha).
  exists s1, w'. split.
  - unfold execute_round. assert (Hx : execute_section s = (Ret (Some (Some r)), s1)).
    { unfold execute_section. rewrite Hq. cbn [sapi_queue sq_messages]. by rewrite Hr. }
    erewrite bind_on_fst by exact Hx. unfold mbind, M_bind, catch_all. by rewrite Hw.
  - split_and!; try done. split; [done|]. cbn. eapply Forall2_impl; [|intros m r' H; exact H].
    apply Forall2_same_length_lookup in Hall as [Hlen Hl]. apply Forall2_same_length_lookup. split; [done|].
    intros i m r' Hm Hr'. rewrite lookup_insert_ne; [by eapply Hl|]. intros ->. by apply Hmid, (list_elem_of_lookup_2 _ i).
Qed.

(** C35: over requests whose operations succeed, a thread that runs alone, in a
    module that works and whose queue names each stored message once, answers
    every waiting message with 200, once and in the order of the queue, leaves the
    queue empty, gives its place up and ends, given fuel for more rounds than there
    are messages. *)
Theorem ExecuteThread_drains (fuel : nat) (s : SyncSapi R) (w : W) (rs : list R) :
  sq_working s = true → waiting_jobs s rs → (length rs < fuel)%nat →
  ∃ s' w', ExecuteThread fuel (s, w) = (Ret (Some tt), (s', w')) ∧ sq_queue s' = [] ∧
    sq_workers s' = sq_workers s - 1 ∧ answers w' = answers w ++ ((λ r, (r, 200, str "{}")) <$> rs).
Proof.
  intros Hwork Hjobs Hf.
  assert (Hloop : ∃ s' w', execute_loop fuel (s, w) = (Ret (Some tt), (s', w')) ∧ sq_queue s' = [] ∧
    sq_workers s' = sq_workers s - 1 ∧ answers w' = answers w ++ ((λ r, (r, 200, str "{}")) <$> rs));
    [|destruct Hloop as (s' & w' & Hl & H); exists s', w'; unfold ExecuteThread; by rewrite Hl].
  revert fuel s w Hwork Hjobs Hf. induction rs as [|r rs IH]; intros fuel s w Hwork Hjobs Hf; (destruct fuel as [|fuel]; [simpl in Hf; lia|]).
  - destruct Hjobs as [_ Hq%Forall2_nil_inv_r]. exists (execute_end s), w. cbn [execute_loop].
    unfold execute_round, mbind, M_bind, on_fst, execute_section, gets, modify. cbn. rewrite Hq. cbn.
    split_and!; [done..|by rewrite app_nil_r].
  - destruct Hjobs as [Hnd Hall]. apply Forall2_cons_inv_r in Hall as (mid & q & Hr & Hq & Heq).
    destruct (execute_round_run s w mid r q rs) as (s1 & w1 & Hrun & Hq1 & Hj1 & Hw1 & Hn1 & Ha1); [done|by split; [|rewrite Heq; constructor]|].
    assert (Hstep : execute_loop (S fuel) (s, w) =
      (if decide (q = []) then (Ret (Some tt), (execute_end s1, w1)) else execute_loop fuel (s1, w1))).
    { cbn [execute_loop]. rewrite (bind_run _ _ _ _ _ Hrun). unfold mbind, M_bind, on_fst, gets, modify. cbn.
      unfold execute_again. rewrite Hw1, Hwork, Hq1. case_bool_decide as Hqq; [by rewrite decide_True|by rewrite decide_False]. }
    rewrite Hstep. case_decide as Hqq.
    + assert (Hrs : rs = []) by (rewrite Hqq in Hq; by apply Forall2_nil_inv_l in Hq). subst rs.
      exists (execute_end s1), w1. split; [done|]. split; [by rewrite <- Hqq|].
      split; [|exact Ha1]. cbn. by rewrite Hn1.
    + destruct (IH fuel s1 w1) as (s' & w' & Hl & Hq' & Hn' & Ha'); [by rewrite Hw1|done|simpl in Hf; lia|].
      exists s', w'. split; [done|]. split; [done|]. split; [by rewrite Hn', Hn1|].
      rewrite Ha', Ha1. cbn [fmap list_fmap]. by rewrite <- app_assoc.
Qed.
End alone.

(** ** The threads *)

(** Where a detached thread is: at the head of its loop, sending, before the
    test of [while], before [mq_workers--], ended. *)
Inductive sapi_pc (R : Type) := TLoop | TSend (request : option R) | TCheck | TExit | TDone.
Arguments TLoop {R}. Arguments TSend {R}. Arguments TCheck {R}. Arguments TExit {R}. Arguments TDone {R}.

Section threads.
(** The identifiers that interfaces answer. *)
Context {R : Type} `{!MovedFrom R} (id_of : R → Z).

Abbreviation conf := (SyncSapi R * list (sapi_pc R))%type.

(** One thread runs on to its next point. *)
Definition thread_step (pc : sapi_pc R) (s : SyncSapi R) : option (sapi_pc R * SyncSapi R) :=
  match pc with
  | TLoop =>
      match execute_section s with
      | (Ret None, s') => Some (TExit, s')
      | (Ret (Some r), s') => Some (TSend r, s')
      | _ => None
      end
  | TSend _ => Some (TCheck, s)
  | TCheck => Some (if execute_again s then TLoop else TExit, s)
  | TExit => Some (TDone, execute_end s)
  | TDone => None
  end.

(** One round of [WorkingThread], which holds the lock: it waits, stops, or
    takes an identifier and starts a thread of [ExecuteThread] with it. *)
Inductive working_round_end := WorkingWaits | WorkingStops | WorkingStarts (s : SyncSapi R) (thread : sapi_pc R).
Definition working_round (s : SyncSapi R) : working_round_end :=
  if sq_working s then
    match sq_queue s with
    | [] => WorkingWaits
    | _ :: rest => WorkingStarts (sapi_workers (sq_workers s + 1) (sq_threads s + 1) (sapi_queue rest (sq_messages s) s)) TLoop
    end
  else WorkingStops.

(** [PUT]s come at any time; the identifier that is queued is what the interface
    answers after it was moved from, if it still answers. *)
Inductive sapi_step : conf → conf → Prop :=
  | sapi_put s ts request b s' :
      sapi_put_section (id_of request) request (id_of <$> moved request) s = (Ret b, s') →
      sapi_step (s, ts) (s', if decide (sq_threads s < sq_threads s') then ts ++ [TLoop] else ts)
  | sapi_thread s ts i pc pc' s' :
      ts !! i = Some pc → thread_step pc s = Some (pc', s') →
      sapi_step (s, ts) (s', <[i := pc']> ts).

Definition live (pc : sapi_pc R) : bool := match pc with TDone => false | _ => true end.
Definition live_threads (ts : list (sapi_pc R)) : Z := Z.of_nat (length (filter (λ pc, live pc = true) ts)).

(** A moved-from interface that still answers, answers as before. *)
Definition moves_keep_id : Prop := ∀ r r', moved r = Some r' → id_of r' = id_of r.

(** The counter of workers is the number of threads that run. *)
Definition sapi_inv (limits : mq_limits) (c : conf) : Prop :=
  sq_options c.1 = Some limits ∧ sq_workers c.1 = live_threads c.2 ∧ sq_workers c.1 ≤ LimitTasks limits ∧
  (moves_keep_id → ∀ mid, mid ∈ sq_queue c.1 → is_Some (sq_messages c.1 !! mid)).

Lemma live_insert ts i pc pc' :
  ts !! i = Some pc → live pc = live pc' → live_threads (<[i := pc']> ts) = live_threads ts.
Proof.
  intros Hi Hl. unfold live_threads. f_equal. rewrite <- (take_drop_middle ts i pc Hi) at 2.
  rewrite insert_take_drop by by eapply lookup_lt_Some. rewrite !filter_app, !filter_cons, Hl.
  destruct (decide (live pc' = true)); by rewrite !length_app.
Qed.

Lemma live_done ts i pc : ts !! i = Some pc → live pc = true → live_threads (<[i := TDone]> ts) = live_threads ts - 1.
Proof.
  intros Hi Hl. unfold live_threads. rewrite <- (take_drop_middle ts i pc Hi) at 2.
  rewrite insert_take_drop by by eapply lookup_lt_Some. rewrite !filter_app, !filter_cons, Hl.
  rewrite decide_False, decide_True by done. rewrite !length_app. simpl. lia.
Qed.

Lemma i32_small z : 0 ≤ z < 2 ^ 31 → i32 z = z.
Proof. intros Hz. unfold i32. rewrite Z.mod_small by lia. by rewrite decide_True by lia. Qed.

Lemma sapi_step_inv limits c c' :
  0 < LimitTasks limits < 2 ^ 31 → sapi_inv limits c → sapi_step c c' → sapi_inv limits c'.
Proof.
  intros Hlim (Ho & Hw & Hle & Hq) Hstep. destruct Hstep as [s ts request b s' Hput|s ts i pc pc' s' Hi Hstep]; cbn [fst snd] in *.
  - unfold sapi_put_section in Hput. rewrite Ho in Hput.
    case_decide as Hsize; [|injection Hput as <- <-; rewrite decide_False by lia; by split_and!].
    set (mid := id_of request) in *.
    destruct (sq_messages s !! mid) eqn:Hmid; [injection Hput as <- <-; rewrite decide_False by lia; by split_and!|].
    destruct (moved request) as [request'|] eqn:Hmoved; [|done]. cbn in Hput. injection Hput as <- <-.
    assert (Hq' : moves_keep_id → ∀ m, m ∈ sq_queue s ++ [id_of request'] → is_Some (<[mid:=Some request]> (sq_messages s) !! m)).
    { intros Hkeep m. rewrite (Hkeep _ _ Hmoved).
      intros [Hm|Hm%list_elem_of_singleton]%elem_of_app; [|subst m; rewrite lookup_insert_eq; eauto].
      destruct (decide (m = mid)) as [->|]; [rewrite lookup_insert_eq; eauto|]. rewrite lookup_insert_ne by done. by apply Hq. }
    unfold sapi_inv, may_spawn. cbn [sapi_queue sq_workers].
    rewrite i32_small by lia. rewrite bool_decide_false by lia. cbn [orb]. case_bool_decide as Hlt.
    + cbn. rewrite decide_True by lia. split_and!; [done| |lia|done].
      unfold live_threads in *. rewrite filter_app, length_app. simpl. lia.
    + cbn. rewrite decide_False by lia. by split_and!.
  - destruct pc as [|r| | |]; cbn [thread_step] in Hstep.
    + unfold execute_section in Hstep. destruct (sq_queue s) as [|m q] eqn:Hqs.
      * injection Hstep as <- <-. unfold sapi_inv. cbn [fst snd]. rewrite (live_insert _ _ _ _ Hi) by done. by rewrite Hqs.
      * cbn in Hstep. destruct (sq_messages s !! m) as [r|]; [|done]. injection Hstep as <- <-.
        unfold sapi_inv. cbn. rewrite (live_insert _ _ _ _ Hi) by done. split_and!; [done..|]. intros Hkeep m' Hm'.
        destruct (decide (m = m')) as [->|]; [rewrite lookup_insert_eq; eauto|]. rewrite lookup_insert_ne by done.
        apply (Hq Hkeep). by right.
    + injection Hstep as <- <-. unfold sapi_inv. cbn [fst snd]. by rewrite (live_insert _ _ _ _ Hi).
    + injection Hstep as <- <-. unfold sapi_inv. cbn [fst snd]. by rewrite (live_insert _ _ _ _ Hi) by by destruct (execute_again s).
    + injection Hstep as <- <-. unfold sapi_inv. cbn. rewrite (live_done _ _ _ Hi) by done. split_and!; [done|lia|lia|done].
    + done.
Qed.

Definition sapi_start (limits : mq_limits) : SyncSapi R :=
  MkSapi true 0 false [] ∅ (Some limits) (str "php") (str "sms.php") (str "sms") 0.

(** C22: once initialised with a limit of tasks between 1 and 2^31 - 1, the module
    never has more threads than the limit and the counter [mq_workers] is the
    number of threads that run, whatever the order of [PUT]s and threads; and if an
    interface that was moved from still answers the identifier it had, no thread
    ever misses the message of an identifier it takes. *)
Theorem sapi_threads_bounded (limits : mq_limits) (c : conf) :
  0 < LimitTasks limits < 2 ^ 31 → star sapi_step (sapi_start limits, []) c →
  sq_workers c.1 = live_threads c.2 ∧ live_threads c.2 ≤ LimitTasks limits ∧
  (moves_keep_id → (execute_section c.1).1 ≠ Throw (StdException (str "_Map_base::at"))).
Proof.
  intros Hlim Hstar.
  assert (Hinv : sapi_inv limits c).
  { eapply (star_invariant sapi_step (sapi_inv limits)); [|exact Hstar|].
    - intros a b Ha Hab. by eapply sapi_step_inv.
    - unfold sapi_inv. cbn. split_and!; [done|done|lia|by intros _ m ?%elem_of_nil]. }
  destruct Hinv as (_ & Hw & Hle & Hq). split_and!; [done|lia|]. intros Hkeep. unfold execute_section.
  destruct (sq_queue c.1) as [|m q]; [done|]. cbn. by destruct (Hq Hkeep m ltac:(left)) as [r ->].
Qed.
(** ** The threads without further [PUT]s *)

Inductive threads_only : conf → conf → Prop :=
  | only_thread s ts i pc pc' s' :
      ts !! i = Some pc → thread_step pc s = Some (pc', s') → threads_only (s, ts) (s', <[i := pc']> ts).

(** The steps a thread has left when it finds the queue empty; a message in
    the queue is worth three more. *)
Definition pc_left (pc : sapi_pc R) : nat :=
  match pc with TDone => 0 | TExit => 1 | TLoop => 2 | TCheck => 3 | TSend _ => 4 end.
Definition sapi_left (c : conf) : nat := (3 * length (sq_queue c.1) + sum_list (pc_left <$> c.2))%nat.

(** A thread that will look at the queue again. *)
Definition will_look (pc : sapi_pc R) : Prop := match pc with TLoop | TSend _ | TCheck => True | _ => False end.

Lemma pc_left_insert ts i pc pc' :
  ts !! i = Some pc → (sum_list (pc_left <$> <[i := pc']> ts) + pc_left pc = sum_list (pc_left <$> ts) + pc_left pc')%nat.
Proof.
  intros Hi. rewrite <- (take_drop_middle ts i pc Hi) at 2. rewrite insert_take_drop by by eapply lookup_lt_Some.
  rewrite !fmap_app, !sum_list_with_app. cbn. lia.
Qed.

(** One step of a thread, with everything that matters about it. *)
Lemma thread_step_left pc s pc' s' :
  thread_step pc s = Some (pc', s') →
  (3 * length (sq_queue s') + pc_left pc' < 3 * length (sq_queue s) + pc_left pc)%nat ∧ sq_working s' = sq_working s ∧
  (sq_working s = true → will_look pc' ∨ sq_queue s' = [] ∨ pc = TExit ∧ sq_queue s' = sq_queue s).
Proof.
  destruct pc as [|r| | |]; cbn [thread_step].
  - unfold execute_section. destruct (sq_queue s) as [|m q] eqn:Hq.
    + intros [= <- <-]. rewrite Hq. split_and!; [simpl; lia|done|auto].
    + cbn. destruct (sq_messages s !! m); [|done]. intros [= <- <-]. split_and!; [simpl; lia|done|by left].
  - intros [= <- <-]. split_and!; [simpl; lia|done|by left].
  - intros [= <- <-]. unfold execute_again. destruct (sq_working s); cbn [andb].
    + case_bool_decide; cbn; (split_and!; [lia|done|intros; auto]).
    + cbn. split_and!; [lia|done|done].
  - intros [= <- <-]. split_and!; [simpl; lia|done|auto].
  - done.
Qed.

Definition sapi_drains (c : conf) : Prop :=
  sq_working c.1 = true ∧ (∀ mid, mid ∈ sq_queue c.1 → is_Some (sq_messages c.1 !! mid)) ∧
  (sq_queue c.1 = [] ∨ ∃ pc, pc ∈ c.2 ∧ will_look pc).

Lemma threads_only_step c c' :
  threads_only c c' → sapi_drains c → sapi_drains c' ∧ (sapi_left c' < sapi_left c)%nat.
Proof.
  intros [s ts i pc pc' s' Hi Hstep] (Hw & Hm & Hl). destruct (thread_step_left pc s pc' s' Hstep) as (Hlt & Hw' & Hlook).
  pose proof (pc_left_insert ts i pc pc' Hi) as Hsum. split; [|unfold sapi_left; cbn [fst snd]; lia].
  cbn [fst snd] in *. split_and!; cbn [fst snd]; [congruence| |].
  - destruct pc; cbn [thread_step] in Hstep; try (injection Hstep as <- <-; exact Hm); [|done].
    unfold execute_section in Hstep. destruct (sq_queue s) as [|m q] eqn:Hq; [injection Hstep as <- <-; by rewrite Hq|].
    cbn in Hstep. destruct (sq_messages s !! m) as [r|]; [|done]. injection Hstep as <- <-. cbn. intros m' Hm'.
    destruct (decide (m = m')) as [->|]; [rewrite lookup_insert_eq; eauto|]. rewrite lookup_insert_ne by done.
    apply Hm. by right.
  - destruct (Hlook Hw) as [Hpc|[Hq|[-> Hq]]]; [|by left|].
    + right. exists pc'. split; [|done]. apply list_elem_of_insert. by eapply lookup_lt_Some.
    + destruct Hl as [Hl|(pc0 & Hin & Hpc0)]; [left; congruence|right]. exists pc0. split; [|done].
      apply list_elem_of_lookup in Hin as [j Hj]. apply list_elem_of_lookup. exists j.
      rewrite list_lookup_insert_ne; [done|]. intros ->. rewrite Hi in Hj. by injection Hj as <-.
Qed.

Lemma thread_can_step s pc :
  (∀ mid, mid ∈ sq_queue s → is_Some (sq_messages s !! mid)) → pc ≠ TDone → is_Some (thread_step pc s).
Proof.
  intros Hm Hpc. destruct pc as [|r| | |]; cbn [thread_step]; [|by eexists..|done].
  unfold execute_section. destruct (sq_queue s) as [|m q]; [by eexists|]. cbn. destruct (Hm m ltac:(left)) as [r ->]. by eexists.
Qed.


(** [WorkingThread], which nothing starts, would lose every message it takes:
    [ExecuteThread] overwrites the identifier it is given with the next one of
    the queue, and with only one message waiting its thread ends at once. *)
Theorem working_thread_loses (s : SyncSapi R) (mid : Z) :
  sq_working s = true → sq_queue s = [mid] →
  ∃ s', working_round s = WorkingStarts s' TLoop ∧ thread_step TLoop s' = Some (TExit, s') ∧
    sq_queue s' = [] ∧ sq_messages s' = sq_messages s.
Proof.
  intros Hw Hq. eexists. unfold working_round. rewrite Hw, Hq. split; [done|]. by cbn.
Qed.
End threads.

(** A [Dom::Interface] that a move leaves as it was, and one that it empties. *)
Module Demo.
#[global] Instance moved_keeps : MovedFrom Journal.request := Some.
Definition job (mid : Z) : Journal.request := Journal.MkReq mid (str "job") [].
Definition one_thread : mq_limits := MkLimits 1 0 0.
Definition after_put : SyncSapi Journal.request * list (sapi_pc Journal.request) :=
  (sapi_workers 1 1 (sapi_queue [7] {[7 := Some (job 7)]} (sapi_start one_thread)), [TLoop]).
End Demo.

Lemma sapi_with_kernel_config_witness :
  ∃ s, Sapi_Initialize (R := Journal.request) (str "sms") true (config_interface (Config ∅ [] [] [] [])) SyncSapi_new = (Ret true, s) ∧
    (Sapi_Put (Some (Demo.job 7)) (s, [])).1 = Undef ∧ (SyncSapi_destroy s).1 = Terminate.
Proof.
  apply (sapi_with_kernel_config (W := Journal.store) (str "sms") (Config ∅ [] [] [] []) (Demo.job 7) 7 []); reflexivity.
Defined.

(** Run thread [i] to its next point; a [PUT]. *)
Ltac run_thread i :=
  eapply star_step; [eapply (sapi_thread _ _ _ i); [reflexivity|vm_compute; reflexivity]|]; cbn [list_insert insert list_insert].
Ltac run_put mid :=
  eapply star_step; [eapply (sapi_put _ _ _ (Demo.job mid)); vm_compute; reflexivity|].

(** A message can be left behind: the last thread finds the queue empty,
    a [PUT] then stores its message without starting a thread because that
    thread still counts, and the thread ends.  The message stays in the queue
    and nothing works on it. *)
Theorem sapi_strands_a_message :
  ∃ c, star (sapi_step Journal.id) (sapi_start Demo.one_thread, []) c ∧
    sq_queue c.1 = [8] ∧ sq_workers c.1 = 0 ∧ Forall (λ pc : sapi_pc Journal.request, pc = TDone) c.2.
Proof.
  eexists. split.
  - run_put 7. run_thread 0%nat. run_thread 0%nat. run_thread 0%nat. run_put 8. run_thread 0%nat. apply star_refl.
  - vm_compute. split_and!; [reflexivity|reflexivity|]. by repeat constructor.
Qed.

Lemma ExecuteThread_drains_witness :
  ∃ s' w', ExecuteThread 2 (Demo.after_put.1, []) = (Ret (Some tt), (s', w')) ∧ sq_queue s' = [] ∧
    sq_workers s' = sq_workers Demo.after_put.1 - 1 ∧
    answers w' = answers (IReliable := Journal.Journal_IReliable) ([] : Journal.store) ++ ((λ r, (r, 200, str "{}")) <$> [Demo.job 7]).
Proof.
  refine (ExecuteThread_drains 2 Demo.after_put.1 ([] : Journal.store) [Demo.job 7] _ _ _); [reflexivity| |simpl; lia].
  split; [apply NoDup_singleton|]. repeat constructor.
Defined.

Lemma sapi_threads_bounded_witness :
  sq_workers Demo.after_put.1 = live_threads Demo.after_put.2 ∧ live_threads Demo.after_put.2 ≤ LimitTasks Demo.one_thread ∧
  (execute_section Demo.after_put.1).1 ≠ Throw (StdException (str "_Map_base::at")).
Proof.
  destruct (sapi_threads_bounded Journal.id Demo.one_thread Demo.after_put) as (H1 & H2 & H3); [done|run_put 7; apply star_refl|].
  split; [exact H1|]. split; [exact H2|]. apply H3. by intros r r' [= <-].
Defined.

Definition Demo_three : SyncSapi Journal.request * list (sapi_pc Journal.request) :=
  (sapi_queue [7; 8; 9] {[7 := Some (Demo.job 7); 8 := Some (Demo.job 8); 9 := Some (Demo.job 9)]} (sapi_start Demo.one_thread),
   [TLoop; TExit]).

