(* ===== verification/Router.v ===== *)
(** * Router: [kernel/main/impl/routerimpl.h] and [routerimpl.cpp]

    The path keys and their hash and comparison, the table of routes, and
    [RouterImpl::Process]: the whole life of a request on a worker, from reading
    the socket to the answer or the hand-over to a queue module, with its two
    exception handlers. *)
From Stdlib Require Import Ascii String.
From stdpp Require Import options.
From S2P Require Import Prelude Findmatch ZcString Buffer HttpParse Numerals HttpReply Interfaces RequestImpl.

#[local] Open Scope nat_scope.

(** ** Path keys

    A [cpathstring] is a pair of pointers; its copy made from a [std::string]
    has a block of its own, without a terminator.  It is the same view as a
    [zcstring]. *)
Definition cpathstring (path : bytes) : zcstring := ZcString (Some path) 0 (length path).

(** [hash()]: up to eight characters of the first segment.  [char] is signed,
    and [*it] is widened with its sign. *)
Fixpoint path_hash_loop (len : nat) (z : zcstring) (it : nat) (hash : Z) : outcome Z :=
  if decide (it < zend z) then
    c ← zderef z (Z.of_nat it);
    if decide (c = "/"%char) then Ret hash
    else match len with
         | O => Ret hash
         | S len => path_hash_loop len z (S it) (u64 (Z.shiftl (Z.lor hash (u64 (i8 c))) 8))
         end
  else Ret hash.

Definition path_hash (z : zcstring) : outcome Z :=
  match zmem z with
  | None => path_hash_loop 8 z (zbegin z) 0
  | Some _ =>
      c ← zderef z (Z.of_nat (zbegin z));
      path_hash_loop 8 z (if decide (c = "/"%char) then S (zbegin z) else zbegin z) 0
  end.

(** [compare(with)], on the characters of the two ranges. *)
Fixpoint path_compare (lit : bytes) : bytes → bool :=
  fix go (rit : bytes) : bool :=
    match lit, rit with
    | [], _ | _, [] => true
    | l :: lit', r :: rit' =>
        if decide (l ≠ r) then
          if decide (l = "?"%char) then
            if decide (r ≠ "/"%char) then go rit' else path_compare lit' rit
          else if decide (r = "?"%char) then
            if decide (l ≠ "/"%char) then path_compare lit' rit else go rit'
          else bool_decide (l = "*"%char) || bool_decide (r = "*"%char)
        else path_compare lit' rit'
    end.

(** ** The routes *)
Section routes.
Context {MQ : Type}.

(** [unordered_multimap::find] with cached hash codes: an element whose hash
    and key are both equal.  Which of several is found depends on the order
    of the table, which is the order of the list here. *)
Fixpoint Routes_find (key : zcstring) (Routes : list (bytes * MQ)) : outcome (option MQ) :=
  match Routes with
  | [] => Ret None
  | (path, mq) :: Routes =>
      h ← path_hash key;
      h' ← path_hash (cpathstring path);
      if decide (h = h' ∧ path_compare path (zview key) = true) then Ret (Some mq)
      else Routes_find key Routes
  end.

(** [AddRoute]; making the queue object and initialising it belong to the
    kernel object and the module.  Each call makes a new object, which is told
    from the others by the number of routes that there were before. *)
Definition AddRoute (CreateMQ : nat → bytes → option MQ) (Initialize : MQ → bytes → bool)
    (chPath mqClass mqName : bytes) (Routes : list (bytes * MQ)) : bool * list (bytes * MQ) :=
  if decide (chPath = []) then (false, Routes)
  else match CreateMQ (length Routes) mqClass with
       | None => (false, Routes)
       | Some mq => if Initialize mq mqName then (true, Routes ++ [(chPath, mq)]) else (false, Routes)
       end.
End routes.

(** [try { m } catch (RuntimeException &) { h1 } catch (std::exception &) { h2 }]:
    an exception of one handler is not caught by the other. *)
Definition catch_both {S A} (m : M S A) (h1 h2 : bytes → M S A) : M S A := λ s,
  match m s with
  | (Throw (RuntimeException w), s') => h1 w s'
  | (Throw (StdException w), s') => h2 w s'
  | r => r
  end.

Section process.
Context {Q : Type}.
Context `{PAST : !PastEnd} (send_res : nat → nat → Z → bytes → Z) (now : nat → Z) (strerror : Z → bytes).
(** What the socket of the request delivers, and the block [Read] allocates. *)
Context (recv : nat → nat → recv_result) (ioctl : nat → option nat) (fresh : bytes).

(** [RequestImpl(handler)]: the object is made on top of the handler. *)
Definition RequestImpl_new (this : nat) (c : Conn) : store → store := <[this := MkReq c []]>.

(** [handler->Process()] *)
Definition handler_Process (this : nat) : M store unit :=
  with_obj this (obj_handler (Process (send_res this) now recv ioctl fresh strerror)).

(** The 503 of the two [catch] blocks: [what()] is a C string. *)
Definition reply_exception (this : nat) (Message what : bytes) : M (Q * store) unit :=
  let msg := what ++ [NUL] in
  n ← lift (strlen msg);
  on_snd (handler_Reply send_res now this 503 (Some Message) (Some msg) (Z.of_nat n) [] true).

(** [RouterImpl::Process] *)
Definition Router_Process (Routes : list (bytes * IMQ Q store nat)) (this : nat) : M (Q * store) unit :=
  catch_both
    (_ ← on_snd (handler_Process this);
     uri ← on_snd (RequestImpl_GetUri this);
     route ← lift (Routes_find uri Routes);
     match route with
     | Some mq => RequestImpl_Process (IMQ0 := mq) send_res now this (Some tt)
     | None =>
         _ ← lift (zstr uri);
         on_snd (handler_Reply send_res now this 404 (Some (str "Endpoint not found")) None 0 [] true)
     end)
    (reply_exception this (str "Server.Runtime.Exception"))
    (reply_exception this (str "Server.Std.Exception")).
End process.

(** ** The path comparison against a reference

    On a path without wildcards the comparison is the pattern matcher below,
    which reads the pattern only: ["?"] skips to the next slash, ["*"] accepts
    what is left, and a path that is cut short is accepted. *)
Fixpoint drop_segment (path : bytes) : bytes :=
  match path with c :: t => if decide (c = "/"%char) then path else drop_segment t | [] => [] end.

Fixpoint glob (pattern path : bytes) : bool :=
  match pattern with
  | [] => true
  | p :: pattern =>
      if decide (p = "?"%char) then glob pattern (drop_segment path)
      else match path with
           | [] => true
           | c :: path => bool_decide (p = "*"%char) || bool_decide (p = c) && glob pattern path
           end
  end.

Definition no_wildcard (path : bytes) : Prop := Forall (λ c, c ≠ "?"%char ∧ c ≠ "*"%char) path.

Lemma path_compare_cons l lit r rit :
  path_compare (l :: lit) (r :: rit)
  = if decide (l ≠ r) then
      if decide (l = "?"%char) then
        if decide (r ≠ "/"%char) then path_compare (l :: lit) rit else path_compare lit (r :: rit)
      else if decide (r = "?"%char) then
        if decide (l ≠ "/"%char) then path_compare lit (r :: rit) else path_compare (l :: lit) rit
      else bool_decide (l = "*"%char) || bool_decide (r = "*"%char)
    else path_compare lit rit.
Proof. reflexivity. Qed.

Lemma path_compare_nil_r lit : path_compare lit [] = true.
Proof. by destruct lit. Qed.

Lemma glob_nil pattern : glob pattern [] = true.
Proof. induction pattern as [|p pattern IH]; [done|]. cbn. by case_decide. Qed.

(** C33: against a path without wildcards, the comparison of route keys is the
    pattern matcher [glob]: it goes along the pattern, a question mark takes the
    rest of a segment of the path, an asterisk takes all that is left, and where
    either text ends the two count as equal. *)
Theorem path_compare_glob (pattern path : bytes) :
  no_wildcard path → path_compare pattern path = glob pattern path.
Proof.
  revert path. induction pattern as [|p pattern IH]; intros path Hp; [by destruct path|].
  induction Hp as [|c path [Hq Hs] Hp IHp]; [by rewrite path_compare_nil_r, glob_nil|].
  cbn [path_compare glob]. destruct (decide (p = "?"%char)) as [->|Hpq].
  - rewrite decide_True by congruence. cbn [drop_segment]. destruct (decide (c = "/"%char)) as [->|Hc].
    + rewrite decide_False by auto. apply IH. by constructor.
    + rewrite decide_True by done. cbn [glob] in IHp. rewrite decide_True in IHp by done. exact IHp.
  - destruct (decide (p ≠ c)) as [Hpc|Hpc].
    + rewrite decide_False by done. rewrite (bool_decide_eq_false_2 (c = "*"%char)) by done.
      rewrite (bool_decide_eq_false_2 (p = c)) by done. by rewrite andb_false_l, orb_false_r.
    + apply dec_stable in Hpc as ->. rewrite (bool_decide_eq_false_2 (c = "*"%char)) by done.
      rewrite bool_decide_eq_true_2 by done. cbn. by apply IH.
Qed.

Lemma path_compare_glob_witness :
  no_wildcard (str "/sms/in/x") ∧ path_compare (str "/?/in/*") (str "/sms/in/x") = glob (str "/?/in/*") (str "/sms/in/x").
Proof.
  assert (H : no_wildcard (str "/sms/in/x")) by (unfold no_wildcard; decided).
  split; [exact H|]. exact (path_compare_glob (str "/?/in/*") (str "/sms/in/x") H).
Defined.

(** The comparison of keys is reflexive and symmetric. *)
Theorem path_compare_refl_sym (a b : bytes) :
  path_compare a a = true ∧ path_compare a b = path_compare b a.
Proof.
  split.
  { induction a as [|c a IH]; [done|]. cbn. rewrite decide_False by auto. exact IH. }
  revert b. induction a as [|l a IHa]; intros b; [by destruct b|].
  induction b as [|r b IHb]; [done|]. rewrite !path_compare_cons.
  destruct (decide (l ≠ r)) as [Hne|Heq].
  - rewrite (decide_True (P := r ≠ l)) by auto.
    destruct (decide (l = "?"%char)) as [->|Hl].
    + rewrite (decide_False (P := r = "?"%char)) by congruence. destruct (decide (r ≠ "/"%char)); [exact IHb|].
      apply IHa.
    + destruct (decide (r = "?"%char)) as [->|Hr]; [|by rewrite orb_comm].
      destruct (decide (l ≠ "/"%char)); [apply IHa|exact IHb].
  - apply dec_stable in Heq as ->. rewrite (decide_False (P := r ≠ r)) by auto. apply IHa.
Qed.

(** The keys break what [std::unordered_multimap] requires of its equality
    and hash: the comparison is not transitive, because a path equals each of
    its prefixes, and keys that compare equal can have different hashes. *)
Theorem path_keys_unlawful :
  ∃ a b c, path_compare a b = true ∧ path_compare b c = true ∧ path_compare a c = false ∧
    ∃ h h', path_hash (cpathstring a) = Ret h ∧ path_hash (cpathstring b) = Ret h' ∧ h ≠ h'.
Proof.
  exists (str "/a/"), (str "/"), (str "/b/"). split_and!; [reflexivity..|].
  exists 24832%Z, 0%Z. split_and!; [reflexivity..|done].
Qed.

(** ** What a request leaves behind *)

(** Every stored connection still owns its descriptor, or closed it once. *)
Definition owned (fd : nat → Z) (w : store) : Prop :=
  ∀ r o, w !! r = Some o → owns_once (fd r) (handler o).

Section owned.
Context (fd : nat → Z) (fd_nonzero : ∀ r, fd r ≠ 0%Z).
Context `{PAST : !PastEnd} (send_res : nat → nat → Z → bytes → Z) (now : nat → Z) (strerror : Z → bytes).
Context (recv : nat → nat → recv_result) (ioctl : nat → option nat) (fresh : bytes).

Lemma with_obj_owned {A} r (m : M RequestObj A) :
  preserves (λ o, owns_once (fd r) (handler o)) m → preserves (owned fd) (with_obj r m).
Proof.
  intros Hm w Hw. unfold with_obj. destruct (w !! r) as [o|] eqn:Ho; [|done].
  specialize (Hm o (Hw r o Ho)). destruct (m o) as [res o']. simpl in *.
  intros r' o1 [[<- <-]|[_ Hr]]%lookup_insert_Some; [done|by apply Hw].
Qed.

Lemma obj_handler_owned {A} r (m : M Conn A) :
  preserves (owns_once (fd r)) m → preserves (λ o, owns_once (fd r) (handler o)) (obj_handler m).
Proof. apply obj_handler_keeps. Qed.

Lemma handler_Reply_owned r code msg content len hs close :
  preserves (owned fd) (handler_Reply send_res now r code msg content len hs close).
Proof using fd_nonzero. apply with_obj_owned, obj_handler_owned, Reply_preserves, fd_nonzero. Qed.

Lemma handler_Process_owned r : preserves (owned fd) (handler_Process send_res now strerror recv ioctl fresh r).
Proof using fd_nonzero. apply with_obj_owned, obj_handler_owned, Process_preserves, fd_nonzero. Qed.

Lemma GetHeaderOption_owned r o d : preserves (λ ob, owns_once (fd r) (handler ob)) (obj_GetHeaderOption o d).
Proof. apply GetHeaderOption_keeps_handler. Qed.

Lemma RequestImpl_preserves_owned : @IRequestPreserves store nat (RequestImpl_IRequest send_res now) (owned fd).
Proof using fd_nonzero.
  split.
  - intros r. apply with_obj_owned. by intros o Ho.
  - intros r o d. apply with_obj_owned, GetHeaderOption_owned.
  - intros r. apply with_obj_owned. by intros o Ho.
  - intros r code msg content len hs close. cbn. unfold RequestImpl_Reply.
    apply preserves_bind; [apply handler_Reply_owned|]. intros. apply preserves_ret.
  - intros r o. apply with_obj_owned, obj_handler_owned.
    apply preserves_bind; intros; intros c Hc; exact Hc.
Qed.

Lemma RequestImpl_Process_owned {Q} (mq : IMQ Q store nat) this u :
  IMQPreserves mq (owned fd) →
  preserves (λ sw : Q * store, owned fd sw.2) (RequestImpl_Process (IMQ0 := mq) send_res now this u).
Proof using fd_nonzero.
  intros Hmq. destruct (mq_preserves (Some this)) as (H1 & H2 & H3 & H4 & H5 & H6 & H7 & H8 & H9).
  unfold RequestImpl_Process. destruct u; [|apply preserves_throw].
  apply preserves_bind; [apply preserves_world_snd, with_obj_owned; by intros o Ho|].
  intros []; try done. by apply preserves_world_snd, handler_Reply_owned.
Qed.
End owned.

Lemma preserves_catch_both {S A} (I : S → Prop) (m : M S A) h1 h2 :
  preserves I m → (∀ w, preserves I (h1 w)) → (∀ w, preserves I (h2 w)) → preserves I (catch_both m h1 h2).
Proof.
  intros Hm H1 H2 s Hs. specialize (Hm s Hs). unfold catch_both.
  destruct (m s) as [[a|[w|w]| |] s']; simpl in *; try done; [by apply H1|by apply H2].
Qed.

Lemma Routes_find_In {MQ} key (Routes : list (bytes * MQ)) mq :
  Routes_find key Routes = Ret (Some mq) → ∃ path, (path, mq) ∈ Routes ∧ path_compare path (zview key) = true.
Proof.
  induction Routes as [|[path m] Routes IH]; cbn [Routes_find]; [done|].
  destruct (path_hash key) as [h|e| |]; outcome_simpl; try done.
  destruct (path_hash (cpathstring path)) as [h'|e| |]; outcome_simpl; try done.
  case_decide as Hd.
  - intros [= ->]. exists path. split; [by left|apply Hd].
  - intros (p & Hp & Hc)%IH. exists p. split; [by right|done].
Qed.

(** C11: every path through the router leaves every descriptor accounted for:
    whatever the socket delivers, whichever route is taken, whether the queue
    module, the answer or an exception handler fails, each connection of the
    store still owns its descriptor or has closed it once, and its destructor
    then leaves it closed exactly once. *)
Theorem Router_descriptors {Q} `{PAST : !PastEnd} fd send_res now strerror recv ioctl fresh
    (Routes : list (bytes * IMQ Q store nat)) (this : nat) (q : Q) (w : store) :
  (∀ r, fd r ≠ 0%Z) → Forall (λ x, IMQPreserves x.2 (owned fd)) Routes → owned fd w →
  let w' := (Router_Process send_res now strerror recv ioctl fresh Routes this (q, w)).2.2 in
  owned fd w' ∧ ∀ r o, w' !! r = Some o → closes (net (HttpImpl_destroy (handler o)).2) = [fd r].
Proof.
  intros Hfd HR Hw w'.
  assert (Hrep : ∀ r code msg content len hs close,
      preserves (λ sw : Q * store, owned fd sw.2) (on_snd (handler_Reply send_res now r code msg content len hs close))).
  { intros. by apply preserves_world_snd, handler_Reply_owned. }
  assert (Hexn : ∀ msg what, preserves (λ sw : Q * store, owned fd sw.2) (reply_exception send_res now this msg what)).
  { intros. unfold reply_exception. walk. }
  assert (H : owned fd w').
  { subst w'. apply (preserves_catch_both (λ sw : Q * store, owned fd sw.2)); [|done..|exact Hw].
    apply preserves_bind; [by apply preserves_world_snd, handler_Process_owned|]. intros _.
    apply preserves_bind; [apply preserves_world_snd, with_obj_owned; by intros o Ho|]. intros uri.
    apply preserves_bind_strong; [apply preserves_lift|]. intros sw route sw' _ Hf Hsw.
    unfold lift in Hf. injection Hf as Hf ->. destruct route as [mq|].
    - apply Routes_find_In in Hf as (path & Hin & _). rewrite Forall_forall in HR.
      by apply (RequestImpl_Process_owned fd Hfd send_res now mq this (Some tt) (HR _ Hin)).
    - revert sw' Hsw. change (preserves (λ sw : Q * store, owned fd sw.2)
        (_ ← lift (zstr uri); on_snd (handler_Reply send_res now this 404 (Some (str "Endpoint not found")) None 0 [] true))).
      apply preserves_bind; [apply preserves_lift|]. done. }
  split; [exact H|]. intros r o Ho. specialize (H r o Ho). unfold HttpImpl_destroy. rewrite close_run. cbn.
  destruct H as [[-> ->]|[-> ->]]; [by rewrite decide_False|by rewrite decide_True].
Qed.

(** ** Answers of the router *)

Lemma strlen_terminated t : ∃ n, strlen (t ++ [NUL]) = Ret n ∧ n ≤ length t.
Proof.
  induction t as [|c t (n & IH & Hn)]; [by exists 0|]. cbn [strlen app]. case_decide.
  - exists 0. split; [done|]. simpl. lia.
  - exists (S n). rewrite IH. outcome_simpl. split; [done|]. simpl. lia.
Qed.


(** A request for no route is answered 404, once, on its own connection,
    which is then closed; the queue modules are not touched. *)
Theorem unknown_route_answers_404 {Q} `{PAST : !PastEnd} send_res now strerror recv ioctl fresh
    (Routes : list (bytes * IMQ Q store nat)) (this : nat) (q : Q) (w : store) (o : RequestObj) (c' : Conn) (uri : bytes) :
  w !! this = Some o →
  Process (send_res this) now recv ioctl fresh strerror (handler o) = (Ret tt, c') →
  sends_all (send_res this) → Handle (http c') ≠ 0%Z →
  Routes_find (Uri (Request (http c'))) Routes = Ret None → zstr (Uri (Request (http c'))) = Ret uri →
  ∃ c'', Router_Process send_res now strerror recv ioctl fresh Routes this (q, w)
      = (Ret tt, (q, <[this := MkReq c'' (HeaderMap o)]> w)) ∧
    let answer := answer_text (MsgId (http c')) 404 (Some (str "Endpoint not found")) [] 0 true
      ++ answer_telemetry (finished now c') ++ CRLF in
    sends (net c'') = sends (net c') ++ [(Handle (http c'), answer, Z.of_nat (length answer))] ∧
    closes (net c'') = closes (net c') ++ [Handle (http c')] ∧ Handle (http c'') = 0%Z.
Proof.
  intros Ho Hproc Hos Hh Hfind Huri.
  pose proof (answer_head_empty (MsgId (http c')) 404 (Some (str "Endpoint not found")) None 0 [] true eq_refl) as Hhead.
  destruct (Reply_run (send_res this) now c' 404 _ None 0 [] true _ [] Hhead eq_refl ltac:(done)) as (c'' & Hrun & Hs & _ & Hcl & _).
  revert Hrun Hs Hcl. unfold reply_sends, full_answer.
  rewrite Hos, (decide_True (P := Z.of_nat _ = _)), (decide_True (P := [] = [])) by done.
  rewrite (decide_True (P := all_sent _)) by by repeat constructor. rewrite (decide_False (P := Handle _ = 0%Z)) by done.
  intros Hrun Hs Hcl. exists c''. destruct Hcl as [Hcl1 Hcl2]; [by left|]. split_and!; [|done..].
  set (w1 := <[this := MkReq c' (HeaderMap o)]> w).
  assert (H1 : handler_Process send_res now strerror recv ioctl fresh this w = (Ret tt, w1)).
  { unfold handler_Process, with_obj, obj_handler. by rewrite Ho, Hproc. }
  assert (H2 : RequestImpl_GetUri this w1 = (Ret (Uri (Request (http c'))), w1)).
  { unfold RequestImpl_GetUri. rewrite with_obj_read. unfold w1. by rewrite lookup_insert_eq. }
  assert (H3 : handler_Reply send_res now this 404 (Some (str "Endpoint not found")) None 0 [] true w1
    = (Ret tt, <[this := MkReq c'' (HeaderMap o)]> w)).
  { unfold handler_Reply, with_obj, obj_handler, w1. rewrite lookup_insert_eq. cbn [handler HeaderMap].
    rewrite Hrun. by rewrite insert_insert_eq. }
  unfold Router_Process, catch_both.
  rewrite (bind_on_snd _ _ _ _ _ _ H1), (bind_on_snd _ _ _ _ _ _ H2), (bind_lift _ _ _ _ Hfind), (bind_lift _ _ _ _ Huri).
  unfold on_snd. cbn [snd fst]. by rewrite H3.
Qed.

(** ** The theorems at concrete inputs *)
Module RouterDemo.
(** A request whose head the socket delivers in one piece. *)
Definition recv (head : bytes) : nat → nat → recv_result := segment_recv [head].
Definition ioctl : nat → option nat := λ _, Some 0.
Definition now (n : nat) : Z := 1000 + Z.of_nat n.
Definition strerror (e : Z) : bytes := str "error".
Definition fresh : bytes := replicate 64 NUL.
(** Descriptor 0 is no socket. *)
Definition send_res (r n : nat) (h : Z) (d : bytes) : Z := if decide (h = 0%Z) then (-1)%Z else Z.of_nat (length d).
Definition conn : Conn := HttpImpl_new now 77 5 (str "127.0.0.1") 4711 64 64 fresh_request.
Definition obj : RequestObj := MkReq conn [].
Definition world : store := {[1%nat := obj]}.
Definition run `{PAST : !PastEnd} (head : bytes) : outcome unit * Conn := Process (send_res 1) now (recv head) ioctl fresh strerror conn.
Definition bad : bytes := str "BREW /pot HTTP/1.1" ++ CRLF ++ CRLF.
Definition get : bytes := str "GET /none HTTP/1.1" ++ CRLF ++ str "Host: a" ++ CRLF ++ CRLF.
End RouterDemo.

#[local] Existing Instance readable_past_end.


Lemma unknown_route_answers_404_witness :
  let c' := (RouterDemo.run RouterDemo.get).2 in
  ∃ c'', Router_Process (Q := unit) (λ _, full_send) RouterDemo.now RouterDemo.strerror (RouterDemo.recv RouterDemo.get)
      RouterDemo.ioctl RouterDemo.fresh [] 1 (tt, RouterDemo.world)
      = (Ret tt, (tt, <[1%nat := MkReq c'' []]> RouterDemo.world)) ∧
    let answer := answer_text (MsgId (http c')) 404 (Some (str "Endpoint not found")) [] 0 true
      ++ answer_telemetry (finished RouterDemo.now c') ++ CRLF in
    sends (net c'') = sends (net c') ++ [(Handle (http c'), answer, Z.of_nat (length answer))] ∧
    closes (net c'') = closes (net c') ++ [Handle (http c')] ∧ Handle (http c'') = 0%Z.
Proof.
  intros c'.
  assert (Hp : Process full_send RouterDemo.now (RouterDemo.recv RouterDemo.get) RouterDemo.ioctl RouterDemo.fresh
    RouterDemo.strerror RouterDemo.conn = (Ret tt, c')) by (vm_compute; reflexivity).
  assert (Hh : Handle (http c') ≠ 0%Z) by (vm_compute; discriminate).
  assert (Hu : zstr (Uri (Request (http c'))) = Ret (str "/none")) by (vm_compute; reflexivity).
  assert (Hos : sends_all full_send) by (intros n fd d; reflexivity).
  exact (unknown_route_answers_404 (λ _, full_send) RouterDemo.now RouterDemo.strerror (RouterDemo.recv RouterDemo.get)
    RouterDemo.ioctl RouterDemo.fresh [] 1 tt RouterDemo.world RouterDemo.obj c' (str "/none") eq_refl Hp Hos Hh eq_refl Hu).
Defined.
