(* ===== verification/RouterProg.v ===== *)
(** * RouterProg: [RouterImpl::Process] as a sequence of atomic actions

    What a worker does with a connection ([kernel/main/impl/routerimpl.cpp],
    [requestimpl.cpp]) with the places where other workers can come between:
    between the calls of the request object, and inside the handler of the queue
    module.  [HttpImpl::Process] is one action: it works on a connection that no
    other thread knows yet. *)
From Stdlib Require Import Ascii String.
From stdpp Require Import options relations.
From S2P Require Import Prelude Findmatch Interleave ZcString Buffer HttpParse Numerals HttpReply Interfaces RequestImpl SyncQueue QueueProg Router.

#[local] Open Scope nat_scope.

(** A queue module with the actions of its handlers. *)
Record queue_module (Q : Type) := QueueModule {
  qm_code : mq_call nat → prog (Q * store) unit
}.
Arguments QueueModule {Q}. Arguments qm_code {Q}.

Section process.
Context {Q : Type} `{PAST : !PastEnd} (send_res : nat → nat → Z → bytes → Z) (now : nat → Z) (strerror : Z → bytes).
Context (recv : nat → nat → recv_result) (ioctl : nat → option nat) (block : bytes).

Abbreviation rprog := (prog (Q * store)).
Abbreviation on_store m := (act (on_snd (S := Q) m)).

Definition preply_exception (this : nat) (Message what : bytes) : rprog unit :=
  let msg := what ++ [NUL] in
  n ← PDone (strlen msg);
  on_store (handler_Reply send_res now this 503 (Some Message) (Some msg) (Z.of_nat n) [] true).

Definition pRequestImpl_Process (this : nat) (mq : queue_module Q) : rprog unit :=
  method ← on_store (RequestImpl_GetMethod this);
  match method with
  | GET => qm_code mq (CGet (Some this))
  | POST => qm_code mq (CPost (Some this))
  | PUT => qm_code mq (CPut (Some this))
  | HEAD => qm_code mq (CHead (Some this))
  | OPTIONS => qm_code mq (COptions (Some this))
  | DELETE => qm_code mq (CDelete (Some this))
  | TRACE => qm_code mq (CTrace (Some this))
  | CONNECT => qm_code mq (CConnect (Some this))
  | PATCH => qm_code mq (CPatch (Some this))
  | UNSUPPORTED => on_store (handler_Reply send_res now this 200 (Some (str "OK")) None 0 [] true)
  end.

Definition pRouter_Process (Routes : list (bytes * queue_module Q)) (this : nat) : rprog unit :=
  pcatch_both
    (_ ← on_store (handler_Process send_res now strerror recv ioctl block this);
     uri ← on_store (RequestImpl_GetUri this);
     route ← PDone (Routes_find uri Routes);
     match route with
     | Some mq => pRequestImpl_Process this mq
     | None =>
         _ ← PDone (zstr uri);
         on_store (handler_Reply send_res now this 404 (Some (str "Endpoint not found")) None 0 [] true)
     end)
    (preply_exception this (str "Server.Runtime.Exception"))
    (preply_exception this (str "Server.Std.Exception")).

(** *** Invariants *)
Section invariant.
Context (le : Q * store → Q * store → Prop) `{!PreOrder le} (I : Q * store → Prop).
Context (reply_guarded : ∀ r code msg content len hs close,
  guards le I (on_snd (handler_Reply send_res now r code msg content len hs close))).
Context (process_guarded : ∀ r, guards le I (on_snd (handler_Process send_res now strerror recv ioctl block r))).
Context (read_guarded : ∀ A r (f : RequestObj → A), guards le I (on_snd (with_obj r (gets f)))).

Lemma pRouter_Process_keeps σ Routes this :
  Forall (λ r : bytes * queue_module Q, ∀ σ c, keeps_inv le I σ (qm_code r.2 c)) Routes →
  keeps_inv le I σ (pRouter_Process Routes this).
Proof using PreOrder0 reply_guarded process_guarded read_guarded.
  intros HR.
  assert (Hexn : ∀ σ msg what, keeps_inv le I σ (preply_exception this msg what)).
  { intros. apply keeps_inv_bind; [done|done|]. intros. by apply keeps_inv_act. }
  apply keeps_inv_catch_both; [done| |by intros; apply Hexn..].
  apply keeps_inv_bind; [done|by apply keeps_inv_act|]. intros σ1 _ _.
  apply keeps_inv_bind; [done|apply keeps_inv_act, read_guarded|]. intros σ2 uri _.
  apply keeps_inv_after. intros route Hroute. destruct route as [mq|].
  - apply Routes_find_In in Hroute as (path & Hin & _). rewrite Forall_forall in HR. specialize (HR _ Hin). cbn in HR.
    apply keeps_inv_bind; [done|apply keeps_inv_act, read_guarded|]. intros σ3 [] _; try apply HR. by apply keeps_inv_act.
  - apply keeps_inv_bind; [done|done|]. intros. by apply keeps_inv_act.
Qed.
End invariant.
End process.

(** The synchronous queue as such a module. *)
Definition sync_queue_module (send_res : nat → nat → Z → bytes → Z) (now : nat → Z) `{!StaleText} : queue_module (SyncQueue nat) :=
  let _ := RequestImpl_IRequest send_res now in
  QueueModule call_prog.

(** ** Who owns the descriptors *)

(** Object [r] still owns descriptor [d], or has closed it once. *)
Definition holds_descriptor (w : store) (r : nat) (d : Z) : Prop :=
  d ≠ 0%Z ∧ ∃ o, w !! r = Some o ∧ owns_once d (handler o).

(** Every object holds a descriptor, and keeps the one it holds. *)
Definition all_hold (w : store) : Prop := ∀ r o, w !! r = Some o → ∃ d, d ≠ 0%Z ∧ owns_once d (handler o).
Definition holds_kept (w w' : store) : Prop := ∀ r d, holds_descriptor w r d → holds_descriptor w' r d.

#[export] Instance holds_kept_preorder : PreOrder holds_kept.
Proof. split; [by intros w r d|]. intros a b c H1 H2 r d Hd. by apply H2, H1. Qed.

Lemma with_obj_holds {A} r (m : M RequestObj A) :
  (∀ d, d ≠ 0%Z → preserves (λ o, owns_once d (handler o)) m) → guards holds_kept all_hold (with_obj r m).
Proof.
  intros Hm w Hw. unfold with_obj. destruct (w !! r) as [o|] eqn:Ho; [|done].
  destruct (m o) as [res o'] eqn:Hmo. cbn. split.
  - intros r' d (Hd & o1 & Ho1 & Hown). split; [done|]. destruct (decide (r = r')) as [->|Hne].
    + rewrite Ho in Ho1. injection Ho1 as <-. exists o'. rewrite lookup_insert_eq. split; [done|].
      specialize (Hm d Hd o Hown). by rewrite Hmo in Hm.
    + exists o1. by rewrite lookup_insert_ne.
  - intros r' o1 [[<- <-]|[_ Hr]]%lookup_insert_Some; [|by apply (Hw r')].
    destruct (Hw r o Ho) as (d & Hd & Hown). exists d. split; [done|]. specialize (Hm d Hd o Hown). by rewrite Hmo in Hm.
Qed.

Section holds.
Context `{PAST : !PastEnd} (send_res : nat → nat → Z → bytes → Z) (now : nat → Z) (strerror : Z → bytes).
Context (recv : nat → nat → recv_result) (ioctl : nat → option nat) (block : bytes).

Lemma read_holds A r (f : RequestObj → A) : guards holds_kept all_hold (with_obj r (gets f)).
Proof. apply with_obj_holds. by intros d _ o Ho. Qed.

Lemma handler_Reply_holds r code msg content len hs close :
  guards holds_kept all_hold (handler_Reply send_res now r code msg content len hs close).
Proof. apply with_obj_holds. intros d Hd. apply (obj_handler_owned (λ _, d) r), Reply_preserves, Hd. Qed.

Lemma handler_Process_holds r : guards holds_kept all_hold (handler_Process send_res now strerror recv ioctl block r).
Proof. apply with_obj_holds. intros d Hd. apply (obj_handler_owned (λ _, d) r), Process_preserves, Hd. Qed.

#[export] Instance RequestImpl_guards : @IRequestGuards store nat (RequestImpl_IRequest send_res now) holds_kept all_hold.
Proof.
  split; cbn.
  - intros r. apply read_holds.
  - intros r o d. apply with_obj_holds. intros fd _. apply (GetHeaderOption_owned (λ _, fd) r).
  - intros r. apply read_holds.
  - intros r code msg content len hs close w Hw. unfold RequestImpl_Reply, mbind, M_bind.
    pose proof (handler_Reply_holds r code msg content len hs close w Hw) as Hr. by destruct (handler_Reply _ _ _ _ _ _ _ _ _ w) as [[]].
  - intros r o. apply with_obj_holds. intros d Hd. apply (obj_handler_owned (λ _, d) r).
    apply preserves_bind; intros; intros c Hc; exact Hc.
Qed.

(** *** Identifiers *)
Lemma Process_keeps_id send : conn_keeps_id (Process send now recv ioctl block strerror).
Proof.
  intros i. apply Process_keeps_invariant; [intros c Hc; exact Hc|intros t c Hc; exact Hc|intros q c Hc; exact Hc|]. intros code. exact (Reply_keeps_id send now code None None 0 [] true i).
Qed.

Lemma handler_Process_rid r w r' :
  store_rid r' (handler_Process send_res now strerror recv ioctl block r w).2 = store_rid r' w.
Proof. apply with_obj_rid, keeps_id_handler, Process_keeps_id. Qed.

Lemma handler_Reply_rid r code msg content len hs close w r' :
  store_rid r' (handler_Reply send_res now r code msg content len hs close w).2 = store_rid r' w.
Proof. apply with_obj_rid, keeps_id_handler, Reply_keeps_id. Qed.

Lemma read_rid A r (f : RequestObj → A) w r' : store_rid r' (with_obj r (gets f) w).2 = store_rid r' w.
Proof. by rewrite with_obj_read. Qed.
End holds.
