(* ===== verification/NoLoss.v ===== *)
(** * NoLoss: no request is lost

    When a handler of the synchronous queue ([mq/mq-sync/src/sync-queue.cpp])
    returns, its request has been answered, or it waits in the queue until another
    request brings its answer; and no handler takes that away from the request of
    another, in any interleaving, as long as requests have identifiers of their
    own. *)
From Stdlib Require Import Ascii String.
From stdpp Require Import options relations.
From S2P Require Import Prelude Interleave RelyGuarantee ZcString Numerals HttpParse HttpReply Interfaces RequestImpl.
From S2P Require Import SyncQueue SyncQueueSpec QueueProg Router RouterProg.

#[local] Open Scope nat_scope.

(** What requests promise to handlers that must answer them: [Reply] that closes
    the connection answers the request when it returns or throws, and nothing
    takes an answer back. *)
Class IAnswers {W R : Type} `{!IRequest W R} (leW : W → W → Prop) (J : W → Prop) `{!IRequestGuards leW J} := {
  answered : R → W → Prop;
  answered_kept : ∀ r w w', leW w w' → answered r w → answered r w';
  Reply_answers : ∀ r code msg content len hs w,
    match request_Reply r code msg content len hs true w with (Ret _, w') | (Throw _, w') => answered r w' | _ => True end
}.

Section handlers.
Context {W R : Type} `{!IRequest W R, LAWS : !IRequestLaws W R, !StaleText}.
Context (leW : W → W → Prop) `{ORDER : !PreOrder leW} (J : W → Prop) `{GUARDS : !IRequestGuards leW J, ANSWERS : !IAnswers leW J}.

Abbreviation state := (SyncQueue R * W)%type.

(** The request is answered, or waits under its identifier. *)
Definition settled (r : R) (sw : state) : Prop :=
  answered r sw.2 ∨ ∃ i, rid r sw.2 = Some i ∧ mq_messages sw.1 !! i = Some r.

(** What happens to the requests: identifiers and answers stay; new requests
    may come. *)
Definition requests_kept (w w' : W) : Prop := (∀ r i, rid r w = Some i → rid r w' = Some i) ∧ leW w w'.
Definition no_new (w w' : W) : Prop := ∀ r i, rid r w' = Some i → rid r w = Some i.

(** What a handler relies on, and what it promises. *)
Definition relies (a b : state) : Prop := requests_kept a.2 b.2 ∧ ∀ r, settled r a → settled r b.
Definition promises (a b : state) : Prop := relies a b ∧ no_new a.2 b.2.

Definition one_each (w : W) : Prop := ∀ r r' i, rid r w = Some i → rid r' w = Some i → r = r'.
Definition inv (a : state) : Prop := stored_ok a.1 (λ r, rid r a.2) ∧ one_each a.2 ∧ J a.2.

#[export] Instance requests_kept_preorder : PreOrder requests_kept.
Proof using ORDER.
  split; [by intros w|]. intros a b c [H1 H2] [H3 H4]. split; [intros r i Hr; by apply H3, H1|by transitivity b].
Qed.
#[export] Instance relies_preorder : PreOrder relies.
Proof using ORDER.
  split; [by intros a; split|]. intros a b c [H1 H2] [H3 H4]. split; [by transitivity b.2|]. intros r Hr. by apply H4, H2.
Qed.

Lemma promises_relies a b : promises a b → relies a b.
Proof. by intros []. Qed.

Lemma settled_grows r (s : SyncQueue R) w w' : requests_kept w w' → settled r (s, w) → settled r (s, w').
Proof. intros [H1 H2] [Ha|(i & Hi & Hm)]; [left; by eapply answered_kept|right]. exists i. split; [by apply H1|done]. Qed.

(** *** Actions *)
Abbreviation ok := (respects promises inv).

Lemma request_ok {A} (m : M W A) : (∀ w r, rid r (m w).2 = rid r w) → guards leW J m → ok (on_snd m).
Proof.
  intros Hm Hg [s w] (H1 & H2 & H3). cbn in H1, H2, H3. unfold on_snd. cbn. specialize (Hm w). destruct (Hg w H3) as [H4 H5].
  destruct (m w) as [o w']. cbn in *. assert (Hk : requests_kept w w') by (split; [intros r i; by rewrite Hm|done]).
  split; [split; [split; [done|]|]|].
  - intros r. by apply settled_grows.
  - intros r i. by rewrite Hm.
  - split_and!; [|intros r r' i; rewrite !Hm; apply H2|done]. destruct H1 as [H6 H7]. split; [|done].
    intros i r Hi. rewrite Hm. by apply H6.
Qed.

Lemma section_ok {A} (m : M (SyncQueue R) A) :
  (∀ s f, stored_ok s f → stored_ok (m s).2 f) → (∀ s i r, mq_messages s !! i = Some r → mq_messages (m s).2 !! i = Some r) →
  ok (on_fst m).
Proof using ORDER.
  intros Hm Hk [s w] (H1 & H2 & H3). cbn in H1, H2, H3. unfold on_fst. cbn. specialize (Hm s _ H1). specialize (Hk s).
  destruct (m s) as [o s']. cbn in *. split; [split; [split; [by apply requests_kept_preorder|]|by intros r i]|by split_and!].
  intros r [Ha|(i & Hi & Hr)]; [by left|right]. exists i. split; [done|by apply Hk].
Qed.

Lemma gets_ok {A} (f : SyncQueue R → A) : ok (on_fst (gets f)).
Proof using ORDER. by apply section_ok. Qed.
Lemma get_ok : ok (on_fst get).
Proof using ORDER. by apply section_ok. Qed.
Lemma get_section_ok : ok (on_fst get_section).
Proof using ORDER.
  apply section_ok; [apply stored_ok_get|]. intros s i r. by destruct (get_section_cases s) as [[_ ->]|(j & q & _ & ->)].
Qed.
Lemma GetMsgId_ok r : ok (on_snd (GetMsgId r)).
Proof. apply request_ok; [|apply GetMsgId_guarded]. intros w r'. by rewrite GetMsgId_rid. Qed.
Lemma GetHeaderOption_ok r o d : ok (on_snd (GetHeaderOption r o d)).
Proof. apply request_ok; [|apply GetHeaderOption_guarded]. intros. apply GetHeaderOption_stable. Qed.
Lemma GetContent_ok r : ok (on_snd (GetContent r)).
Proof. apply request_ok; [|apply GetContent_guarded]. intros. apply GetContent_stable. Qed.
Lemma SetTelemetry_ok r o : ok (on_snd (SetTelemetry r o)).
Proof. apply request_ok; [|apply SetTelemetry_guarded]. intros. apply SetTelemetry_stable. Qed.
Lemma Reply_ok r code msg content len hs close : ok (on_snd (request_Reply r code msg content len hs close)).
Proof. apply request_ok; [|apply request_Reply_guarded]. intros. apply Reply_stable. Qed.
Lemma start_ok i : ok (on_fst (start_writing i)).
Proof using ORDER.
  apply section_ok; [intros s f Hs|intros s j r]; unfold start_writing; destruct (mq_writing s); try case_decide; done.
Qed.
Lemma stop_ok {A} i (m : M state A) : ok m → ok (then_stop i m).
Proof. intros Hm sw Hs. destruct (Hm sw Hs) as [H1 H2]. unfold then_stop. by destruct (m sw) as [o [s w]]. Qed.
#[local] Hint Resolve gets_ok get_ok get_section_ok GetMsgId_ok GetHeaderOption_ok GetContent_ok SetTelemetry_ok Reply_ok start_ok
  stop_ok : fiber.

(** *** Answers *)
Abbreviation run_ends := (rg relies promises inv).

Lemma request_Reply_answers sw r code msg content len hs :
  run_ends (ret (λ _ s, answered r s.2)) sw (act (on_snd (request_Reply r code msg content len hs true))).
Proof.
  apply rg_act; [auto with fiber|]. intros [s w] _ _. pose proof (Reply_answers r code msg content len hs w) as Hr.
  unfold on_snd. cbn. by destruct (request_Reply r code msg content len hs true w) as [[] w'].
Qed.

Lemma pReplyWithCode_answers sw r code msg body hs ct :
  run_ends (ret (λ _ s, answered r s.2)) sw (pReplyWithCode (Some r) code msg body hs ct).
Proof using ORDER. apply rg_ret_act; [unfold GetStats; auto with fiber|]. intros. apply request_Reply_answers. Qed.
Lemma pReplyWithCode_view_answers sw r code msg body hs ct :
  run_ends (ret (λ _ s, answered r s.2)) sw (pReplyWithCode_view (Some r) code msg body hs ct).
Proof using ORDER. apply rg_ret_act; [unfold GetStats; auto with fiber|]. intros. apply request_Reply_answers. Qed.

(** The handler returns after its answer. *)
Lemma answer_settles sw r code msg body hs ct :
  run_ends (ret (λ _, settled r)) sw (_ ← pReplyWithCode (Some r) code msg body hs ct; mret tt).
Proof using ORDER. eapply rg_ret_bind; [apply pReplyWithCode_answers|]. intros b s Ha. by left. Qed.
Lemma answer_view_settles sw r code msg body hs ct :
  run_ends (ret (λ _, settled r)) sw (_ ← pReplyWithCode_view (Some r) code msg body hs ct; mret tt).
Proof using ORDER. eapply rg_ret_bind; [apply pReplyWithCode_view_answers|]. intros b s Ha. by left. Qed.

(** *** The handlers *)

(** Something that does not matter here is done. *)
Lemma settles_step {A B} sw (m : M state A) (f : A → prog state B) Q :
  ok m → (∀ a s, run_ends (ret Q) s (f a)) → run_ends (ret Q) sw (act m ≫= f).
Proof using ORDER.
  intros Hm Hf. apply (rg_ret_step _ _ _ (λ _, True)); [done|done|done|apply promises_relies|]. intros a s _. apply Hf.
Qed.

(** A fact about identifiers and answers stays. *)
Definition lasting (K : W → Prop) : Prop := ∀ w w', requests_kept w w' → K w → K w'.

Lemma settles_knowing {A B} (K : W → Prop) sw (m : M state A) (f : A → prog state B) Q :
  lasting K → ok m → K sw.2 → (∀ a s, K s.2 → run_ends (ret Q) s (f a)) → run_ends (ret Q) sw (act m ≫= f).
Proof using ORDER.
  intros HK Hm H0 Hf. apply (rg_ret_step _ _ _ (λ s, K s.2)); [done|done| |apply promises_relies|done].
  intros s s' [Hr _]. by apply HK.
Qed.

(** The same for writing to the request of another connection. *)
Lemma settles_shared {A B} (K : W → Prop) sw i (m : M W A) (f : A → prog state B) Q :
  lasting K → ok (on_snd m) → K sw.2 → (∀ a s, K s.2 → run_ends (ret Q) s (f a)) → run_ends (ret Q) sw (shared_request i m ≫= f).
Proof using ORDER.
  intros HK Hm H0 Hf. apply (rg_ret_bind _ _ _ (λ _ s, K s.2)); [|exact Hf].
  apply (settles_knowing K); [done|auto with fiber|done|]. intros _ s Hs. apply rg_act; [auto with fiber|].
  intros s1 [Hr1 _] HI. destruct (stop_ok i _ Hm s1 HI) as [[[Hr2 _] _] _].
  assert (H2 : K (then_stop i (on_snd m) s1).2.2) by (eapply HK; [exact Hr2|by eapply HK]).
  by destruct (then_stop i (on_snd m) s1) as [[] sw'].
Qed.

Ltac settle :=
  unfold section, request, post_find_section, head_section;
  repeat lazymatch goal with
  | |- rg _ _ _ (ret _) _ (PDone _ ≫= _) => apply rg_ret_pure; intros ? _
  | |- rg _ _ _ (ret _) _ (pReplyWithCode _ _ _ _ _ _ ≫= _) => apply answer_settles
  | |- rg _ _ _ (ret _) _ (pReplyWithCode_view _ _ _ _ _ _ ≫= _) => apply answer_view_settles
  | |- rg _ _ _ (ret _) _ (shared_request _ _ ≫= _) =>
      apply (settles_shared (λ _, True)); [by intros ?|solve [auto with fiber]|exact I|intros ? ? _]
  | |- rg _ _ _ (ret _) _ (act _ ≫= _) => apply settles_step; [solve [auto with fiber]|intros ? ?]
  | |- rg _ _ _ (ret _) _ (match ?x with _ => _ end) => destruct x
  end.

Lemma pGet_settles sw r : run_ends (ret (λ _, settled r)) sw (pGet (Some r)).
Proof using ORDER. unfold pGet. settle. Qed.

Lemma pHead_settles sw r : run_ends (ret (λ _, settled r)) sw (pHead (Some r)).
Proof using ORDER. unfold pHead. settle. case_decide; settle. Qed.

Lemma pOptions_settles sw r : run_ends (ret (λ _, settled r)) sw (pOptions (Some r)).
Proof using ORDER. unfold pOptions. settle. Qed.

Lemma prefused_settles sw r m1 m2 : run_ends (ret (λ _, settled r)) sw (prefused (Some r) m1 m2).
Proof using ORDER. unfold prefused. settle. Qed.

Lemma rid_lasting r i : lasting (λ w, rid r w = Some i).
Proof. intros w w' [Hr _]. apply Hr. Qed.

(** PUT leaves its request under the identifier it asked for: what is stored
    there is that request, since no other has the identifier. *)
Lemma put_section_stores mid r (s : SyncQueue R) w :
  rid r w = Some mid → inv (s, w) →
  let s' := (put_section mid r s).2 in
  promises (s, w) (s', w) ∧ inv (s', w) ∧ ((put_section mid r s).1 = Ret true → settled r (s', w)).
Proof using ORDER.
  intros Hr (H1 & H2 & H3) s'. cbn in H1, H2, H3.
  assert (Hk : ∀ i x, mq_messages s !! i = Some x → mq_messages s' !! i = Some x).
  { intros i x Hi. unfold s'. destruct (put_section_cases mid r s) as [(_ & _ & ->)|[_ ->]]; [done|]. cbn. case_decide; [|done].
    rewrite lookup_insert_ne; [done|]. congruence. }
  split_and!.
  - split; [split; [by apply requests_kept_preorder|]|by intros x i].
    intros x [Ha|(i & Hi & Hx)]; [by left|right]. exists i. split; [done|by apply Hk].
  - split_and!; [by apply stored_ok_put|done..].
  - unfold s'. destruct (put_section_cases mid r s) as [(_ & _ & ->)|[_ ->]]; [done|]. cbn. intros [= Hnew]. right. exists mid.
    rewrite bool_decide_eq_true in Hnew. split; [done|]. cbn. by rewrite decide_True, lookup_insert_eq.
Qed.

Lemma pPut_settles sw r : run_ends (ret (λ _, settled r)) sw (pPut (Some r)).
Proof using ORDER LAWS.
  unfold pPut, request. apply rg_ret_act; [auto with fiber|]. intros sw1 mid sw2 _ _ Hid. unfold on_snd in Hid.
  rewrite GetMsgId_rid in Hid. destruct (rid r sw1.2) as [i|] eqn:Hi; cbn in Hid; [|done]. injection Hid as <- <-.
  eapply rg_ret_bind.
  - intros [s w] [Hle _] Hs. cbn in Hle. assert (Hr : rid r w = Some i) by by apply Hle.
    destruct (put_section_stores i r s w Hr Hs) as (H1 & H2 & H3). unfold on_fst. cbn.
    destruct (put_section i r s) as [o s']. cbn in *. split; [exact H1|]. split; [exact H2|].
    instantiate (1 := λ a s, a = true → settled r s). destruct o; cbn; [|done..]. intros ->. by apply H3.
  - intros [] s Hs; [by apply rg_ret_done; intros [] _; apply Hs|]. settle.
Qed.

(** POST erases a request that it has answered. *)
Lemma erase_ok xid x (s : SyncQueue R) w :
  rid x w = Some xid → answered x w → inv (s, w) →
  promises (s, w) ((post_erase_section xid s).2, w) ∧ inv ((post_erase_section xid s).2, w).
Proof using ORDER.
  intros Hx Ha (H1 & H2 & H3). cbn in H1, H2, H3. split; [split; [split; [by apply requests_kept_preorder|]|by intros y i]|].
  - intros y [Hy|(i & Hi & Hm)]; [by left|]. destruct (decide (i = xid)) as [->|Hne].
    + left. by rewrite (H2 y x xid Hi Hx).
    + right. exists i. split; [done|]. cbn. by rewrite lookup_delete_ne.
  - split_and!; [by apply stored_ok_erase|done..].
Qed.

Lemma ppost_try_settles sw r z : run_ends (ret (λ _, settled r)) sw (ppost_try (Some r) r z).
Proof using ORDER LAWS.
  unfold ppost_try, section, request, post_find_section. apply rg_ret_pure. intros xs _. apply rg_ret_pure. intros xid _.
  apply rg_ret_act; [auto with fiber|]. intros [s w] [x|] sw1 _ (Hok & _) Hfind; [|settle].
  unfold on_fst, gets in Hfind. cbn in Hfind. injection Hfind as Hx <-.
  assert (Hrid : rid x w = Some xid) by (destruct Hok as [Hok _]; by apply Hok).
  pose proof (rid_lasting x xid) as HK.
  apply (settles_shared (λ w, rid x w = Some xid)); [done|auto with fiber|done|]. intros _ sw2 H2.
  apply (settles_knowing (λ w, rid x w = Some xid)); [done|auto with fiber|done|]. intros body sw3 H3.
  apply (settles_knowing (λ w, rid x w = Some xid)); [done|auto with fiber|done|]. intros mid sw4 H4.
  apply (settles_knowing (λ w, rid x w = Some xid)); [done|auto with fiber|done|]. intros ct sw5 H5.
  apply rg_ret_pure. intros ct' _.
  apply (rg_ret_bind _ _ _ (λ _ s, answered x s.2 ∧ rid x s.2 = Some xid)).
  - apply (settles_knowing (λ w, rid x w = Some xid)); [done|unfold GetStats; auto with fiber|done|]. intros counts sw6 H6.
    apply (settles_knowing (λ w, rid x w = Some xid)); [done|unfold section; auto with fiber|done|]. intros _ sw6' H6'.
    apply rg_act; [auto with fiber|]. intros [s7 w7] [[Hr7 _] _] _.
    pose proof (Reply_answers x 200 (Some (str "OK")) (view_pointer body) (zlength body)
      ([forward_field mid] ++ queue_fields counts ct') w7) as Hans.
    pose proof (Reply_stable x 200 (Some (str "OK")) (view_pointer body) (zlength body)
      ([forward_field mid] ++ queue_fields counts ct') true w7 x) as Hst.
    unfold then_stop, on_snd. cbn in *. destruct (request_Reply x 200 _ _ _ _ true w7) as [[b|e| |] w8]; cbn in *; [|done..].
    split; [done|]. rewrite Hst. by apply Hr7.
  - intros [] sw7 [Ha Hr7]; [|settle]. intros [s8 w8] [[Hr8 Hle8] _] Hinv. cbn in Hr8, Hle8.
    destruct (erase_ok xid x s8 w8) as [H8 H9]; [by apply Hr8|by eapply answered_kept|done|].
    split; [exact H8|]. split; [exact H9|]. apply answer_settles.
Qed.

Lemma pPost_settles sw r : run_ends (ret (λ _, settled r)) sw (pPost (Some r)).
Proof using ORDER LAWS.
  unfold pPost, request. apply settles_step; [auto with fiber|]. intros x_mid s. destruct (zempty x_mid); [settle|].
  apply rg_ret_catch_std; [apply ppost_try_settles|]. intros w s'. settle.
Qed.

(** The request a handler is called for. *)
Definition call_request (c : mq_call R) : IUnknown R :=
  match c with
  | CGet u | CPost u | CPut u | CHead u | COptions u | CDelete u | CTrace u | CConnect u | CPatch u => u
  end.

Lemma call_prog_settles sw c r : call_request c = Some r → run_ends (ret (λ _, settled r)) sw (call_prog c).
Proof using ORDER LAWS.
  destruct c as [u|u|u|u|u|u|u|u|u]; cbn; intros ->; cbn [call_prog].
  - apply pGet_settles.
  - apply pPost_settles.
  - apply pPut_settles.
  - apply pHead_settles.
  - apply pOptions_settles.
  - apply prefused_settles.
  - apply prefused_settles.
  - apply prefused_settles.
  - apply prefused_settles.
Qed.
End handlers.
