(* ===== verification/Defined.v ===== *)
(** * Defined: the queue handlers have no undefined behaviour

    The handlers of [mq/mq-sync/src/sync-queue.cpp] return or throw, and neither
    end the process nor have undefined behaviour other than a data race on a
    request ([raced]), in any interleaving, over requests whose operations do the
    same; given that the texts of destroyed temporaries are still there
    ([stale_text_lives]): [ReplyWithCode] reads them in every answer. *)
From Stdlib Require Import Ascii String.
From stdpp Require Import options relations.
From S2P Require Import Prelude Interleave RelyGuarantee ZcString Numerals HttpReply Interfaces.
From S2P Require Import SyncQueue SyncQueueSpec QueueProg NoLoss.

#[local] Open Scope nat_scope.

(** A pointer and a length that [Reply] can send: without a length it looks for
    the end of the text itself. *)
Definition sendable (Content : option bytes) (len : Z) : Prop :=
  match Content with
  | None => True
  | Some m => if decide (len = 0%Z) then ∃ n, strlen m = Ret n else Z.to_nat len ≤ length m
  end.

Definition live_field (h : cptr * cptr) : Prop := ∃ k v, h = (Live k, Live v).
Definition short_text (t : bytes) : Prop := (Z.of_nat (length t) < u64_modulus)%Z.
(** A call returns or throws. *)
Definition is_defined {A} (o : outcome A) : Prop := match o with Ret _ | Throw _ => True | Terminate | Undef => False end.

Lemma strlen_ends t u : ∃ n, strlen (t ++ NUL :: u) = Ret n.
Proof.
  induction t as [|c t [n IH]]; cbn [strlen app]; [by exists 0|]. case_decide; [by exists 0|].
  exists (S n). by rewrite IH.
Qed.

Lemma text_sendable t : sendable (Some (t ++ [NUL])) (Z.of_nat (length t)).
Proof. unfold sendable. case_decide; [apply strlen_ends|]. rewrite length_app, Nat2Z.id. lia. Qed.

(** What requests promise to handlers that must not fail. *)
Class IDefined {W R : Type} `{!IRequest W R} `{!IRequestLaws W R} (leW : W → W → Prop) (J : W → Prop) := {
  defined_guards :: IRequestGuards leW J;
  GetHeaderOption_defined : ∀ r o d w, J w → is_Some (rid r w) → short_text o → (∀ t, d = Some t → short_text t) →
    ∃ z, (GetHeaderOption r o d w).1 = Ret z ∧ zc_wf z;
  GetContent_defined : ∀ r w, J w → is_Some (rid r w) →
    ∃ z, (GetContent r w).1 = Ret z ∧ sendable (view_pointer z) (zlength z);
  SetTelemetry_defined : ∀ r o w, J w → is_Some (rid r w) → is_defined (SetTelemetry r o w).1;
  request_Reply_defined : ∀ r code msg content len hs close w, J w → is_Some (rid r w) →
    Forall live_field hs → sendable content len → is_defined (request_Reply r code msg content len hs close w).1
}.

Section handlers.
Context {W R : Type} `{!IRequest W R, LAWS : !IRequestLaws W R, !StaleText}.
Context (leW : W → W → Prop) `{ORDER : !PreOrder leW} (J : W → Prop) `{SAFE : !IDefined leW J}.
Context (stale_text_lives : ∀ t, ∃ t', stale t = Live t').

Abbreviation state := (SyncQueue R * W)%type.

(** Two handlers worked on the same field of one request at once. *)
Definition raced (s : state) : Prop := mq_writing s.1 = None.

Definition d_order (a b : state) : Prop := (rids_kept a b ∧ leW a.2 b.2) ∧ races_kept a b.
Definition d_inv (a : state) : Prop := state_ok stored_ok a ∧ J a.2.

#[export] Instance d_order_preorder : PreOrder d_order.
Proof using ORDER.
  split; [intros a; split; [split|]; reflexivity|]. intros a b c [[H1 H2] H3] [[H4 H5] H6].
  split; [split; [by transitivity b|by transitivity b.2]|by transitivity b].
Qed.

Lemma raced_stays s s' : d_order s s' → raced s → raced s'.
Proof. intros [_ Hs]. exact Hs. Qed.

Abbreviation ok := (guards d_order d_inv).
Abbreviation no_undefined := (rg d_order d_order d_inv (defined raced (λ _ _, True))).

Lemma stored_ok_ext' (s : SyncQueue R) f g : (∀ r i, f r = Some i → g r = Some i) → stored_ok s f → stored_ok s g.
Proof. intros Hfg [H1 H2]. split; [|done]. intros i r Hi. by apply Hfg, H1. Qed.

Lemma d_request {A} (m : M W A) : (∀ w r, rid r (m w).2 = rid r w) → guards leW J m → ok (on_snd m).
Proof.
  intros Hm Hg s Hs. assert (Hk : guards (λ a b, rids_kept a b ∧ leW a.2 b.2) d_inv (on_snd m)).
  { apply guards_and; [|by apply guards_on_snd]. apply request_guards; [exact stored_ok_ext'|exact Hm]. }
  destruct (Hk s Hs) as [H1 H2]. split; [split; [exact H1|by apply request_races]|exact H2].
Qed.

Lemma d_section {A} (m : M (SyncQueue R) A) :
  (∀ s f, stored_ok s f → stored_ok (m s).2 f) → guards (races_kept (W := W)) (λ _, True) (on_fst m) → ok (on_fst m).
Proof using ORDER.
  intros Hm Hr s Hs. assert (Hk : guards (λ a b, rids_kept a b ∧ leW a.2 b.2) d_inv (on_fst m)).
  { apply guards_and; [by apply section_guards|by apply section_untouched]. }
  destruct (Hk s Hs) as [H1 H2]. split; [split; [exact H1|by apply Hr]|exact H2].
Qed.

Lemma d_gets {A} (f : SyncQueue R → A) : ok (on_fst (gets f)).
Proof using ORDER. apply d_section; [done|apply gets_races]. Qed.
Lemma d_get : ok (on_fst get).
Proof using ORDER. apply d_section; [done|apply get_races]. Qed.
Lemma d_get_section : ok (on_fst get_section).
Proof using ORDER. apply d_section; [apply stored_ok_get|apply get_section_races]. Qed.
Lemma d_erase xid : ok (on_fst (post_erase_section xid)).
Proof using ORDER. apply d_section; [apply stored_ok_erase|apply erase_races]. Qed.
Lemma d_start i : ok (on_fst (start_writing i)).
Proof using ORDER.
  apply d_section; [|apply start_races]. intros s f Hs. unfold start_writing. destruct (mq_writing s); [case_decide|]; done.
Qed.
Lemma d_stop {A} i (m : M state A) : ok m → ok (then_stop i m).
Proof.
  intros Hm sw Hs. destruct (Hm sw Hs) as [[H1 H2] H3]. unfold then_stop. destruct (m sw) as [o [s w]].
  split; [split; [exact H1|]|exact H3]. intros Hn. unfold races_kept in H2. cbn in *. by rewrite (H2 Hn).
Qed.
Lemma d_GetMsgId r : ok (on_snd (GetMsgId r)).
Proof using SAFE. apply d_request; [|apply GetMsgId_guarded]. intros w r'. by rewrite GetMsgId_rid. Qed.
Lemma d_GetHeaderOption r o d : ok (on_snd (GetHeaderOption r o d)).
Proof using SAFE. apply d_request; [|apply GetHeaderOption_guarded]. intros. apply GetHeaderOption_stable. Qed.
Lemma d_GetContent r : ok (on_snd (GetContent r)).
Proof using SAFE. apply d_request; [|apply GetContent_guarded]. intros. apply GetContent_stable. Qed.
Lemma d_SetTelemetry r o : ok (on_snd (SetTelemetry r o)).
Proof using SAFE. apply d_request; [|apply SetTelemetry_guarded]. intros. apply SetTelemetry_stable. Qed.
Lemma d_Reply r code msg content len hs close : ok (on_snd (request_Reply r code msg content len hs close)).
Proof using SAFE. apply d_request; [|apply request_Reply_guarded]. intros. apply Reply_stable. Qed.
#[local] Hint Resolve d_gets d_get d_get_section d_erase d_GetMsgId d_GetHeaderOption d_GetContent d_SetTelemetry d_Reply
  d_start d_stop : fiber.

(** What the order keeps, and a request that exists. *)
Definition stays (K : state → Prop) : Prop := ∀ s s', d_order s s' → K s → K s'.
Definition alive (r : R) (s : state) : Prop := is_Some (rid r s.2).
Lemma alive_stays r : stays (alive r).
Proof. intros s s' [[Hr _] _] [i Hi]. exists i. by apply Hr. Qed.

Lemma alive2_stays r x : stays (λ s, alive r s ∧ alive x s).
Proof. intros s s' Hs [H1 H2]. split; by eapply alive_stays. Qed.

Lemma on_snd_outcome {A} (m : M W A) (s : state) : (on_snd m s).1 = (m s.2).1.
Proof. unfold on_snd. by destruct (m s.2). Qed.
Lemma on_fst_outcome {A} (m : M (SyncQueue R) A) (s : state) : (on_fst m s).1 = (m s.1).1.
Proof. unfold on_fst. by destruct (m s.1). Qed.

(** *** Steps

    [K] is what the handler knows while it runs: that its requests exist. *)
Section steps.
Context (K : state → Prop) (K_stays : stays K).

Lemma d_then {A B} s0 (p : prog state A) (f : A → prog state B) :
  K s0 → no_undefined s0 p → (∀ a s, K s → no_undefined s (f a)) → no_undefined s0 (p ≫= f).
Proof using K_stays.
  intros H0 Hp Hf. apply (defined_bind _ _ _ (λ _ s, K s)); [|exact Hf].
  eapply rg_mono; [|apply (rg_keeping _ _ _ K); [exact K_stays|done|done|exact Hp]]. by intros [a|e| |] s [H1 H2].
Qed.

Lemma d_read {A B} s0 (g : SyncQueue R → A) (f : A → prog state B) :
  K s0 → (∀ a s, K s → no_undefined s (f a)) → no_undefined s0 (section (gets g) ≫= f).
Proof using ORDER K_stays. intros H0 Hf. apply (d_then s0); [done| |done]. apply defined_act; [auto with fiber|done]. Qed.

Lemma d_header {B} r o d s0 (f : zcstring → prog state B) :
  (∀ s, K s → alive r s) → short_text o → (∀ t, d = Some t → short_text t) → K s0 →
  (∀ z s, K s → zc_wf z → no_undefined s (f z)) → no_undefined s0 (request (GetHeaderOption r o d) ≫= f).
Proof using SAFE K_stays.
  intros Hr Ho Hd H0 Hf. apply (defined_step _ _ _ raced_stays K zc_wf); [exact K_stays|auto with fiber|done| |exact Hf].
  intros s Hs [_ HJ]. rewrite on_snd_outcome. destruct (GetHeaderOption_defined r o d s.2 HJ (Hr s Hs) Ho Hd) as (z & -> & Hz). done.
Qed.

Lemma d_content {B} r s0 (f : zcstring → prog state B) :
  (∀ s, K s → alive r s) → K s0 →
  (∀ z s, K s → sendable (view_pointer z) (zlength z) → no_undefined s (f z)) → no_undefined s0 (request (GetContent r) ≫= f).
Proof using SAFE K_stays.
  intros Hr H0 Hf. apply (defined_step _ _ _ raced_stays K (λ z, sendable (view_pointer z) (zlength z))); [exact K_stays|auto with fiber|done| |exact Hf].
  intros s Hs [_ HJ]. rewrite on_snd_outcome. destruct (GetContent_defined r s.2 HJ (Hr s Hs)) as (z & -> & Hz). done.
Qed.

(** Writing to the request of another connection: if another is writing to it,
    that is a race. *)
Lemma d_shared {A} i (m : M W A) s0 :
  ok (on_snd m) → K s0 → (∀ s, K s → d_inv s → is_defined (on_snd m s).1) → no_undefined s0 (shared_request i m).
Proof using ORDER K_stays.
  intros Hm H0 Hd. apply (defined_bind _ _ _ (λ _ s, K s)).
  - apply defined_act; [auto with fiber|]. intros s Hs HI. destruct (d_start i s HI) as [Hle _].
    assert (Hk : K (on_fst (start_writing i) s).2) by (eapply K_stays; [exact Hle|by eapply K_stays]).
    unfold on_fst, start_writing, raced in *. cbn in *. destruct (mq_writing s.1) eqn:Hw; [case_decide|]; done.
  - intros _ s1 H1. apply defined_act; [auto with fiber|]. intros s Hs HI.
    assert (Hk : K s) by by eapply K_stays. specialize (Hd s Hk HI). unfold then_stop.
    by destruct (on_snd m s) as [[] [q w]].
Qed.

Lemma d_telemetry {B} i r o s0 (f : unit → prog state B) :
  (∀ s, K s → alive r s) → K s0 → (∀ s, K s → no_undefined s (f tt)) →
  no_undefined s0 (shared_request i (SetTelemetry r o) ≫= f).
Proof using SAFE K_stays ORDER.
  intros Hr H0 Hf. apply d_then; [done| |by intros []]. apply d_shared; [auto with fiber|done|].
  intros s Hs [_ HJ]. rewrite on_snd_outcome. apply SetTelemetry_defined; [done|by apply Hr].
Qed.

Lemma d_id {B} r s0 (f : Z → prog state B) :
  (∀ s, K s → alive r s) → K s0 → (∀ i s, K s → no_undefined s (f i)) → no_undefined s0 (request (GetMsgId r) ≫= f).
Proof using SAFE K_stays.
  intros Hr H0 Hf. apply (defined_step _ _ _ raced_stays K (λ _, True)); [exact K_stays|auto with fiber|done| |by intros i s Hs _; apply Hf].
  intros s Hs _. rewrite on_snd_outcome, GetMsgId_rid. destruct (Hr s Hs) as [i ->]. done.
Qed.

Lemma d_string {B} z s0 (f : bytes → prog state B) :
  zc_wf z → (∀ t, no_undefined s0 (f t)) → no_undefined s0 (PDone (zstr z) ≫= f).
Proof. intros Hz Hf. rewrite (zstr_view z Hz). apply Hf. Qed.

Lemma d_number {B} t s0 (f : Z → prog state B) : (∀ v, no_undefined s0 (f v)) → no_undefined s0 (PDone (stoul t) ≫= f).
Proof. intros Hf. destruct (stoul_cases t) as [[v ->]| ->]; [apply Hf|done]. Qed.

Lemma queue_fields_live counts ct : Forall live_field (queue_fields counts ct).
Proof using stale_text_lives.
  assert (Hs : ∀ k t, live_field (Live k, stale t)) by (intros k t; destruct (stale_text_lives t) as [t' ->]; by eexists _, _).
  assert (Hl : ∀ k t, live_field (Live k, Live t)) by (intros k t; by eexists _, _).
  destruct counts as [[a b] c]. unfold queue_fields. repeat (apply Forall_cons; split; [done|]). by case_decide; auto.
Qed.

Lemma d_reply r code msg content len hs s :
  (∀ s, K s → alive r s) → K s → Forall live_field hs → sendable content len →
  no_undefined s (request (request_Reply r code msg content len hs true)).
Proof using SAFE K_stays.
  intros Hr H0 Hh Hc. apply defined_act; [auto with fiber|]. intros s' Hle [_ HJ].
  assert (Hk : K s') by by eapply K_stays.
  pose proof (request_Reply_defined r code msg content len hs true s'.2 HJ (Hr s' Hk) Hh Hc) as Hd.
  rewrite on_snd_outcome. by destruct (request_Reply r code msg content len hs true s'.2) as [[] w].
Qed.

Lemma d_answer r code msg body hs ct s :
  (∀ s, K s → alive r s) → K s → Forall live_field hs → no_undefined s (pReplyWithCode (Some r) code msg body hs ct).
Proof using stale_text_lives SAFE ORDER K_stays.
  intros Hr H0 Hh. apply d_read; [done|]. intros counts s' Hs.
  apply d_reply; [done..| |apply text_sendable]. apply Forall_app. split; [done|apply queue_fields_live].
Qed.

Lemma d_answer_view r code msg body hs ct s :
  (∀ s, K s → alive r s) → K s → Forall live_field hs → sendable (view_pointer body) (zlength body) →
  no_undefined s (pReplyWithCode_view (Some r) code msg body hs ct).
Proof using stale_text_lives SAFE ORDER K_stays.
  intros Hr H0 Hh Hb. apply d_read; [done|]. intros counts s' Hs.
  apply d_reply; [done..| |done]. apply Forall_app. split; [done|apply queue_fields_live].
Qed.

Lemma d_producer xid r body hs ct s :
  (∀ s, K s → alive r s) → K s → Forall live_field hs → sendable (view_pointer body) (zlength body) →
  no_undefined s (pReplyProducer xid r body hs ct).
Proof using stale_text_lives SAFE ORDER K_stays.
  intros Hr H0 Hh Hb. apply d_read; [done|]. intros counts s' Hs.
  apply d_shared; [auto with fiber|done|]. intros s1 H1 [_ HJ]. rewrite on_snd_outcome.
  apply request_Reply_defined; [done|by apply Hr| |done]. apply Forall_app. split; [done|apply queue_fields_live].
Qed.
End steps.

(** *** The handlers *)
Lemma d_answered K r code msg body hs ct s :
  stays K → (∀ s, K s → alive r s) → K s → Forall live_field hs →
  no_undefined s (_ ← pReplyWithCode (Some r) code msg body hs ct; mret tt).
Proof using stale_text_lives SAFE ORDER. intros HK Hr H0 Hh. apply (d_then K); [done..|by apply (d_answer K)|done]. Qed.

Lemma alive_short r : short_text (str r) → ∀ t, Some (str r) = Some t → short_text t.
Proof. by intros Hs t [= <-]. Qed.

Lemma pGet_defined r s : alive r s → no_undefined s (pGet (Some r)).
Proof using stale_text_lives SAFE ORDER.
  intros Hr. unfold pGet. set (K := λ x s, alive r s ∧ alive x s).
  assert (HK : ∀ x, stays (K x)) by (intros x; exact (alive2_stays r x)).
  apply (defined_bind _ _ _ (λ a s, alive r s ∧ match a with Some (_, x) => alive x s | None => True end)).
  - apply defined_act; [auto with fiber|]. intros [q w] [[Hrid _] _] [[Hok _] _]. unfold on_fst. cbn in *.
    assert (Hr' : alive r (q, w)) by (destruct Hr as [i Hi]; exists i; by apply Hrid).
    destruct (get_section_cases q) as [[_ ->]|(i & q' & _ & ->)]; [done|].
    destruct (mq_messages q !! i) as [x|] eqn:Hx; [|done]. split; [done|]. exists i. by apply Hok.
  - intros [[muid x]|] s1 [H1 H2].
    + apply (d_telemetry (K x)); [apply HK|by intros ? []|done|]. intros s2 H3.
      apply (d_content (K x)); [apply HK|by intros ? []|done|]. intros body s3 H4 Hb.
      apply (d_header (K x)); [apply HK|by intros ? []|by vm_compute|by apply alive_short; vm_compute|done|].
      intros z s4 H5 Hz. apply d_string; [done|]. intros ct.
      apply (d_then (K x)); [apply HK|done| |done].
      apply (d_answer_view (K x)); [apply HK|by intros ? []|done| |done]. apply Forall_singleton. by eexists _, _.
    + by apply (d_answered (alive r)); [apply alive_stays| | |].
Qed.

Lemma ppost_try_defined r z s : zc_wf z → alive r s → no_undefined s (ppost_try (Some r) r z).
Proof using stale_text_lives SAFE ORDER.
  intros Hz Hr. unfold ppost_try. set (K := λ x s, alive r s ∧ alive x s).
  assert (HK : ∀ x, stays (K x)) by (intros x; exact (alive2_stays r x)). apply d_string; [done|]. intros t.
  apply d_number. intros xid.
  apply (defined_bind _ _ _ (λ a s, alive r s ∧ match a with Some x => alive x s | None => True end)).
  - apply defined_act; [unfold post_find_section; auto with fiber|]. intros [q w] [[Hrid _] _] [[Hok _] _].
    unfold on_fst, post_find_section, gets. cbn in *.
    assert (Hr' : alive r (q, w)) by (destruct Hr as [i Hi]; exists i; by apply Hrid).
    split; [done|]. destruct (mq_messages q !! xid) as [x|] eqn:Hx; [|done]. exists xid. by apply Hok.
  - intros [x|] s1 [H1 H2]; [|by apply (d_answered (alive r)); [apply alive_stays| | |]].
    apply (d_telemetry (K x)); [apply HK|by intros ? []|done|]. intros s2 H3.
    apply (d_content (K x)); [apply HK|by intros ? []|done|]. intros body s3 H4 Hb.
    apply (d_id (K x)); [apply HK|by intros ? []|done|]. intros mid s4 H5.
    apply (d_header (K x)); [apply HK|by intros ? []|by vm_compute|by apply alive_short; vm_compute|done|].
    intros z' s5 H6 Hz'. apply d_string; [done|]. intros ct.
    apply (d_then (K x)); [apply HK|done| |].
    { apply (d_producer (K x)); [apply HK|by intros ? []|done| |done]. apply Forall_singleton. by eexists _, _. }
    intros [] s6 [H7 _]; [|by apply (d_answered (alive r)); [apply alive_stays| | |]].
    apply (d_then (alive r)); [apply alive_stays|done|by apply defined_act; [auto with fiber|]|]. intros _ s7 H8.
    by apply (d_answered (alive r)); [apply alive_stays| | |].
Qed.

Lemma pPost_defined r s : alive r s → no_undefined s (pPost (Some r)).
Proof using stale_text_lives SAFE ORDER.
  intros Hr. unfold pPost.
  apply (d_header (alive r)); [apply alive_stays|done|by vm_compute|done|done|]. intros z s1 H1 Hz. destruct (zempty z).
  - by apply (d_answered (alive r)); [apply alive_stays| | |].
  - apply (defined_catch_std _ _ _ (alive r)); [apply alive_stays|done|by apply ppost_try_defined|]. intros w s2 H2.
    by apply (d_answered (alive r)); [apply alive_stays| | |].
Qed.

Lemma pPut_defined r s : alive r s → no_undefined s (pPut (Some r)).
Proof using stale_text_lives SAFE ORDER.
  intros Hr. unfold pPut, request. apply (defined_bind _ _ _ (λ i s, rid r s.2 = Some i)).
  - apply defined_act; [auto with fiber|]. intros s1 Hle _. pose proof (alive_stays r s s1 Hle Hr) as [i Hi].
    unfold on_snd. by rewrite GetMsgId_rid, Hi.
  - intros mid s1 H1. apply (defined_bind _ _ _ (λ _ s, alive r s)).
    + intros [q w] [[Hrid _] _] [Hok HJ]. assert (Hm : rid r w = Some mid) by by apply (Hrid r).
      pose proof (stored_ok_put mid r q (λ r, rid r w) Hm Hok) as Hp. unfold on_fst. cbn.
      destruct (put_section_races mid r (q, w) I) as [Hraces _]. unfold on_fst in Hraces. cbn in Hraces.
      destruct (put_section_cases mid r q) as [(_ & _ & Hput)|[_ Hput]]; rewrite Hput in *; cbn in *;
        (split; [split; [split; [by intros r' j|reflexivity]|exact Hraces]|split; [split; [exact Hp|exact HJ]|by exists mid]]).
    + intros [] s2 H2; [done|]. apply (d_then (alive r)); [apply alive_stays|done|by apply defined_act; [auto with fiber|]|].
      intros q s3 H3. apply (d_answered (alive r)); [apply alive_stays|done|done|]. apply Forall_singleton. by eexists _, _.
Qed.

Lemma pHead_defined r s : alive r s → no_undefined s (pHead (Some r)).
Proof using stale_text_lives SAFE ORDER.
  intros Hr. unfold pHead, head_section. apply (d_read (alive r)); [apply alive_stays|done|]. intros mid s1 H1.
  case_decide; (apply (d_answered (alive r)); [apply alive_stays|done|done|]); [apply Forall_singleton; by eexists _, _|done].
Qed.

Lemma prefused_defined r m1 m2 s : alive r s → no_undefined s (prefused (Some r) m1 m2).
Proof using stale_text_lives SAFE ORDER.
  intros Hr. apply (d_answered (alive r)); [apply alive_stays|done|done|].
  unfold allow_fields. repeat (apply Forall_cons; split; [by eexists _, _|]). by constructor.
Qed.

(** Every handler, called for a request that exists. *)
Lemma call_prog_defined c r s : call_request c = Some r → alive r s → no_undefined s (call_prog c).
Proof using stale_text_lives SAFE ORDER.
  destruct c as [u|u|u|u|u|u|u|u|u]; cbn; intros -> Hr; cbn [call_prog]; try (by apply prefused_defined).
  - by apply pGet_defined.
  - by apply pPost_defined.
  - by apply pPut_defined.
  - by apply pHead_defined.
  - by apply (d_answered (alive r)); [apply alive_stays| | |].
Qed.
End handlers.
