(* ===== verification/Wellformed.v ===== *)
(** * Wellformed: requests that can be worked with

    The parser leaves views that lie in the receive buffer ([httpimpl.cpp],
    [bufferimpl.h]), replies keep the requests as they are, and on such requests
    the operations of [requestimpl.cpp] return or throw: [RequestImpl] keeps the
    promises of [Defined]. *)
From Stdlib Require Import Ascii String.
From stdpp Require Import options relations.
From S2P Require Import Prelude Interleave RelyGuarantee Findmatch ZcString Buffer HttpParse Numerals HttpReply.
From S2P Require Import Interfaces RequestImpl SyncQueue SyncQueueSpec QueueProg Router RouterProg NoLoss Defined.

#[local] Open Scope nat_scope.

(** ** Requests *)

(** A target that can be hashed: its first byte is read even when it is empty. *)
Definition uri_fit (z : zcstring) : Prop := view_ok z ∧ match zmem z with Some m => zbegin z < length m | None => True end.
Definition header_fit (kv : zcstring * zcstring) : Prop := view_ok kv.1 ∧ view_ok kv.2.
Definition content_fit (z : zcstring) : Prop := sendable (view_pointer z) (zlength z).
Definition request_fit (q : CRequest) : Prop := uri_fit (Uri q) ∧ content_fit (ReqContent q) ∧ Forall header_fit (Headers q).

Lemma fresh_request_fit : request_fit fresh_request.
Proof. split_and!; [by split; [|done]; split|done|by constructor]. Qed.

(** *** The parser *)
Section parser.
Context (mem : bytes) (small : (Z.of_nat (length mem) < u64_modulus)%Z).

Lemma inside_ok b e : b ≤ e → e ≤ length mem → view_ok (ZcString (Some mem) b e).
Proof using small. intros H1 H2. split; [by split|]. cbn. lia. Qed.

Lemma parse_header_line_fit line_begin line_end r r' :
  line_begin ≤ line_end → line_end ≤ length mem → request_fit r →
  parse_header_line mem line_begin line_end r = Ret r' → request_fit r'.
Proof using small.
  intros Hb He (H1 & H2 & H3). unfold parse_header_line.
  edestruct (find_char_total mem line_begin line_end [":"%char; " "%char; LF])
    as (name & -> & Hnb & Hne & Hnr); [done | done | nonul | done |]. outcome_simpl.
  case_decide as Hn; [|by intros [= <-]].
  edestruct (find_char_total mem (mr_end name) line_end CRLF)
    as (value & -> & Hvb & Hve & Hvr); [lia | done | nonul | done |]. outcome_simpl.
  case_decide as Hv; intros [= <-]; [|done]. split_and!; [done..|]. apply Forall_app. split; [done|]. apply Forall_singleton.
  specialize (Hnr ltac:(lia)). specialize (Hvr Hv). split; apply inside_ok; lia.
Qed.

Lemma parse_first_line_fit method_end line_end r r' :
  line_end ≤ length mem → request_fit r → parse_first_line mem method_end line_end r = Ret (Some r') → request_fit r'.
Proof using small.
  intros He (H1 & H2 & H3). unfold parse_first_line. destruct (decide (method_end ≤ line_end)) as [Hb|Hb].
  - edestruct (find_char_total mem method_end line_end [" "%char; TAB; LF; CR])
      as (path & -> & Hpb & Hpe & Hpr); [done | done | nonul | done |]. outcome_simpl.
    case_decide as Hp; [|done]. specialize (Hpr Hp).
    edestruct (find_char_empty mem (mr_end path) ["?"%char]) as (params & -> & Hz);
      [lia | nonul | done |]. outcome_simpl. rewrite Hz, decide_False by auto. intros [= <-].
    split_and!; [|done..]. split; [apply inside_ok; lia|]. cbn. lia.
  - rewrite find_char_spec by (done || nonul). rewrite slice_nil by lia. by outcome_simpl.
Qed.

(** The body, with a terminator after what was received. *)
Lemma Content_fit data off :
  dataBuffer data = Some mem → dataLength data ≤ length mem → (∃ n, strlen (drop (dataLength data) mem) = Ret n) →
  content_fit (Content data off).
Proof using small.
  intros Hd Hl Hn. unfold content_fit, Content. rewrite Hd. unfold view_pointer, zlength. cbn.
  set (b := if decide (off < dataLength data) then off else dataLength data).
  assert (Hb : b ≤ dataLength data) by (unfold b; case_decide; lia).
  assert (Hz : u64 (Z.of_nat (dataLength data) - Z.of_nat b) = (Z.of_nat (dataLength data) - Z.of_nat b)%Z).
  { unfold u64. apply Z.mod_small. lia. }
  rewrite Hz. case_decide as Heq.
  - replace b with (dataLength data) by lia. exact Hn.
  - rewrite length_drop. lia.
Qed.

Lemma parse_lines_fit data fuel head_end method_end line line_begin line_no r code r' :
  dataBuffer data = Some mem → dataLength data ≤ length mem → (∃ n, strlen (drop (dataLength data) mem) = Ret n) →
  head_end ≤ length mem → line_begin ≤ mr_end line → mr_end line ≤ head_end → request_fit r →
  parse_lines fuel data mem head_end method_end line line_begin line_no r = Ret (code, r') → request_fit r'.
Proof using small.
  intros Hd Hdl Hn Hhe. revert line line_begin line_no r.
  induction fuel as [|fuel IH]; intros line line_begin line_no r Hlb Hme Hr; [done|]. cbn [parse_lines].
  assert (Hnext : ∀ r1, request_fit r1 →
    (line' ← find_values (Some mem) (mr_end line) head_end HttpLineEndians 4;
     parse_lines fuel data mem head_end method_end line' (mr_end line) (S line_no) r1) = Ret (code, r') → request_fit r').
  { intros r1 Hr1. destruct (find_line_cases mem (mr_end line) head_end) as [->|(i & p & len & -> & ? & ? & ? & ?)];
      [done..| |]; outcome_simpl.
    - destruct fuel; [done|]. cbn [parse_lines no_match result]. rewrite decide_True by done. by intros [= <- <-].
    - apply IH; simpl; [lia..|done]. }
  case_decide; [by intros [= <- <-]|]. case_decide.
  - case_decide.
    + destruct (parse_header_line mem line_begin (mr_end line) r) as [r1|e| |] eqn:Hp; outcome_simpl; try done.
      apply Hnext. eapply parse_header_line_fit; [| |done|exact Hp]; lia.
    + destruct (parse_first_line mem method_end (mr_end line) r) as [[r1|]|e| |] eqn:Hp; outcome_simpl; try done.
      * apply Hnext. eapply parse_first_line_fit; [|done|exact Hp]. lia.
      * by intros [= <- <-].
  - intros [= <- <-]. destruct Hr as (H1 & H2 & H3). split_and!; [done| |done]. by apply Content_fit.
Qed.
End parser.

(** The buffer of a request: as [Read] leaves it, with room for a terminator. *)
Definition buffer_fit (data : ReadBufferImpl) : Prop :=
  match dataBuffer data with
  | Some mem => dataLength data ≤ length mem ∧ dataPartLength data ≤ length mem ∧ (Z.of_nat (length mem) < u64_modulus)%Z ∧
      ∃ n, strlen (drop (dataLength data) mem) = Ret n
  | None => dataLength data = 0
  end.

Lemma http_parse_fit `{PAST : !PastEnd} data r :
  is_Some past_end → buffer_fit data → request_fit r → ∃ code r', http_parse_request data r = Ret (code, r') ∧ request_fit r'.
Proof.
  intros Hpe Hb Hr. destruct (http_parse_known data r) as (code & r' & Hp & _); [|by left|].
  { unfold buffer_fit, buf_ok in *. by destruct (dataBuffer data) as [mem|]; [destruct Hb as (? & ? & _)|]. }
  exists code, r'. split; [done|]. destruct (decide (dataLength data = 0)) as [Hz|Hz].
  { unfold http_parse_request, buf_empty in Hp. rewrite bool_decide_eq_true_2 in Hp by done. by injection Hp as <- <-. }
  unfold buffer_fit in Hb. destruct (dataBuffer data) as [mem|] eqn:Hd; [|done]. destruct Hb as (H1 & H2 & H3 & H4).
  rewrite (http_parse_method data mem) in Hp by (done || by left). destruct (method_of_text _) as [[m len]|]; [|by injection Hp as <- <-].
  destruct (find_line_cases mem 0 (dataPartLength data)) as [Hf|(i & p & l & Hf & ? & ? & ? & ?)]; [lia|done| |];
    rewrite Hf in Hp; outcome_simpl; eapply (parse_lines_fit mem H3); try exact Hp; simpl; done || lia.
Qed.

(** ** The connection *)
Section connection.
Context `{PAST : !PastEnd} (send : nat → Z → bytes → Z) (now : nat → Z).
Context (pointer_loads : is_Some past_end).

Lemma append_fields_live hs a : Forall live_field hs → ∃ t, append_headers hs a = Ret t.
Proof.
  intros Hh. revert a. induction Hh as [|h hs (k & v & ->) _ IH]; intros a; [by exists a|].
  cbn [append_headers read_cptr]. outcome_simpl. apply IH.
Qed.

Lemma answer_head_returns m code msg content len hs close :
  Forall live_field hs → sendable content len → ∃ t, answer_head m code msg content len hs close = Ret t.
Proof.
  intros Hh Hc. unfold answer_head. generalize (str "HTTP/1.1 " ++ toString code ++ str " " ++ HttpMessage code msg
    ++ CRLF ++ str "Server: " ++ FIBER_SERVER ++ CRLF ++ str "X-Powered-By: "
    ++ FIBER_XPOWERED ++ str "/" ++ FIBER_VERSION ++ CRLF). intros a.
  destruct (append_fields_live hs a Hh) as [t ->]. outcome_simpl.
  case_decide as Hl; outcome_simpl; [by eexists|]. destruct content as [mem|]; outcome_simpl; [|by eexists].
  unfold sendable in Hc. rewrite decide_True in Hc by done. destruct Hc as [n ->]. outcome_simpl. by eexists.
Qed.

Lemma WriteData_returns s content len c : sendable content len → ∃ r c', WriteData send s content len c = (Ret r, c').
Proof.
  intros Hc. unfold WriteData. case_decide as Hl; [by eexists _, _|]. destruct content as [mem|]; [|by eexists _, _].
  unfold sendable in Hc. rewrite decide_False in Hc by done. rewrite decide_True by done. by eexists _, _.
Qed.

Lemma whole_sendable d : d ≠ [] → sendable (Some d) (Z.of_nat (length d)).
Proof. intros Hd. unfold sendable. rewrite decide_False, Nat2Z.id; [done|]. destruct d; [done|simpl; lia]. Qed.

Lemma Reply_defined code msg content len hs close c :
  Forall live_field hs → sendable content len → is_defined (Reply send now code msg content len hs close c).1.
Proof.
  intros Hh Hc. unfold Reply, mbind, M_bind, get, lift.
  destruct (answer_head_returns (MsgId (http c)) code msg content len hs close Hh Hc) as [t ->]. unfold timestamp, modify.
  match goal with |- context [WriteData send ?s (Some ?a) ?l ?c1] => destruct (WriteData_returns s (Some a) l c1) as (n1 & c2 & ->) end.
  { apply whole_sendable. intros [_ Hnil]%app_eq_nil. by apply app_eq_nil in Hnil as [_ Hnil]. }
  assert (Hclose : ∀ c, is_defined (http_close_connection c).1) by (intros c3; unfold http_close_connection; by case_decide).
  assert (Hfail : ∀ e c, is_defined ((_ ← http_close_connection; throw e : M Conn unit) c).1).
  { intros e c3. unfold mbind, M_bind. specialize (Hclose c3). by destruct (http_close_connection c3) as [[] c4]. }
  case_decide; [apply Hfail|].
  destruct (WriteData_returns (Handle (http c)) content len c2 Hc) as (n2 & c3 & ->). cbn.
  case_bool_decide; [|apply Hfail]. destruct close; [apply Hclose|done].
Qed.

(** *** What stays: the request, and the limits it was read with *)
Definition reads_as (q : CRequest) (l : nat * nat) (c : Conn) : Prop :=
  Request (http c) = q ∧ (MaxRequestLength (http c), MaxHeaderLength (http c)) = l.

Lemma Reply_keeps_request q l code msg content len hs close : preserves (reads_as q l) (Reply send now code msg content len hs close).
Proof.
  apply Reply_keeps_invariant.
  - intros s d n c Hc. unfold WriteData. repeat case_match; exact Hc.
  - intros c Hc. unfold http_close_connection. by case_decide.
  - intros c Hc. exact Hc.
  - intros t c Hc. exact Hc.
Qed.

(** What a socket delivers, so that reading it leaves a buffer as it should be. *)
Definition socket_fit (recv : nat → nat → recv_result) (ioctl : nat → option nat) (block : bytes) (l : nat * nat) : Prop :=
  recv_ok recv ∧ length block = l.1 ∧ l.2 ≤ l.1 ∧ (Z.of_nat l.1 < u64_modulus)%Z ∧
  ∀ rc b, Read recv ioctl (ReadBufferImpl_new 0) block l.1 l.2 = Ret (rc, b) → NUL ∈ drop (dataLength b) block.

Lemma strlen_finds t : NUL ∈ t → ∃ n, strlen t = Ret n.
Proof. intros (a & b & ->)%list_elem_of_split. apply strlen_ends. Qed.

Lemma Read_fit recv ioctl block l :
  socket_fit recv ioctl block l →
  ∃ rc b, Read recv ioctl (ReadBufferImpl_new 0) block l.1 l.2 = Ret (rc, b) ∧ buffer_fit b.
Proof.
  intros (H1 & H2 & H3 & H4 & H5). pose proof (read_loop_spec recv ioctl (S l.1) 0 block 0 l.1) as Hr.
  destruct Hr as (rc & buf & len & chunks & Hrun & _ & Hl & Hlen & Hmax & Ht & Hd); [done|lia..|].
  assert (Hread : Read recv ioctl (ReadBufferImpl_new 0) block l.1 l.2 = Ret (rc, ReadBuffer len l.2 (Some buf))).
  { unfold Read, ReadBufferImpl_new. cbn [dataLength]. by rewrite Hrun. }
  exists rc, (ReadBuffer len l.2 (Some buf)). split; [exact Hread|]. specialize (H5 _ _ Hread). cbn in *.
  split_and!; [lia..|]. rewrite Hd. by apply strlen_finds.
Qed.

(** Reading and parsing a request. *)
Lemma Process_defined recv ioctl block strerror l q c :
  socket_fit recv ioctl block l → request_fit q → reads_as q l c →
  let '(o, c') := Process send now recv ioctl block strerror c in
  is_defined o ∧ ∃ q', request_fit q' ∧ reads_as q' l c'.
Proof using pointer_loads.
  intros Hs Hq Hc. pose proof Hc as [Hreq Hl]. destruct (Read_fit recv ioctl block l Hs) as (rc & b & Hread & Hb).
  rewrite <- Hl in Hread. cbn [fst snd] in Hread.
  assert (Hrefuse : ∀ code e q' c1, request_fit q' → reads_as q' l c1 →
    let '(o, c') := (_ ← Reply_code send now code; throw e : M Conn unit) c1 in is_defined o ∧ ∃ q', request_fit q' ∧ reads_as q' l c').
  { intros code e q' c1 Hq' Hc1. unfold mbind, M_bind, Reply_code.
    pose proof (Reply_defined code None None 0 [] true c1 ltac:(by constructor) I) as Hd.
    pose proof (Reply_keeps_request q' l code None None 0 [] true c1 Hc1) as Hk.
    destruct (Reply send now code None None 0 [] true c1) as [[[]|e'| |] c2]; cbn in *; try done; (split; [done|by exists q']). }
  unfold Process. unfold mbind at 1, M_bind at 1, get. unfold mbind at 1, M_bind at 1, lift at 1. rewrite Hread.
  unfold mbind at 1, M_bind at 1, timestamp at 1. unfold mbind at 1, M_bind at 1, modify at 1.
  set (c1 := set_telemetry _ _). assert (Hc1 : reads_as q l c1) by exact Hc. cbv zeta. case_decide; [by eapply Hrefuse|].
  destruct (http_parse_fit b (Request (http c)) pointer_loads Hb) as (code & q' & Hp & Hq'); [by rewrite Hreq|].
  unfold mbind at 1, M_bind at 1, lift at 1. rewrite Hp. unfold mbind at 1, M_bind at 1, modify at 1.
  assert (Hc2 : reads_as q' l (set_request q' c1)) by (split; [done|apply Hc1]).
  case_decide; [by eapply Hrefuse|]. split; [done|]. exists q'. split; [exact Hq'|exact Hc2].
Qed.
End connection.

(** ** The request objects *)

Definition obj_fit (o : RequestObj) : Prop := request_fit (Request (http (handler o))) ∧ Forall header_fit (HeaderMap o).
Definition all_fit (w : store) : Prop := ∀ r o, w !! r = Some o → obj_fit o.

(** The limits an object reads with. *)
Definition read_limits (r : nat) (w : store) : option (nat * nat) :=
  (λ o, (MaxRequestLength (http (handler o)), MaxHeaderLength (http (handler o)))) <$> w !! r.
Definition limits_kept (w w' : store) : Prop := ∀ r l, read_limits r w = Some l → read_limits r w' = Some l.

#[export] Instance limits_kept_preorder : PreOrder limits_kept.
Proof. split; [by intros w r l|]. intros a b c H1 H2 r l Hl. by apply H2, H1. Qed.

(** An operation on an object that leaves it fit, and its limits as they are. *)
Definition keeps_fit {A} (m : M RequestObj A) : Prop :=
  ∀ o, obj_fit o → obj_fit (m o).2 ∧
    (MaxRequestLength (http (handler (m o).2)), MaxHeaderLength (http (handler (m o).2)))
    = (MaxRequestLength (http (handler o)), MaxHeaderLength (http (handler o))).

Lemma with_obj_fit {A} r (m : M RequestObj A) : keeps_fit m → guards limits_kept all_fit (with_obj r m).
Proof.
  intros Hm w Hw. unfold with_obj. destruct (w !! r) as [o|] eqn:Ho; [|done].
  destruct (Hm o (Hw r o Ho)) as [H1 H2]. destruct (m o) as [res o']. cbn in *. split.
  - intros r' l. unfold read_limits. destruct (decide (r = r')) as [->|Hne].
    + rewrite lookup_insert_eq, Ho. cbn. by rewrite H2.
    + by rewrite lookup_insert_ne.
  - intros r' o1 [[<- <-]|[_ Hr]]%lookup_insert_Some; [done|by apply (Hw r')].
Qed.

Lemma with_obj_defined {A} r (m : M RequestObj A) w :
  all_fit w → is_Some (store_rid r w) → (∀ o, obj_fit o → is_defined (m o).1) → is_defined (with_obj r m w).1.
Proof.
  intros Hw [i Hi] Hm. unfold store_rid, with_obj in *. destruct (w !! r) as [o|] eqn:Ho; [|done].
  specialize (Hm o (Hw r o Ho)). by destruct (m o).
Qed.

Lemma reading_keeps_fit {A} (f : RequestObj → A) : keeps_fit (gets f).
Proof. by intros o Ho. Qed.

Lemma handler_keeps_fit {A} (m : M Conn A) : (∀ q l, preserves (reads_as q l) m) → keeps_fit (obj_handler m).
Proof.
  intros Hm o [H1 H2]. unfold obj_handler.
  specialize (Hm (Request (http (handler o))) _ (handler o) (conj eq_refl eq_refl)). destruct Hm as [H3 H4].
  destruct (m (handler o)) as [res c]. cbn in *. split; [split; cbn; [by rewrite H3|exact H2]|exact H4].
Qed.

(** Looking a header up. *)
Lemma hmap_emplace_all_fit kvs l :
  Forall header_fit kvs → Forall header_fit l → ∃ l', hmap_emplace_all kvs l = Ret l' ∧ Forall header_fit l'.
Proof.
  intros Hk. revert l. induction Hk as [|kv kvs [H1 H2] Hk IH]; intros l Hl; [by exists l|].
  cbn [hmap_emplace_all]. unfold hmap_emplace.
  rewrite hmap_find_spec; [|done|eapply Forall_impl; [exact Hl|by intros x []]]. outcome_simpl.
  destruct (first_header _ l); outcome_simpl; apply IH; [done|]. apply Forall_app. split; [done|]. by apply Forall_singleton.
Qed.

Lemma first_header_fit name l z : Forall header_fit l → first_header name l = Some z → view_ok z.
Proof.
  induction 1 as [|[k v] l [_ Hv] _ IH]; [done|]. cbn. case_decide; [by intros [= <-]|exact IH].
Qed.

Lemma obj_GetHeaderOption_fit name d o :
  obj_fit o → ∃ hs, Forall header_fit hs ∧
    obj_GetHeaderOption name d o =
      (match hmap_find (zc_of_string name) hs with
       | Ret (Some v) => Ret v
       | Ret None => Ret (match d with Some t => zc_of_string t | None => znull end)
       | Throw e => Throw e | Terminate => Terminate | Undef => Undef
       end, MkReq (handler o) hs).
Proof.
  intros ((_ & _ & Hh) & Hm).
  assert (Hmap : ∃ hs, (match HeaderMap o with
        | [] => lift (hmap_emplace_all (Headers (Request (http (handler o)))) [])
        | hs => mret hs
        end : M RequestObj _) o = (Ret hs, o) ∧ Forall header_fit hs).
  { destruct (HeaderMap o) as [|h hs]; [|by exists (h :: hs)].
    destruct (hmap_emplace_all_fit _ [] Hh ltac:(by constructor)) as (l & Hl & Hf). exists l. unfold lift. by rewrite Hl. }
  destruct Hmap as (hs & Hrun & Hf). exists hs. split; [done|].
  unfold obj_GetHeaderOption. unfold mbind, M_bind, get. rewrite Hrun. unfold modify, lift.
  by destruct (hmap_find (zc_of_string name) hs) as [[v|]|e| |].
Qed.

Lemma GetHeaderOption_keeps_fit name d : keeps_fit (obj_GetHeaderOption name d).
Proof. intros o Ho. destruct (obj_GetHeaderOption_fit name d o Ho) as (hs & Hhs & ->). destruct Ho as [H1 _]. by split. Qed.

Lemma GetHeaderOption_returns name d o :
  short_text name → (∀ t, d = Some t → short_text t) → obj_fit o →
  ∃ z, (obj_GetHeaderOption name d o).1 = Ret z ∧ zc_wf z.
Proof.
  intros Hn Hd Ho. destruct (obj_GetHeaderOption_fit name d o Ho) as (hs & Hf & ->). destruct (zc_of_string_ok name Hn) as [Hok _].
  rewrite hmap_find_spec; [|done|eapply Forall_impl; [exact Hf|by intros x []]].
  destruct (first_header _ hs) as [z|] eqn:Hfirst.
  - exists z. split; [done|]. by apply (first_header_fit _ _ _ Hf) in Hfirst as [].
  - eexists. split; [done|]. destruct d as [t|]; [by apply zc_of_string_ok, Hd|done].
Qed.

Section promises.
Context (send_res : nat → nat → Z → bytes → Z) (now : nat → Z).

Lemma Reply_keeps_fit r code msg content len hs close : keeps_fit (obj_handler (Reply (send_res r) now code msg content len hs close)).
Proof. apply handler_keeps_fit. intros q l. apply Reply_keeps_request. Qed.

Lemma SetTelemetry_keeps_fit opt :
  keeps_fit (obj_handler (t ← timestamp now; modify (λ c, set_telemetry (telemetry_set opt t (Telemetry (http c))) c))).
Proof. apply handler_keeps_fit. intros q l. apply preserves_bind; intros; intros c Hc; exact Hc. Qed.

Lemma handler_Reply_fit r code msg content len hs close :
  guards limits_kept all_fit (handler_Reply send_res now r code msg content len hs close).
Proof. apply with_obj_fit, Reply_keeps_fit. Qed.

Lemma handler_Reply_defined r code msg content len hs close w :
  all_fit w → is_Some (store_rid r w) → Forall live_field hs → sendable content len →
  is_defined (handler_Reply send_res now r code msg content len hs close w).1.
Proof.
  intros Hw Hr Hh Hc. apply with_obj_defined; [done..|]. intros o Ho. unfold obj_handler.
  pose proof (Reply_defined (send_res r) now code msg content len hs close (handler o) Hh Hc) as Hd.
  by destruct (Reply _ _ _ _ _ _ _ _ (handler o)).
Qed.

#[export] Instance RequestImpl_fit_guards : @IRequestGuards store nat (RequestImpl_IRequest send_res now) limits_kept all_fit.
Proof.
  split; cbn.
  - intros r. apply with_obj_fit, reading_keeps_fit.
  - intros r o d. apply with_obj_fit, GetHeaderOption_keeps_fit.
  - intros r. apply with_obj_fit, reading_keeps_fit.
  - intros r code msg content len hs close w Hw. unfold RequestImpl_Reply, mbind, M_bind.
    pose proof (handler_Reply_fit r code msg content len hs close w Hw) as Hr. by destruct (handler_Reply _ _ _ _ _ _ _ _ _ w) as [[]].
  - intros r o. apply with_obj_fit, SetTelemetry_keeps_fit.
Qed.

#[export] Program Instance RequestImpl_defined :
    @IDefined store nat (RequestImpl_IRequest send_res now) (RequestImpl_IRequestLaws send_res now) limits_kept all_fit := {
  defined_guards := RequestImpl_fit_guards
}.
Next Obligation.
  intros r name d w Hw [i Hi] Hn Hd. cbn in *. unfold RequestImpl_GetHeaderOption, with_obj, store_rid in *.
  destruct (w !! r) as [o|] eqn:Ho; [|done]. destruct (GetHeaderOption_returns name d o Hn Hd (Hw r o Ho)) as (z & Hz & Hwf).
  exists z. destruct (obj_GetHeaderOption name d o). by cbn in *.
Qed.
Next Obligation.
  intros r w Hw [i Hi]. cbn in *. unfold RequestImpl_GetContent, store_rid in *. rewrite with_obj_read.
  destruct (w !! r) as [o|] eqn:Ho; [|done]. eexists. split; [done|]. apply (Hw r o Ho).
Qed.
Next Obligation. intros r o w Hw Hr. cbn in *. by apply with_obj_defined. Qed.
Next Obligation.
  intros r code msg content len hs close w Hw Hr Hh Hc. cbn in *. unfold RequestImpl_Reply, mbind, M_bind.
  pose proof (handler_Reply_defined r code msg content len hs close w Hw Hr Hh Hc) as Hd.
  by destruct (handler_Reply _ _ _ _ _ _ _ _ _ w) as [[]].
Qed.
End promises.
