(* ===== verification/EndToEnd.v ===== *)
(** * EndToEnd: requests through the router to the queue and back

    The pieces together: the router of [kernel/main], requests on sockets, and
    the module of [mq/mq-sync] on one route. *)
From Stdlib Require Import Ascii String.
From stdpp Require Import options.
From S2P Require Import Prelude Findmatch ZcString Buffer HttpParse Numerals HttpReply Interfaces RequestImpl SyncQueue SyncQueueSpec Router.

#[local] Open Scope nat_scope.

Module Relay.
(** A compiler that leaves the text of a destroyed temporary in place. *)
#[local] Instance stale_live : StaleText := Live.
#[local] Existing Instance readable_past_end.

Definition send_res (r n : nat) (h : Z) (d : bytes) : Z := if decide (h = 0%Z) then (-1)%Z else Z.of_nat (length d).
Definition now (n : nat) : Z := (1000 + Z.of_nat n)%Z.
Definition strerror (e : Z) : bytes := str "error".

#[local] Instance requests : IRequest store nat := RequestImpl_IRequest send_res now.

Definition state : Type := SyncQueue nat.
Definition routes : list (bytes * IMQ state store nat) := [(str "/sms/", SyncQueue_IMQ)].
Definition empty_queue : state := MkQueue [] ∅ ∅ (str "sms") (MkLimits 0 0 0) (Some ∅).

(** Accept a connection with message id [mid] on descriptor [fd], and run the
    router on what it sends. *)
Definition serve (this : nat) (mid fd : Z) (text : bytes) (sw : state * store) : outcome unit * (state * store) :=
  let c := HttpImpl_new now mid fd (str "127.0.0.1") 4711 256 256 fresh_request in
  Router_Process send_res now strerror (segment_recv [text]) (λ _, Some 0) (replicate 256 NUL) routes this
    (sw.1, RequestImpl_new this c sw.2).

Definition put_text : bytes := str "PUT /sms/ HTTP/1.1" ++ CRLF ++ str "Host: a" ++ CRLF ++ CRLF ++ str "job".
Definition get_text : bytes := str "GET /sms/ HTTP/1.1" ++ CRLF ++ str "Host: a" ++ CRLF ++ CRLF.
Definition post_text (mid : Z) : bytes :=
  str "POST /sms/ HTTP/1.1" ++ CRLF ++ str "x-msg-forward-uid: " ++ to_string mid ++ CRLF ++ str "Host: a" ++ CRLF
    ++ CRLF ++ str "done".

Definition after_put := serve 1 71 11 put_text (empty_queue, ∅).
Definition after_get := serve 2 72 12 get_text after_put.2.
Definition after_post := serve 3 73 13 (post_text 71) after_get.2.

(** The sends of a connection: descriptor and text. *)
Definition sent (r : nat) (sw : state * store) : list (Z * bytes) :=
  match sw.2 !! r with Some o => (λ x, (x.1.1, x.1.2)) <$> sends (net (handler o)) | None => [] end.
Definition closed (r : nat) (sw : state * store) : list Z :=
  match sw.2 !! r with Some o => closes (net (handler o)) | None => [] end.
End Relay.

(** A job through the whole kernel, byte for byte from the sockets: the PUT
    is parsed, routed and queued without an answer; the GET is answered with the
    body of the job and its connection closed; the POST that names the job's
    identifier, in a header of any case, is delivered as the answer of the PUT
    and acknowledged; all three connections are closed once and the queue is
    empty again. *)
Theorem job_is_relayed :
  (Relay.after_put.1 = Ret tt ∧ Relay.sent 1 Relay.after_put.2 = [] ∧ mq_queue Relay.after_put.2.1 = [71%Z]) ∧
  (Relay.after_get.1 = Ret tt ∧ Relay.sent 1 Relay.after_get.2 = [] ∧
     (∃ head, Relay.sent 2 Relay.after_get.2 = [(12%Z, head); (12%Z, str "job")]) ∧ Relay.closed 2 Relay.after_get.2 = [12%Z]) ∧
  (Relay.after_post.1 = Ret tt ∧
     (∃ head, Relay.sent 1 Relay.after_post.2 = [(11%Z, head); (11%Z, str "done")]) ∧
     (∃ head, Relay.sent 3 Relay.after_post.2 = [(13%Z, head)]) ∧
     Relay.closed 1 Relay.after_post.2 = [11%Z] ∧ Relay.closed 3 Relay.after_post.2 = [13%Z] ∧
     mq_queue Relay.after_post.2.1 = [] ∧ mq_messages Relay.after_post.2.1 = ∅ ∧ mq_locked Relay.after_post.2.1 = ∅).
Proof. split_and!; try (eexists; vm_compute; reflexivity); vm_compute; reflexivity. Qed.

#[local] Existing Instance readable_past_end.

Lemma Router_descriptors_witness :
  let fd := λ r : nat, (10 + Z.of_nat r)%Z in
  let c := HttpImpl_new Relay.now 71 11 (str "127.0.0.1") 4711 256 256 fresh_request in
  let w := RequestImpl_new 1 c ∅ in
  let w' := (Router_Process Relay.send_res Relay.now Relay.strerror (segment_recv [Relay.put_text]) (λ _, Some 0)
    (replicate 256 NUL) Relay.routes 1 (Relay.empty_queue, w)).2.2 in
  owned fd w' ∧ ∀ r o, w' !! r = Some o → closes (net (HttpImpl_destroy (handler o)).2) = [fd r].
Proof.
  intros fd c w.
  assert (Hfd : ∀ r, fd r ≠ 0%Z) by (intros r; unfold fd; lia).
  assert (Hw : owned fd w).
  { intros r o Ho. unfold w, RequestImpl_new in Ho.
    apply lookup_insert_Some in Ho as [[<- <-]|[_ Hr]]; [by left|by rewrite lookup_empty in Hr]. }
  assert (HR : Forall (λ x, IMQPreserves x.2 (owned fd)) Relay.routes).
  { apply Forall_singleton. apply SyncQueue_preserves, RequestImpl_preserves_owned, Hfd. }
  exact (Router_descriptors fd Relay.send_res Relay.now Relay.strerror (segment_recv [Relay.put_text]) (λ _, Some 0)
    (replicate 256 NUL) Relay.routes 1 Relay.empty_queue w Hfd HR Hw).
Defined.
