(* ===== verification/ThreadPool.v ===== *)
(** * ThreadPool: [kernel/mt/threadpool.cpp] and [kernel/mt/threadpool.h]

    The pool as the source has it ([CheckResize], [Hire], the constructor), and
    a transition system for the threads around it: callers of [Enqueue] between
    its critical section, its sizing decision and its hiring, and workers
    between taking a task, counting themselves busy, running it and leaving.
    [NDEBUG] is the build: the statement that erases a leaving worker is an
    argument of the macro [dbg_trace], which a release build drops. *)
From Stdlib Require Import Ascii String.
From stdpp Require Import options.
From S2P Require Import Prelude Numerals HttpReply OptionParse.

Inductive WorkerType := sPersistent | sExtended | sAsync.
#[export] Instance WorkerType_eq_dec : EqDecision WorkerType.
Proof. solve_decision. Defined.

(** Thread identifiers are numbers; an entry of [PoolWorkers] is [true] while
    its [std::thread] is joinable, [false] once detached. *)
Record ThreadPool (T : Type) := MkPool {
  PoolYet : bool;
  PoolInitWorkers : Z;
  PoolMaxWorkers : Z;
  PoolIndexWorkers : Z;
  PoolBusyWorkers : Z;
  PoolWorkers : gmap nat bool;
  PoolTasks : list T;
  PoolWorkersBinding : list Z
}.
Arguments MkPool {T}.
Arguments PoolYet {T}.
Arguments PoolInitWorkers {T}.
Arguments PoolMaxWorkers {T}.
Arguments PoolIndexWorkers {T}.
Arguments PoolBusyWorkers {T}.
Arguments PoolWorkers {T}.
Arguments PoolTasks {T}.
Arguments PoolWorkersBinding {T}.

Open Scope Z_scope.

(** ** Sizing *)

(** The number of workers [CheckResize] hires, in [size_t] arithmetic. *)
Definition NewWorkerCount (PoolInit PoolMax Busy NumWorker NumTasks : Z) : Z :=
  let AvailableWorkers := u64 (NumWorker - Busy) in
  let NewWorkerCount :=
    if decide (AvailableWorkers < NumTasks) then
      u64 (u64 (u64 (NumTasks - AvailableWorkers) + u64 (PoolInit - 1)) / PoolInit * PoolInit)
    else 0 in
  if decide (PoolMax < u64 (NumWorker + NewWorkerCount)) then u64 (PoolMax - NumWorker) else NewWorkerCount.

Section pool.
Context {T : Type}.

Definition with_workers (ws : gmap nat bool) (p : ThreadPool T) : ThreadPool T :=
  MkPool (PoolYet p) (PoolInitWorkers p) (PoolMaxWorkers p) (PoolIndexWorkers p) (PoolBusyWorkers p) ws (PoolTasks p)
    (PoolWorkersBinding p).
Definition with_tasks (ts : list T) (p : ThreadPool T) : ThreadPool T :=
  MkPool (PoolYet p) (PoolInitWorkers p) (PoolMaxWorkers p) (PoolIndexWorkers p) (PoolBusyWorkers p) (PoolWorkers p) ts
    (PoolWorkersBinding p).
Definition with_busy (b : Z) (p : ThreadPool T) : ThreadPool T :=
  MkPool (PoolYet p) (PoolInitWorkers p) (PoolMaxWorkers p) (PoolIndexWorkers p) b (PoolWorkers p) (PoolTasks p)
    (PoolWorkersBinding p).
Definition with_index (i : Z) (p : ThreadPool T) : ThreadPool T :=
  MkPool (PoolYet p) (PoolInitWorkers p) (PoolMaxWorkers p) i (PoolBusyWorkers p) (PoolWorkers p) (PoolTasks p)
    (PoolWorkersBinding p).
Definition with_yet (b : bool) (p : ThreadPool T) : ThreadPool T :=
  MkPool b (PoolInitWorkers p) (PoolMaxWorkers p) (PoolIndexWorkers p) (PoolBusyWorkers p) (PoolWorkers p) (PoolTasks p)
    (PoolWorkersBinding p).

(** [CheckResize] after its arguments were read under the lock: the busy
    count is read now, without it. *)
Definition CheckResize (p : ThreadPool T) (NumWorker NumTasks : Z) : Z :=
  NewWorkerCount (PoolInitWorkers p) (PoolMaxWorkers p) (PoolBusyWorkers p) NumWorker NumTasks.

(** One turn of the loop of [Hire], for the thread the system started: its
    core is [PoolWorkersBinding[PoolIndexWorkers % size]].  [emplace] with a
    key that is present destroys the [std::thread] it was given while it is
    joinable, which ends the process. *)
Definition Hire_one (tid : nat) (p : ThreadPool T) : outcome (ThreadPool T) :=
  if decide (PoolWorkersBinding p = []) then Undef
  else
    let p := with_index (u64 (PoolIndexWorkers p + 1)) p in
    match PoolWorkers p !! tid with
    | None => Ret (with_workers (<[tid := true]> (PoolWorkers p)) p)
    | Some _ => Terminate
    end.

Fixpoint Hire (tids : list nat) (p : ThreadPool T) : outcome (ThreadPool T) :=
  match tids with
  | [] => Ret p
  | tid :: tids => p ← Hire_one tid p; Hire tids p
  end.

(** The core the [n]th worker of the pool is bound to. *)
Definition worker_core (p : ThreadPool T) : option Z :=
  PoolWorkersBinding p !! Z.to_nat (PoolIndexWorkers p `mod` Z.of_nat (length (PoolWorkersBinding p))).

(** [GetState]: workers, waiting tasks, busy workers. *)
Definition GetState (p : ThreadPool T) : Z * Z * Z :=
  (Z.of_nat (size (PoolWorkers p)), Z.of_nat (length (PoolTasks p)), PoolBusyWorkers p).

(** ** The constructor *)

(** [for (; max_threads--;)]: from the last hardware thread down. *)
Fixpoint all_cores (max_threads : nat) (exclude : gset Z) : gset Z :=
  match max_threads with
  | O => ∅
  | S n => (if decide (Z.of_nat n ∈ exclude) then ∅ else {[Z.of_nat n]}) ∪ all_cores n exclude
  end.

Definition bound_cores (max_threads : Z) (worker exclude : gset Z) : outcome (gset Z) :=
  if decide (worker = ∅) then Ret (all_cores (Z.to_nat max_threads) exclude)
  else if decide (max_threads = 0) then Undef
  else Ret (filter (λ co, co ∉ exclude) (set_map (λ co, co `mod` max_threads) worker : gset Z)).

Definition invalid_pool (init max : Z) (CoreBinding : bytes) : exn :=
  RuntimeException (runtime_what (str "threadpool.cpp") 57
    (str "Invalid thread pool initialization. (Workers: " ++ to_string_signed (i64_of_u64 init) ++ str ", Max: "
      ++ to_string_signed (i64_of_u64 max) ++ str ", Bindigns: " ++ CoreBinding ++ str ")")).

(** The constructor, given the number of hardware threads and the
    identifiers of the threads it starts. *)
Definition ThreadPool_new (hardware_concurrency : Z) (InitialWorkers MaxWorkers CoreBinding ExcludeBinding : bytes)
    (tids : list nat) : outcome (ThreadPool T) :=
  init ← stoul InitialWorkers;
  max ← stoul MaxWorkers;
  worker ← expand_default CoreBinding;
  exclude ← expand_default ExcludeBinding;
  cores ← bound_cores hardware_concurrency worker exclude;
  if decide (cores = ∅ ∨ init = 0 ∨ max < init) then Throw (invalid_pool init max CoreBinding)
  else Hire tids (MkPool true init max 0 0 ∅ [] (elements cores)).
End pool.

(** ** What the sizing guarantees *)

(** The decision without wrap-around: the missing workers, rounded up to a
    multiple of [PoolInit], and no more than [PoolMax] in all. *)
Definition rounded_up (PoolInit need : Z) : Z := (need + (PoolInit - 1)) / PoolInit * PoolInit.

Lemma rounded_up_spec PoolInit need :
  0 < PoolInit → need ≤ rounded_up PoolInit need < need + PoolInit ∧ (PoolInit | rounded_up PoolInit need).
Proof.
  intros Hi. unfold rounded_up.
  pose proof (Z_div_mod_eq_full (need + (PoolInit - 1)) PoolInit) as Hd.
  pose proof (Z.mod_pos_bound (need + (PoolInit - 1)) PoolInit Hi) as Hr.
  split; [lia|]. by eexists.
Qed.

Lemma NewWorkerCount_eq (PoolInit PoolMax Busy NumWorker NumTasks : Z) :
  0 < PoolInit ≤ PoolMax → PoolMax < 2 ^ 61 → 0 ≤ Busy ≤ NumWorker → NumWorker ≤ PoolMax → 0 ≤ NumTasks < 2 ^ 61 →
  let idle := NumWorker - Busy in
  NewWorkerCount PoolInit PoolMax Busy NumWorker NumTasks
  = if decide (idle < NumTasks) then Z.min (rounded_up PoolInit (NumTasks - idle)) (PoolMax - NumWorker) else 0.
Proof.
  intros Hi Hm Hb Hw Ht idle. subst idle. unfold NewWorkerCount.
  assert (Hu : ∀ z, 0 ≤ z < 2 ^ 64 → u64 z = z) by (intros z Hz; apply u64_small; exact Hz).
  rewrite (Hu (NumWorker - Busy)) by lia. destruct (decide (NumWorker - Busy < NumTasks)) as [Hlt|Hge].
  - set (need := NumTasks - (NumWorker - Busy)).
    rewrite (Hu need), (Hu (PoolInit - 1)), (Hu (need + (PoolInit - 1))) by (unfold need; lia).
    change ((need + (PoolInit - 1)) / PoolInit * PoolInit) with (rounded_up PoolInit need).
    destruct (rounded_up_spec PoolInit need) as [Hr _]; [lia|].
    rewrite (Hu (rounded_up PoolInit need)), (Hu (NumWorker + _)) by (unfold need in *; lia).
    case_decide; [rewrite Hu by lia|]; lia.
  - rewrite Z.add_0_r, Hu by lia. by rewrite decide_False by lia.
Qed.

(** The sizing decision: with at most [PoolMax] workers and no more busy
    ones than workers, the pool stays within [PoolMax]; it hires nobody when
    the idle workers are enough for the waiting tasks; otherwise it either
    fills the pool up to [PoolMax], or hires enough for all the waiting tasks,
    in a multiple of the initial number and fewer than one such step more. *)
Theorem NewWorkerCount_spec (PoolInit PoolMax Busy NumWorker NumTasks : Z) :
  0 < PoolInit ≤ PoolMax → PoolMax < 2 ^ 61 → 0 ≤ Busy ≤ NumWorker → NumWorker ≤ PoolMax → 0 ≤ NumTasks < 2 ^ 61 →
  let n := NewWorkerCount PoolInit PoolMax Busy NumWorker NumTasks in
  let idle := NumWorker - Busy in
  0 ≤ n ∧ NumWorker + n ≤ PoolMax ∧
  (NumTasks ≤ idle → n = 0) ∧
  (idle < NumTasks →
     NumWorker + n = PoolMax ∨ (NumTasks ≤ idle + n ∧ n < NumTasks - idle + PoolInit ∧ (PoolInit | n))).
Proof.
  intros Hi Hm Hb Hw Ht n idle. subst n. rewrite NewWorkerCount_eq by done. fold idle.
  destruct (rounded_up_spec PoolInit (NumTasks - idle)) as [Hr Hdiv]; [lia|].
  case_decide as Hlt; [|split_and!; lia]. split_and!; [lia..|]. intros _.
  destruct (Z.min_spec (rounded_up PoolInit (NumTasks - idle)) (PoolMax - NumWorker)) as [[_ ->]|[_ ->]]; [right|left; lia].
  split_and!; [lia..|done].
Qed.

Lemma NewWorkerCount_spec_witness :
  let n := NewWorkerCount 10 100 8 10 5 in
  n = 10 ∧ 0 ≤ n ∧ 10 + n ≤ 100 ∧ (5 ≤ 10 - 8 → n = 0) ∧
  (10 - 8 < 5 → 10 + n = 100 ∨ (5 ≤ 10 - 8 + n ∧ n < 5 - (10 - 8) + 10 ∧ (10 | n))).
Proof. split; [vm_compute; reflexivity|]. apply (NewWorkerCount_spec 10 100 8 10 5); lia. Defined.

(** Above the limit the subtraction wraps around: with one worker too many,
    [CheckResize] asks for almost [2^64] new ones. *)
Theorem NewWorkerCount_above_limit (PoolInit PoolMax Busy NumWorker NumTasks : Z) :
  0 < PoolInit → 0 ≤ PoolMax → PoolMax < NumWorker < 2 ^ 61 → 0 ≤ Busy ≤ NumWorker → 0 ≤ NumTasks ≤ NumWorker - Busy →
  NewWorkerCount PoolInit PoolMax Busy NumWorker NumTasks = 2 ^ 64 - (NumWorker - PoolMax).
Proof.
  intros Hi Hm Hw Hb Ht. unfold NewWorkerCount.
  assert (Hu : ∀ z, 0 ≤ z < 2 ^ 64 → u64 z = z) by (intros z Hz; apply u64_small; exact Hz).
  rewrite (Hu (NumWorker - Busy)) by lia. rewrite (decide_False (P := NumWorker - Busy < NumTasks)) by lia.
  rewrite Z.add_0_r, (Hu NumWorker), decide_True by lia. unfold u64, u64_modulus.
  replace (PoolMax - NumWorker) with ((2 ^ 64 - (NumWorker - PoolMax)) + (-1) * 2 ^ 64) by lia.
  rewrite Z.mod_add by lia. apply Z.mod_small. lia.
Qed.

Lemma NewWorkerCount_above_limit_witness : NewWorkerCount 1 2 1 3 1 = 2 ^ 64 - (3 - 2).
Proof. apply (NewWorkerCount_above_limit 1 2 1 3 1); lia. Defined.

(** ** The constructor *)

Lemma all_cores_spec n exclude co :
  co ∈ all_cores n exclude ↔ 0 ≤ co < Z.of_nat n ∧ co ∉ exclude.
Proof.
  induction n as [|n IH]; cbn [all_cores].
  - split; [intros H; by apply elem_of_empty in H|intros [? _]; lia].
  - rewrite elem_of_union, IH. case_decide as Hn.
    + split; [intros [H|H]; [by apply elem_of_empty in H|intuition lia]|].
      intros [H1 H2]. right. split; [|done]. assert (co ≠ Z.of_nat n) by (by intros ->). lia.
    + rewrite elem_of_singleton. split; [intros [->|H]; [split; [lia|done]|intuition lia]|].
      intros [H1 H2]. destruct (decide (co = Z.of_nat n)); [auto|right; split; [lia|done]].
Qed.

Lemma Hire_keeps {T} tids (p p' : ThreadPool T) :
  Hire tids p = Ret p' →
  PoolWorkersBinding p' = PoolWorkersBinding p ∧ PoolInitWorkers p' = PoolInitWorkers p ∧
  PoolMaxWorkers p' = PoolMaxWorkers p ∧ PoolYet p' = PoolYet p ∧ PoolTasks p' = PoolTasks p ∧
  PoolBusyWorkers p' = PoolBusyWorkers p ∧ size (PoolWorkers p') = (size (PoolWorkers p) + length tids)%nat.
Proof.
  revert p. induction tids as [|tid tids IH]; intros p; cbn [Hire].
  - intros [= <-]. split_and!; [done..|]. simpl. lia.
  - unfold Hire_one. case_decide; [done|]. cbn [with_index PoolWorkers].
    destruct (PoolWorkers p !! tid) as [x|] eqn:Hx; [done|]. outcome_simpl.
    intros Hrun%IH. cbn in Hrun. destruct Hrun as (H1 & H2 & H3 & H4 & H5 & H6 & H7).
    split_and!; [done..|]. rewrite H7, map_size_insert_None by done. simpl. lia.
Qed.

(** C30: a pool that the constructor returns is well formed: its limits are the
    numbers given, with 1 <= workers <= limit, its workers are the threads
    started, no task waits, and each core it binds to is a hardware thread that
    is not excluded. *)
Theorem ThreadPool_new_ok {T} (hw : Z) (InitialWorkers MaxWorkers CoreBinding ExcludeBinding : bytes) (tids : list nat)
    (p : ThreadPool T) (exclude : gset Z) :
  0 < hw → expand_default ExcludeBinding = Ret exclude →
  ThreadPool_new hw InitialWorkers MaxWorkers CoreBinding ExcludeBinding tids = Ret p →
  stoul InitialWorkers = Ret (PoolInitWorkers p) ∧ stoul MaxWorkers = Ret (PoolMaxWorkers p) ∧
  PoolInitWorkers p ≠ 0 ∧ PoolInitWorkers p ≤ PoolMaxWorkers p ∧
  size (PoolWorkers p) = length tids ∧ PoolTasks p = [] ∧ PoolBusyWorkers p = 0 ∧ PoolYet p = true ∧
  PoolWorkersBinding p ≠ [] ∧ Forall (λ co, 0 ≤ co < hw ∧ co ∉ exclude) (PoolWorkersBinding p).
Proof.
  intros Hhw Hex. unfold ThreadPool_new.
  destruct (stoul InitialWorkers) as [init|e| |] eqn:Hi; outcome_simpl; try done.
  destruct (stoul MaxWorkers) as [max|e| |] eqn:Hm; outcome_simpl; try done.
  destruct (expand_default CoreBinding) as [worker|e| |] eqn:Hw; outcome_simpl; try done.
  rewrite Hex. outcome_simpl.
  destruct (bound_cores hw worker exclude) as [cores|e| |] eqn:Hc; outcome_simpl; try done.
  case_decide as Hbad; [done|]. apply Decidable.not_or in Hbad as [Hne Hbad]. apply Decidable.not_or in Hbad as [Hi0 Hmi].
  intros Hrun. apply Hire_keeps in Hrun as (-> & -> & -> & -> & -> & -> & ->). cbn.
  split_and!; [done..|lia|done|done|done|done| |].
  - intros Hel. by apply elements_empty_inv, leibniz_equiv in Hel.
  - rewrite Forall_forall. intros co Hco. rewrite elem_of_elements in Hco. unfold bound_cores in Hc.
    case_decide as Hwe; [injection Hc as <-; apply all_cores_spec in Hco; lia || (destruct Hco; split; [lia|done])|].
    rewrite decide_False in Hc by lia. injection Hc as <-.
    apply elem_of_filter in Hco as [Hnot Hco]. apply elem_of_map in Hco as (x & -> & _).
    split; [apply Z.mod_pos_bound; lia|done].
Qed.

Lemma ThreadPool_new_ok_witness :
  ∃ p : ThreadPool nat,
    ThreadPool_new 8 (str "2") (str "50") (str "2,3-8") (str "1,3,7") [0%nat; 1%nat] = Ret p ∧
    size (PoolWorkers p) = length [0%nat; 1%nat] ∧ Forall (λ co, 0 ≤ co < 8 ∧ co ∉ ({[1; 3; 7]} : gset Z)) (PoolWorkersBinding p).
Proof.
  assert (Hr : ∃ p : ThreadPool nat,
    ThreadPool_new 8 (str "2") (str "50") (str "2,3-8") (str "1,3,7") [0%nat; 1%nat] = Ret p) by (eexists; vm_compute; reflexivity).
  destruct Hr as [p Hp]. exists p. split; [exact Hp|].
  assert (Hex : expand_default (str "1,3,7") = Ret ({[1; 3; 7]} : gset Z)) by (vm_compute; reflexivity).
  destruct (ThreadPool_new_ok 8 (str "2") (str "50") (str "2,3-8") (str "1,3,7") [0%nat; 1%nat] p ({[1; 3; 7]} : gset Z)
              ltac:(lia) Hex Hp) as (_ & _ & _ & _ & H & _ & _ & _ & _ & H').
  split; [exact H|exact H'].
Defined.
