(* ===== verification/ThreadPoolConc.v ===== *)
(** * ThreadPoolConc: the threads around the pool

    The steps of [kernel/mt/threadpool.cpp] that other threads can see: each
    critical section of [Enqueue], [Hire] and the worker loop, and the reads
    and writes of the busy counter between them.  [std::condition_variable] is
    not a state: [wait_for] returns after its timeout in any case, so that a
    waiting worker may always come back to its test.  [Join] only stops the
    pool here; its loop over the threads is in [PoolJoin]. *)
From Stdlib Require Import Ascii String.
From stdpp Require Import options.
From S2P Require Import Prelude ThreadPool.

Open Scope Z_scope.

(** A worker: waiting in its critical section, holding a task it took, running
    it, done with it. *)
Inductive worker_state (T : Type) := WWait | WGot (t : T) | WRun (t : T) | WDone.
Arguments WWait {T}. Arguments WGot {T}. Arguments WRun {T}. Arguments WDone {T}.

(** A caller of [Enqueue]: outside, with the two sizes it read, and with the
    number of workers it decided to hire. *)
Inductive caller_state := Idle | Check (numWorkers numTasks : Z) | Hiring (n : Z).

Record sys (T : Type) := MkSys {
  pool : ThreadPool T;
  threads : gmap nat (WorkerType * worker_state T);
  callers : list caller_state;
  enqueued : list T;   (* the history of [PoolTasks.emplace] *)
  taken : list T;      (* of [PoolTasks.pop] *)
  executed : list T    (* of [task()] *)
}.
Arguments MkSys {T}.
Arguments pool {T}.
Arguments threads {T}.
Arguments callers {T}.
Arguments enqueued {T}.
Arguments taken {T}.
Arguments executed {T}.

(** [std::queue::max_size] of [std::function]s. *)
Definition max_tasks : Z := 2 ^ 58.

Section steps.
Context {T : Type} (NDEBUG : bool).

(** The entry of a worker that leaves: detached, then erased by the argument
    of [dbg_trace]. *)
Definition leave_entry (w : nat) (ws : gmap nat bool) : gmap nat bool :=
  match ws !! w with
  | Some _ => if NDEBUG then <[w := false]> ws else delete w ws
  | None => ws
  end.

(** A thread identifier the system can give: no running thread has it, and no
    thread that is still to be joined. *)
Definition fresh_id (s : sys T) (tid : nat) : Prop :=
  threads s !! tid = None ∧ PoolWorkers (pool s) !! tid ≠ Some true.

Definition start_threads (tids : list nat) (m : gmap nat (WorkerType * worker_state T)) :=
  foldr (λ tid m, <[tid := (sExtended, WWait)]> m) m tids.

(** The steps of a worker. *)
Inductive worker_step : sys T → sys T → Prop :=
  | w_take p m cs e tk ex w ty t ts :
      m !! w = Some (ty, WWait) → PoolYet p = true → PoolTasks p = t :: ts →
      worker_step (MkSys p m cs e tk ex)
        (MkSys (with_tasks ts p) (<[w := (ty, WGot t)]> m) cs e (tk ++ [t]) ex)
  | w_busy p m cs e tk ex w ty t :
      m !! w = Some (ty, WGot t) →
      worker_step (MkSys p m cs e tk ex)
        (MkSys (with_busy (PoolBusyWorkers p + 1) p) (<[w := (ty, WRun t)]> m) cs e tk ex)
  | w_run p m cs e tk ex w ty t :
      m !! w = Some (ty, WRun t) →
      worker_step (MkSys p m cs e tk ex) (MkSys p (<[w := (ty, WDone)]> m) cs e tk (ex ++ [t]))
  | w_idle p m cs e tk ex w ty :
      m !! w = Some (ty, WDone) →
      worker_step (MkSys p m cs e tk ex)
        (MkSys (with_busy (PoolBusyWorkers p - 1) p) (<[w := (ty, WWait)]> m) cs e tk ex)
  | w_leave p m cs e tk ex w ty :
      m !! w = Some (ty, WWait) → PoolYet p = true → PoolTasks p = [] → ty ≠ sPersistent →
      worker_step (MkSys p m cs e tk ex)
        (MkSys (with_workers (leave_entry w (PoolWorkers p)) p) (delete w m) cs e tk ex)
  | w_stop p m cs e tk ex w ty :
      m !! w = Some (ty, WWait) → PoolYet p = false →
      worker_step (MkSys p m cs e tk ex) (MkSys p (delete w m) cs e tk ex).

Inductive sys_step : sys T → sys T → Prop :=
  | s_worker s s' : worker_step s s' → sys_step s s'
  | s_enqueue p m cs e tk ex i t :
      cs !! i = Some Idle → PoolYet p = true → Z.of_nat (length (PoolTasks p)) < max_tasks →
      let p' := with_tasks (PoolTasks p ++ [t]) p in
      sys_step (MkSys p m cs e tk ex)
        (MkSys p' m (<[i := Check (Z.of_nat (size (PoolWorkers p'))) (Z.of_nat (length (PoolTasks p')))]> cs)
           (e ++ [t]) tk ex)
  | s_check p m cs e tk ex i nw nt :
      cs !! i = Some (Check nw nt) →
      let n := CheckResize p nw nt in
      sys_step (MkSys p m cs e tk ex)
        (MkSys p m (<[i := if decide (0 < n) then Hiring n else Idle]> cs) e tk ex)
  | s_hire p m cs e tk ex i n tids p' :
      cs !! i = Some (Hiring n) → Z.of_nat (length tids) = n → NoDup tids →
      Forall (fresh_id (MkSys p m cs e tk ex)) tids → Hire tids p = Ret p' →
      sys_step (MkSys p m cs e tk ex) (MkSys p' (start_threads tids m) (<[i := Idle]> cs) e tk ex)
  | s_join p m cs e tk ex :
      sys_step (MkSys p m cs e tk ex) (MkSys (with_yet false p) m cs e tk ex).

(** ** Updating one thread *)

Lemma threads_update (m : gmap nat (WorkerType * worker_state T)) w a b :
  m !! w = Some a →
  ∃ rest, map_to_list m ≡ₚ (w, a) :: rest ∧ map_to_list (<[w := b]> m) ≡ₚ (w, b) :: rest ∧
    map_to_list (delete w m) ≡ₚ rest.
Proof.
  intros Hw. exists (map_to_list (delete w m)). split_and!; [|  |done].
  - symmetry. by apply map_to_list_delete.
  - rewrite <- insert_delete_eq. apply map_to_list_insert. apply lookup_delete_eq.
Qed.

Lemma start_threads_lookup tids m w :
  start_threads tids m !! w = if decide (w ∈ tids) then Some (sExtended, WWait) else m !! w.
Proof.
  induction tids as [|tid tids IH]; cbn [start_threads foldr]; [|fold (start_threads tids m)].
  - by rewrite decide_False by apply not_elem_of_nil.
  - destruct (decide (w = tid)) as [->|Hne].
    + by rewrite lookup_insert_eq, decide_True by left.
    + rewrite lookup_insert_ne, IH by done. apply decide_ext. rewrite elem_of_cons. intuition done.
Qed.

Lemma start_threads_list tids m :
  NoDup tids → Forall (λ tid, m !! tid = None) tids →
  map_to_list (start_threads tids m) ≡ₚ ((λ tid, (tid, (sExtended, WWait))) <$> tids) ++ map_to_list m.
Proof.
  induction tids as [|tid tids IH]; cbn [start_threads foldr fmap list_fmap app]; [done|]. fold (start_threads tids m).
  intros [Hn Hnd]%NoDup_cons [Hf Hall]%Forall_cons. rewrite map_to_list_insert; [by rewrite IH|].
  by rewrite start_threads_lookup, decide_False.
Qed.

Lemma Hire_spec tids (p p' : ThreadPool T) :
  Hire tids p = Ret p' →
  PoolYet p' = PoolYet p ∧ PoolInitWorkers p' = PoolInitWorkers p ∧ PoolMaxWorkers p' = PoolMaxWorkers p ∧
  PoolBusyWorkers p' = PoolBusyWorkers p ∧ PoolTasks p' = PoolTasks p ∧
  size (PoolWorkers p') = (size (PoolWorkers p) + length tids)%nat ∧
  dom (PoolWorkers p') = dom (PoolWorkers p) ∪ list_to_set tids.
Proof.
  revert p. induction tids as [|tid tids IH]; intros p; cbn [Hire].
  - intros [= <-]. split_and!; [done..|by rewrite Nat.add_0_r|]. simpl. by rewrite union_empty_r_L.
  - unfold Hire_one. case_decide; [done|]. cbn [with_index PoolWorkers].
    destruct (PoolWorkers p !! tid) as [x|] eqn:Hx; [done|]. outcome_simpl.
    intros Hrun%IH. cbn in Hrun. destruct Hrun as (H1 & H2 & H3 & H4 & H5 & H6 & H7). split_and!; [done..| |].
    + rewrite H6, map_size_insert_None by done. simpl. lia.
    + rewrite H7, dom_insert_L. simpl. by rewrite (union_comm_L {[tid]}), <- union_assoc_L.
Qed.

(** ** Tasks are neither lost nor run twice *)

Definition task_of (x : nat * (WorkerType * worker_state T)) : option T :=
  match x.2.2 with WGot t | WRun t => Some t | _ => None end.

(** The tasks the workers hold. *)
Definition in_hand (m : gmap nat (WorkerType * worker_state T)) : list T := omap task_of (map_to_list m).

Definition tasks_conserved (s : sys T) : Prop :=
  enqueued s = taken s ++ PoolTasks (pool s) ∧ taken s ≡ₚ executed s ++ in_hand (threads s).

Lemma omap_permutation {A B} (f : A → option B) l k : l ≡ₚ k → omap f l ≡ₚ omap f k.
Proof. intros H. induction H; simpl; repeat case_match; eauto using Permutation. Qed.

Lemma in_hand_update m w a b :
  m !! w = Some a →
  ∃ rest, in_hand m ≡ₚ option_list (task_of (w, a)) ++ rest ∧
    in_hand (<[w := b]> m) ≡ₚ option_list (task_of (w, b)) ++ rest ∧ in_hand (delete w m) ≡ₚ rest.
Proof.
  intros Hw. destruct (threads_update m w a b Hw) as (rest & H1 & H2 & H3).
  exists (omap task_of rest). unfold in_hand. split_and!.
  - rewrite (omap_permutation _ _ _ H1). simpl. by destruct (task_of _).
  - rewrite (omap_permutation _ _ _ H2). simpl. by destruct (task_of _).
  - by apply omap_permutation.
Qed.

Lemma worker_step_conserves s s' : tasks_conserved s → worker_step s s' → tasks_conserved s'.
Proof.
  intros [He Ht] Hs.
  destruct Hs as [p m cs e tk ex w ty t ts Hw Hy Hts|p m cs e tk ex w ty t Hw|p m cs e tk ex w ty t Hw
                 |p m cs e tk ex w ty Hw|p m cs e tk ex w ty Hw Hy Hts Hty|p m cs e tk ex w ty Hw Hy];
    unfold tasks_conserved in *; cbn in *.
  - destruct (in_hand_update m w _ (ty, WGot t) Hw) as (rest & H1 & H2 & _). simpl in *.
    split; [by rewrite He, Hts, <- app_assoc|]. rewrite H2, Ht, H1. solve_Permutation.
  - destruct (in_hand_update m w _ (ty, WRun t) Hw) as (rest & H1 & H2 & _). simpl in *.
    split; [done|]. by rewrite H2, Ht, H1.
  - destruct (in_hand_update m w _ (ty, WDone) Hw) as (rest & H1 & H2 & _). simpl in *.
    split; [done|]. rewrite H2, Ht, H1. solve_Permutation.
  - destruct (in_hand_update m w _ (ty, WWait) Hw) as (rest & H1 & H2 & _). simpl in *.
    split; [done|]. by rewrite H2, Ht, H1.
  - destruct (in_hand_update m w _ (ty, WWait) Hw) as (rest & H1 & _ & H2). simpl in *.
    split; [done|]. by rewrite H2, Ht, H1.
  - destruct (in_hand_update m w _ (ty, WWait) Hw) as (rest & H1 & _ & H2). simpl in *.
    split; [done|]. by rewrite H2, Ht, H1.
Qed.

Lemma sys_step_conserves s s' : tasks_conserved s → sys_step s s' → tasks_conserved s'.
Proof.
  intros Hc Hs. destruct Hs as [s s' Hs|p m cs e tk ex i t Hi Hy Hl p'|p m cs e tk ex i nw nt Hi n
                               |p m cs e tk ex i n tids p' Hi Hn Hnd Hf Hh|p m cs e tk ex]; [by eapply worker_step_conserves|..];
    destruct Hc as [He Ht]; unfold tasks_conserved in *; cbn in *; [|done| |done].
  - split; [by rewrite He, <- app_assoc|done].
  - apply Hire_spec in Hh as (_ & _ & _ & _ & Hts & _). rewrite Hts. split; [done|].
    unfold in_hand. rewrite (omap_permutation _ _ _ (start_threads_list tids m Hnd ltac:(eapply Forall_impl; [exact Hf|by intros ? []]))).
    rewrite omap_app. replace (omap task_of _) with (@nil T); [exact Ht|]. clear. by induction tids.
Qed.

(** C16: no task is lost and none is run twice, for any number of callers, in
    either build: at every moment the tasks enqueued are, in order, those
    taken by workers followed by those waiting, and the tasks taken are those
    executed together with those the workers hold. *)
Theorem pool_conserves_tasks (s s' : sys T) :
  star sys_step s s' → tasks_conserved s → tasks_conserved s'.
Proof. intros Hs. apply (star_invariant sys_step tasks_conserved); [|done]. intros. by eapply sys_step_conserves. Qed.

(** ** The pool stays within its limit *)

Definition busy_of (x : nat * (WorkerType * worker_state T)) : nat :=
  match x.2.2 with WRun _ | WDone => 1 | _ => 0 end%nat.

Definition busy_count (m : gmap nat (WorkerType * worker_state T)) : nat :=
  sum_list (busy_of <$> map_to_list m).

Lemma busy_count_update m w a b :
  m !! w = Some a →
  ∃ rest, busy_count m = (busy_of (w, a) + rest)%nat ∧ busy_count (<[w := b]> m) = (busy_of (w, b) + rest)%nat ∧
    busy_count (delete w m) = rest.
Proof.
  intros Hw. destruct (threads_update m w a b Hw) as (rest & H1 & H2 & H3).
  exists (sum_list (busy_of <$> rest)). unfold busy_count. split_and!.
  - by rewrite H1. - by rewrite H2. - by rewrite H3.
Qed.

Lemma busy_count_size m : (busy_count m ≤ size m)%nat.
Proof.
  unfold busy_count. rewrite <- length_map_to_list. induction (map_to_list m) as [|x l IH]; [done|]. simpl.
  change (list_fmap _ _ busy_of l) with (busy_of <$> l). unfold busy_of at 1. destruct x.2.2; lia.
Qed.

Lemma busy_count_start tids m :
  NoDup tids → Forall (λ tid, m !! tid = None) tids → busy_count (start_threads tids m) = busy_count m.
Proof.
  intros Hnd Hf. unfold busy_count. rewrite (start_threads_list tids m Hnd Hf), fmap_app, sum_list_with_app.
  replace (sum_list _) with 0%nat at 1; [done|]. clear. by induction tids.
Qed.

(** The one caller knows a number of workers that can only have gone down. *)
Definition caller_ok (p : ThreadPool T) (c : caller_state) : Prop :=
  match c with
  | Idle => True
  | Check nw nt => Z.of_nat (size (PoolWorkers p)) ≤ nw ≤ PoolMaxWorkers p ∧ 0 ≤ nt ≤ max_tasks
  | Hiring n => Z.of_nat (size (PoolWorkers p)) + n ≤ PoolMaxWorkers p
  end.

Definition within_max (init max : Z) (s : sys T) : Prop :=
  PoolInitWorkers (pool s) = init ∧ PoolMaxWorkers (pool s) = max ∧
  Z.of_nat (size (PoolWorkers (pool s))) ≤ max ∧
  dom (threads s) ⊆ dom (PoolWorkers (pool s)) ∧
  PoolBusyWorkers (pool s) = Z.of_nat (busy_count (threads s)) ∧
  ∃ c, callers s = [c] ∧ caller_ok (pool s) c.

Lemma leave_entry_size w ws : (size (leave_entry w ws) ≤ size ws)%nat.
Proof.
  unfold leave_entry. destruct (ws !! w) as [x|] eqn:Hw; [|lia]. destruct NDEBUG.
  - rewrite map_size_insert_Some by done. lia.
  - rewrite map_size_delete_Some by done. lia.
Qed.

Lemma leave_entry_dom w ws : dom ws ∖ {[w]} ⊆ dom (leave_entry w ws).
Proof.
  unfold leave_entry. destruct (ws !! w) as [x|] eqn:Hw; [|set_solver]. destruct NDEBUG.
  - rewrite dom_insert. set_solver.
  - by rewrite dom_delete.
Qed.

Lemma dom_update (m : gmap nat (WorkerType * worker_state T)) w a b (D : gset nat) :
  m !! w = Some a → dom m ⊆ D → dom (<[w := b]> m) ⊆ D.
Proof. intros Hw Hd. rewrite dom_insert_lookup by (by eexists). done. Qed.

Lemma worker_step_within_max init max s s' : within_max init max s → worker_step s s' → within_max init max s'.
Proof.
  intros (Hi & Hm & Hsz & Hdom & Hb & c & Hc & Hok) Hs.
  destruct Hs as [p m cs e tk ex w ty t ts Hw Hy Hts|p m cs e tk ex w ty t Hw|p m cs e tk ex w ty t Hw
                 |p m cs e tk ex w ty Hw|p m cs e tk ex w ty Hw Hy Hts Hty|p m cs e tk ex w ty Hw Hy];
    unfold within_max in *; cbn in *.
  - destruct (busy_count_update m w _ (ty, WGot t) Hw) as (rest & H1 & H2 & _). simpl in *.
    split_and!; [done..|by eapply dom_update|by rewrite Hb, H1, H2|by exists c].
  - destruct (busy_count_update m w _ (ty, WRun t) Hw) as (rest & H1 & H2 & _). simpl in *.
    split_and!; [done..|by eapply dom_update|rewrite Hb, H1, H2; lia|by exists c].
  - destruct (busy_count_update m w _ (ty, WDone) Hw) as (rest & H1 & H2 & _). simpl in *.
    split_and!; [done..|by eapply dom_update|by rewrite Hb, H1, H2|by exists c].
  - destruct (busy_count_update m w _ (ty, WWait) Hw) as (rest & H1 & H2 & _). simpl in *.
    split_and!; [done..|by eapply dom_update|rewrite Hb, H1, H2; lia|by exists c].
  - destruct (busy_count_update m w _ (ty, WWait) Hw) as (rest & H1 & _ & H2). simpl in *.
    pose proof (leave_entry_size w (PoolWorkers p)) as Hle.
    split_and!; [done..|lia| |by rewrite Hb, H1, H2|].
    + rewrite dom_delete. pose proof (leave_entry_dom w (PoolWorkers p)). set_solver.
    + exists c. split; [done|]. destruct c; cbn in *; [done|lia|lia].
  - destruct (busy_count_update m w _ (ty, WWait) Hw) as (rest & H1 & _ & H2). simpl in *.
    split_and!; [done..| |by rewrite Hb, H1, H2|by exists c]. rewrite dom_delete. set_solver.
Qed.

Lemma sys_step_within_max init max s s' :
  0 < init ≤ max → max < 2 ^ 61 → within_max init max s → sys_step s s' → within_max init max s'.
Proof.
  intros Hinit Hmax Hin Hs.
  destruct Hs as [s s' Hs|p m cs e tk ex i t Hi Hy Hl p'|p m cs e tk ex i nw nt Hi n
                 |p m cs e tk ex i n tids p' Hi Hn Hnd Hf Hh|p m cs e tk ex]; [by eapply worker_step_within_max|..];
    destruct Hin as (Hpi & Hpm & Hsz & Hdom & Hb & c & Hc & Hok); unfold within_max; cbn in *; [..|by split_and!; eauto];
    subst cs; apply list_lookup_singleton_Some in Hi as [-> ->]; cbn in *.
  - split_and!; [done..|]. eexists. split; [done|]. cbn. rewrite length_app. simpl. unfold max_tasks in *. lia.
  - split_and!; [done..|]. eexists. split; [done|]. case_decide as Hn; [|done]. cbn.
    destruct Hok as [Hnw Hnt]. unfold n, CheckResize in *. rewrite Hpi, Hpm in *.
    assert (Hbusy : (busy_count m ≤ size (PoolWorkers p))%nat).
    { etrans; [apply busy_count_size|]. rewrite <- !size_dom. by apply subseteq_size. }
    rewrite NewWorkerCount_eq in * by (unfold max_tasks in *; lia). case_decide; lia.
  - apply Hire_spec in Hh as (_ & H2 & H3 & H4 & _ & H6 & H7). rewrite H2, H3, H4, H6, H7.
    assert (Hnone : Forall (λ tid, m !! tid = None) tids) by (eapply Forall_impl; [exact Hf|by intros ? []]).
    split_and!; [done..|lia| |by rewrite busy_count_start|by eexists].
    intros w [x Hx]%elem_of_dom. rewrite start_threads_lookup in Hx.
    case_decide as Hin; [set_solver|]. apply elem_of_dom_2 in Hx. set_solver.
Qed.

(** C17: with one thread calling [Enqueue], as in the kernel's accept loop, the
    pool never has more than [PoolMaxWorkers] workers, and the busy counter is
    the number of workers between their two updates of it. *)
Theorem pool_within_max (init max : Z) (s s' : sys T) :
  0 < init ≤ max → max < 2 ^ 61 → star sys_step s s' → within_max init max s → within_max init max s'.
Proof.
  intros Hinit Hmax Hs. apply (star_invariant sys_step (within_max init max)); [|done].
  intros. by eapply sys_step_within_max.
Qed.

(** ** The table of workers and the threads that exist *)

Definition table_exact (s : sys T) : Prop :=
  PoolYet (pool s) = true → dom (PoolWorkers (pool s)) = dom (threads s).

Lemma sys_step_exact s s' : NDEBUG = false → table_exact s → sys_step s s' → table_exact s'.
Proof.
  intros Hdbg He Hs. unfold table_exact in *.
  destruct Hs as [s s' [p m cs e tk ex v ty t ts Hv Hy Hts|p m cs e tk ex v ty t Hv|p m cs e tk ex v ty t Hv
                 |p m cs e tk ex v ty Hv|p m cs e tk ex v ty Hv Hy Hts Hty|p m cs e tk ex v ty Hv Hy]
                 |p m cs e tk ex i t Hi Hy Hl p'|p m cs e tk ex i nw nt Hi n
                 |p m cs e tk ex i n tids p' Hi Hn Hnd Hf Hh|p m cs e tk ex]; cbn in *; try done;
    try (intros Hy'; rewrite dom_insert_lookup_L by (by eexists); by apply He).
  - intros Hy'. rewrite dom_delete_L, <- He by done. unfold leave_entry. rewrite Hdbg.
    assert (Hin : v ∈ dom (PoolWorkers p)) by (rewrite He by done; by apply elem_of_dom).
    apply elem_of_dom in Hin as [x Hx]. rewrite Hx. apply dom_delete_L.
  - congruence.
  - apply Hire_spec in Hh as (Hyet & _ & _ & _ & _ & _ & Hdom). rewrite Hyet, Hdom. intros Hy. rewrite He by done.
    apply set_eq. intros w. rewrite elem_of_union, elem_of_list_to_set, !elem_of_dom, start_threads_lookup.
    case_decide as Hw; [split; [by eexists|auto]|]. split; [intros [?|?]; done|auto].
Qed.

(** In a debug build the table of workers names exactly the threads that
    are running, so that the sizing decision counts real workers. *)
Theorem debug_table_exact (s s' : sys T) :
  NDEBUG = false → star sys_step s s' → table_exact s → table_exact s'.
Proof. intros Hdbg Hs. apply (star_invariant sys_step table_exact); [|done]. intros. by eapply sys_step_exact. Qed.

(** ** A persistent worker serves every task *)

Definition has_persistent (s : sys T) : Prop := ∃ w st, threads s !! w = Some (sPersistent, st).

Lemma step_keeps_persistent s s' :
  sys_step s s' → PoolYet (pool s') = true → has_persistent s → has_persistent s' ∧ PoolYet (pool s) = true.
Proof.
  intros Hs Hy' (w & st & Hw).
  assert (Hup : ∀ (m : gmap nat (WorkerType * worker_state T)) v ty st0 st1,
      m !! w = Some (sPersistent, st) → m !! v = Some (ty, st0) →
      ∃ w' st', <[v := (ty, st1)]> m !! w' = Some (sPersistent, st')).
  { intros m v ty st0 st1 Hm Hv. exists w. destruct (decide (v = w)) as [->|Hne].
    - rewrite Hm in Hv. injection Hv as <- <-. exists st1. apply lookup_insert_eq.
    - exists st. by rewrite lookup_insert_ne. }
  unfold has_persistent.
  destruct Hs as [s s' [p m cs e tk ex v ty t ts Hv Hy Hts|p m cs e tk ex v ty t Hv|p m cs e tk ex v ty t Hv
                 |p m cs e tk ex v ty Hv|p m cs e tk ex v ty Hv Hy Hts Hty|p m cs e tk ex v ty Hv Hy]
                 |p m cs e tk ex i t Hi Hy Hl p'|p m cs e tk ex i nw nt Hi n
                 |p m cs e tk ex i n tids p' Hi Hn Hnd Hf Hh|p m cs e tk ex]; cbn in *; eauto.
  - split; [|done]. exists w, st. rewrite lookup_delete_ne; [done|]. intros ->. congruence.
  - congruence.
  - apply Hire_spec in Hh as (Hyet & _). rewrite Hyet in Hy'. split; [|done]. exists w, st.
    rewrite start_threads_lookup, decide_False; [done|]. intros Hin.
    rewrite Forall_forall in Hf. destruct (Hf w Hin) as [Hnone _]. cbn in Hnone. congruence.
  - done.
Qed.

Definition same_queue (s s' : sys T) : Prop :=
  PoolTasks (pool s') = PoolTasks (pool s) ∧ PoolYet (pool s') = PoolYet (pool s).

(** A worker can always go back to its test. *)
Lemma worker_returns s w ty st :
  threads s !! w = Some (ty, st) →
  ∃ s', star worker_step s s' ∧ threads s' !! w = Some (ty, WWait) ∧ same_queue s s'.
Proof.
  intros Hw. destruct s as [p m cs e tk ex]. cbn in Hw.
  assert (Hidle : ∀ p m cs e tk ex, m !! w = Some (ty, WDone) →
    ∃ s', star worker_step (MkSys p m cs e tk ex) s' ∧ threads s' !! w = Some (ty, WWait) ∧
      same_queue (MkSys p m cs e tk ex) s').
  { clear. intros p m cs e tk ex Hw. eexists. split; [apply star_one; by eapply w_idle|].
    split; [cbn; apply lookup_insert_eq|done]. }
  assert (Hrun : ∀ p m cs e tk ex t, m !! w = Some (ty, WRun t) →
    ∃ s', star worker_step (MkSys p m cs e tk ex) s' ∧ threads s' !! w = Some (ty, WWait) ∧
      same_queue (MkSys p m cs e tk ex) s').
  { clear -Hidle. intros p m cs e tk ex t Hw.
    destruct (Hidle p (<[w := (ty, WDone)]> m) cs e tk (ex ++ [t])) as (s' & Hs & H1 & H2); [apply lookup_insert_eq|].
    exists s'. split; [|done]. eapply star_step; [by eapply w_run|exact Hs]. }
  destruct st as [|t|t|].
  - eexists. split; [apply star_refl|]. done.
  - destruct (Hrun (with_busy (PoolBusyWorkers p + 1) p) (<[w := (ty, WRun t)]> m) cs e tk ex t)
      as (s' & Hs & H1 & H2); [apply lookup_insert_eq|].
    exists s'. split; [|done]. eapply star_step; [by eapply w_busy|exact Hs].
  - by eapply Hrun.
  - by eapply Hidle.
Qed.

Lemma worker_drains s w ty :
  PoolYet (pool s) = true → threads s !! w = Some (ty, WWait) →
  ∃ s', star worker_step s s' ∧ PoolTasks (pool s') = [] ∧ threads s' !! w = Some (ty, WWait).
Proof.
  remember (PoolTasks (pool s)) as ts eqn:Hts. revert s Hts. induction ts as [|t ts IH]; intros s Hts Hy Hw.
  { exists s. split; [apply star_refl|done]. }
  destruct s as [p m cs e tk ex]. cbn in *.
  destruct (worker_returns (MkSys (with_tasks ts p) (<[w := (ty, WGot t)]> m) cs e (tk ++ [t]) ex) w ty (WGot t))
    as (s1 & Hs1 & Hw1 & Hq1 & Hy1); [apply lookup_insert_eq|]. cbn in *.
  destruct (IH s1) as (s2 & Hs2 & Ht2 & Hw2); [done|by rewrite Hy1|done|].
  exists s2. split; [|done]. eapply star_step; [by eapply w_take|]. by eapply star_trans.
Qed.

(** C18: waiting tasks can always be served: in every state reached from one
    with a persistent worker, as long as the pool is not joined, some
    persistent worker is still there, and the workers alone can run until no
    task waits.  Extended workers may leave at any time before that. *)
Theorem pool_can_drain (s0 s : sys T) :
  has_persistent s0 → star sys_step s0 s → PoolYet (pool s) = true →
  has_persistent s ∧ ∃ s', star worker_step s s' ∧ PoolTasks (pool s') = [].
Proof.
  intros Hp Hs Hy.
  assert (Hps : has_persistent s).
  { assert (H : PoolYet (pool s) = true → has_persistent s ∧ PoolYet (pool s0) = true); [|by apply H].
    clear Hy. induction Hs as [s0|s0 s1 s2 Hstep Hs IH]; [done|]. intros Hy.
    destruct (decide (PoolYet (pool s1) = true)) as [Hy1|Hy1].
    - destruct (step_keeps_persistent s0 s1 Hstep Hy1 Hp) as [Hp1 Hy0]. split; [by apply IH|done].
    - exfalso. clear IH Hstep Hp. induction Hs as [|s1 s3 s2 Hstep Hs IH]; [done|]. apply IH; [done|].
      intros Hy3. apply Hy1. clear -Hstep Hy3.
      destruct Hstep as [s s' []| | |p m cs e tk ex i n tids p' _ _ _ _ Hh|]; cbn in *; try done.
      apply Hire_spec in Hh as (Hyet & _). by rewrite <- Hyet. }
  split; [done|]. destruct Hps as (w & st & Hw).
  destruct (worker_returns s w _ st Hw) as (s1 & Hs1 & Hw1 & Hq1 & Hy1).
  destruct (worker_drains s1 w sPersistent) as (s2 & Hs2 & Ht2 & _); [by rewrite Hy1|done|].
  exists s2. split; [by eapply star_trans|done].
Qed.
End steps.

(** ** Concrete runs *)
Module PoolDemo.
Definition pool0 (max : Z) : ThreadPool nat := MkPool true 1 max 1 0 {[0%nat := true]} [] [3].

(** One persistent worker, waiting. *)
Definition start (max : Z) (cs : list caller_state) : sys nat :=
  MkSys (pool0 max) {[0%nat := (sPersistent, WWait)]} cs [] [] [].

End PoolDemo.

Ltac pool_fresh := repeat (apply Forall_cons; split; [split; [reflexivity|discriminate]|]); apply Forall_nil; exact I.

(** Two threads calling [Enqueue] at once can exceed the limit: both read
    the same number of workers before either hires.  Nothing in the sources
    calls it from two threads, but the class does not say so. *)
Theorem two_callers_exceed_limit :
  ∃ s, star (sys_step false) (PoolDemo.start 2 [Idle; Idle]) s ∧
    PoolMaxWorkers (pool s) = 2 ∧ size (PoolWorkers (pool s)) = 3%nat ∧
    CheckResize (pool s) 3 1 = 2 ^ 64 - 1.
Proof.
  eexists. split; [|split; [|split]].
  - (* both callers queue a task while the worker is busy with another *)
    eapply star_step; [by eapply (s_enqueue false) with (i := 0%nat) (t := 6%nat)|].
    eapply star_step; [by eapply (s_check false) with (i := 0%nat)|].
    eapply star_step; [apply s_worker; by eapply w_take with (w := 0%nat)|].
    eapply star_step; [apply s_worker; by eapply w_busy with (w := 0%nat)|].
    eapply star_step; [by eapply (s_enqueue false) with (i := 0%nat) (t := 7%nat)|].
    eapply star_step; [by eapply (s_enqueue false) with (i := 1%nat) (t := 8%nat)|].
    eapply star_step; [by eapply (s_check false) with (i := 0%nat)|].
    eapply star_step; [by eapply (s_check false) with (i := 1%nat)|].
    eapply star_step; [eapply (s_hire false) with (i := 0%nat) (tids := [1%nat]); [reflexivity|reflexivity|decided|pool_fresh|reflexivity]|].
    eapply star_step; [eapply (s_hire false) with (i := 1%nat) (tids := [2%nat]); [reflexivity|reflexivity|decided|pool_fresh|reflexivity]|].
    apply star_refl.
  - reflexivity.
  - vm_compute. reflexivity.
  - vm_compute. reflexivity.
Qed.

(** In a release build a worker that leaves stays in the table: the
    statement that erases it is the argument of a macro that is empty there.
    The pool counts it as an idle worker for ever, and when the system gives its
    identifier to a new worker, [Hire] ends the process. *)
Theorem release_build_keeps_ghosts :
  ∃ s, star (sys_step true) (PoolDemo.start 3 [Idle]) s ∧
    size (PoolWorkers (pool s)) = 2%nat ∧ size (threads s) = 1%nat ∧
    fresh_id s 1 ∧ Hire [1%nat] (pool s) = Terminate.
Proof.
  eexists. split; [|split_and!].
  - eapply star_step; [by eapply (s_enqueue true) with (i := 0%nat) (t := 6%nat)|].
    eapply star_step; [by eapply (s_check true) with (i := 0%nat)|].
    eapply star_step; [by eapply (s_enqueue true) with (i := 0%nat) (t := 7%nat)|].
    eapply star_step; [by eapply (s_check true) with (i := 0%nat)|].
    eapply star_step; [eapply (s_hire true) with (i := 0%nat) (tids := [1%nat]); [reflexivity|reflexivity|decided|pool_fresh|reflexivity]|].
    eapply star_step; [apply s_worker; by eapply w_take with (w := 0%nat)|].
    eapply star_step; [apply s_worker; by eapply w_busy with (w := 0%nat)|].
    eapply star_step; [apply s_worker; by eapply w_run with (w := 0%nat)|].
    eapply star_step; [apply s_worker; by eapply w_idle with (w := 0%nat)|].
    eapply star_step; [apply s_worker; by eapply w_take with (w := 0%nat)|].
    eapply star_step; [apply s_worker; by eapply w_leave with (w := 1%nat)|].
    apply star_refl.
  - vm_compute. reflexivity.
  - vm_compute. reflexivity.
  - split; [reflexivity|vm_compute; discriminate].
  - vm_compute. reflexivity.
Qed.

(** ** The theorems on a short run *)
Lemma demo_run :
  ∃ s, star (sys_step false) (PoolDemo.start 2 [Idle]) s ∧ PoolYet (pool s) = true.
Proof.
  eexists. split; [|].
  - eapply star_step; [by eapply (s_enqueue false) with (i := 0%nat) (t := 6%nat)|]. apply star_refl.
  - reflexivity.
Qed.

Lemma pool_conserves_tasks_witness :
  tasks_conserved (PoolDemo.start 2 [Idle]) ∧
  ∃ s, star (sys_step false) (PoolDemo.start 2 [Idle]) s ∧ tasks_conserved s.
Proof.
  assert (H : tasks_conserved (PoolDemo.start 2 [Idle])) by (split; reflexivity).
  split; [exact H|]. destruct demo_run as (s & Hs & _). exists s. split; [exact Hs|].
  exact (pool_conserves_tasks false _ s Hs H).
Defined.

Lemma pool_within_max_witness :
  within_max 1 2 (PoolDemo.start 2 [Idle]) ∧
  ∃ s, star (sys_step false) (PoolDemo.start 2 [Idle]) s ∧ within_max 1 2 s.
Proof.
  assert (H : within_max 1 2 (PoolDemo.start 2 [Idle])).
  { split; [reflexivity|]. split; [reflexivity|]. split; [vm_compute; discriminate|].
    split; [|split; [reflexivity|by exists Idle]]. cbn. rewrite !dom_singleton. reflexivity. }
  split; [exact H|]. destruct demo_run as (s & Hs & _). exists s. split; [exact Hs|].
  refine (pool_within_max false 1 2 _ s _ _ Hs H); lia.
Defined.

Lemma debug_table_exact_witness :
  table_exact (PoolDemo.start 2 [Idle]) ∧
  ∃ s, star (sys_step false) (PoolDemo.start 2 [Idle]) s ∧ table_exact s.
Proof.
  assert (H : table_exact (PoolDemo.start 2 [Idle])).
  { intros _. cbn. by rewrite !dom_singleton_L. }
  split; [exact H|]. destruct demo_run as (s & Hs & _). exists s. split; [exact Hs|].
  exact (debug_table_exact false _ s eq_refl Hs H).
Defined.

Lemma pool_can_drain_witness :
  has_persistent (PoolDemo.start 2 [Idle]) ∧
  ∃ s, star (sys_step false) (PoolDemo.start 2 [Idle]) s ∧
    has_persistent s ∧ ∃ s', star (worker_step false) s s' ∧ PoolTasks (pool s') = [].
Proof.
  assert (H : has_persistent (PoolDemo.start 2 [Idle])) by (exists 0%nat, WWait; reflexivity).
  split; [exact H|]. destruct demo_run as (s & Hs & Hy). exists s. split; [exact Hs|].
  exact (pool_can_drain false _ s H Hs Hy).
Defined.
