(* ===== verification/PoolJoin.v ===== *)
(** * PoolJoin: entering and stopping the pool

    The rest of [kernel/mt/threadpool.h] and [threadpool.cpp]: the critical
    section of [Enqueue], its overload for an [IUnknown] with the task it makes, and
    [Join], which the destructor calls, as steps of the joining thread between
    the steps of the workers. *)
From Stdlib Require Import Ascii String.
From stdpp Require Import options relations.
From S2P Require Import Prelude ThreadPool ThreadPoolConc.

#[local] Open Scope nat_scope.

(** ** [Enqueue] *)
Section enqueue.
Context {T : Type}.

(** The block under the lock: the number of workers and of tasks afterwards.
    [emplace] throws when the queue cannot grow. *)
Definition enqueue_section (task : T) : M (ThreadPool T) (Z * Z) := λ p,
  if PoolYet p then
    if decide (Z.of_nat (length (PoolTasks p)) < max_tasks)%Z then
      let p := with_tasks (PoolTasks p ++ [task]) p in
      (Ret (Z.of_nat (size (PoolWorkers p)), Z.of_nat (length (PoolTasks p))), p)
    else (Throw (StdException (str "std::bad_alloc")), p)
  else (Throw (StdException (str "enqueue on stopped ThreadPool")), p).
End enqueue.

(** *** [Enqueue] of an [IUnknown]: the state is the reference count of the job *)

(** [pThreadJob->QueryInterface(IThreadJob::guid(), &job)], which adds a
    reference when it succeeds. *)
Definition query_job (is_job : bool) : M Z bool := λ refs, (Ret is_job, if is_job then (refs + 1)%Z else refs).
Definition AddRef : M Z unit := modify (λ refs, refs + 1)%Z.
Definition Release : M Z unit := modify (λ refs, refs - 1)%Z.

(** The task: [job] is null when the object is no [IThreadJob], and is
    released at the end in any case. *)
Definition job_task (is_job : bool) (Exec : M Z unit) : M Z unit :=
  job ← query_job is_job;
  _ ← (if job : bool then _ ← Exec; Release else mret tt);
  if job : bool then Release else lift Undef.

(** The reference the pool takes before the task is stored. *)
Definition Enqueue_job : M Z unit := AddRef.

(** ** [Join] *)

(** The joining thread: before the call, in the loop over [PoolWorkers] with
    the joinable threads that are left, after the call. *)
Inductive joiner := JStart | JWaiting (todo : list nat) | JDone.

Section join.
Context {T : Type} (NDEBUG : bool).

(** The entries of the table that are joinable, in the order [hash_order] of
    the table. *)
Definition joinable_workers (hash_order : list nat → list nat) (p : ThreadPool T) : list nat :=
  hash_order ((filter (λ x, x.2 = true) (map_to_list (PoolWorkers p))).*1).

Inductive join_step (hash_order : list nat → list nat) : sys T * joiner → sys T * joiner → Prop :=
  | j_worker s s' j : worker_step NDEBUG s s' → join_step hash_order (s, j) (s', j)
  | j_begin p m cs e tk ex :
      PoolYet p = true →
      join_step hash_order (MkSys p m cs e tk ex, JStart)
        (MkSys (with_yet false p) m cs e tk ex, JWaiting (joinable_workers hash_order p))
  | j_again s : PoolYet (pool s) = false → join_step hash_order (s, JStart) (s, JDone)
  | j_joined s w todo : threads s !! w = None → join_step hash_order (s, JWaiting (w :: todo)) (s, JWaiting todo)
  | j_end s : join_step hash_order (s, JWaiting []) (s, JDone).

(** ** Every running thread is in the table, and joinable *)

Definition all_joinable (s : sys T) : Prop :=
  ∀ w, is_Some (threads s !! w) → PoolWorkers (pool s) !! w = Some true.

Lemma Hire_lookup tids (p p' : ThreadPool T) :
  Hire tids p = Ret p' → ∀ w, PoolWorkers p' !! w = if decide (w ∈ tids) then Some true else PoolWorkers p !! w.
Proof.
  revert p. induction tids as [|tid tids IH]; intros p; cbn [Hire]; [by intros [= <-]|].
  unfold Hire_one. case_decide; [done|]. cbn [with_index PoolWorkers].
  destruct (PoolWorkers p !! tid) as [x|] eqn:Hx; [done|]. outcome_simpl. intros Hrun w. rewrite (IH _ Hrun). cbn.
  destruct (decide (w = tid)) as [->|Hne].
  - rewrite lookup_insert_eq. rewrite (decide_True (P := tid ∈ tid :: tids)) by left. by case_decide.
  - rewrite lookup_insert_ne by done. apply decide_ext. rewrite elem_of_cons. naive_solver.
Qed.

Lemma worker_step_joinable (s s' : sys T) : all_joinable s → worker_step NDEBUG s s' → all_joinable s'.
Proof.
  intros Hj Hs. unfold all_joinable in *.
  destruct Hs as [p m cs e tk ex v ty t ts Hv Hy Hts|p m cs e tk ex v ty t Hv|p m cs e tk ex v ty t Hv
                 |p m cs e tk ex v ty Hv|p m cs e tk ex v ty Hv Hy Hts Hty|p m cs e tk ex v ty Hv Hy]; cbn in *;
    intros w Hw.
  1-4: apply Hj; destruct (decide (w = v)) as [->|Hne]; [by eexists|by rewrite lookup_insert_ne in Hw].
  - destruct (decide (w = v)) as [->|Hne]; [rewrite lookup_delete_eq in Hw; by destruct Hw|].
    rewrite lookup_delete_ne in Hw by done. unfold leave_entry. destruct (PoolWorkers p !! v); [|by apply Hj].
    destruct NDEBUG; [rewrite lookup_insert_ne by done|rewrite lookup_delete_ne by done]; by apply Hj.
  - apply Hj. destruct (decide (w = v)) as [->|Hne]; [by eexists|by rewrite lookup_delete_ne in Hw].
Qed.

Lemma sys_step_joinable (s s' : sys T) : all_joinable s → sys_step NDEBUG s s' → all_joinable s'.
Proof.
  intros Hj Hs. destruct Hs as [s s' Hs|p m cs e tk ex i t Hi Hy Hl p'|p m cs e tk ex i nw nt Hi n
                               |p m cs e tk ex i n tids p' Hi Hn Hnd Hf Hh|p m cs e tk ex];
    [by eapply worker_step_joinable|done|done| |done].
  intros w Hw. cbn in *. rewrite (Hire_lookup _ _ _ Hh w). rewrite start_threads_lookup in Hw.
  case_decide; [done|by apply Hj].
Qed.

(** ** [Join] returns *)

(** The steps a thread has left once the pool is stopped. *)
Definition steps_left (x : nat * (WorkerType * worker_state T)) : nat :=
  match x.2.2 with WWait => 1 | WDone => 2 | WRun _ => 3 | WGot _ => 4 end.
Definition threads_left (m : gmap nat (WorkerType * worker_state T)) : nat := sum_list (steps_left <$> map_to_list m).

Lemma threads_left_update m w a b :
  m !! w = Some a →
  ∃ rest, threads_left m = steps_left (w, a) + rest ∧ threads_left (<[w := b]> m) = steps_left (w, b) + rest ∧
    threads_left (delete w m) = rest.
Proof.
  intros Hw. destruct (threads_update m w a b Hw) as (rest & H1 & H2 & H3).
  exists (sum_list (steps_left <$> rest)). unfold threads_left. split_and!.
  - by rewrite H1. - by rewrite H2. - by rewrite H3.
Qed.

Lemma threads_left_bound m : threads_left m ≤ 4 * size m.
Proof.
  unfold threads_left. rewrite <- length_map_to_list. induction (map_to_list m) as [|x l IH]; [done|].
  cbn [fmap list_fmap sum_list sum_list_with length]. change (list_fmap _ _ steps_left l) with (steps_left <$> l).
  unfold steps_left at 1. cbn in IH |- *. destruct x.2.2; lia.
Qed.

(** A stopped worker only moves towards its end, takes no task, and leaves no
    task half done. *)
Lemma stopped_worker_step (s s' : sys T) :
  PoolYet (pool s) = false → worker_step NDEBUG s s' →
  threads_left (threads s') < threads_left (threads s) ∧ PoolYet (pool s') = false ∧
  PoolTasks (pool s') = PoolTasks (pool s) ∧ taken s' = taken s ∧ enqueued s' = enqueued s.
Proof.
  intros Hy Hs.
  destruct Hs as [p m cs e tk ex w ty t ts Hw Hy' Hts|p m cs e tk ex w ty t Hw|p m cs e tk ex w ty t Hw
                 |p m cs e tk ex w ty Hw|p m cs e tk ex w ty Hw Hy' Hts Hty|p m cs e tk ex w ty Hw Hy']; cbn in *;
    try congruence.
  - destruct (threads_left_update m w _ (ty, WRun t) Hw) as (rest & -> & -> & _). cbn. split_and!; [lia|done..].
  - destruct (threads_left_update m w _ (ty, WDone) Hw) as (rest & -> & -> & _). cbn. split_and!; [lia|done..].
  - destruct (threads_left_update m w _ (ty, WWait) Hw) as (rest & -> & -> & _). cbn. split_and!; [lia|done..].
  - destruct (threads_left_update m w _ (ty, WWait) Hw) as (rest & -> & _ & ->). cbn. split_and!; [lia|done..].
Qed.

(** A thread that exists can always make its next step. *)
Lemma stopped_worker_moves (s : sys T) w x :
  PoolYet (pool s) = false → threads s !! w = Some x → ∃ s', worker_step NDEBUG s s'.
Proof.
  intros Hy Hw. destruct s as [p m cs e tk ex], x as [ty [|t|t|]]; cbn in *; eexists;
    [by eapply w_stop|by eapply w_busy|by eapply w_run|by eapply w_idle].
Qed.

Definition joiner_left (j : joiner) : nat :=
  match j with JStart => 1 | JWaiting todo => S (length todo) | JDone => 0 end.

(** What [Join] keeps while it waits. *)
Definition joining (s0 : sys T) (c : sys T * joiner) : Prop :=
  PoolYet (pool c.1) = false ∧ all_joinable c.1 ∧ tasks_conserved c.1 ∧
  PoolTasks (pool c.1) = PoolTasks (pool s0) ∧ enqueued c.1 = enqueued s0 ∧
  match c.2 with
  | JStart => False
  | JWaiting todo => ∀ w, is_Some (threads c.1 !! w) → w ∈ todo
  | JDone => threads c.1 = ∅
  end.

Lemma worker_step_dom (s s' : sys T) w : worker_step NDEBUG s s' → is_Some (threads s' !! w) → is_Some (threads s !! w).
Proof.
  intros Hs. destruct Hs as [p m cs e tk ex v ty t ts Hv Hy Hts|p m cs e tk ex v ty t Hv|p m cs e tk ex v ty t Hv
                 |p m cs e tk ex v ty Hv|p m cs e tk ex v ty Hv Hy Hts Hty|p m cs e tk ex v ty Hv Hy]; cbn in *; intros Hw;
    (destruct (decide (w = v)) as [->|Hne]; [by eexists|]);
    first [by rewrite lookup_insert_ne in Hw|by rewrite lookup_delete_ne in Hw].
Qed.

Lemma joining_step hash_order s0 c c' :
  joining s0 c → join_step hash_order c c' →
  joining s0 c' ∧ threads_left (threads c'.1) + joiner_left c'.2 < threads_left (threads c.1) + joiner_left c.2.
Proof.
  intros (Hy & Hj & Hc & Ht & He & Hw) Hs. destruct Hs as [s s' j Hs|p m cs e tk ex Hy'|s Hy'|s w todo Hnone|s]; cbn [fst snd] in *.
  - destruct (stopped_worker_step s s' Hy Hs) as (Hlt & Hy' & Ht' & _ & He'). split; [|lia].
    split_and!; cbn; [done|by eapply worker_step_joinable|by eapply worker_step_conserves|congruence|congruence|].
    destruct j as [|todo|]; [done| |].
    + intros w Hw'. apply Hw. by eapply worker_step_dom.
    + apply map_empty. intros w. apply eq_None_not_Some. intros Hw'. apply (worker_step_dom _ _ _ Hs) in Hw'.
      rewrite Hw, lookup_empty in Hw'. by destruct Hw'.
  - done.
  - done.
  - split; [|cbn; lia]. split_and!; cbn; [done..|]. intros v Hv. specialize (Hw v Hv).
    apply elem_of_cons in Hw as [->|?]; [|done]. rewrite Hnone in Hv. by destruct Hv.
  - split; [|cbn; lia]. split_and!; cbn; [done..|]. apply map_empty. intros w. apply eq_None_not_Some.
    intros Hv%Hw. by apply not_elem_of_nil in Hv.
Qed.

Lemma joining_progress hash_order s0 c : joining s0 c → c.2 = JDone ∨ ∃ c', join_step hash_order c c'.
Proof.
  destruct c as [s [|[|w todo]|]]; intros (Hy & _ & _ & _ & _ & Hw); cbn in *; [done| | |by left]; right.
  - eexists. by eapply j_end.
  - destruct (threads s !! w) as [x|] eqn:Hx; [|eexists; by eapply j_joined].
    destruct (stopped_worker_moves s w x Hy Hx) as [s' Hs]. eexists. by eapply j_worker.
Qed.

Lemma joining_bound hash_order s0 n c c' :
  joining s0 c → nsteps (join_step hash_order) n c c' →
  joining s0 c' ∧ n + (threads_left (threads c'.1) + joiner_left c'.2) ≤ threads_left (threads c.1) + joiner_left c.2.
Proof.
  intros Hj Hn. induction Hn as [c|n c c1 c' Hs Hn IH]; [split; [done|lia]|].
  destruct (joining_step hash_order s0 c c1 Hj Hs) as [Hj1 Hlt]. destruct (IH Hj1). split; [done|lia].
Qed.

(** The state that the first part of [Join] leaves. *)
Definition stopped (hash_order : list nat → list nat) (s : sys T) : sys T * joiner :=
  (MkSys (with_yet false (pool s)) (threads s) (callers s) (enqueued s) (taken s) (executed s),
   JWaiting (joinable_workers hash_order (pool s))).

Lemma joining_stopped hash_order s :
  (∀ l, hash_order l ≡ₚ l) → all_joinable s → tasks_conserved s → joining s (stopped hash_order s).
Proof.
  intros Hord Hj Hc. split_and!; [done..|]. cbn. intros w Hw. unfold joinable_workers. rewrite Hord.
  apply list_elem_of_fmap. exists (w, true). split; [done|]. apply list_elem_of_filter. split; [done|].
  apply elem_of_map_to_list, Hj, Hw.
Qed.

(** C19: [Join] returns: once it has stopped the pool, whatever the order in
    which the workers and the joining thread run, there are at most four more
    steps for each worker and one for each thread to be joined, and a run can
    always go on until [Join] has returned.  Then no worker runs any more, and
    every task enqueued has been executed or is still waiting in the queue:
    the tasks that waited when the pool was stopped are abandoned.  A task
    itself is one step: [Join] waits as long as it takes. *)
Theorem Join_terminates (hash_order : list nat → list nat) (s : sys T) :
  (∀ l, hash_order l ≡ₚ l) → all_joinable s → tasks_conserved s →
  (∀ n c, nsteps (join_step hash_order) n (stopped hash_order s) c →
     n ≤ 4 * size (threads s) + length (joinable_workers hash_order (pool s)) + 1) ∧
  (∀ n c, nsteps (join_step hash_order) n (stopped hash_order s) c →
     (∃ c', join_step hash_order c c') ∨
     c.2 = JDone ∧ threads c.1 = ∅ ∧ PoolTasks (pool c.1) = PoolTasks (pool s) ∧
     enqueued s ≡ₚ executed c.1 ++ PoolTasks (pool s)).
Proof.
  intros Hord Hj Hc. pose proof (joining_stopped hash_order s Hord Hj Hc) as H0. split; intros n c Hn.
  - destruct (joining_bound hash_order s n _ c H0 Hn) as [_ Hle]. cbn in Hle. pose proof (threads_left_bound (threads s)). lia.
  - destruct (joining_bound hash_order s n _ c H0 Hn) as [Hjc _].
    destruct (joining_progress hash_order s c Hjc) as [Hd|Hs]; [right|by left].
    destruct Hjc as (_ & _ & [He Ht] & Hts & Hen & Hw). rewrite Hd in Hw. split_and!; [done..|].
    rewrite <- Hen, He, Ht, Hw, Hts. unfold in_hand. by rewrite map_to_list_empty, app_nil_r.
Qed.
End join.

(** A second [Join], as in the destructor after an explicit one, waits for
    nobody. *)
Theorem second_Join_returns {T} (NDEBUG : bool) hash_order (s : sys T) c :
  PoolYet (pool s) = false → join_step NDEBUG hash_order (s, JStart) c → c = (s, JDone) ∨ ∃ s', c = (s', JStart) ∧ worker_step NDEBUG s s'.
Proof. intros Hy Hs. inversion Hs; subst; cbn in *; [right; eauto|congruence|by left]. Qed.

(** A job object is released twice, once for the reference of [Enqueue] and
    once for the one of [QueryInterface]; for an object that is no [IThreadJob]
    the null pointer is dereferenced. *)
Theorem job_task_references (Exec : M Z unit) (refs : Z) :
  (∀ n, Exec n = (Ret tt, n)) →
  let after_enqueue := (Enqueue_job refs).2 in
  job_task true Exec after_enqueue = (Ret tt, refs) ∧ (job_task false Exec after_enqueue).1 = Undef.
Proof.
  intros He after. subst after. split; [|done]. unfold job_task, query_job, Release, modify, mbind, M_bind. cbn. rewrite He.
  f_equal. lia.
Qed.

(** ** A pool with a busy and an idle worker and a waiting task, stopped *)
Module JoinDemo.
Definition busy : sys nat :=
  MkSys (MkPool true 2 2 2 1 {[0 := true; 1 := true]} [7] [3%Z])
    {[0 := (sPersistent, WRun 6); 1 := (sPersistent, WWait)]} [Idle] [6; 7] [6] [].
End JoinDemo.

Lemma Join_terminates_witness :
  (∀ n c, nsteps (join_step false (λ l, l)) n (stopped (λ l, l) JoinDemo.busy) c → n ≤ 11) ∧
  (∀ n c, nsteps (join_step false (λ l, l)) n (stopped (λ l, l) JoinDemo.busy) c →
     (∃ c', join_step false (λ l, l) c c') ∨
     c.2 = JDone ∧ threads c.1 = ∅ ∧ PoolTasks (pool c.1) = [7] ∧ [6; 7] ≡ₚ executed c.1 ++ [7]).
Proof.
  refine (Join_terminates false (λ l, l) JoinDemo.busy _ _ _).
  - done.
  - intros w [x Hx]. cbn in Hx |- *. destruct w as [|[|w]]; [done|done|]. exfalso.
    by rewrite lookup_insert_ne, lookup_singleton_ne in Hx by done.
  - split; [done|]. vm_compute. done.
Defined.
