(* ===== verification/CmdLine.v ===== *)
(** * CmdLine: the command line and the paths of the program

    [sys::cmdline] of [ci/sys/cmdline.h], [sys::cwd] of [ci/sys/path.h] and
    [initCmdLine] of [kernel/main/init-cmd.hpp].  [getopt_long] and [getcwd] are
    parameters: a call of [getopt_long] is an operation on a world [W] that
    keeps its position in [argv]. *)
From Stdlib Require Import Ascii String.
From stdpp Require Import options.
From S2P Require Import Prelude Config.

#[local] Open Scope Z_scope.

(** ** Options *)

(** [cmdline::option] *)
Record coption := MkOption { short_name : ascii; long_name : bytes; required : Z; value : option bytes }.

(** [struct ::option]; [flag] is null in all of them, and [name] is null in the
    last one. *)
Record long_option := LongOption { lo_name : option bytes; has_arg : Z; val : Z }.

(** [operator struct ::option()] *)
Definition long_option_of (o : coption) : long_option := LongOption (Some (long_name o)) (required o) (i8 (short_name o)).

(** [(char)n] *)
Definition char_of (n : Z) : ascii := ascii_of_nat (Z.to_nat (n `mod` 256)).

(** What one call of [getopt_long] gives: its value, [*longindex], [optarg]. *)
Record getopt_result := Got { opt : Z; option_index : Z; optarg : option bytes }.

(** [getopt_long(argc, argv, optstring, longopts, longindex)] *)
Class GetOpt (W : Type) := getopt_long : list bytes → bytes → list long_option → Z → W → getopt_result * W.

(** [cmdline]: the set is indexed by the long names ([option::hash] and
    [option::equal]). *)
Record cmdline := MkCmd { options_list : gmap bytes coption; program_name : bytes }.
Definition cmdline_new : cmdline := MkCmd ∅ [].

(** How [options] ends: parsed, or with the [int] it throws. *)
Inductive options_result := Parsed (c : cmdline) | ThrownInt (n : Z).

(** ** Parsing *)

(** The colons that follow an option in [options_short]. *)
Definition colons (has_arg : Z) : bytes :=
  if decide (has_arg = 2) then str "::" else if decide (has_arg = 1) then str ":" else [].

(** [options_map[val] = index] in an [array<int, 256>]. *)
Definition map_store (val index : Z) (options_map : list Z) : outcome (list Z) :=
  if decide (0 ≤ val < 256) then Ret (<[Z.to_nat val := index]> options_map) else Undef.
Definition map_load (opt : Z) (options_map : list Z) : outcome Z :=
  if decide (0 ≤ opt < 256) then or_undef (options_map !! Z.to_nat opt) else Undef.

(** The loop over [options_long]. *)
Fixpoint options_tables (index : Z) (options_long : list long_option) (options_short : bytes) (options_map : list Z)
    : outcome (bytes * list Z) :=
  match options_long with
  | [] => Ret (options_short, options_map)
  | it :: options_long =>
      options_map ← map_store (val it) index options_map;
      options_tables (index + 1) options_long
        (if decide (val it = 0) then options_short else options_short ++ [char_of (val it)] ++ colons (has_arg it))
        options_map
  end.

Definition options_long_of (args : list coption) : list long_option := (long_option_of <$> args) ++ [LongOption None 0 0].

(** [options_list.emplace(o.name, (char)o.val, o.has_arg, optarg)], where a
    null name cannot be hashed, and the [throw] after it. *)
Definition on_option (options_long : list long_option) (i : Z) (arg : option bytes) (c : cmdline) : outcome options_result :=
  o ← (if decide (0 ≤ i) then or_undef (options_long !! Z.to_nat i) else Undef);
  name ← or_undef (lo_name o);
  if decide (has_arg o = 1 ∧ arg = None) then Ret (ThrownInt i)
  else Ret (Parsed (MkCmd (emplace name (MkOption (char_of (val o)) name (has_arg o) arg) (options_list c)) (program_name c))).

Definition QUESTION : Z := 63.   (* '?' *)

(** The body of the parsing loop. *)
Definition on_result (options_long : list long_option) (options_map : list Z) (r : getopt_result) (c : cmdline)
    : outcome options_result :=
  if decide (opt r = 0) then on_option options_long (option_index r) (optarg r) c
  else if decide (opt r ≠ QUESTION) then
    i ← map_load (opt r) options_map; on_option options_long i (optarg r) c
  else Ret (Parsed c).

Section parsing.
Context {W : Type} `{!GetOpt W}.

(** [while ((opt = getopt_long(...)) != -1)]; nothing when the fuel ends. *)
Fixpoint options_loop (fuel : nat) (argv : list bytes) (options_short : bytes) (options_long : list long_option)
    (options_map : list Z) (index : Z) (c : cmdline) : M W (option options_result) := λ w,
  match fuel with
  | O => (Ret None, w)
  | S fuel =>
      let '(r, w) := getopt_long argv options_short options_long index w in
      if decide (opt r = -1) then (Ret (Some (Parsed c)), w)
      else match on_result options_long options_map r c with
      | Ret (Parsed c) => options_loop fuel argv options_short options_long options_map (option_index r) c w
      | Ret (ThrownInt n) => (Ret (Some (ThrownInt n)), w)
      | Throw e => (Throw e, w)
      | Terminate => (Terminate, w)
      | Undef => (Undef, w)
      end
  end.

(** [options(argc, argv, args...)] *)
Definition options (fuel : nat) (argv : list bytes) (args : list coption) (c : cmdline) : M W (option options_result) :=
  let options_long := options_long_of args in
  name ← lift (or_undef (argv !! 0%nat));
  '(options_short, options_map) ← lift (options_tables 0 options_long [] (replicate 256 0));
  options_loop fuel argv options_short options_long options_map (-1) (MkCmd (options_list c) name).
End parsing.

(** [is(long_name)] *)
Definition is_ (c : cmdline) (name : bytes) : bool := bool_decide (is_Some (options_list c !! name)).

(** [operator()(long_name, default_value)]: a [std::string] from a null
    pointer when the option has no value. *)
Definition call (c : cmdline) (name default_value : bytes) : outcome bytes :=
  match options_list c !! name with
  | Some o => or_undef (value o)
  | None => Ret default_value
  end.

(** ** Paths *)

Definition PATH_MAX : Z := 4096.

(** [sys::cwd()]: the state is the static array, as a C string.  [getcwd] gives
    null when it fails, or a path that fits its size. *)
Definition cwd (getcwd : Z → option bytes) : M bytes bytes := λ buf,
  if decide (buf = []) then
    match getcwd (PATH_MAX + 1) with
    | None => (Undef, buf)                                   (* [strlen(nullptr)] *)
    | Some path =>
        if decide (Z.of_nat (length path) + 1 < PATH_MAX + 1) then (Ret (path ++ str "/"), path ++ str "/")
        else (Undef, buf)                                    (* [cwd[len + 1]] is past the array *)
    end
  else (Ret buf, buf).

(** [std::string::rfind(c)]: [npos] when there is none. *)
Fixpoint rfind_from (c : ascii) (s : bytes) (i npos : Z) : Z :=
  match s with
  | [] => npos
  | d :: s => rfind_from c s (i + 1) (if decide (d = c) then i else npos)
  end.
Definition npos : Z := 2 ^ 64 - 1.
Definition rfind (c : ascii) (s : bytes) : Z := rfind_from c s 0 npos.

(** The strings that [initCmdLine] fills. *)
Record program_paths := Paths { programDir : bytes; programWorkDir : bytes; programName : bytes }.

(** [programDir] and [programName]; [substr] throws past the end. *)
Definition program_dir (argv0 : bytes) : bytes := take (Z.to_nat (u64 (rfind "/" argv0 + 1))) argv0.
Definition program_base (argv0 : bytes) : outcome bytes :=
  let pos := u64 (rfind "/" argv0 + 1) in
  if decide (Z.of_nat (length argv0) < pos) then Throw (StdException (str "basic_string::substr"))
  else Ret (drop (Z.to_nat pos) argv0).

Definition config_option : coption := MkOption "c" (str "config") 1 None.

(** [initCmdLine(argc, argv, programDir, programWorkDir, programName)] *)
Definition initCmdLine {W} `{!GetOpt W} (getcwd : Z → option bytes) (fuel : nat) (argv : list bytes)
    : M W (option (options_result * program_paths)) :=
  argv0 ← lift (or_undef (argv !! 0%nat));
  name ← lift (program_base argv0);
  workdir ← lift (cwd getcwd []).1;
  r ← options fuel argv [config_option] cmdline_new;
  mret ((λ r, (r, Paths (program_dir argv0) workdir name)) <$> r).

(** ** The path of the program *)

Lemma rfind_from_split c s : ∀ i n,
  (c ∉ s ∧ rfind_from c s i n = n) ∨
  ∃ a b, s = a ++ c :: b ∧ c ∉ b ∧ rfind_from c s i n = i + Z.of_nat (length a).
Proof.
  induction s as [|d s IH]; intros i n; cbn [rfind_from].
  { left. split; [apply not_elem_of_nil|done]. }
  destruct (IH (i + 1) (if decide (d = c) then i else n)) as [[Hn ->]|(a & b & -> & Hb & ->)].
  - case_decide as Hd; [right; exists [], s; subst; split_and!; [done..|simpl; lia]|left].
    by rewrite not_elem_of_cons.
  - right. exists (d :: a), b. split_and!; [done..|simpl; lia].
Qed.

Lemma program_path_split argv0 :
  Z.of_nat (length argv0) < npos →
  ∃ name, program_base argv0 = Ret name ∧ program_dir argv0 ++ name = argv0 ∧ "/"%char ∉ name ∧
    (program_dir argv0 = [] ∨ last (program_dir argv0) = Some "/"%char).
Proof.
  intros Hlen. unfold program_base, program_dir, rfind.
  destruct (rfind_from_split "/" argv0 0 npos) as [[Hn ->]|(a & b & -> & Hb & ->)].
  - exists argv0. change (u64 (npos + 1)) with 0. rewrite decide_False by lia. cbn. by auto.
  - exists b. rewrite length_app in Hlen. cbn [length] in Hlen.
    rewrite u64_small by (unfold in_u64, u64_modulus, npos in *; lia).
    rewrite length_app, decide_False by (cbn [length]; lia).
    replace (Z.to_nat (0 + Z.of_nat (length a) + 1)) with (length (a ++ ["/"%char])) by (rewrite length_app; simpl; lia).
    change (a ++ "/"%char :: b) with (a ++ ["/"%char] ++ b). rewrite app_assoc, take_app_length, drop_app_length.
    split_and!; [done..|]. right. apply last_snoc.
Qed.

(** The first call fixes the directory; later calls give it again, wherever
    the process has gone. *)
Theorem cwd_is_cached (getcwd getcwd' : Z → option bytes) (path : bytes) :
  getcwd (PATH_MAX + 1) = Some path → Z.of_nat (length path) < PATH_MAX →
  ∃ buf, cwd getcwd [] = (Ret (path ++ str "/"), buf) ∧ cwd getcwd' buf = (Ret (path ++ str "/"), buf).
Proof.
  intros Hg Hlen. exists (path ++ str "/"). unfold cwd. rewrite Hg, (decide_True (P := [] = [])) by done.
  rewrite decide_True by lia. split; [done|]. rewrite decide_False; [done|]. by destruct path.
Qed.

(** ** The tables of the options *)

(** The text that [options_short] gets from an option. *)
Definition short_text (l : long_option) : bytes :=
  if decide (val l = 0) then [] else [char_of (val l)] ++ colons (has_arg l).

Lemma options_tables_spec ls : ∀ index short map,
  Forall (λ l, 0 ≤ val l < 256) ls → length map = 256%nat →
  ∃ map', options_tables index ls short map = Ret (short ++ mjoin (short_text <$> ls), map') ∧ length map' = 256%nat ∧
    (∀ v, 0 ≤ v → Forall (λ l, val l ≠ v) ls → map' !! Z.to_nat v = map !! Z.to_nat v) ∧
    (∀ k l, ls !! k = Some l → Forall (λ l', val l' ≠ val l) (drop (S k) ls) →
       map' !! Z.to_nat (val l) = Some (index + Z.of_nat k)).
Proof.
  induction ls as [|l ls IH]; intros index short map Hall Hlen; cbn [options_tables].
  { exists map. rewrite app_nil_r. split_and!; [done..|]. intros k l Hk. by rewrite lookup_nil in Hk. }
  apply Forall_cons in Hall as [Hl Hall]. unfold map_store. rewrite (decide_True (P := 0 ≤ val l < 256)) by done. outcome_simpl.
  edestruct IH as (map' & -> & Hlen' & Hkeep & Hset); [exact Hall|by rewrite length_insert|].
  exists map'. split_and!; [|done| |].
  - cbn [fmap list_fmap mjoin list_join]. unfold short_text at 2. case_decide; [done|]. by rewrite <- app_assoc.
  - intros v Hv [Hne Hls]%Forall_cons. rewrite Hkeep by done. apply list_lookup_insert_ne. lia.
  - intros [|k] l' Hk Hlast; simplify_eq/=.
    + rewrite Hkeep by (done || lia). rewrite list_lookup_insert_eq by lia. f_equal. lia.
    + rewrite (Hset k l' Hk Hlast). f_equal. lia.
Qed.

(** ** What the parsed command line holds *)

(** Options that can be told apart: other long names, other short names. *)
Definition distinct_options (args : list coption) : Prop :=
  NoDup (long_name <$> args) ∧ Forall (λ o, 0 ≤ i8 (short_name o)) args ∧
  ∀ i j o o', args !! i = Some o → args !! j = Some o' → i8 (short_name o) ≠ 0 →
    i8 (short_name o) = i8 (short_name o') → i = j.

(** What [getopt_long] documents: the short name of an option of the table, or
    0 and its index; an argument where one is required; or a question mark. *)
Definition documented (args : list coption) (r : getopt_result) : Prop :=
  opt r = QUESTION ∨
  ∃ i o, args !! i = Some o ∧ opt r = i8 (short_name o) ∧ (opt r = 0 → option_index r = Z.of_nat i) ∧
    (required o = 1 → optarg r ≠ None).

(** The option that a result is about, with its argument. *)
Definition occurrence (args : list coption) (r : getopt_result) : option (bytes * option bytes) :=
  if decide (opt r = QUESTION) then None
  else o ← (if decide (opt r = 0) then args !! Z.to_nat (option_index r)
            else snd <$> list_find (λ o, i8 (short_name o) = opt r) args);
       Some (long_name o, optarg r).

(** The first argument given to each option. *)
Definition first_values (args : list coption) (rs : list getopt_result) : gmap bytes (option bytes) :=
  list_to_map (omap (occurrence args) rs).

(** The calls of [getopt_long] from a world: results, then the end. *)
Inductive getopt_calls {W} `{!GetOpt W} (argv : list bytes) (short : bytes) (longs : list long_option) :
    Z → W → list getopt_result → W → Prop :=
  | calls_end index w r w' : getopt_long argv short longs index w = (r, w') → opt r = -1 → getopt_calls argv short longs index w [] w'
  | calls_next index w r w' rs w'' :
      getopt_long argv short longs index w = (r, w') → opt r ≠ -1 → getopt_calls argv short longs (option_index r) w' rs w'' →
      getopt_calls argv short longs index w (r :: rs) w''.

Definition options_short_of (args : list coption) : bytes := mjoin (short_text <$> options_long_of args).

Section parsed.
Context (args : list coption) (Hargs : distinct_options args).

Lemma occurrence_at i o r :
  args !! i = Some o → opt r = i8 (short_name o) → (opt r = 0 → option_index r = Z.of_nat i) → opt r ≠ QUESTION →
  occurrence args r = Some (long_name o, optarg r).
Proof using Hargs.
  intros Hi Hopt Hidx Hq. destruct Hargs as (_ & _ & Huniq). unfold occurrence. rewrite decide_False by done.
  case_decide as H0.
  - by rewrite (Hidx H0), Nat2Z.id, Hi.
  - destruct (list_find _ args) as [[j o']|] eqn:Hf.
    + apply list_find_Some in Hf as (Hj & Heq & _). rewrite (Huniq j i o' o) in Hj by (done || congruence). cbn. congruence.
    + apply list_find_None in Hf. rewrite Forall_lookup in Hf. by destruct (Hf i o Hi).
Qed.

(** [options_map] leads from a short name to the index of its option. *)
Lemma options_tables_args :
  ∃ map, options_tables 0 (options_long_of args) [] (replicate 256 0) = Ret (options_short_of args, map) ∧
    ∀ i o, args !! i = Some o → i8 (short_name o) ≠ 0 → map_load (i8 (short_name o)) map = Ret (Z.of_nat i).
Proof using Hargs.
  destruct Hargs as (_ & Hpos & Huniq). pose proof (λ c, ltac:(unfold i8, u8; pose proof (nat_ascii_bounded c); case_decide; lia) : i8 c < 256) as Hmax.
  edestruct (options_tables_spec (options_long_of args) 0 [] (replicate 256 0)) as (map & Heq & _ & _ & Hset).
  { apply Forall_app. split; [|by apply Forall_singleton]. apply Forall_fmap. eapply Forall_impl; [exact Hpos|].
    intros o Ho. cbn. by split. }
  { done. }
  exists map. split; [exact Heq|]. intros i o Hi Hne. pose proof (Forall_lookup_1 _ _ _ _ Hpos Hi) as Hoi. cbn in Hoi. unfold map_load.
  rewrite decide_True by auto.
  assert (Hl : options_long_of args !! i = Some (long_option_of o)).
  { unfold options_long_of. rewrite lookup_app, list_lookup_fmap, Hi. done. }
  specialize (Hset i _ Hl). cbn [val long_option_of] in Hset. rewrite Hset; [done|].
  apply Forall_lookup. intros k l' Hk. rewrite lookup_drop in Hk. unfold options_long_of in Hk.
  rewrite lookup_app, list_lookup_fmap in Hk. destruct (args !! (S i + k)%nat) as [o'|] eqn:Ho'; cbn in Hk.
  - injection Hk as <-. cbn. intros Heq'. by pose proof (Huniq _ _ _ _ Hi Ho' Hne (eq_sym Heq')); lia.
  - apply list_lookup_singleton_Some in Hk as [_ <-]. cbn. auto.
Qed.

Lemma one_value (k n : bytes) (v : option bytes) :
  (list_to_map (option_list (Some (k, v))) : gmap bytes (option bytes)) !! n = if decide (k = n) then Some v else None.
Proof.
  change (list_to_map _) with (<[k := v]> (∅ : gmap bytes (option bytes))). case_decide as Hk; [subst; apply lookup_insert_eq|].
  by rewrite lookup_insert_ne, lookup_empty by done.
Qed.

(** One documented result enters the first value of its option. *)
Lemma on_result_documented map r c :
  (∀ i o, args !! i = Some o → i8 (short_name o) ≠ 0 → map_load (i8 (short_name o)) map = Ret (Z.of_nat i)) →
  documented args r →
  ∃ c', on_result (options_long_of args) map r c = Ret (Parsed c') ∧ program_name c' = program_name c ∧
    ∀ n, value <$> options_list c' !! n =
      match value <$> options_list c !! n with
      | Some v => Some v
      | None => (list_to_map (option_list (occurrence args r)) : gmap bytes (option bytes)) !! n
      end.
Proof using Hargs.
  intros Hmap Hdoc. destruct (decide (opt r = QUESTION)) as [Hq|Hq].
  { exists c. unfold on_result, occurrence. rewrite (decide_True (P := opt r = QUESTION)), Hq by done. split_and!; [done..|].
    intros n. cbn. rewrite lookup_empty. by destruct (options_list c !! n). }
  destruct Hdoc as [?|(i & o & Hi & Hopt & Hidx & Harg)]; [done|].
  rewrite (occurrence_at i o r) by done.
  assert (Hrun : on_result (options_long_of args) map r c = on_option (options_long_of args) (Z.of_nat i) (optarg r) c).
  { unfold on_result. case_decide as H0; [by rewrite Hidx|]. rewrite decide_True by done.
    rewrite Hopt, (Hmap i o) by congruence. done. }
  rewrite Hrun. unfold on_option. rewrite decide_True, Nat2Z.id by lia.
  replace (options_long_of args !! i) with (Some (long_option_of o)) by (unfold options_long_of; by rewrite lookup_app, list_lookup_fmap, Hi).
  outcome_simpl. cbn [lo_name long_option_of has_arg val]. outcome_simpl. rewrite decide_False by naive_solver.
  eexists. split_and!; [reflexivity|done|]. intros n. rewrite one_value. cbn [options_list]. unfold emplace.
  destruct (options_list c !! long_name o) as [x|] eqn:Hx.
  - destruct (options_list c !! n) eqn:Hn; [done|]. cbn. rewrite decide_False; [done|]. intros Heq. congruence.
  - case_decide as Hk; [subst n; by rewrite lookup_insert_eq, Hx|].
    rewrite lookup_insert_ne by done. by destruct (options_list c !! n).
Qed.

Lemma options_loop_documented {W} `{!GetOpt W} map argv index w rs w' :
  (∀ i o, args !! i = Some o → i8 (short_name o) ≠ 0 → map_load (i8 (short_name o)) map = Ret (Z.of_nat i)) →
  getopt_calls argv (options_short_of args) (options_long_of args) index w rs w' → Forall (documented args) rs →
  ∀ fuel c, (length rs < fuel)%nat →
  ∃ c', options_loop fuel argv (options_short_of args) (options_long_of args) map index c w = (Ret (Some (Parsed c')), w') ∧
    program_name c' = program_name c ∧
    ∀ n, value <$> options_list c' !! n =
      match value <$> options_list c !! n with Some v => Some v | None => first_values args rs !! n end.
Proof using Hargs.
  intros Hmap Hcalls. induction Hcalls as [index w r w' Hg Hend|index w r w' rs w'' Hg Hne Hcalls IH];
    intros Hdoc [|fuel] c Hfuel; cbn [length] in Hfuel; [lia| |lia|]; cbn [options_loop]; rewrite Hg.
  - rewrite decide_True by done. exists c. split_and!; [done..|]. intros n. unfold first_values. cbn.
    rewrite lookup_empty. by destruct (options_list c !! n).
  - apply Forall_cons in Hdoc as [Hr Hdoc]. rewrite decide_False by done.
    destruct (on_result_documented map r c Hmap Hr) as (c1 & -> & Hname & Hc1).
    destruct (IH Hdoc fuel c1 ltac:(lia)) as (c' & -> & Hname' & Hc'). exists c'. split_and!; [done|congruence|].
    intros n. rewrite Hc', Hc1. unfold first_values. cbn [omap list_omap].
    destruct (value <$> options_list c !! n); [done|].
    destruct (occurrence args r) as [[k v]|]; [|by cbn; rewrite ?lookup_empty]. rewrite one_value. cbn [list_to_map foldr fst snd].
    case_decide as Hk; [subst; by rewrite lookup_insert_eq|]. by rewrite lookup_insert_ne by done.
Qed.
End parsed.

Lemma options_run {W} `{!GetOpt W} fuel argv argv0 args w rs w' c :
  distinct_options args → argv !! 0%nat = Some argv0 →
  getopt_calls argv (options_short_of args) (options_long_of args) (-1) w rs w' → Forall (documented args) rs →
  (length rs < fuel)%nat →
  ∃ c', options fuel argv args c w = (Ret (Some (Parsed c')), w') ∧ program_name c' = argv0 ∧
    ∀ n, value <$> options_list c' !! n =
      match value <$> options_list c !! n with Some v => Some v | None => first_values args rs !! n end.
Proof.
  intros Hargs H0 Hcalls Hdoc Hfuel. destruct (options_tables_args args Hargs) as (map & Htables & Hmap).
  unfold options. rewrite H0, Htables. outcome_simpl.
  destruct (options_loop_documented args Hargs map argv (-1) w rs w' Hmap Hcalls Hdoc fuel (MkCmd (options_list c) argv0) Hfuel)
    as (c' & Hrun & Hname & Hc'). exists c'. split; [exact Hrun|done].
Qed.

(** What the two queries answer, from the values they hold. *)
Lemma queries_values (c : cmdline) (m : gmap bytes (option bytes)) :
  (∀ n, value <$> options_list c !! n = m !! n) →
  ∀ n d, is_ c n = bool_decide (is_Some (m !! n)) ∧
    call c n d = match m !! n with None => Ret d | Some v => or_undef v end.
Proof.
  intros Hm n d. rewrite <- Hm. unfold is_, call. by destruct (options_list c !! n) as [o|].
Qed.

(** C26: the command line is read to its end: whatever order short and long
    names come in, an option is there when [getopt_long] reported it, its value
    is the first argument reported for it, the default stands for an option
    that was not given, and asking for the value of an option that was given
    without an argument is undefined. *)
Theorem options_first_wins {W : Type} `{!GetOpt W} (fuel : nat) (argv : list bytes) (argv0 : bytes) (args : list coption)
    (w w' : W) (rs : list getopt_result) :
  distinct_options args → argv !! 0%nat = Some argv0 →
  getopt_calls argv (options_short_of args) (options_long_of args) (-1) w rs w' → Forall (documented args) rs →
  (length rs < fuel)%nat →
  ∃ c, options fuel argv args cmdline_new w = (Ret (Some (Parsed c)), w') ∧ program_name c = argv0 ∧
    ∀ n d, is_ c n = bool_decide (is_Some (first_values args rs !! n)) ∧
      call c n d = match first_values args rs !! n with None => Ret d | Some v => or_undef v end.
Proof.
  intros Hargs H0 Hcalls Hdoc Hfuel.
  destruct (options_run fuel argv argv0 args w rs w' cmdline_new Hargs H0 Hcalls Hdoc Hfuel) as (c & Hrun & Hname & Hc).
  exists c. split_and!; [done..|]. by apply queries_values.
Qed.

Lemma config_option_distinct : distinct_options [config_option].
Proof.
  split_and!; [by apply NoDup_singleton|by apply Forall_singleton|]. intros i j o o' Hi Hj _ _.
  apply list_lookup_singleton_Some in Hi as [-> _], Hj as [-> _]. done.
Qed.

(** The name of the configuration file, from what [getopt_long] reported. *)
Definition config_file (rs : list getopt_result) : outcome bytes :=
  match first_values [config_option] rs !! str "config" with None => Ret (str "fiber.config") | Some v => or_undef v end.

(** [initCmdLine] splits the path of the program behind its last slash, takes
    the working directory with a slash behind it, and keeps the configuration
    file that was named first. *)
Theorem initCmdLine_spec {W : Type} `{!GetOpt W} (getcwd : Z → option bytes) (fuel : nat) (argv : list bytes)
    (argv0 path : bytes) (w w' : W) (rs : list getopt_result) :
  argv !! 0%nat = Some argv0 → Z.of_nat (length argv0) < npos →
  getcwd (PATH_MAX + 1) = Some path → Z.of_nat (length path) < PATH_MAX →
  getopt_calls argv (options_short_of [config_option]) (options_long_of [config_option]) (-1) w rs w' →
  Forall (documented [config_option]) rs → (length rs < fuel)%nat →
  ∃ c dir name, initCmdLine getcwd fuel argv w = (Ret (Some (Parsed c, Paths dir (path ++ str "/") name)), w') ∧
    dir ++ name = argv0 ∧ "/"%char ∉ name ∧ (dir = [] ∨ last dir = Some "/"%char) ∧
    call c (str "config") (str "fiber.config") = config_file rs.
Proof.
  intros H0 Hlen Hcwd Hpath Hcalls Hdoc Hfuel.
  destruct (options_run fuel argv argv0 [config_option] w rs w' cmdline_new config_option_distinct H0 Hcalls Hdoc Hfuel)
    as (c & Hrun & _ & Hc).
  destruct (program_path_split argv0 Hlen) as (name & Hname & Hsplit & Hslash & Hdir).
  exists c, (program_dir argv0), name. split_and!; [|done..|].
  - assert (Hwd : (cwd getcwd []).1 = Ret (path ++ str "/")).
    { unfold cwd. rewrite Hcwd, (decide_True (P := [] = [])) by done. by rewrite decide_True by lia. }
    unfold initCmdLine, mbind, M_bind, lift. rewrite H0. cbn [or_undef]. by rewrite Hname, Hwd, Hrun.
  - by apply (queries_values c _ Hc).
Qed.

(** ** A small [getopt_long], for concrete runs: the world is the rest of
    [argv]; an option that needs an argument takes the next word. *)
Module GetOptDemo.
Definition found (longs : list long_option) (arg : bytes) : option (nat * long_option) :=
  match arg with
  | "-"%char :: "-"%char :: name => list_find (λ l, lo_name l = Some name) longs
  | "-"%char :: c :: [] => list_find (λ l, val l = i8 c) longs
  | _ => None
  end.

Definition demo_getopt (argv : list bytes) (short : bytes) (longs : list long_option) (index : Z) (rest : list bytes)
    : getopt_result * list bytes :=
  match rest with
  | [] => (Got (-1) index None, [])
  | arg :: rest =>
      match found longs arg with
      | Some (i, l) =>
          if decide (has_arg l = 1) then
            match rest with
            | v :: rest => (Got (val l) (Z.of_nat i) (Some v), rest)
            | [] => (Got QUESTION index None, [])
            end
          else (Got (val l) (Z.of_nat i) None, rest)
      | None => (Got QUESTION index None, rest)
      end
  end.

#[global] Instance demo : GetOpt (list bytes) := demo_getopt.

Definition argv : list bytes := [str "/opt/fiber/bin/fiber"; str "-c"; str "a.conf"; str "-v"; str "--config"; str "b.conf"].
Definition args : list coption := [config_option; MkOption NUL (str "daemon") 0 None].
Definition results : list getopt_result := [Got 99 0 (Some (str "a.conf")); Got QUESTION 0 None; Got 99 0 (Some (str "b.conf"))].
End GetOptDemo.

Ltac getopt_run := repeat (first [eapply calls_end; [vm_compute; reflexivity|vm_compute; reflexivity]
                                 |eapply calls_next; [vm_compute; reflexivity|vm_compute; discriminate|]]).

Lemma options_first_wins_witness :
  ∃ c, options 10 GetOptDemo.argv GetOptDemo.args cmdline_new (tail GetOptDemo.argv) = (Ret (Some (Parsed c)), []) ∧
    is_ c (str "config") = true ∧ call c (str "config") (str "fiber.config") = Ret (str "a.conf") ∧
    is_ c (str "daemon") = false ∧ call c (str "daemon") (str "no") = Ret (str "no").
Proof.
  destruct (options_first_wins 10 GetOptDemo.argv (str "/opt/fiber/bin/fiber") GetOptDemo.args (tail GetOptDemo.argv) []
              GetOptDemo.results) as (c & Hrun & _ & Hc).
  - split_and!; [decided|decided|]. intros [|[|i]] [|[|j]] o o' Hi Hj Hne Heq; simplify_eq/=; done.
  - done.
  - getopt_run.
  - repeat (apply Forall_cons; split); [right; exists 0%nat, config_option; by split_and!|by left
      |right; exists 0%nat, config_option; by split_and!|by apply Forall_nil].
  - vm_compute. lia.
  - exists c. destruct (Hc (str "config") (str "fiber.config")) as [H1 H2]. destruct (Hc (str "daemon") (str "no")) as [H3 H4].
    rewrite H1, H2, H3, H4. split_and!; [exact Hrun|vm_compute; reflexivity..].
Defined.
