(* ===== verification/StartUp.v ===== *)
(** * StartUp: from the configuration to the running server

    The functions of [kernel/main/init-mq.hpp], [init-sapi.hpp],
    [init-channels.hpp], [init-routes.hpp], [init-server.hpp],
    [init-threadpool.hpp], the [try] block of [Kernel::Run] after its command
    line ([kernel/main/run.cpp]), [handleSignals], and the two calls of the
    registry in [kernel.cpp].  Loading a module, making a queue object and the
    operating system are parameters. *)
From Stdlib Require Import Ascii String.
From stdpp Require Import options.
From S2P Require Import Prelude Findmatch Transform Uri Config Interfaces Server Router ThreadPool.

#[local] Open Scope nat_scope.

(** [tuple<string, shared_ptr<ConfigImpl>>]: the class of a module. *)
Abbreviation module_class := (bytes * ConfigImpl)%type.

(** ** Modules *)
Section modules.
(** [fiberRegistry.EmplaceServer(path, kind)], which may throw. *)
Context (EmplaceServer : bytes → outcome bool).

(** One section.  [throw;] outside a handler ends the process; an exception of
    [EmplaceServer] is caught and logged. *)
Definition init_module (options_ : ConfigImpl) (path : bytes) (mq : bytes) (st : nat * gmap bytes module_class)
    : outcome (nat * gmap bytes module_class) :=
  let mq_class := GetConfigValue (subsection options_ mq) (str "class") [] in
  let mq_module := GetConfigValue (subsection options_ mq) (str "module") [] in
  if decide (mq_class ≠ [] ∧ mq_module ≠ []) then
    match EmplaceServer (path ++ mq_module) with
    | Ret true => Ret (S st.1, emplace mq (mq_class, subsection options_ mq) st.2)
    | Ret false => Terminate
    | Throw _ => Ret st
    | Terminate => Terminate
    | Undef => Undef
    end
  else Terminate.

Fixpoint init_modules (options_ : ConfigImpl) (path : bytes) (sections : list bytes) (st : nat * gmap bytes module_class)
    : outcome (nat * gmap bytes module_class) :=
  match sections with
  | [] => Ret st
  | mq :: sections => st ← init_module options_ path mq st; init_modules options_ path sections st
  end.

(** [initMQ] and [initSAPI] differ in the kind given to [EmplaceServer] only. *)
Definition initMQ (options_ : ConfigImpl) : outcome (nat * gmap bytes module_class) :=
  init_modules options_ (GetConfigValue options_ (str "modules-dir") (cf_dir options_)) (GetSections options_) (0, ∅).
End modules.

Definition initSAPI : (bytes → outcome bool) → ConfigImpl → outcome (nat * gmap bytes module_class) := initMQ.

(** ** Channels *)

(** [tuple<string, string, string, shared_ptr<ConfigImpl>>] *)
Record channel := Channel { ch_proto : bytes; ch_sapi_proto : bytes; ch_uri : bytes; ch_config : ConfigImpl }.

(** [if (ch_uri.back() != '/') ch_uri.append("/")] *)
Definition with_slash (uri : bytes) : bytes := if decide (last uri = Some "/"%char) then uri else uri ++ str "/".

(** The scheme of the [channel-sapi] option: empty when there is none. *)
Definition channel_sapi (ClassesSAPI : gmap bytes module_class) (ch_sapi : bytes) : option bytes :=
  if decide (ch_sapi = []) then Some []
  else match parseUri ch_sapi with
  | Some (sapi_proto, _) => match ClassesSAPI !! sapi_proto with Some _ => Some sapi_proto | None => None end
  | None => None
  end.

(** The channel a section describes, if its options are valid. *)
Definition channel_of (options_ : ConfigImpl) (ClassesMq ClassesSAPI : gmap bytes module_class) (ch : bytes) : option channel :=
  let cfg := subsection options_ ch in
  let ch_route := GetConfigValue cfg (str "channel-endpoint") [] in
  match (if decide (ch_route = []) then None else parseUri ch_route) with
  | None => None
  | Some (ch_proto, ch_uri) =>
      match ClassesMq !! ch_proto with
      | None => None
      | Some _ =>
          match channel_sapi ClassesSAPI (GetConfigValue cfg (str "channel-sapi") []) with
          | None => None
          | Some sapi_proto => Some (Channel ch_proto sapi_proto (with_slash ch_uri) cfg)
          end
      end
  end.

Fixpoint init_channels (options_ : ConfigImpl) (ClassesMq ClassesSAPI : gmap bytes module_class) (sections : list bytes)
    (st : nat * gmap bytes channel) : nat * gmap bytes channel :=
  match sections with
  | [] => st
  | ch :: sections =>
      init_channels options_ ClassesMq ClassesSAPI sections
        (match channel_of options_ ClassesMq ClassesSAPI ch with
         | Some c => (S st.1, emplace ch c st.2)
         | None => st
         end)
  end.

Definition initChannels (options_ : ConfigImpl) (ClassesMq ClassesSAPI : gmap bytes module_class) : nat * gmap bytes channel :=
  init_channels options_ ClassesMq ClassesSAPI (GetSections options_) (0, ∅).

(** ** Routes: the channels in the order of the hash table. *)

(** [Kernel::CreateMQ] and [Kernel::CreateSAPI]: objects of a kind from the
    registry, whose [CreateInstance] belongs to the Dom submodule; [made] tells
    the object of one call from that of another. *)
Definition Kernel_CreateMQ {A} (CreateInstance : nat → bytes → bytes → option A) (made : nat) (cid : bytes) : option A :=
  CreateInstance made cid (str "MQ").
Definition Kernel_CreateSAPI {A} (CreateInstance : nat → bytes → bytes → option A) (made : nat) (cid : bytes) : option A :=
  CreateInstance made cid (str "SAPI").

Section routes.
Context {MQ : Type} (CreateMQ : nat → bytes → option MQ) (MQ_Initialize : MQ → bytes → ConfigImpl → bool).

Fixpoint initRoutes (Channels : list (bytes * channel)) (ClassesMq : gmap bytes module_class)
    (st : nat * list (bytes * MQ)) : outcome (nat * list (bytes * MQ)) :=
  match Channels with
  | [] => Ret st
  | (name, ch) :: Channels =>
      match ClassesMq !! ch_proto ch with
      | None => Throw (StdException (str "_Map_base::at"))
      | Some mq =>
          let '(ok, routes) := AddRoute CreateMQ (λ m n, MQ_Initialize m n (ch_config ch)) (ch_uri ch) mq.1 name st.2 in
          initRoutes Channels ClassesMq (if ok : bool then S st.1 else st.1, routes)
      end
  end.
End routes.

(** ** Listeners *)
Section listeners.
Context {W : Type} `{!SocketOS W, PAST : !PastEnd}.

Fixpoint init_listeners (options_ : ConfigImpl) (sections : list bytes) (numListeners : nat) : M (Server * W) nat :=
  match sections with
  | [] => mret numListeners
  | proto :: sections =>
      let value := GetConfigValue (subsection options_ proto) in
      listen ← lift (or_undef (explode (str ":") (value (str "listen") []) 2));
      err ← AddListener proto (value (str "listen") []) (value (str "query-limit") []) (value (str "header-limit") []);
      _ ← lift (or_undef (listen !! 1));     (* both log lines print listen[1] *)
      init_listeners options_ sections (if decide (err = 0%Z) then S numListeners else numListeners)
  end.

Definition initServer (options_ : ConfigImpl) : M (Server * W) nat := init_listeners options_ (GetSections options_) 0.
End listeners.

(** ** The pool *)
Definition initThreadPool {T} (hardware_concurrency : Z) (options_ : ConfigImpl) (tids : list nat) : outcome (ThreadPool T) :=
  ThreadPool_new hardware_concurrency
    (GetConfigValue options_ (str "thread-workers") (str "10"))
    (GetConfigValue options_ (str "thread-limit") (str "100"))
    (GetConfigValue options_ (str "core-bind") (str "1-8"))
    (GetConfigValue options_ (str "core-exclude") []) tids.

(** ** Signals *)

(** [handleSignals(handler, signals...)]: the signal numbers given to
    [sigaction].  The loop passes its counter, not the signal. *)
Fixpoint handled_from (n : nat) (signals_list : list nat) : list nat :=
  match signals_list with
  | [] => []
  | s :: signals_list => if decide (s = 0) then [] else n :: handled_from (S n) signals_list
  end.

Definition handleSignals (signals : list nat) : list nat := handled_from 0 (signals ++ [0]).

Definition SIGINT : nat := 2.
Definition SIGQUIT : nat := 3.
Definition SIGKILL : nat := 9.
Definition SIGSEGV : nat := 11.
Definition SIGTERM : nat := 15.
Definition SIGSTOP : nat := 19.

(** ** [Kernel::Run] up to the main loop *)
Inductive startup (MQ T : Type) :=
  | Running (routes : list (bytes * MQ)) (pool : ThreadPool T)
  | Exited.                                        (* [exit(-2)] *)
Arguments Running {MQ T}. Arguments Exited {MQ T}.

Section run.
Context {W MQ T : Type} `{!SocketOS W, PAST : !PastEnd}.
Context (EmplaceServer : bytes → bytes → outcome bool) (CreateMQ : nat → bytes → option MQ)
  (MQ_Initialize : MQ → bytes → ConfigImpl → bool) (hardware_concurrency : Z) (tids : list nat)
  (hash_order : gmap bytes channel → list (bytes * channel)).

Definition no_valid (what : string) : exn := StdException (str "No valid " ++ str what ++ str " found").
Definition unless_zero {A} (n : nat) (what : string) (m : M (Server * W) A) : M (Server * W) A :=
  if decide (n = 0) then throw (no_valid what) else m.

(** The [try] block. *)
Definition startup_try (file : option bytes) (dir workdir name : bytes) : M (Server * W) (startup MQ T) :=
  values ← lift (initConfig file ∅);
  let top := Config values dir workdir name [] in
  let fiber := subsection top (str "fiber") in
  '(numMQ, MQModules) ← lift (initMQ (EmplaceServer (str "MQ")) (subsection fiber (str "mq")));
  unless_zero numMQ "MQ modules" (
    '(_, SAPIModules) ← lift (initSAPI (EmplaceServer (str "SAPI")) (subsection fiber (str "sapi")));
    let '(numChannels, Channels) := initChannels (subsection top (str "channel")) MQModules SAPIModules in
    unless_zero numChannels "Channels" (
      '(numRoutes, Routes) ← lift (initRoutes CreateMQ MQ_Initialize (hash_order Channels) MQModules (0, []));
      unless_zero numRoutes "Routes" (
        numListeners ← initServer (subsection fiber (str "server"));
        unless_zero numListeners "Listeners" (
          pool ← lift (initThreadPool hardware_concurrency (subsection fiber (str "pool")) tids);
          mret (Running Routes pool))))).

(** [catch (exception& ex) { exit(-2); }]; a [RuntimeException] is not caught
    and ends the process. *)
Definition Run_startup (file : option bytes) (dir workdir name : bytes) : M (Server * W) (startup MQ T) := λ sw,
  match catch_std (startup_try file dir workdir name) (λ _, mret Exited) sw with
  | (Throw _, sw') => (Terminate, sw')
  | r => r
  end.
End run.

(** ** Modules: loaded, skipped, or the end of the process *)

(** What happens to the module of a section. *)
Inductive module_fate := Loaded | Skipped | Refused.

Definition fate (EmplaceServer : bytes → outcome bool) (options_ : ConfigImpl) (path mq : bytes) : option module_fate :=
  let mq_class := GetConfigValue (subsection options_ mq) (str "class") [] in
  let mq_module := GetConfigValue (subsection options_ mq) (str "module") [] in
  if decide (mq_class = [] ∨ mq_module = []) then Some Refused
  else match EmplaceServer (path ++ mq_module) with
  | Ret true => Some Loaded
  | Ret false => Some Refused
  | Throw _ => Some Skipped
  | _ => None
  end.

Definition loaded (EmplaceServer : bytes → outcome bool) (options_ : ConfigImpl) (path mq : bytes) : bool :=
  match fate EmplaceServer options_ path mq with Some Loaded => true | _ => false end.

Lemma emplace_lookup {A} (k k' : bytes) (v : A) (m : gmap bytes A) :
  emplace k v m !! k' = match m !! k' with Some a => Some a | None => if decide (k = k') then Some v else None end.
Proof.
  unfold emplace. destruct (m !! k) eqn:Hk.
  - destruct (m !! k') eqn:Hk'; [done|]. rewrite decide_False; [done|]. intros ->. congruence.
  - destruct (decide (k = k')) as [->|Hne]; [by rewrite lookup_insert_eq, Hk|].
    rewrite lookup_insert_ne by done. by destruct (m !! k').
Qed.

Lemma init_module_fate E options_ path mq st :
  init_module E options_ path mq st =
    match fate E options_ path mq with
    | Some Loaded =>
        Ret (S st.1, emplace mq (GetConfigValue (subsection options_ mq) (str "class") [], subsection options_ mq) st.2)
    | Some Skipped => Ret st
    | Some Refused => Terminate
    | None => init_module E options_ path mq st
    end.
Proof.
  unfold fate. case_decide as Hd; unfold init_module.
  - rewrite decide_False; [done|]. intros [? ?]. by destruct Hd.
  - rewrite decide_True by (split; intros H; apply Hd; auto). by destruct (E _) as [[]|?| |].
Qed.

Lemma init_modules_app E options_ path a b st :
  init_modules E options_ path (a ++ b) st = (st ← init_modules E options_ path a st; init_modules E options_ path b st).
Proof.
  revert st. induction a as [|mq a IH]; intros st; [done|]. cbn [app init_modules].
  destruct (init_module E options_ path mq st); outcome_simpl; [apply IH|done..].
Qed.

Definition loaded_class (options_ : ConfigImpl) (mq : bytes) : module_class :=
  (GetConfigValue (subsection options_ mq) (str "class") [], subsection options_ mq).

Lemma init_modules_ok E options_ path sections : ∀ st,
  Forall (λ mq, fate E options_ path mq = Some Loaded ∨ fate E options_ path mq = Some Skipped) sections →
  ∃ m, init_modules E options_ path sections st = Ret (st.1 + length (filter (λ mq, loaded E options_ path mq = true) sections), m) ∧
    ∀ k, m !! k = match st.2 !! k with
                  | Some c => Some c
                  | None => if decide (k ∈ sections ∧ loaded E options_ path k = true) then Some (loaded_class options_ k) else None
                  end.
Proof.
  induction sections as [|mq sections IH]; intros st Hall; cbn [init_modules].
  - exists st.2. rewrite Nat.add_0_r. split; [by destruct st|]. intros k. destruct (st.2 !! k); [done|].
    rewrite decide_False; [done|]. by intros [?%elem_of_nil _].
  - apply Forall_cons in Hall as [Hmq Hall]. rewrite init_module_fate, filter_cons.
    destruct Hmq as [Hmq|Hmq]; rewrite Hmq; outcome_simpl;
      (assert (Hl : loaded E options_ path mq = match fate E options_ path mq with Some Loaded => true | _ => false end) by done);
      rewrite Hmq in Hl; rewrite Hl.
    + rewrite decide_True by done. fold (loaded_class options_ mq).
      destruct (IH (S st.1, emplace mq (loaded_class options_ mq) st.2) Hall) as (m & Hm & Hk).
      exists m. split; [rewrite Hm; cbn [fst length]; f_equal; f_equal; lia|]. intros k. rewrite Hk. cbn [snd].
      rewrite emplace_lookup. destruct (st.2 !! k); [done|]. destruct (decide (mq = k)) as [->|Hne].
      * by rewrite decide_True by (split; [left|done]).
      * apply decide_ext. rewrite elem_of_cons. naive_solver.
    + rewrite decide_False by done. destruct (IH st Hall) as (m & Hm & Hk). exists m. split; [done|].
      intros k. rewrite Hk. destruct (st.2 !! k); [done|]. apply decide_ext. rewrite elem_of_cons.
      split; [naive_solver|]. intros [[->|?] ?]; [congruence|done].
Qed.

(** C25: the modules of the configuration are loaded in order; one whose loading
    throws is skipped, and every loaded one is found afterwards under the name
    of its section.  A section without a class or module, or one the registry
    refuses, does not skip the module: it ends the process, whatever follows. *)
Theorem initMQ_spec (EmplaceServer : bytes → outcome bool) (options_ : ConfigImpl) (pre post : list bytes) (bad : bytes) :
  let path := GetConfigValue options_ (str "modules-dir") (cf_dir options_) in
  Forall (λ mq, fate EmplaceServer options_ path mq = Some Loaded ∨ fate EmplaceServer options_ path mq = Some Skipped) pre →
  (GetSections options_ = pre → ∃ m, initMQ EmplaceServer options_ =
     Ret (length (filter (λ mq, loaded EmplaceServer options_ path mq = true) pre), m) ∧
     ∀ k, m !! k = if decide (k ∈ pre ∧ loaded EmplaceServer options_ path k = true) then Some (loaded_class options_ k) else None) ∧
  (GetSections options_ = pre ++ bad :: post → fate EmplaceServer options_ path bad = Some Refused →
   initMQ EmplaceServer options_ = Terminate).
Proof.
  intros path Hpre. unfold initMQ. fold path. split; intros Hsec; rewrite Hsec.
  - destruct (init_modules_ok EmplaceServer options_ path pre (0, ∅) Hpre) as (m & -> & Hk). by exists m.
  - intros Hbad. rewrite init_modules_app. destruct (init_modules_ok EmplaceServer options_ path pre (0, ∅) Hpre) as (m & -> & _).
    outcome_simpl. cbn [init_modules]. by rewrite init_module_fate, Hbad.
Qed.

(** ** Channels and routes *)

Lemma init_channels_spec o cm cs sections : ∀ st,
  (init_channels o cm cs sections st).1 = st.1 + length (filter (λ ch, is_Some (channel_of o cm cs ch)) sections) ∧
  ∀ k, (init_channels o cm cs sections st).2 !! k = match st.2 !! k with
                  | Some c => Some c
                  | None => if decide (k ∈ sections) then channel_of o cm cs k else None
                  end.
Proof.
  induction sections as [|ch sections IH]; intros st; cbn [init_channels].
  - split; [simpl; lia|]. intros k. destruct (st.2 !! k); [done|]. rewrite decide_False; [done|]. by intros ?%elem_of_nil.
  - rewrite filter_cons. destruct (channel_of o cm cs ch) as [c|] eqn:Hc.
    + rewrite decide_True by eauto. destruct (IH (S st.1, emplace ch c st.2)) as [Hn Hk]. split; [rewrite Hn; simpl; lia|].
      intros k. rewrite Hk. cbn [snd]. rewrite emplace_lookup. destruct (st.2 !! k); [done|].
      destruct (decide (ch = k)) as [->|Hne]; [by rewrite decide_True by left|]. apply decide_ext. rewrite elem_of_cons. naive_solver.
    + rewrite decide_False by (intros [? ?]; congruence). destruct (IH st) as [Hn Hk]. split; [done|].
      intros k. rewrite Hk. destruct (st.2 !! k); [done|]. destruct (decide (ch = k)) as [->|Hne].
      * rewrite (decide_True (P := k ∈ k :: sections)) by left. rewrite Hc. by case_decide.
      * apply decide_ext. rewrite elem_of_cons. naive_solver.
Qed.

(** A channel exists for every section whose endpoint names a loaded queue
    class and whose SAPI, if it has one, is loaded, and for no other; a section
    that is wrong is skipped without effect on the others. *)
Theorem initChannels_spec (o : ConfigImpl) (cm cs : gmap bytes module_class) :
  (initChannels o cm cs).1 = length (filter (λ ch, is_Some (channel_of o cm cs ch)) (GetSections o)) ∧
  ∀ name, (initChannels o cm cs).2 !! name = if decide (name ∈ GetSections o) then channel_of o cm cs name else None.
Proof.
  destruct (init_channels_spec o cm cs (GetSections o) (0, ∅)) as [Hn Hk]. split; [exact Hn|].
  intros name. unfold initChannels. rewrite Hk. cbn [snd]. by rewrite lookup_empty.
Qed.

Lemma last_with_slash uri : last (with_slash uri) = Some "/"%char.
Proof. unfold with_slash. case_decide; [done|]. change (str "/") with ["/"%char]. apply last_snoc. Qed.

Lemma channel_of_class o cm cs name ch :
  channel_of o cm cs name = Some ch → is_Some (cm !! ch_proto ch) ∧ last (ch_uri ch) = Some "/"%char.
Proof.
  unfold channel_of. destruct (if decide _ then None else parseUri _) as [[p u]|]; [|done].
  destruct (cm !! p) eqn:Hp; [|done]. destruct (channel_sapi _ _); [|done]. intros [= <-]. cbn. split; [by rewrite Hp|apply last_with_slash].
Qed.

(** Each route is a path that ends with a slash, and leads to an object that was
    made for it. *)
Definition routes_made {MQ} (CreateMQ : nat → bytes → option MQ) (Routes : list (bytes * MQ)) : Prop :=
  ∀ i r, Routes !! i = Some r → last r.1 = Some "/"%char ∧ ∃ c, CreateMQ i c = Some r.2.

Section routes_spec.
Context {MQ : Type} (CreateMQ : nat → bytes → option MQ) (MQ_Initialize : MQ → bytes → ConfigImpl → bool).

(** The routes registered so far. *)
Definition routes_ok (st : nat * list (bytes * MQ)) : Prop := st.1 = length st.2 ∧ routes_made CreateMQ st.2.

Lemma initRoutes_ok cm chs : ∀ st,
  routes_ok st → Forall (λ c, is_Some (cm !! ch_proto c.2) ∧ last (ch_uri c.2) = Some "/"%char) chs →
  ∃ st', initRoutes CreateMQ MQ_Initialize chs cm st = Ret st' ∧ routes_ok st'.
Proof.
  induction chs as [|[name ch] chs IH]; intros st Hst Hall; cbn [initRoutes]; [by exists st|].
  apply Forall_cons in Hall as [[[mq Hmq] Hlast] Hall]. cbn [snd] in *. rewrite Hmq. unfold AddRoute.
  destruct (decide (ch_uri ch = [])) as [He|_]; [by rewrite He in Hlast|].
  destruct (CreateMQ (length st.2) mq.1) as [m|] eqn:Hm; [|by apply IH; [destruct Hst|]].
  destruct (MQ_Initialize m name (ch_config ch)); [|by apply IH; [destruct Hst|]].
  apply IH; [|done]. destruct Hst as [Hn Hr]. split; cbn [fst snd]; [rewrite length_app; simpl; lia|].
  intros i r [Hi|[Hle Hi]]%lookup_app_Some; [by apply Hr|].
  apply list_lookup_singleton_Some in Hi as [Hi <-]. replace i with (length st.2) by (cbn in *; lia). cbn. eauto.
Qed.
End routes_spec.

Lemma unless_zero_inv {W A} n what (m : M (Server * W) A) sw a sw' :
  unless_zero n what m sw = (Ret a, sw') → n ≠ 0 ∧ m sw = (Ret a, sw').
Proof. unfold unless_zero. by case_decide. Qed.

(** The channels, in any order, have a class and a path. *)
Lemma channels_have_classes o cm cs chs :
  chs ≡ₚ map_to_list (initChannels o cm cs).2 →
  Forall (λ c, is_Some (cm !! ch_proto c.2) ∧ last (ch_uri c.2) = Some "/"%char) chs.
Proof.
  intros Hp. apply Forall_forall. intros [name ch] Hin. rewrite Hp in Hin. apply elem_of_map_to_list in Hin.
  destruct (init_channels_spec o cm cs (GetSections o) (0, ∅)) as [_ Hk]. unfold initChannels in Hin.
  rewrite Hk in Hin. cbn [snd] in Hin. rewrite lookup_empty in Hin. case_decide; [|done]. by eapply channel_of_class.
Qed.

(** Listening changes no counter. *)
Lemma AddListener_index {W} `{!SocketOS W, PAST : !PastEnd} (n : Z) proto listen q h :
  keeps (λ sw : Server * W, msgIndex sw.1 = n) (AddListener proto listen q h).
Proof.
  unfold AddListener.
  assert (Hsnd : ∀ A (m : M W A), keeps (λ sw : Server * W, msgIndex sw.1 = n) (on_snd m)).
  { intros A m [sv w] a [sv' w'] Hn Hrun. unfold on_snd in Hrun. cbn in *. by destruct (m w); injection Hrun as -> <- <-. }
  apply keeps_bind; [apply keeps_lift|]. intros r. apply keeps_decide; [apply keeps_ret|].
  apply keeps_bind; [apply keeps_lift|]. intros params. apply keeps_decide; [|apply keeps_ret].
  apply keeps_bind; [apply keeps_lift|]. intros device. apply keeps_bind; [apply keeps_lift|]. intros port.
  apply keeps_bind; [apply Hsnd|]. intros [err so]. apply keeps_decide; [|apply keeps_ret].
  apply keeps_bind; [apply keeps_lift|]. intros oq. apply keeps_bind; [apply keeps_lift|]. intros oh.
  apply keeps_bind; [|intros _; apply keeps_ret]. intros [sv w] a [sv' w'] Hn [= _ <- <-]. exact Hn.
Qed.

Lemma initServer_index {W} `{!SocketOS W, PAST : !PastEnd} (n : Z) options_ :
  keeps (λ sw : Server * W, msgIndex sw.1 = n) (initServer options_).
Proof.
  unfold initServer. generalize 0%nat. induction (GetSections options_) as [|proto sections IH]; intros k; cbn [init_listeners].
  { apply keeps_ret. }
  apply keeps_bind; [apply keeps_lift|]. intros listen. apply keeps_bind; [apply AddListener_index|]. intros err.
  apply keeps_bind; [apply keeps_lift|]. intros _. apply IH.
Qed.

(** What a start-up that succeeds has made. *)
Lemma startup_try_running {W MQ T : Type} `{!SocketOS W, PAST : !PastEnd}
    (EmplaceServer : bytes → bytes → outcome bool) (CreateMQ : nat → bytes → option MQ)
    (MQ_Initialize : MQ → bytes → ConfigImpl → bool) (hardware : Z) (tids : list nat)
    (hash_order : gmap bytes channel → list (bytes * channel)) (file : option bytes) (dir workdir name : bytes)
    (Routes : list (bytes * MQ)) (pool : ThreadPool T) (sw sw' : Server * W) :
  (∀ m, hash_order m ≡ₚ map_to_list m) →
  startup_try EmplaceServer CreateMQ MQ_Initialize hardware tids hash_order file dir workdir name sw = (Ret (Running Routes pool), sw') →
  (Routes ≠ [] ∧ routes_made CreateMQ Routes) ∧
  (∃ o, initThreadPool hardware o tids = Ret pool) ∧ msgIndex sw'.1 = msgIndex sw.1.
Proof.
  intros Hperm Htry. unfold startup_try in Htry.
  apply bind_ret_inv in Htry as (values & s1 & Hv & Htry). apply lift_ret_inv in Hv as [_ ->].
  apply bind_ret_inv in Htry as ([numMQ cm] & s2 & Hv & Htry). apply lift_ret_inv in Hv as [_ ->]. apply unless_zero_inv in Htry as [_ Htry].
  apply bind_ret_inv in Htry as ([numSAPI cs] & s3 & Hv & Htry). apply lift_ret_inv in Hv as [_ ->].
  destruct (initChannels _ cm cs) as [numChannels Channels] eqn:Hch. apply unless_zero_inv in Htry as [_ Htry].
  apply bind_ret_inv in Htry as ([numRoutes Rs] & s4 & Hroutes & Htry). apply unless_zero_inv in Htry as [Hn Htry].
  apply lift_ret_inv in Hroutes as [Hroutes ->].
  apply bind_ret_inv in Htry as (numListeners & s5 & Hsrv & Htry). apply unless_zero_inv in Htry as [_ Htry].
  apply bind_ret_inv in Htry as (p & s6 & Hp & Htry). apply lift_ret_inv in Hp as [Hp ->]. injection Htry as -> -> ->.
  split; [|split; [by eexists|by eapply (initServer_index _ _ sw)]].
  destruct (initRoutes_ok CreateMQ MQ_Initialize cm (hash_order Channels) (0, [])) as ([n Rs'] & Hr & Hlen & Hok).
  - by split.
  - eapply channels_have_classes. etransitivity; [apply Hperm|]. by rewrite Hch.
  - rewrite Hroutes in Hr. injection Hr as -> ->. cbn [fst snd] in *. split; [|done].
    intros ->. by rewrite Hlen in Hn.
Qed.

(** When the start-up succeeds there is a route, and every route is a path
    that ends with a slash and leads to a queue object the registry made for it, in
    whatever order the hash table gives the channels; it never fails because a
    channel names a class that is not there. *)
Theorem startup_routes {W MQ T : Type} `{!SocketOS W, PAST : !PastEnd}
    (EmplaceServer : bytes → bytes → outcome bool) (CreateMQ : nat → bytes → option MQ)
    (MQ_Initialize : MQ → bytes → ConfigImpl → bool) (hardware : Z) (tids : list nat)
    (hash_order : gmap bytes channel → list (bytes * channel)) (file : option bytes) (dir workdir name : bytes)
    (Routes : list (bytes * MQ)) (pool : ThreadPool T) (sw sw' : Server * W) :
  (∀ m, hash_order m ≡ₚ map_to_list m) →
  Run_startup EmplaceServer CreateMQ MQ_Initialize hardware tids hash_order file dir workdir name sw = (Ret (Running Routes pool), sw') →
  Routes ≠ [] ∧ routes_made CreateMQ Routes.
Proof.
  intros Hperm Hrun. unfold Run_startup, catch_std in Hrun.
  destruct (startup_try _ _ _ _ _ _ _ _ _ _ sw) as [[st|[]| |] sw1] eqn:Htry; try done.
  injection Hrun as -> ->. by eapply startup_try_running.
Qed.

(** ** Signals *)

(** The numbers given to [sigaction] are positions: whatever the signals, the
    first [length signals] numbers from 0 get the handler. *)
Lemma handleSignals_positions signals : Forall (λ s, s ≠ 0) signals → handleSignals signals = seq 0 (length signals).
Proof.
  unfold handleSignals. intros Hall. assert (Hgen : ∀ n, handled_from n (signals ++ [0]) = seq n (length signals)); [|done].
  induction Hall as [|s signals Hs Hall IH]; intros n; [done|]. cbn [app handled_from length seq]. by rewrite decide_False, IH.
Qed.

Example run_signals :
  SIGTERM ∉ handleSignals [SIGINT; SIGQUIT; SIGTERM; SIGKILL; SIGSTOP] ∧ SIGSEGV ∉ handleSignals [SIGSEGV].
Proof. split; decided. Qed.

(** ** A start-up *)
#[local] Existing Instance readable_past_end.

Module Boot.
Definition file : bytes := str "[fiber]
[[server]]
[[[http]]]
listen = :8080
[[[websocket]]]
listen = :8081
[[pool]]
thread-workers = 2
core-bind = 0-1
[[mq]]
modules-dir = /lib/
[[[sync-queue]]]
class = SyncQueue
module = queue.so
[channel]
[[sms]]
channel-endpoint = sync-queue://sms
[[bad]]
channel-endpoint = other://x/
".

Definition loads (kind path : bytes) : outcome bool := Ret (bool_decide (path = str "/lib/queue.so")).
Definition create (made : nat) (class_ : bytes) : option bytes := if decide (class_ = str "SyncQueue") then Some class_ else None.
Definition initialize (m n : bytes) (c : ConfigImpl) : bool := true.
Definition order (m : gmap bytes channel) : list (bytes * channel) := map_to_list m.

Definition start (file : option bytes) : outcome (startup bytes unit) * (Server * Demo.os) :=
  Run_startup loads create initialize 4 [1; 2] order file [] [] [] (MkServer 0 ∅ [], Demo.MkOs 3 [] [] []).

Definition routes : list (bytes * bytes) := match (start (Some file)).1 with Ret (Running r _) => r | _ => [] end.
Definition no_pool : ThreadPool unit := MkPool false 0 0 0 0 ∅ [] [].
Definition pool : ThreadPool unit := match (start (Some file)).1 with Ret (Running _ p) => p | _ => no_pool end.

Definition module_section (class_ module_ : bytes) : config :=
  {[ [] := ([str "queue"], ∅); str "queue" := ([], {[str "class" := class_; str "module" := module_]}) ]}.
Definition mq_config (class_ module_ : bytes) : ConfigImpl := Config (module_section class_ module_) (str "/lib/") [] [] [].
End Boot.

Example boot_examples :
  Boot.routes = [(str "/sms/", str "SyncQueue")] ∧
  (Boot.start None).1 = Ret Exited ∧                                   (* no file *)
  (Boot.start (Some (str "[fiber]
"))).1 = Ret Exited ∧                                                  (* no modules *)
  (Boot.start (Some (str "[fiber]
[[mq]]
[[[x]]]
class = X
"))).1 = Terminate.                                                    (* a module without a path *)
Proof. split_and!; vm_compute; reflexivity. Qed.

Lemma startup_routes_witness :
  Boot.routes ≠ [] ∧ routes_made Boot.create Boot.routes.
Proof.
  eapply (startup_routes Boot.loads Boot.create Boot.initialize 4 [1; 2] Boot.order (Some Boot.file) [] [] []
    Boot.routes Boot.pool (MkServer 0 ∅ [], Demo.MkOs 3 [] [] [])).
  - intros m. reflexivity.
  - vm_compute. reflexivity.
Defined.

Lemma initMQ_spec_witness :
  initMQ (Boot.loads (str "MQ")) (Boot.mq_config (str "X") (str "other.so")) = Terminate.
Proof.
  refine (proj2 (initMQ_spec (Boot.loads (str "MQ")) (Boot.mq_config (str "X") (str "other.so")) [] [] (str "queue") _) _ _);
    [constructor|vm_compute; reflexivity..].
Defined.
