(* ===== verification/Kernel.v ===== *)
(** * Kernel: the main loop and what it runs

    The main loop of [Kernel::Run] ([kernel/main/run.cpp]) with everything it
    touches: [Server::Listen] accepts connections, the handler of each is
    entered into the pool by [ThreadPool::Enqueue], the workers process it with
    [RouterImpl::Process], signals end the loop, and the objects are destroyed.

    The main thread is a function in the monad [M]; the workers run between its
    actions.  What they do there, which identifiers new threads get and when
    signals arrive is up to the system, the class [Scheduling], whose laws only
    say that the workers take their own steps. *)
From Stdlib Require Import Ascii String.
From stdpp Require Import options relations.
From S2P Require Import Prelude Numerals Interfaces OptionParse Server HttpParse HttpReply RequestImpl Router ThreadPool ThreadPoolConc PoolJoin StartUp.

#[local] Open Scope Z_scope.

(** ** A connection in the hands of a worker *)

(** The [HttpImpl] that [Listen] makes for a connection; its address text and
    port have no value when the peer is not an internet address. *)
Definition handler_of (now : nat → Z) (c : connection) : outcome Conn :=
  let sa := CAddress_new (cn_addr c) in
  addr ← CAddress_toString sa;
  port ← or_undef (Port sa);
  Ret (HttpImpl_new now (cn_mid c) (cn_socket c) addr port
         (Z.to_nat (lst_query (cn_limits c))) (Z.to_nat (lst_header (cn_limits c))) fresh_request).

(** ** The process *)

(** The task that worker [w] runs. *)
Definition running {T} (s : sys T) (w : nat) : option T :=
  match threads s !! w with Some (_, WRun t) => Some t | _ => None end.

(** Steps of the workers with their data: on the pool they do what workers do. *)
Class WorkerSteps {D : Type} (NDEBUG : bool) (serve : D * sys connection → D * sys connection → Prop) :=
  serve_is_work : ∀ x x', serve x x' → star (worker_step NDEBUG) x.2 x'.2.

(** All the steps: the workers', and the main thread's on the pool. *)
Inductive kernel_step {D} (NDEBUG : bool) (serve : D * sys connection → D * sys connection → Prop) :
    D * sys connection → D * sys connection → Prop :=
  | kernel_serve x x' : serve x x' → kernel_step NDEBUG serve x x'
  | kernel_pool σ s s' :
      sys_step NDEBUG s s' → executed s' = executed s → (∀ w, running s' w = running s w) →
      kernel_step NDEBUG serve (σ, s) (σ, s').

(** What the system decides: the steps of the workers until the next action of
    the main thread, the identifiers of new threads, and the signals that have
    arrived since the last look. *)
Class Scheduling (K D : Type) (serve : D * sys connection → D * sys connection → Prop) := {
  workers : K → D * sys connection → K * (D * sys connection);
  new_threads : K → sys connection → nat → K * list nat;
  arrived : K → K * list nat;
  workers_steps : ∀ k x, star serve x (workers k x).2;
  new_threads_fresh : ∀ k s n,
    NoDup (new_threads k s n).2 ∧ length (new_threads k s n).2 = n ∧ Forall (fresh_id s) (new_threads k s n).2
}.

(** The state: the rest of the system, the modules and requests, the pool with
    its threads, the signals with a handler, and [procSignal]. *)
Record kworld (K D : Type) := KWorld {
  kw_os : K;
  kw_service : D;
  kw_sys : sys connection;
  kw_handled : list nat;
  kw_procSignal : nat
}.
Arguments KWorld {K D}. Arguments kw_os {K D}. Arguments kw_service {K D}. Arguments kw_sys {K D}.
Arguments kw_handled {K D}. Arguments kw_procSignal {K D}.

(** [signalNames.at(n)] *)
Definition SIGUSR1 : nat := 10.
Definition SIGUSR2 : nat := 12.
Definition signalNames_at (n : nat) : outcome bytes :=
  if decide (n = SIGUSR1) then Ret (str "SIGUSR1") else if decide (n = SIGUSR2) then Ret (str "SIGUSR2")
  else if decide (n = SIGINT) then Ret (str "SIGINT") else if decide (n = SIGQUIT) then Ret (str "SIGQUIT")
  else if decide (n = SIGTERM) then Ret (str "SIGTERM") else Throw (StdException (str "_Map_base::at")).

(** The signal numbers [sigaction] accepts a handler for. *)
Definition can_handle (n : nat) : Prop := n ≠ 0%nat ∧ n ≠ SIGKILL ∧ n ≠ SIGSTOP.
#[export] Instance can_handle_dec n : Decision (can_handle n).
Proof. unfold can_handle. apply _. Defined.

(** The handlers of [Run], after both calls of [handleSignals]. *)
Definition Run_handlers : list nat :=
  filter can_handle
    (handleSignals [SIGINT; SIGQUIT; SIGTERM; SIGKILL; SIGSTOP] ++ handleSignals [SIGSEGV]).

(** Signals whose default action does not end the process: [SIGPIPE] is ignored
    by the constructor of [Server]; the others are [SIGCHLD], [SIGCONT],
    [SIGSTOP], [SIGTSTP], [SIGTTIN], [SIGTTOU], [SIGURG] and [SIGWINCH]. *)
Definition harmless : list nat := [13; 17; 18; 19; 20; 21; 22; 23; 28]%nat.

Section kernel.
Context {K D : Type} `{!SocketOS K} (serve : D * sys connection → D * sys connection → Prop) `{!Scheduling K D serve}.

Abbreviation world := (kworld K D).

Definition with_os (k : K) (w : world) : world := KWorld k (kw_service w) (kw_sys w) (kw_handled w) (kw_procSignal w).
Definition with_sys (s : sys connection) (w : world) : world :=
  KWorld (kw_os w) (kw_service w) s (kw_handled w) (kw_procSignal w).

(** The part of the world the steps are about. *)
Definition served (w : world) : D * sys connection := (kw_service w, kw_sys w).

(** The workers run while the main thread is on its way to its next action. *)
Definition yield : M world unit := λ w,
  let '(k, (σ, s)) := workers (kw_os w) (served w) in (Ret tt, KWorld k σ s (kw_handled w) (kw_procSignal w)).

Definition on_os {A} (m : M K A) : M world A := λ w, let '(r, k) := m (kw_os w) in (r, with_os k w).

(** A system call of the main thread. *)
Definition main_call {A} (m : M K A) : M world A := _ ← yield; on_os m.

#[export] Instance kworld_os : SocketOS world := {
  sys_errno := main_call sys_errno;
  sys_socket := main_call sys_socket;
  sys_setsockopt fd o := main_call (sys_setsockopt fd o);
  sys_bind fd p := main_call (sys_bind fd p);
  sys_listen fd n := main_call (sys_listen fd n);
  sys_close fd := main_call (sys_close fd);
  sys_poll fds t := main_call (sys_poll fds t);
  sys_accept fd := main_call (sys_accept fd);
  sys_time := main_call sys_time
}.

(** *** [ThreadPool::Enqueue], called by the main thread only *)

Definition enqueue_locked (c : connection) : M world (Z * Z) := λ w,
  let s := kw_sys w in
  match enqueue_section c (pool s) with
  | (Ret (numWorkers, numTasks), p) =>
      (Ret (numWorkers, numTasks), with_sys (MkSys p (threads s) [Check numWorkers numTasks] (enqueued s ++ [c]) (taken s) (executed s)) w)
  | (Throw e, _) => (Throw e, w)
  | (Terminate, _) => (Terminate, w)
  | (Undef, _) => (Undef, w)
  end.

Definition check_resize (numWorkers numTasks : Z) : M world Z := λ w,
  let s := kw_sys w in
  let n := CheckResize (pool s) numWorkers numTasks in
  (Ret n, with_sys (MkSys (pool s) (threads s) [if decide (0 < n) then Hiring n else Idle] (enqueued s) (taken s) (executed s)) w).

Definition hire (n : Z) : M world unit := λ w,
  let '(k, tids) := new_threads (kw_os w) (kw_sys w) (Z.to_nat n) in
  let w := with_os k w in
  let s := kw_sys w in
  match Hire tids (pool s) with
  | Ret p => (Ret tt, with_sys (MkSys p (start_threads tids (threads s)) [Idle] (enqueued s) (taken s) (executed s)) w)
  | Throw e => (Throw e, w)
  | Terminate => (Terminate, w)
  | Undef => (Undef, w)
  end.

Definition Enqueue (c : connection) : M world unit :=
  _ ← yield;
  '(numWorkers, numTasks) ← enqueue_locked c;
  _ ← yield;
  n ← check_resize numWorkers numTasks;
  if decide (0 < n) then _ ← yield; hire n else mret tt.

(** *** Signals *)

(** A signal with a handler sets [procSignal]; another one ends the process
    unless its default action is harmless. *)
Fixpoint arrive (signals : list nat) (handled : list nat) (procSignal : nat) : outcome nat :=
  match signals with
  | [] => Ret procSignal
  | n :: signals =>
      if decide (n ∈ handled) then arrive signals handled n
      else if decide (n ∈ harmless) then arrive signals handled procSignal
      else Terminate
  end.

(** Each time the code reads [procSignal]. *)
Definition read_procSignal : M world nat := λ w,
  let '(k, signals) := arrived (kw_os w) in
  match arrive signals (kw_handled w) (kw_procSignal w) with
  | Ret n => (Ret n, KWorld k (kw_service w) (kw_sys w) (kw_handled w) n)
  | Throw e => (Throw e, w)
  | Terminate => (Terminate, w)
  | Undef => (Undef, w)
  end.

(** [procSignal == SIGINT || procSignal == SIGQUIT || procSignal == SIGTERM] *)
Fixpoint signal_is_one_of (names : list nat) : M world bool :=
  match names with
  | [] => mret false
  | n :: names => s ← read_procSignal; if decide (s = n) then mret true else signal_is_one_of names
  end.

(** [while (fiberServer->Listen(requestHandler, 3000)) ...]; nothing when the
    loop, or a call of [Listen], has not ended. *)
Fixpoint main_loop (listen_fuel fuel : nat) : M (Server * world) (option unit) :=
  match fuel with
  | O => mret None
  | S fuel =>
      r ← Listen Enqueue listen_fuel 3000;
      match r with
      | None => mret None
      | Some false => mret (Some tt)
      | Some true =>
          s ← on_snd read_procSignal;
          if decide (s = 0%nat) then main_loop listen_fuel fuel
          else
            stop ← on_snd (signal_is_one_of [SIGINT; SIGQUIT; SIGTERM]);
            if stop : bool then
              s ← on_snd read_procSignal;
              _ ← lift (signalNames_at s);
              mret (Some tt)
            else main_loop listen_fuel fuel
      end
  end.

(** *** The end: [fiberWorkers.reset()] *)

Definition stop_pool : M world bool := λ w,
  let s := kw_sys w in
  if PoolYet (pool s) then
    (Ret true, with_sys (MkSys (with_yet false (pool s)) (threads s) (callers s) (enqueued s) (taken s) (executed s)) w)
  else (Ret false, w).

(** [worker.second.join()] *)
Fixpoint join_worker (fuel : nat) (tid : nat) : M world (option unit) :=
  match fuel with
  | O => mret None
  | S fuel =>
      t ← gets (λ w, threads (kw_sys w) !! tid);
      match t with
      | None => mret (Some tt)
      | Some _ => _ ← yield; join_worker fuel tid
      end
  end.

Fixpoint join_workers (fuel : nat) (tids : list nat) : M world (option unit) :=
  match tids with
  | [] => mret (Some tt)
  | tid :: tids =>
      r ← join_worker fuel tid;
      match r with None => mret None | Some _ => join_workers fuel tids end
  end.

(** [~ThreadPool], which is [Join]. *)
Definition Join (fuel : nat) (hash_order : list nat → list nat) : M world (option unit) :=
  _ ← yield;
  stop ← stop_pool;
  if stop : bool then
    tids ← gets (λ w, joinable_workers hash_order (pool (kw_sys w)));
    join_workers fuel tids
  else mret (Some tt).

(** From the main loop to the end of [Run].  [fiberServer.reset()] has no
    effect: [~Server] is empty and closes no socket.  The router is destroyed
    when no worker is left. *)
Definition Run_main (listen_fuel fuel : nat) (hash_order : list nat → list nat) : M (Server * world) (option unit) :=
  _ ← on_snd (modify (λ w, KWorld (kw_os w) (kw_service w) (kw_sys w) Run_handlers (kw_procSignal w)));
  r ← main_loop listen_fuel fuel;
  match r with
  | None => mret None
  | Some _ => on_snd (Join fuel hash_order)
  end.
End kernel.

(** ** The steps *)
Section steps.
Context {D : Type} (NDEBUG : bool) (serve : D * sys connection → D * sys connection → Prop) `{!WorkerSteps NDEBUG serve}.

Lemma worker_step_keeps (s s' : sys connection) :
  worker_step NDEBUG s s' → callers s' = callers s ∧ enqueued s' = enqueued s ∧ PoolYet (pool s') = PoolYet (pool s).
Proof. by intros []. Qed.

Lemma serve_workers x x' : star serve x x' → star (worker_step NDEBUG) x.2 x'.2.
Proof using WorkerSteps0. induction 1 as [|x x1 x2 Hs _ IH]; [apply star_refl|]. eapply star_trans; [by apply serve_is_work|exact IH]. Qed.

Lemma serve_keeps x x' :
  star serve x x' →
  callers x'.2 = callers x.2 ∧ enqueued x'.2 = enqueued x.2 ∧ PoolYet (pool x'.2) = PoolYet (pool x.2).
Proof using WorkerSteps0.
  intros Hs%serve_workers. induction Hs as [|s s1 s2 Hs _ (-> & -> & ->)]; [done|]. by apply worker_step_keeps.
Qed.

Lemma serve_kernel x x' : star serve x x' → star (kernel_step NDEBUG serve) x x'.
Proof. induction 1; [apply star_refl|]. eapply star_step; [by apply kernel_serve|done]. Qed.

Lemma workers_sys (s s' : sys connection) : star (worker_step NDEBUG) s s' → star (sys_step NDEBUG) s s'.
Proof. induction 1; [apply star_refl|]. eapply star_step; [by apply s_worker|done]. Qed.

Lemma kernel_sys x x' : star (kernel_step NDEBUG serve) x x' → star (sys_step NDEBUG) x.2 x'.2.
Proof using WorkerSteps0.
  induction 1 as [|x x1 x2 Hs _ IH]; [apply star_refl|]. eapply star_trans; [|exact IH].
  destruct Hs as [x x' Hs|σ s s' Hs _ _]; [by apply workers_sys, serve_is_work|by apply star_one].
Qed.

(** The steps of the one caller. *)
Lemma only_enqueue (p : ThreadPool connection) m e tk ex t :
  PoolYet p = true → Z.of_nat (length (PoolTasks p)) < max_tasks →
  let p' := with_tasks (PoolTasks p ++ [t]) p in
  sys_step NDEBUG (MkSys p m [Idle] e tk ex)
    (MkSys p' m [Check (Z.of_nat (size (PoolWorkers p'))) (Z.of_nat (length (PoolTasks p')))] (e ++ [t]) tk ex).
Proof. intros Hy Hl. exact (s_enqueue NDEBUG p m [Idle] e tk ex 0%nat t eq_refl Hy Hl). Qed.

Lemma only_check (p : ThreadPool connection) m e tk ex nw nt :
  let n := CheckResize p nw nt in
  sys_step NDEBUG (MkSys p m [Check nw nt] e tk ex) (MkSys p m [if decide (0 < n) then Hiring n else Idle] e tk ex).
Proof. exact (s_check NDEBUG p m [Check nw nt] e tk ex 0%nat nw nt eq_refl). Qed.

Lemma only_hire (p p' : ThreadPool connection) m e tk ex n tids :
  Z.of_nat (length tids) = n → NoDup tids → Forall (fresh_id (MkSys p m [Hiring n] e tk ex)) tids → Hire tids p = Ret p' →
  sys_step NDEBUG (MkSys p m [Hiring n] e tk ex) (MkSys p' (start_threads tids m) [Idle] e tk ex).
Proof. intros Hl Hnd Hf Hh. exact (s_hire NDEBUG p m [Hiring n] e tk ex 0%nat n tids p' eq_refl Hl Hnd Hf Hh). Qed.

(** New threads run nothing. *)
Lemma running_start_threads (p p' : ThreadPool connection) m cs cs' e tk ex tids :
  Forall (fresh_id (MkSys p m cs e tk ex)) tids →
  ∀ w, running (MkSys p' (start_threads tids m) cs' e tk ex) w = running (MkSys p m cs e tk ex) w.
Proof.
  intros Hf w. unfold running. cbn. rewrite start_threads_lookup. case_decide as Hin; [|done].
  rewrite Forall_forall in Hf. destruct (Hf w Hin) as [Hw _]. cbn in Hw. by rewrite Hw.
Qed.
End steps.

(** ** What each action of the main thread does *)
Section actions.
Context {K D : Type} `{!SocketOS K} (NDEBUG : bool) (serve : D * sys connection → D * sys connection → Prop).
Context `{!Scheduling K D serve, !WorkerSteps NDEBUG serve}.

Abbreviation world := (kworld K D).

(** Only the workers have moved. *)
Definition quiet (w w' : world) : Prop :=
  star (serve) (served w) (served w').

Lemma quiet_trans w1 w2 w3 : quiet w1 w2 → quiet w2 w3 → quiet w1 w3.
Proof. apply star_trans. Qed.

Lemma yield_quiet w a w' : yield serve w = (Ret a, w') → quiet w w'.
Proof.
  unfold yield, quiet. pose proof (workers_steps (kw_os w) (served w)) as Hs.
  destruct (workers (kw_os w) (served w)) as [k [σ s]]. intros [= <- <-]. exact Hs.
Qed.

Lemma main_call_quiet {A} (m : M K A) w a w' : main_call serve m w = (Ret a, w') → quiet w w'.
Proof.
  intros Hrun. apply bind_ret_inv in Hrun as ([] & w1 & Hy & Hm). apply yield_quiet in Hy.
  unfold on_os in Hm. destruct (m (kw_os w1)) as [r k]. injection Hm as -> <-. exact Hy.
Qed.

Lemma read_procSignal_quiet w a w' : read_procSignal serve w = (Ret a, w') → quiet w w'.
Proof.
  unfold read_procSignal. destruct (arrived (kw_os w)) as [k signals]. destruct (arrive _ _ _); [|done..].
  intros [= <- <-]. apply star_refl.
Qed.

(** [Enqueue] of the only caller: the steps of the transition system. *)
Lemma Enqueue_steps c w w' :
  Enqueue serve c w = (Ret tt, w') → callers (kw_sys w) = [Idle] →
  star (kernel_step NDEBUG serve) (served w) (served w') ∧ callers (kw_sys w') = [Idle] ∧
  enqueued (kw_sys w') = enqueued (kw_sys w) ++ [c] ∧ PoolYet (pool (kw_sys w')) = PoolYet (pool (kw_sys w)).
Proof using WorkerSteps0.
  intros Hrun Hidle.
  apply bind_ret_inv in Hrun as ([] & w1 & Hy1 & Hrun). apply yield_quiet in Hy1.
  destruct (serve_keeps NDEBUG serve _ _ Hy1) as (Hc1 & He1 & Hp1). cbn in Hc1, He1, Hp1.
  apply bind_ret_inv in Hrun as ([nw nt] & w2 & Hq & Hrun).
  assert (H2 : kernel_step NDEBUG serve (served w1) (served w2) ∧ callers (kw_sys w2) = [Check nw nt] ∧
    enqueued (kw_sys w2) = enqueued (kw_sys w1) ++ [c] ∧ PoolYet (pool (kw_sys w2)) = PoolYet (pool (kw_sys w1))).
  { unfold enqueue_locked, enqueue_section in Hq. destruct w1 as [k1 σ1 [p m cs e tk ex] h1 sg1]. cbn in *.
    destruct (PoolYet p) eqn:Hy; [|done]. case_decide as Hl; [|done]. injection Hq as <- <- <-. cbn.
    split_and!; [|done..]. apply kernel_pool; [|done|done]. cbn. rewrite Hc1, Hidle. by apply only_enqueue. }
  destruct H2 as (Hs2 & Hc2 & He2 & Hp2).
  apply bind_ret_inv in Hrun as ([] & w3 & Hy3 & Hrun). apply yield_quiet in Hy3.
  destruct (serve_keeps NDEBUG serve _ _ Hy3) as (Hc3 & He3 & Hp3). cbn in Hc3, He3, Hp3.
  apply bind_ret_inv in Hrun as (n & w4 & Hchk & Hrun).
  assert (H4 : kernel_step NDEBUG serve (served w3) (served w4) ∧ callers (kw_sys w4) = [if decide (0 < n) then Hiring n else Idle] ∧
    enqueued (kw_sys w4) = enqueued (kw_sys w3) ∧ PoolYet (pool (kw_sys w4)) = PoolYet (pool (kw_sys w3))).
  { unfold check_resize in Hchk. destruct w3 as [k3 σ3 [p m cs e tk ex] h3 sg3]. cbn in *. injection Hchk as <- <-.
    split_and!; [|done..]. apply kernel_pool; [|done|done]. cbn. rewrite Hc3, Hc2. apply only_check. }
  destruct H4 as (Hs4 & Hc4 & He4 & Hp4).
  assert (H14 : star (kernel_step NDEBUG serve) (served w) (served w4)).
  { eapply star_trans; [by apply serve_kernel|]. eapply star_step; [exact Hs2|].
    eapply star_trans; [by apply serve_kernel|]. by apply star_one. }
  destruct (decide (0 < n)) as [Hn|Hn].
  - apply bind_ret_inv in Hrun as ([] & w5 & Hy5 & Hh). apply yield_quiet in Hy5.
    destruct (serve_keeps NDEBUG serve _ _ Hy5) as (Hc5 & He5 & Hp5). cbn in Hc5, He5, Hp5.
    unfold hire in Hh. pose proof (new_threads_fresh (kw_os w5) (kw_sys w5) (Z.to_nat n)) as (Hnd & Hlen & Hf).
    destruct (new_threads _ _ _) as [k tids]. cbn [fst snd] in *.
    destruct w5 as [k5 σ5 [p m cs e tk ex] h5 sg5]. cbn in *. destruct (Hire tids p) as [p'| | |] eqn:Hp; [|done..].
    injection Hh as <-. cbn. pose proof (Hire_spec _ _ _ Hp) as (Hyet & _). split_and!; [|done|congruence|congruence].
    eapply star_trans; [exact H14|]. eapply star_trans; [by apply serve_kernel|]. apply star_one.
    apply kernel_pool; [|done|by apply running_start_threads]. cbn. rewrite Hc5, Hc4 in Hf |- *. apply only_hire; [lia|done..].
  - injection Hrun as <-. split_and!; [done..|congruence|congruence].
Qed.

(** ** The invariant of the main thread *)

(** The connections entered into the pool are those accepted, carry the numbers
    of the server's counter, and have descriptors. *)
Definition numbered (sv : Server) (s : sys connection) : Prop :=
  msgIndex sv = u64 (Z.of_nat (length (enqueued s))) ∧
  (∀ i c, enqueued s !! i = Some c → ∃ t, cn_mid c = getMsgId t (u64 (Z.of_nat i))) ∧
  Forall (λ c, 0 < cn_socket c) (enqueued s).

Definition main_inv (x0 : D * sys connection) (sw : Server * world) : Prop :=
  star (kernel_step NDEBUG serve) x0 (served sw.2) ∧ callers (kw_sys sw.2) = [Idle] ∧
  PoolYet (pool (kw_sys sw.2)) = true ∧ numbered sw.1 (kw_sys sw.2).

Lemma main_inv_quiet x0 sv w w' : quiet w w' → main_inv x0 (sv, w) → main_inv x0 (sv, w').
Proof using WorkerSteps0.
  intros Hq (Hs & Hc & Hy & Hn & Hi & Hso). destruct (serve_keeps NDEBUG serve _ _ Hq) as (Hc' & He' & Hy'). cbn in *. unfold main_inv, numbered. cbn.
  rewrite Hc', He', Hy'. split_and!; [|done..]. eapply star_trans; [exact Hs|by apply serve_kernel].
Qed.

Lemma quiet_keeps {A} x0 (m : M world A) :
  (∀ w a w', m w = (Ret a, w') → quiet w w') → keeps (main_inv x0) (on_snd m).
Proof using WorkerSteps0.
  intros Hm [sv w] a [sv' w'] Hinv Hrun. unfold on_snd in Hrun. cbn in Hrun. destruct (m w) as [r w1] eqn:Hw.
  injection Hrun as -> <- <-. eapply main_inv_quiet; [by eapply Hm|exact Hinv].
Qed.

Lemma call_keeps {A} x0 (m : M K A) : keeps (main_inv x0) (on_snd (main_call serve m)).
Proof using WorkerSteps0. apply quiet_keeps. intros w a w'. apply main_call_quiet. Qed.

Lemma on_fst_gets_keeps {A} x0 (f : Server → A) : keeps (main_inv x0) (on_fst (gets f)).
Proof. intros [sv w] a sw' Hinv [= _ <-]. exact Hinv. Qed.

(** A failed lookup ends the call with an exception, so that a returned call
    has entered the connection. *)
Lemma accepted_keeps x0 fd so sa : 0 < so → keeps (main_inv x0) (accepted (Enqueue serve) fd so sa).
Proof using WorkerSteps0.
  intros Hso [sv w] [] [sv' w'] Hinv Hrun. apply bind_ret_inv in Hrun as (t & [sv1 w1] & Ht & Hrun).
  assert (Hinv1 : main_inv x0 (sv1, w1)).
  { eapply call_keeps; [exact Hinv|exact Ht]. }
  apply bind_ret_inv in Hrun as (index & sw2 & [= <- <-] & Hrun).
  apply bind_ret_inv in Hrun as ([] & sw3 & [= <-] & Hrun).
  apply bind_ret_inv in Hrun as (h & sw4 & Hh & Hrun). unfold on_fst, gets in Hh. cbn in Hh. injection Hh as Hh <-.
  destruct h as [limits|]; [|done]. unfold on_snd in Hrun. cbn [fst snd] in Hrun.
  destruct (Enqueue _ _ w1) as [r w5] eqn:He. injection Hrun as -> <- <-.
  destruct Hinv1 as (Hs & Hc & Hy & Hn & Hi & Hsos). destruct (Enqueue_steps _ _ _ He Hc) as (Hs' & Hc' & He' & Hy').
  cbn [fst snd] in *. split_and!; cbn [fst snd]; [by eapply star_trans|done|congruence|]. unfold numbered. rewrite He'. split_and!.
  - cbn [msgIndex]. rewrite Hn, length_app, Nat2Z.inj_add. unfold u64. cbn [length]. by rewrite Zplus_mod_idemp_l.
  - intros i c. rewrite lookup_app_Some. intros [Hic|[Hle Hic]]; [by apply Hi|].
    apply list_lookup_singleton_Some in Hic as [Hz <-]. exists t. cbn [cn_mid]. rewrite Hn. do 3 f_equal. lia.
  - apply Forall_app. split; [exact Hsos|]. by apply Forall_singleton.
Qed.

Lemma accept_loop_keeps x0 fuel fd : ∀ result, keeps (main_inv x0) (accept_loop (Enqueue serve) fuel fd result).
Proof using WorkerSteps0.
  induction fuel as [|fuel IH]; intros result; cbn [accept_loop]; [apply keeps_ret|].
  apply keeps_decide; [apply keeps_lift|]. apply keeps_decide; [apply keeps_ret|].
  apply keeps_bind; [apply call_keeps|]. intros [[so sa]|]; [|apply keeps_ret].
  case_decide as Hso; [apply keeps_bind; [by apply accepted_keeps|intros _; apply IH]|].
  apply keeps_decide; [|apply keeps_ret].
  apply keeps_bind; [apply call_keeps|intros _; apply keeps_ret].
Qed.

Lemma listen_loop_keeps x0 fuel fds : ∀ result, keeps (main_inv x0) (listen_loop (Enqueue serve) fuel fds result).
Proof using WorkerSteps0.
  induction fds as [|[fd ready] fds IH]; intros result; cbn [listen_loop]; [apply keeps_ret|].
  apply keeps_decide; [apply keeps_ret|]. destruct ready; [|apply IH].
  apply keeps_bind; [apply accept_loop_keeps|]. intros [r|]; [apply IH|apply keeps_ret].
Qed.

Lemma Listen_keeps x0 fuel timeout : keeps (main_inv x0) (Listen (Enqueue serve) fuel timeout).
Proof using WorkerSteps0.
  apply keeps_bind; [apply on_fst_gets_keeps|]. intros fds.
  apply keeps_bind; [apply call_keeps|]. intros [result revents].
  apply keeps_decide.
  { apply keeps_bind; [apply call_keeps|intros e; apply keeps_ret]. }
  apply keeps_decide; [apply keeps_ret|apply listen_loop_keeps].
Qed.

Lemma signal_is_one_of_quiet names : ∀ w a w', signal_is_one_of serve names w = (Ret a, w') → quiet w w'.
Proof.
  induction names as [|n names IH]; intros w a w' Hrun; cbn [signal_is_one_of] in Hrun.
  { injection Hrun as _ <-. apply star_refl. }
  apply bind_ret_inv in Hrun as (s & w1 & H1 & Hrun). apply read_procSignal_quiet in H1.
  case_decide; [by injection Hrun as _ <-|]. eapply quiet_trans; [exact H1|by eapply IH].
Qed.

Lemma main_loop_keeps x0 listen_fuel fuel : keeps (main_inv x0) (main_loop serve listen_fuel fuel).
Proof using WorkerSteps0.
  induction fuel as [|fuel IH]; cbn [main_loop]; [apply keeps_ret|].
  apply keeps_bind; [apply Listen_keeps|]. intros [[]|]; [|apply keeps_ret..].
  apply keeps_bind; [apply quiet_keeps, read_procSignal_quiet|]. intros s. apply keeps_decide; [exact IH|].
  apply keeps_bind; [apply quiet_keeps, signal_is_one_of_quiet|]. intros []; [|exact IH].
  apply keeps_bind; [apply quiet_keeps, read_procSignal_quiet|]. intros s'.
  apply keeps_bind; [apply keeps_lift|intros _; apply keeps_ret].
Qed.

(** ** [Join] in the main thread *)

Lemma joining_worker_steps (hash_order : list nat → list nat) (s0 s s' : sys connection) j :
  star (worker_step NDEBUG) s s' → joining s0 (s, j) → joining s0 (s', j).
Proof.
  induction 1 as [|s s1 s2 Hs _ IH]; [done|]. intros Hj. apply IH.
  by apply (joining_step NDEBUG hash_order s0 (s, j) (s1, j) Hj (j_worker _ _ _ _ _ Hs)).
Qed.

Lemma join_worker_joining (hash_order : list nat → list nat) s0 fuel tid todo w w' :
  join_worker serve fuel tid w = (Ret (Some tt), w') → joining s0 (kw_sys w, JWaiting (tid :: todo)) →
  joining s0 (kw_sys w', JWaiting todo) ∧ quiet w w'.
Proof using WorkerSteps0.
  revert w. induction fuel as [|fuel IH]; intros w Hrun Hj; cbn [join_worker] in Hrun; [done|].
  apply bind_ret_inv in Hrun as (t & w1 & Ht & Hrun). unfold gets in Ht. injection Ht as Ht <-. destruct t as [x|].
  - apply bind_ret_inv in Hrun as ([] & w2 & Hy & Hrun). apply yield_quiet in Hy.
    destruct (IH w2 Hrun) as [Hj' Hq].
    + eapply joining_worker_steps; [exact hash_order|by apply (serve_workers NDEBUG serve (served w) (served w2))|exact Hj].
    + split; [exact Hj'|by eapply quiet_trans].
  - injection Hrun as <-. split; [|apply star_refl].
    by apply (joining_step NDEBUG hash_order s0 _ _ Hj (j_joined _ _ _ tid todo Ht)).
Qed.

Lemma join_workers_joining (hash_order : list nat → list nat) s0 fuel todo : ∀ w w',
  join_workers serve fuel todo w = (Ret (Some tt), w') → joining s0 (kw_sys w, JWaiting todo) →
  joining s0 (kw_sys w', JWaiting []) ∧ quiet w w'.
Proof using WorkerSteps0.
  induction todo as [|tid todo IH]; intros w w' Hrun Hj; cbn [join_workers] in Hrun.
  { injection Hrun as <-. split; [done|apply star_refl]. }
  apply bind_ret_inv in Hrun as ([[]|] & w1 & H1 & Hrun); [|done].
  destruct (join_worker_joining hash_order s0 _ _ _ _ _ H1 Hj) as [Hj1 Hq1].
  destruct (IH w1 w' Hrun Hj1) as [Hj2 Hq2]. split; [done|by eapply quiet_trans].
Qed.

Lemma Join_spec fuel hash_order w w' :
  (∀ l, hash_order l ≡ₚ l) → Join serve fuel hash_order w = (Ret (Some tt), w') →
  all_joinable (kw_sys w) → tasks_conserved (kw_sys w) → PoolYet (pool (kw_sys w)) = true →
  star (kernel_step NDEBUG serve) (served w) (served w') ∧ threads (kw_sys w') = ∅ ∧
  enqueued (kw_sys w') = enqueued (kw_sys w) ∧ callers (kw_sys w') = callers (kw_sys w).
Proof using WorkerSteps0.
  intros Hord Hrun Hj Hc Hyet. apply bind_ret_inv in Hrun as ([] & w1 & Hy & Hrun). apply yield_quiet in Hy.
  pose proof (serve_workers NDEBUG serve _ _ Hy) as Hws. destruct (serve_keeps NDEBUG serve _ _ Hy) as (Hc1 & He1 & _).
  assert (H1 : all_joinable (kw_sys w1) ∧ tasks_conserved (kw_sys w1) ∧ PoolYet (pool (kw_sys w1)) = true).
  { change (served w1).2 with (kw_sys w1) in Hws. change (served w).2 with (kw_sys w) in Hws. clear -Hws Hj Hc Hyet.
    induction Hws as [s|s s1 s2 Hs _ IH]; [done|]. apply IH; [by eapply worker_step_joinable|by eapply worker_step_conserves|].
    by destruct Hs. }
  destruct H1 as (Hj1 & Hcons1 & Hyet1).
  apply bind_ret_inv in Hrun as (stop & w2 & Hst & Hrun). unfold stop_pool in Hst. rewrite Hyet1 in Hst. injection Hst as <- <-.
  apply bind_ret_inv in Hrun as (tids & w3 & Ht & Hrun). unfold gets in Ht. injection Ht as <- <-.
  pose proof (joining_stopped hash_order (kw_sys w1) Hord Hj1 Hcons1) as H0.
  apply (join_workers_joining hash_order (kw_sys w1)) in Hrun as [Hj4 Hq4]; [|exact H0].
  destruct (joining_step NDEBUG hash_order _ _ _ Hj4 (j_end _ _ _)) as [(_ & _ & _ & _ & He4 & Ht4) _]. cbn in He4, Ht4.
  destruct (serve_keeps NDEBUG serve _ _ Hq4) as (Hc4 & He4' & _). cbn in Hc1, He1, Hc4. split_and!; [|done|congruence|congruence].
  eapply star_trans; [by apply serve_kernel|]. eapply star_step; [|by apply serve_kernel].
  apply kernel_pool; [|done|done]. destruct w1 as [k σ [p m cs e tk ex] h sg]. apply s_join.
Qed.
End actions.

(** ** The start *)

(** The pool as the constructor leaves it: its threads wait, and the main
    thread is the only caller. *)
Definition start_sys (p : ThreadPool connection) (tids : list nat) : sys connection :=
  MkSys p (list_to_map ((λ tid, (tid, (sPersistent, WWait))) <$> tids)) [Idle] [] [] [].

Lemma ThreadPool_new_start {T} hw iw mw cb eb tids (p : ThreadPool T) :
  ThreadPool_new hw iw mw cb eb tids = Ret p →
  PoolInitWorkers p ≠ 0 ∧ PoolInitWorkers p ≤ PoolMaxWorkers p ∧ PoolYet p = true ∧ PoolTasks p = [] ∧ PoolBusyWorkers p = 0 ∧
  (∀ w, PoolWorkers p !! w = if decide (w ∈ tids) then Some true else None) ∧ size (PoolWorkers p) = length tids.
Proof.
  unfold ThreadPool_new. destruct (stoul iw) as [init| | |]; outcome_simpl; try done.
  destruct (stoul mw) as [max| | |]; outcome_simpl; try done.
  destruct (expand_default cb) as [worker| | |]; outcome_simpl; try done.
  destruct (expand_default eb) as [exclude| | |]; outcome_simpl; try done.
  destruct (bound_cores hw worker exclude) as [cores| | |]; outcome_simpl; try done.
  case_decide as Hbad; [done|]. intros Hrun. pose proof (Hire_lookup _ _ _ Hrun) as Hl.
  apply Hire_keeps in Hrun as (_ & -> & -> & -> & -> & -> & ->). cbn in *. split_and!; [tauto|lia|done..| |done].
  intros w. by rewrite Hl, lookup_empty.
Qed.

Lemma start_sys_threads (tids : list nat) w :
  is_Some ((list_to_map ((λ tid, (tid, (sPersistent, WWait))) <$> tids) : gmap nat (WorkerType * worker_state connection)) !! w)
  → w ∈ tids ∧ (list_to_map ((λ tid, (tid, (sPersistent, WWait))) <$> tids) : gmap nat (WorkerType * worker_state connection)) !! w
                 = Some (sPersistent, WWait).
Proof.
  intros [x Hx]. pose proof Hx as Hx'. apply elem_of_list_to_map_2, list_elem_of_fmap in Hx' as (tid & [= -> ->] & Hin). done.
Qed.

(** The threads of a fresh pool hold nothing. *)
Lemma start_sys_idle p tids : in_hand (threads (start_sys p tids)) = [] ∧ busy_count (threads (start_sys p tids)) = 0%nat.
Proof.
  assert (Hall : Forall (λ x : nat * (WorkerType * worker_state connection), x.2.2 = WWait) (map_to_list (threads (start_sys p tids)))).
  { apply Forall_forall. intros [w x] Hin%elem_of_map_to_list. cbn in Hin.
    destruct (start_sys_threads tids w ltac:(by eexists)) as [_ Hw]. rewrite Hw in Hin. by injection Hin as <-. }
  unfold in_hand, busy_count. induction Hall as [|[w [ty st]] l Hst Hall [IH1 IH2]]; [done|]. cbn in Hst. subst st. by split.
Qed.

Lemma start_running p tids w : running (start_sys p tids) w = None.
Proof.
  unfold running. destruct (threads (start_sys p tids) !! w) as [x|] eqn:Hw; [|done].
  destruct (start_sys_threads tids w) as [_ Hx]; [by eexists|]. cbn in Hw. rewrite Hx in Hw. by injection Hw as <-.
Qed.

Lemma start_sys_ok hw iw mw cb eb tids p :
  ThreadPool_new hw iw mw cb eb tids = Ret p → Z.of_nat (length tids) = PoolInitWorkers p →
  all_joinable (start_sys p tids) ∧ tasks_conserved (start_sys p tids) ∧
  0 < PoolInitWorkers p ≤ PoolMaxWorkers p ∧ within_max (PoolInitWorkers p) (PoolMaxWorkers p) (start_sys p tids).
Proof.
  intros (Hi0 & Him & Hy & Hts & Hb & Hw & Hsz)%ThreadPool_new_start Hlen. destruct (start_sys_idle p tids) as [Hh Hbusy].
  split_and!; [| |lia..|].
  - intros w Hin. apply start_sys_threads in Hin as [Hin _]. cbn. by rewrite Hw, decide_True.
  - split; [cbn; by rewrite Hts|]. by rewrite Hh.
  - unfold within_max. rewrite Hbusy. cbn [pool start_sys callers]. split_and!; [done|done|lia| |done|by exists Idle].
    intros w [x Hin]%elem_of_dom. cbn in Hin. destruct (start_sys_threads tids w ltac:(by eexists)) as [Hin' _].
    apply elem_of_dom. rewrite Hw, decide_True by done. by eexists.
Qed.

Lemma numbered_unique sv s :
  numbered sv s → Z.of_nat (length (enqueued s)) < 2 ^ 32 → NoDup (cn_mid <$> enqueued s).
Proof.
  intros (_ & Hn & _) Hlen. apply NoDup_alt. intros i j x Hi Hj. rewrite list_lookup_fmap in Hi, Hj.
  destruct (enqueued s !! i) as [c|] eqn:Hci; [|done]. destruct (enqueued s !! j) as [c'|] eqn:Hcj; [|done].
  cbn in Hi, Hj. injection Hi as <-. injection Hj as Hj.
  pose proof (lookup_lt_Some _ _ _ Hci) as Hli. pose proof (lookup_lt_Some _ _ _ Hcj) as Hlj.
  destruct (Hn i c Hci) as [t Ht], (Hn j c' Hcj) as [t' Ht'].
  rewrite u64_small in Ht, Ht' by (unfold in_u64, u64_modulus; lia).
  apply Nat2Z.inj. rewrite <- (getMsgId_counter t (Z.of_nat i)), <- (getMsgId_counter t' (Z.of_nat j)) by lia. congruence.
Qed.

(** *** The whole run *)
Section run.
Context {K D : Type} `{!SocketOS K} (NDEBUG : bool) (serve : D * sys connection → D * sys connection → Prop).
Context `{!Scheduling K D serve, !WorkerSteps NDEBUG serve}.

(** The kernel from its first [Listen] to its end, with the workers running in
    any order between the actions of the main thread. *)
Lemma kernel_run_steps (listen_fuel fuel : nat) (hash_order : list nat → list nat)
    (hw : Z) (iw mw cb eb : bytes) (tids : list nat) (p : ThreadPool connection)
    (sv sv' : Server) (w w' : kworld K D) :
  (∀ l, hash_order l ≡ₚ l) →
  ThreadPool_new hw iw mw cb eb tids = Ret p → Z.of_nat (length tids) = PoolInitWorkers p → PoolMaxWorkers p < 2 ^ 61 →
  msgIndex sv = 0 → kw_sys w = start_sys p tids →
  Run_main serve listen_fuel fuel hash_order (sv, w) = (Ret (Some tt), (sv', w')) →
  let s := kw_sys w' in
  star (kernel_step NDEBUG serve) (kw_service w, start_sys p tids) (kw_service w', s) ∧
  threads s = ∅ ∧
  enqueued s ≡ₚ executed s ++ PoolTasks (pool s) ∧
  Forall (λ c, 0 < cn_socket c) (enqueued s) ∧
  (Z.of_nat (length (enqueued s)) < 2 ^ 32 → NoDup (cn_mid <$> enqueued s)) ∧
  Z.of_nat (size (PoolWorkers (pool s))) ≤ PoolMaxWorkers p.
Proof using WorkerSteps0.
  intros Hord Hnew Hlen Hmax Hidx Hsys Hrun s.
  destruct (start_sys_ok _ _ _ _ _ _ _ Hnew Hlen) as (Hj0 & Hc0 & Hinit & Hin0).
  pose proof (ThreadPool_new_start _ _ _ _ _ _ _ Hnew) as (_ & _ & Hyet0 & _).
  apply bind_ret_inv in Hrun as ([] & [sv1 w1] & H1 & Hrun). unfold on_snd, modify in H1. cbn in H1. injection H1 as <- <-.
  apply bind_ret_inv in Hrun as ([[]|] & [sv2 w2] & Hloop & Hrun); [|done].
  apply (main_loop_keeps NDEBUG serve (served w)) in Hloop as (Hs2 & Hc2 & Hyet2 & Hn2).
  2:{ split_and!; cbn; [apply star_refl|by rewrite Hsys|by rewrite Hsys|]. unfold numbered. rewrite Hsys. cbn. by rewrite Hidx. }
  cbn [fst snd] in *. unfold on_snd in Hrun. cbn [fst snd] in Hrun.
  destruct (Join _ _ _ w2) as [r w3] eqn:HJ. injection Hrun as -> <- <-.
  pose proof (kernel_sys _ _ _ _ Hs2) as Hss2. cbn in Hss2. rewrite Hsys in Hss2.
  assert (Hj2 : all_joinable (kw_sys w2)).
  { eapply (star_invariant _ all_joinable); [|exact Hss2|exact Hj0]. intros. by eapply sys_step_joinable. }
  assert (Hcons2 : tasks_conserved (kw_sys w2)).
  { eapply (star_invariant _ tasks_conserved); [|exact Hss2|exact Hc0]. intros. by eapply sys_step_conserves. }
  destruct (Join_spec NDEBUG serve fuel hash_order w2 w3 Hord HJ Hj2 Hcons2 Hyet2) as (Hs3 & Ht3 & He3 & Hc3).
  pose proof (star_trans _ _ _ _ Hs2 Hs3) as Hs. unfold served in Hs. rewrite Hsys in Hs.
  pose proof (kernel_sys _ _ _ _ Hs) as Hss. cbn in Hss.
  assert (Hcons3 : tasks_conserved (kw_sys w3)).
  { eapply (star_invariant _ tasks_conserved); [|exact Hss|exact Hc0]. intros. by eapply sys_step_conserves. }
  destruct Hcons3 as [Hc31 Hc32]. subst s. split_and!; [done|done| | | |].
  - rewrite Hc31, Hc32, Ht3. unfold in_hand. by rewrite map_to_list_empty, app_nil_r.
  - rewrite He3. apply Hn2.
  - intros Hlt. apply (numbered_unique sv2); [|done]. unfold numbered in *. by rewrite He3.
  - assert (Hin : within_max (PoolInitWorkers p) (PoolMaxWorkers p) (kw_sys w3)); [|apply Hin].
    eapply (star_invariant _ (within_max (PoolInitWorkers p) (PoolMaxWorkers p))); [|exact Hss|exact Hin0].
    intros. by eapply sys_step_within_max.
Qed.
End run.

(** ** Signals *)
Section signals.
Context {K D : Type} `{!SocketOS K} (serve : D * sys connection → D * sys connection → Prop) `{!Scheduling K D serve}.

(** [handleSignals] installs the handler on the numbers 1 to 4. *)
Lemma Run_handlers_eq : Run_handlers = [1; 2; 3; 4]%nat.
Proof. reflexivity. Qed.

Definition with_signal (k : K) (n : nat) (w : kworld K D) : kworld K D := KWorld k (kw_service w) (kw_sys w) (kw_handled w) n.

Lemma read_procSignal_run w k signals n :
  arrived (kw_os w) = (k, signals) → arrive signals (kw_handled w) (kw_procSignal w) = Ret n →
  read_procSignal serve w = (Ret n, with_signal k n w).
Proof. intros Ha Hn. unfold read_procSignal. by rewrite Ha, Hn. Qed.

(** C20: what a signal does to the main loop.  The handlers stand on the numbers
    1 to 4, so that [SIGINT] and [SIGQUIT] end the loop and lead to the
    shutdown; [SIGTERM], for which the loop has a branch and a name, and
    [SIGSEGV], for which a handler was written, end the process on the spot;
    [SIGHUP] and [SIGILL] are swallowed. *)
Theorem main_loop_signals (listen_fuel fuel : nat) (sv sv1 : Server) (w w1 : kworld K D) (k1 k2 k3 k4 : K) (n : nat) :
  Listen (Enqueue serve) listen_fuel 3000 (sv, w) = (Ret (Some true), (sv1, w1)) →
  kw_handled w1 = Run_handlers → kw_procSignal w1 = 0%nat → arrived (kw_os w1) = (k1, [n]) →
  arrived k1 = (k2, []) → arrived k2 = (k3, []) →
  let loop := main_loop serve listen_fuel (S fuel) (sv, w) in
  (n = SIGINT → loop = (Ret (Some tt), (sv1, with_signal k3 SIGINT w1))) ∧
  (n = SIGQUIT → arrived k3 = (k4, []) → loop = (Ret (Some tt), (sv1, with_signal k4 SIGQUIT w1))) ∧
  (n = SIGTERM ∨ n = SIGSEGV → loop = (Terminate, (sv1, w1))) ∧
  (n = 1%nat ∨ n = 4%nat → arrived k3 = (k4, []) →
     loop = main_loop serve listen_fuel fuel (sv1, with_signal k4 n w1)).
Proof.
  intros HL Hh H0 Ha1 Ha2 Ha3 loop. subst loop.
  assert (Hbegin : ∀ r, arrive [n] Run_handlers 0 = r →
    main_loop serve listen_fuel (S fuel) (sv, w) =
    match r with
    | Ret s =>
        (if decide (s = 0%nat) then main_loop serve listen_fuel fuel
         else stop ← on_snd (signal_is_one_of serve [SIGINT; SIGQUIT; SIGTERM]);
              if stop : bool then s ← on_snd (read_procSignal serve); _ ← lift (signalNames_at s); mret (Some tt)
              else main_loop serve listen_fuel fuel) (sv1, with_signal k1 s w1)
    | Throw e => (Throw e, (sv1, w1)) | Terminate => (Terminate, (sv1, w1)) | Undef => (Undef, (sv1, w1))
    end).
  { intros r Hr. cbn [main_loop]. unfold mbind at 1, M_bind at 1. rewrite HL. unfold mbind at 1, M_bind at 1, on_snd at 1, read_procSignal at 1.
    cbn [fst snd]. rewrite Ha1. replace (arrive _ _ _) with r by by rewrite Hh, H0. by destruct r. }
  assert (Hread : ∀ k k' s, arrived k = (k', []) →
    read_procSignal serve (with_signal k s w1) = (Ret s, with_signal k' s w1)).
  { intros k k' s Hk. exact (read_procSignal_run (with_signal k s w1) k' [] s Hk eq_refl). }
  split_and!.
  - intros ->. rewrite (Hbegin (Ret SIGINT)) by done. rewrite decide_False by done.
    rewrite (bind_on_snd (signal_is_one_of _ _) _ _ _ true (with_signal k2 SIGINT w1)).
    + by rewrite (bind_on_snd _ _ _ _ _ _ (Hread k2 k3 SIGINT Ha3)).
    + cbn [signal_is_one_of]. rewrite (bind_returns _ _ _ _ _ (Hread k1 k2 SIGINT Ha2)). by rewrite decide_True.
  - intros -> Ha4. rewrite (Hbegin (Ret SIGQUIT)) by done. rewrite decide_False by done.
    rewrite (bind_on_snd (signal_is_one_of _ _) _ _ _ true (with_signal k3 SIGQUIT w1)).
    + by rewrite (bind_on_snd _ _ _ _ _ _ (Hread k3 k4 SIGQUIT Ha4)).
    + cbn [signal_is_one_of]. rewrite (bind_returns _ _ _ _ _ (Hread k1 k2 SIGQUIT Ha2)), decide_False by done.
      rewrite (bind_returns _ _ _ _ _ (Hread k2 k3 SIGQUIT Ha3)). by rewrite decide_True.
  - intros [-> | ->]; by rewrite (Hbegin Terminate).
  - intros Hn Ha4. assert (Hne : n ≠ 0%nat ∧ n ≠ SIGINT ∧ n ≠ SIGQUIT ∧ n ≠ SIGTERM) by by destruct Hn as [-> | ->].
    destruct Hne as (Hn0 & Hn1 & Hn2 & Hn3). rewrite (Hbegin (Ret n)) by by destruct Hn as [-> | ->].
    rewrite decide_False by done. rewrite (bind_on_snd (signal_is_one_of _ _) _ _ _ false (with_signal k4 n w1)); [done|].
    cbn [signal_is_one_of]. rewrite (bind_returns _ _ _ _ _ (Hread k1 k2 n Ha2)), decide_False by done.
    rewrite (bind_returns _ _ _ _ _ (Hread k2 k3 n Ha3)), decide_False by done.
    by rewrite (bind_returns _ _ _ _ _ (Hread k3 k4 n Ha4)), decide_False by done.
Qed.

(** A [SIGHUP] between the test for [SIGINT] and the log line replaces
    [procSignal], and [signalNames.at] throws out of [Run]. *)
Theorem signal_race (listen_fuel fuel : nat) (sv sv1 : Server) (w w1 : kworld K D) (k1 k2 k3 : K) :
  Listen (Enqueue serve) listen_fuel 3000 (sv, w) = (Ret (Some true), (sv1, w1)) →
  kw_handled w1 = Run_handlers → kw_procSignal w1 = SIGINT → arrived (kw_os w1) = (k1, []) →
  arrived k1 = (k2, []) → arrived k2 = (k3, [1%nat]) →
  (main_loop serve listen_fuel (S fuel) (sv, w)).1 = Throw (StdException (str "_Map_base::at")).
Proof.
  intros HL Hh H0 Ha1 Ha2 Ha3. cbn [main_loop].
  assert (H1 : read_procSignal serve w1 = (Ret SIGINT, with_signal k1 SIGINT w1)).
  { by apply read_procSignal_run with []; [|rewrite H0]. }
  assert (H2 : read_procSignal serve (with_signal k1 SIGINT w1) = (Ret SIGINT, with_signal k2 SIGINT w1)).
  { exact (read_procSignal_run (with_signal k1 SIGINT w1) k2 [] SIGINT Ha2 eq_refl). }
  assert (H3 : read_procSignal serve (with_signal k2 SIGINT w1) = (Ret 1%nat, with_signal k3 1 w1)).
  { refine (read_procSignal_run (with_signal k2 SIGINT w1) k3 [1%nat] 1 Ha3 _). cbn [with_signal kw_handled]. by rewrite Hh. }
  rewrite (bind_run _ _ _ _ _ HL), (bind_on_snd _ _ _ _ _ _ H1), decide_False by done.
  rewrite (bind_on_snd (signal_is_one_of _ _) _ _ _ true (with_signal k2 SIGINT w1)).
  - by rewrite (bind_on_snd _ _ _ _ _ _ H3).
  - cbn [signal_is_one_of]. rewrite (bind_returns _ _ _ _ _ H2). by rewrite decide_True.
Qed.
End signals.
