(* ===== verification/PoolProg.v ===== *)
(** * PoolProg: workers whose tasks are programs

    The task of a worker ([kernel/mt/threadpool.cpp]) is a program of
    [Interleave]: between taking it and returning, the worker executes one action
    at a time, outside the lock of the pool, and the other workers and the main
    thread move in between.  What the tasks do together is an interleaving of
    their programs. *)
From stdpp Require Import options relations gmap.
From S2P Require Import Prelude Interleave Server ThreadPool ThreadPoolConc Kernel.

#[local] Open Scope nat_scope.

(** The programs of the tasks that were begun, in that order, with what they
    share; which of them each worker runs; and which have returned. *)
Record tasks (W : Type) := Tasks { tk_conf : tconf W connection; tk_of : gmap nat nat; tk_done : list nat }.
Arguments Tasks {W}. Arguments tk_conf {W}. Arguments tk_of {W}. Arguments tk_done {W}.

Section tasks.
Context {W : Type} (NDEBUG : bool) (code : connection → prog W unit).

Definition no_tasks (σ : W) : tasks W := Tasks (MkThreads [] σ) ∅ [].

(** [task()] is called, acts, and returns. *)
Definition begin_task (w : nat) (t : connection) (d : tasks W) : tasks W :=
  Tasks (MkThreads (tc_threads (tk_conf d) ++ [(t, code t)]) (tc_shared (tk_conf d)))
    (<[w := length (tc_threads (tk_conf d))]> (tk_of d)) (tk_done d).
Definition act_task (i : nat) (d : tasks W) : tasks W := Tasks (thread_move i (tk_conf d)) (tk_of d) (tk_done d).
Definition end_task (w i : nat) (d : tasks W) : tasks W := Tasks (tk_conf d) (delete w (tk_of d)) (tk_done d ++ [i]).

(** Worker [w] goes from one task, or none, to another. *)
Definition changes (w : nat) (from to : option connection) (s s' : sys connection) : Prop :=
  running s w = from ∧ running s' w = to ∧ ∀ v, v ≠ w → running s' v = running s v.

(** The steps of the workers. *)
Inductive conc_step : tasks W * sys connection → tasks W * sys connection → Prop :=
  | c_quiet d s s' :
      worker_step NDEBUG s s' → executed s' = executed s → (∀ w, running s' w = running s w) → conc_step (d, s) (d, s')
  | c_begin d s s' w t :
      worker_step NDEBUG s s' → executed s' = executed s → changes w None (Some t) s s' →
      conc_step (d, s) (begin_task w t d, s')
  | c_act d s w i c X (m : M W X) f :
      is_Some (running s w) → tk_of d !! w = Some i → tc_threads (tk_conf d) !! i = Some (c, PAct m f) →
      conc_step (d, s) (act_task i d, s)
  | c_end d s s' w t i :
      worker_step NDEBUG s s' → executed s' = executed s ++ [t] → changes w (Some t) None s s' →
      tk_of d !! w = Some i → tc_threads (tk_conf d) !! i = Some (t, PDone (Ret tt)) →
      conc_step (d, s) (end_task w i d, s').

#[export] Instance conc_step_WorkerSteps : WorkerSteps NDEBUG conc_step.
Proof. intros x x' []; [by apply star_one..|apply star_refl|by apply star_one]. Qed.

Abbreviation kstep := (kernel_step NDEBUG conc_step).

(** What a worker does is one of these. *)
Lemma running_update (p p' : ThreadPool connection) m cs cs' e e' tk tk' ex ex' w x :
  let s := MkSys p m cs e tk ex in
  let s' := MkSys p' (<[w := x]> m) cs' e' tk' ex' in
  running s' w = (match x with (_, WRun t) => Some t | _ => None end) ∧ ∀ v, v ≠ w → running s' v = running s v.
Proof.
  cbn. unfold running. cbn. rewrite lookup_insert_eq. split; [done|]. intros v Hv. by rewrite lookup_insert_ne.
Qed.

Lemma running_delete (p p' : ThreadPool connection) m cs cs' e e' tk tk' ex ex' w ty :
  m !! w = Some (ty, WWait) →
  ∀ v, running (MkSys p' (delete w m) cs' e' tk' ex') v = running (MkSys p m cs e tk ex) v.
Proof.
  intros Hw v. unfold running. cbn. destruct (decide (v = w)) as [->|Hv]; [by rewrite lookup_delete_eq, Hw|by rewrite lookup_delete_ne].
Qed.

Lemma worker_step_cases (s s' : sys connection) :
  worker_step NDEBUG s s' →
  (executed s' = executed s ∧ ∀ w, running s' w = running s w) ∨
  (executed s' = executed s ∧ ∃ w t, changes w None (Some t) s s') ∨
  ∃ w t, executed s' = executed s ++ [t] ∧ changes w (Some t) None s s'.
Proof.
  destruct 1 as [p m cs e tk ex w ty t ts Hw _ _|p m cs e tk ex w ty t Hw|p m cs e tk ex w ty t Hw
                |p m cs e tk ex w ty Hw|p m cs e tk ex w ty Hw _ _ _|p m cs e tk ex w ty Hw _].
  3: right; right; exists w, t; split; [done|].
  2: right; left; split; [done|]; exists w, t.
  5,6: left; split; [done|by eapply running_delete].
  1,4: left; split; [done|]; intros v;
    (destruct (decide (v = w)) as [->|Hv]; [unfold running; cbn; by rewrite lookup_insert_eq, Hw|by apply running_update]).
  all: split; [unfold running; cbn; by rewrite Hw|apply running_update].
Qed.

(** The next step of worker [w] on the pool, if it has one. *)
Definition pool_move (w : nat) (s : sys connection) : option (sys connection) :=
  let p := pool s in
  let go p st tk ex ty := MkSys p (<[w := (ty, st)]> (threads s)) (callers s) (enqueued s) tk ex in
  '(ty, st) ← threads s !! w;
  match st with
  | WWait =>
      if PoolYet p then
        match PoolTasks p with
        | t :: ts => Some (go (with_tasks ts p) (WGot t) (taken s ++ [t]) (executed s) ty)
        | [] =>
            if decide (ty = sPersistent) then None
            else Some (MkSys (with_workers (leave_entry NDEBUG w (PoolWorkers p)) p) (delete w (threads s))
                         (callers s) (enqueued s) (taken s) (executed s))
        end
      else Some (MkSys p (delete w (threads s)) (callers s) (enqueued s) (taken s) (executed s))
  | WGot t => Some (go (with_busy (PoolBusyWorkers p + 1)%Z p) (WRun t) (taken s) (executed s) ty)
  | WRun t => Some (go p WDone (taken s) (executed s ++ [t]) ty)
  | WDone => Some (go (with_busy (PoolBusyWorkers p - 1)%Z p) WWait (taken s) (executed s) ty)
  end.

(** A move is a step. *)
Lemma pool_move_step w s s' : pool_move w s = Some s' → worker_step NDEBUG s s'.
Proof.
  destruct s as [p m cs e tk ex]. unfold pool_move. cbn.
  destruct (m !! w) as [[ty [|t|t|]]|] eqn:Hw; cbn; [| | | |done].
  - destruct (PoolYet p) eqn:Hy.
    + destruct (PoolTasks p) as [|t ts] eqn:Ht.
      * case_decide as Hty; [done|]. intros [= <-]. by eapply w_leave.
      * intros [= <-]. by eapply w_take.
    + intros [= <-]. by eapply w_stop.
  - intros [= <-]. by eapply w_busy.
  - intros [= <-]. by eapply w_run.
  - intros [= <-]. by eapply w_idle.
Qed.

(** The next step of worker [w] with its task, if it has one. *)
Definition conc_move (w : nat) (x : tasks W * sys connection) : option (tasks W * sys connection) :=
  let '(d, s) := x in
  match running s w with
  | None => s' ← pool_move w s; Some (from_option (λ t, begin_task w t d) d (running s' w), s')
  | Some t =>
      i ← tk_of d !! w;
      match tc_threads (tk_conf d) !! i with
      | Some (t', PDone (Ret tt)) => if decide (t' = t) then s' ← pool_move w s; Some (end_task w i d, s') else None
      | Some (_, PAct _ _) => Some (act_task i d, s)
      | _ => None
      end
  end.

Definition conc_moves (ws : list nat) (x : tasks W * sys connection) : tasks W * sys connection :=
  foldl (λ x w, default x (conc_move w x)) x ws.

Lemma pool_move_running w (s s' : sys connection) :
  pool_move w s = Some s' →
  worker_step NDEBUG s s' ∧ (∀ v, v ≠ w → running s' v = running s v) ∧
  match running s w with
  | Some t => executed s' = executed s ++ [t] ∧ running s' w = None
  | None => executed s' = executed s
  end.
Proof.
  intros Hm. split; [by eapply pool_move_step|]. destruct s as [p m cs e tk ex]. unfold pool_move in Hm. cbn in Hm.
  unfold running at 3. cbn [threads]. destruct (m !! w) as [[ty [|t|t|]]|] eqn:Hw; cbn in Hm; [| | | |done].
  - assert (Hdel : ∀ p' tk' cs' e' ex', ∀ v, v ≠ w → running (MkSys p' (delete w m) cs' e' tk' ex') v = running (MkSys p m cs e tk ex) v).
    { intros. by eapply running_delete. }
    destruct (PoolYet p); [destruct (PoolTasks p); [case_decide; [done|]|]|]; injection Hm as <-; (split; [|done]); auto.
    apply running_update.
  - injection Hm as <-. split; [apply running_update|done].
  - injection Hm as <-. split; [apply running_update|]. split; [done|]. unfold running. cbn. by rewrite lookup_insert_eq.
  - injection Hm as <-. split; [apply running_update|done].
Qed.

Lemma conc_move_step w x x' : conc_move w x = Some x' → conc_step x x'.
Proof.
  destruct x as [d s]. unfold conc_move. cbn [snd].
  destruct (pool_move w s) as [s1|] eqn:Hm.
  - pose proof (pool_move_running w s s1 Hm) as (Hs & Hv & Hcase). destruct (running s w) as [t|] eqn:Hr.
    + destruct Hcase as [He Hn]. intros (i & Hi & Hx)%bind_Some.
      destruct (tc_threads (tk_conf d) !! i) as [[t' [[[]| | |]|X m f]]|] eqn:Ht; try done.
      * case_decide as Htt; [|done]. subst t'. cbn in Hx. injection Hx as <-. by eapply c_end.
      * injection Hx as <-. eapply c_act; [by rewrite Hr|done|done].
    + cbn. intros [= <-]. destruct (running s1 w) as [t|] eqn:Hr1; cbn; [by apply c_begin|].
      apply c_quiet; [done..|]. intros v. destruct (decide (v = w)) as [->|Hne]; [congruence|by apply Hv].
  - cbn. destruct (running s w) as [t|] eqn:Hr; [|done]. intros (i & Hi & Hx)%bind_Some.
    destruct (tc_threads (tk_conf d) !! i) as [[t' [[[]| | |]|X m f]]|] eqn:Ht; try done; [by case_decide|].
    injection Hx as <-. eapply c_act; [by rewrite Hr|done|done].
Qed.

Lemma conc_moves_steps ws x : star conc_step x (conc_moves ws x).
Proof.
  revert x. induction ws as [|w ws IH]; intros x; [apply star_refl|]. cbn [conc_moves foldl].
  destruct (conc_move w x) as [x1|] eqn:Hm; cbn [default]; [|apply IH].
  eapply star_step; [by eapply conc_move_step|apply IH].
Qed.

(** Whatever the workers can do, one of them has a move. *)
Lemma pool_move_exists (s s' : sys connection) :
  worker_step NDEBUG s s' → ∃ w, w ∈ dom (threads s) ∧ pool_move w s = Some s'.
Proof.
  destruct 1 as [p m cs e tk ex w ty t ts Hw Hy Hts|p m cs e tk ex w ty t Hw|p m cs e tk ex w ty t Hw
                |p m cs e tk ex w ty Hw|p m cs e tk ex w ty Hw Hy Hts Hty|p m cs e tk ex w ty Hw Hy];
    exists w; (split; [cbn; by apply elem_of_dom_2 in Hw|]); unfold pool_move; cbn; rewrite Hw; cbn; try done.
  - by rewrite Hy, Hts.
  - by rewrite Hy, Hts, decide_False.
  - by rewrite Hy.
Qed.

Lemma conc_move_exists (d : tasks W) (s : sys connection) x' :
  conc_step (d, s) x' → ∃ w, w ∈ dom (threads s) ∧ is_Some (conc_move w (d, s)).
Proof.
  assert (Hidle : ∀ s1, worker_step NDEBUG s s1 → executed s1 = executed s →
    ∃ w, w ∈ dom (threads s) ∧ is_Some (conc_move w (d, s))).
  { intros s1 Hs He. destruct (pool_move_exists s s1 Hs) as (w & Hw & Hm). exists w. split; [done|].
    pose proof (pool_move_running w s s1 Hm) as (_ & _ & Hcase). unfold conc_move. rewrite Hm.
    destruct (running s w) as [t|] eqn:Hr; [|by eexists].
    destruct Hcase as [He' _]. rewrite He in He'. apply (f_equal length) in He'. rewrite length_app in He'. cbn in He'. lia. }
  assert (Hin : ∀ w t, running s w = Some t → ∃ ty, threads s !! w = Some (ty, WRun t)).
  { intros w t Hr. unfold running in Hr. destruct (threads s !! w) as [[ty []]|]; simplify_eq. by exists ty. }
  inversion 1 as [? ? s' Hs He _|? ? s' w t Hs He _|? ? w i c X m f [t Hr] Hi Ht|? ? s' w t i _ _ (Hr & _) Hi Ht]; subst.
  - by eapply Hidle.
  - by eapply Hidle.
  - destruct (Hin w t Hr) as [ty Hw]. exists w. split; [by apply elem_of_dom_2 in Hw|].
    unfold conc_move. rewrite Hr, Hi. cbn. rewrite Ht. by eexists.
  - destruct (Hin w t Hr) as [ty Hw]. exists w. split; [by apply elem_of_dom_2 in Hw|].
    unfold conc_move. rewrite Hr, Hi. cbn. rewrite Ht, decide_True by done. unfold pool_move. rewrite Hw. cbn. by eexists.
Qed.

Lemma conc_moves_one ws w x :
  w ∈ ws → is_Some (conc_move w x) → ∃ x1, conc_step x x1 ∧ star conc_step x1 (conc_moves ws x).
Proof.
  revert x. induction ws as [|v ws IH]; intros x Hin Hw; [by apply not_elem_of_nil in Hin|]. cbn [conc_moves foldl].
  destruct (conc_move v x) as [x1|] eqn:Hv; cbn [default].
  - exists x1. split; [by eapply conc_move_step|apply conc_moves_steps].
  - apply elem_of_cons in Hin as [->|Hin]; [rewrite Hv in Hw; by destruct Hw|]. by apply IH.
Qed.

(** ** The tasks and the pool agree *)

(** The program of index [i]. *)
Definition task_at (d : tasks W) (i : nat) : option (connection * prog W unit) := tc_threads (tk_conf d) !! i.

Definition coupled (x : tasks W * sys connection) : Prop :=
  let '(d, s) := x in
  (∀ w, running s w = fst <$> (tk_of d !! w ≫= task_at d)) ∧
  Forall2 (λ i t, task_at d i = Some (t, PDone (Ret tt))) (tk_done d) (executed s) ∧
  tk_done d ++ (map_to_list (tk_of d)).*2 ≡ₚ seq 0 (length (tc_threads (tk_conf d))).

Lemma coupled_bound d s w i : coupled (d, s) → tk_of d !! w = Some i → is_Some (task_at d i) ∧ i ∉ tk_done d.
Proof.
  intros (_ & _ & Hp) Hi. assert (Hin : i ∈ (map_to_list (tk_of d)).*2).
  { apply list_elem_of_fmap. exists (w, i). split; [done|]. by apply elem_of_map_to_list. }
  split.
  - apply lookup_lt_is_Some_2. assert (Hs : i ∈ seq 0 (length (tc_threads (tk_conf d)))) by (rewrite <- Hp; apply elem_of_app; by right).
    apply elem_of_seq in Hs. lia.
  - pose proof (NoDup_seq 0 (length (tc_threads (tk_conf d)))) as Hnd. rewrite <- Hp in Hnd. apply NoDup_app in Hnd as (_ & Hd & _).
    intros Hi'. by apply (Hd i).
Qed.

Lemma coupled_running d s w i : coupled (d, s) → tk_of d !! w = Some i → ∃ t p, running s w = Some t ∧ task_at d i = Some (t, p).
Proof.
  intros Hc Hi. destruct (coupled_bound d s w i Hc Hi) as [[[t p] Ht] _]. exists t, p. split; [|done].
  destruct Hc as (Hr & _). rewrite Hr, Hi. cbn. by rewrite Ht.
Qed.

Lemma coupled_injective d s v w i : coupled (d, s) → tk_of d !! v = Some i → tk_of d !! w = Some i → v = w.
Proof.
  intros (_ & _ & Hp) Hv Hw. pose proof (NoDup_seq 0 (length (tc_threads (tk_conf d)))) as Hnd. rewrite <- Hp in Hnd.
  apply NoDup_app in Hnd as (_ & _ & Hnd). destruct (decide (v = w)) as [|Hne]; [done|]. exfalso.
  rewrite <- (map_to_list_delete (tk_of d) v i Hv) in Hnd. cbn in Hnd. apply NoDup_cons in Hnd as [Hnot _]. apply Hnot.
  apply list_elem_of_fmap. exists (w, i). split; [done|]. apply elem_of_map_to_list. by rewrite lookup_delete_ne.
Qed.

Lemma coupled_idle d s w : coupled (d, s) → running s w = None → tk_of d !! w = None.
Proof.
  intros Hc Hn. destruct (tk_of d !! w) as [i|] eqn:Hi; [|done].
  destruct (coupled_running d s w i Hc Hi) as (t & p & Ht & _). congruence.
Qed.

Lemma coupled_sys d s s' :
  executed s' = executed s → (∀ w, running s' w = running s w) → coupled (d, s) → coupled (d, s').
Proof. intros He Hr (H1 & H2 & H3). split_and!; [intros w; by rewrite Hr|by rewrite He|done]. Qed.

Lemma coupled_begin d s s' w t :
  coupled (d, s) → executed s' = executed s → changes w None (Some t) s s' → coupled (begin_task w t d, s').
Proof.
  intros Hc He (Hn & Ht & Ho). pose proof (coupled_idle d s w Hc Hn) as Hw. destruct Hc as (H1 & H2 & H3).
  set (n := length (tc_threads (tk_conf d))) in *.
  assert (Hold : ∀ i x, task_at d i = Some x → task_at (begin_task w t d) i = Some x).
  { intros i x Hi. unfold task_at, begin_task. cbn. by apply lookup_app_l_Some. }
  split_and!.
  - intros v. change (tk_of (begin_task w t d)) with (<[w := n]> (tk_of d)). destruct (decide (v = w)) as [->|Hv].
    + rewrite lookup_insert_eq, Ht. cbn. unfold task_at, begin_task. cbn. fold n.
      by rewrite (list_lookup_middle _ [] _ n).
    + rewrite lookup_insert_ne, Ho, H1 by done. destruct (tk_of d !! v) as [i|] eqn:Hi; [|done]. cbn.
      destruct (coupled_bound d s v i ltac:(by split_and!) Hi) as [[x Hx] _]. by rewrite Hx, (Hold i x Hx).
  - rewrite He. eapply Forall2_impl; [exact H2|]. intros i c. apply Hold.
  - cbn [begin_task tk_done tk_of tk_conf tc_threads]. rewrite length_app. cbn [length]. rewrite seq_app. cbn [seq].
    fold n. rewrite map_to_list_insert by done. cbn [fmap list_fmap]. rewrite <- H3. cbn. solve_Permutation.
Qed.

Lemma coupled_act d s w i :
  coupled (d, s) → tk_of d !! w = Some i → coupled (act_task i d, s).
Proof.
  intros Hc Hi. destruct (coupled_bound d s w i Hc Hi) as [[[t p] Ht] Hnd]. destruct Hc as (H1 & H2 & H3).
  assert (Hmove : ∃ q, (∀ j, task_at (act_task i d) j = if decide (j = i) then Some (t, q) else task_at d j) ∧
    length (tc_threads (tk_conf (act_task i d))) = length (tc_threads (tk_conf d))).
  { unfold act_task, task_at, thread_move in *. cbn. rewrite Ht. destruct p as [o|X m f].
    - exists (PDone o). split; [|done]. intros j. by case_decide; subst.
    - destruct (m _) as [o σ']. cbn. exists (f o). rewrite length_insert. split; [|done]. intros j. case_decide; subst.
      + rewrite list_lookup_insert_eq; [done|]. by apply lookup_lt_Some in Ht.
      + by rewrite list_lookup_insert_ne. }
  destruct Hmove as (q & Hat & Hlen). split_and!.
  - intros v. rewrite H1. cbn [act_task tk_of]. destruct (tk_of d !! v) as [j|]; [|done]. cbn. rewrite Hat.
    case_decide; [|done]. subst. by rewrite Ht.
  - change (tk_done (act_task i d)) with (tk_done d). apply Forall2_same_length_lookup. split; [by eapply Forall2_length|].
    intros k j c Hk Hc. rewrite Hat, decide_False; [exact (Forall2_lookup_lr _ _ _ _ _ _ H2 Hk Hc)|]. intros ->. by apply Hnd, list_elem_of_lookup_2 with k.
  - rewrite Hlen. exact H3.
Qed.

Lemma coupled_end d s s' w t i :
  coupled (d, s) → executed s' = executed s ++ [t] → changes w (Some t) None s s' →
  tk_of d !! w = Some i → task_at d i = Some (t, PDone (Ret tt)) → coupled (end_task w i d, s').
Proof.
  intros (H1 & H2 & H3) He (Hr & Hn & Ho) Hi Ht. split_and!.
  - intros v. cbn [end_task tk_of]. destruct (decide (v = w)) as [->|Hv].
    + by rewrite lookup_delete_eq, Hn.
    + rewrite lookup_delete_ne, Ho, H1 by done. done.
  - rewrite He. cbn [end_task tk_done]. apply Forall2_app; [exact H2|]. by constructor.
  - cbn [end_task tk_done tk_of tk_conf]. rewrite <- H3. rewrite <- (map_to_list_delete (tk_of d) w i Hi) at 1. cbn. solve_Permutation.
Qed.

Lemma kstep_coupled x x' : coupled x → kstep x x' → coupled x'.
Proof.
  intros Hc Hs. destruct Hs as [x x' [d s s' _ He Hr|d s s' w t _ He Hch|d s w i c X m f _ Hi _|d s s' w t i _ He Hch Hi Ht]|d s s' _ He Hr].
  - by eapply coupled_sys.
  - by eapply coupled_begin.
  - by eapply coupled_act.
  - by eapply coupled_end.
  - by eapply coupled_sys.
Qed.
(** ** What the tasks do is an interleaving *)

(** A program starts for a connection that was entered into the pool. *)
Definition starts_as_is (P : connection → Prop) (k : tconf W connection) (c : connection) (σ : W) : Prop :=
  σ = tc_shared k ∧ P c.

Lemma running_enqueued (s : sys connection) w t : tasks_conserved s → running s w = Some t → t ∈ enqueued s.
Proof.
  intros [He Ht] Hr. rewrite He. apply elem_of_app. left. rewrite Ht. apply elem_of_app. right.
  unfold running in Hr. destruct (threads s !! w) as [[ty st]|] eqn:Hw; [|done]. destruct st; simplify_eq.
  apply list_elem_of_omap. exists (w, (ty, WRun t)). split; [by apply elem_of_map_to_list|done].
Qed.

Lemma sys_step_enqueued (s s' : sys connection) : sys_step NDEBUG s s' → enqueued s `prefix_of` enqueued s'.
Proof. intros []; cbn; try done; [by destruct H|by apply prefix_app_r]. Qed.

Lemma kstep_star_sys x x' : kstep x x' → star (sys_step NDEBUG) x.2 x'.2.
Proof. intros Hs. apply (kernel_sys NDEBUG conc_step x x'). by apply star_one. Qed.

Lemma kstep_pstep P x x' :
  tasks_conserved x'.2 → kstep x x' → Forall P (enqueued x'.2) →
  star (pstep code (starts_as_is P)) (tk_conf x.1) (tk_conf x'.1).
Proof.
  intros Hc Hs HP.
  destruct Hs as [x x' [d s s' _ He Hr|d s s' w t _ He Hch|d s w i c X m f _ Hi _|d s s' w t i _ He Hch Hi Ht]|d s s' _ He Hr]; cbn in *.
  - apply star_refl.
  - destruct Hch as (_ & Ht & _). apply star_one. constructor. split; [done|].
    rewrite Forall_forall in HP. by eapply HP, running_enqueued.
  - apply thread_move_star.
  - apply star_refl.
  - apply star_refl.
Qed.

Lemma kernel_interleaves P x x' :
  star kstep x x' → tasks_conserved x.2 → coupled x → Forall P (enqueued x'.2) →
  star (pstep code (starts_as_is P)) (tk_conf x.1) (tk_conf x'.1) ∧ coupled x'.
Proof.
  intros Hs Hc Hcpl HP.
  assert (Hinv : tasks_conserved x'.2 ∧ coupled x' ∧
    (Forall P (enqueued x'.2) → star (pstep code (starts_as_is P)) (tk_conf x.1) (tk_conf x'.1))).
  { eapply (star_invariant kstep (λ y, tasks_conserved y.2 ∧ coupled y ∧
      (Forall P (enqueued y.2) → star (pstep code (starts_as_is P)) (tk_conf x.1) (tk_conf y.1)))); [|exact Hs|].
    - intros a b (Ha & Hca & Hpa) Hab. pose proof (kstep_star_sys _ _ Hab) as Hsys.
      assert (Hb : tasks_conserved b.2).
      { eapply (star_invariant _ tasks_conserved); [|exact Hsys|exact Ha]. intros. by eapply sys_step_conserves. }
      split_and!; [done|by eapply kstep_coupled|]. intros HPb. eapply star_trans; [|by apply kstep_pstep].
      apply Hpa. assert (Hpre : enqueued a.2 `prefix_of` enqueued b.2).
      { clear -Hsys. induction Hsys; [done|]. etrans; [by eapply sys_step_enqueued|done]. }
      destruct Hpre as [l Hl]. rewrite Hl in HPb. by apply Forall_app in HPb as [? _].
    - split_and!; [done..|]. intros _. apply star_refl. }
  destruct Hinv as (_ & H1 & H2). split; [by apply H2|done].
Qed.

Lemma omap_lookup_seq {A} (l : list A) : omap (l !!.) (seq 0 (length l)) = l.
Proof.
  induction l as [|x l IH] using rev_ind; [done|].
  rewrite length_app, seq_app, omap_app. cbn [length seq omap list_omap Nat.add].
  rewrite (list_lookup_middle l [] x (length l)) by done. f_equal. etrans; [|exact IH].
  apply list_omap_ext, Forall_Forall2_diag, Forall_seq. intros i Hi. apply lookup_app_l. lia.
Qed.

(** When no thread is left, every program has returned. *)
Lemma coupled_all_done d s :
  coupled (d, s) → threads s = ∅ → tc_threads (tk_conf d) ≡ₚ (λ t, (t, PDone (Ret tt))) <$> executed s.
Proof.
  intros Hc Hnone. assert (Hof : tk_of d = ∅).
  { apply map_eq. intros w. rewrite lookup_empty. apply coupled_idle with s; [done|]. unfold running. by rewrite Hnone. }
  destruct Hc as (_ & H2 & H3). rewrite Hof, map_to_list_empty, app_nil_r in H3.
  replace ((λ t, (t, PDone (Ret tt))) <$> executed s) with (omap (task_at d) (tk_done d)).
  - rewrite (omap_permutation _ _ _ H3). unfold task_at. by rewrite omap_lookup_seq.
  - clear -H2. induction H2 as [|i t js ts Hi _ IH]; [done|]. cbn. by rewrite Hi, IH.
Qed.

Lemma coupled_start σ (s : sys connection) :
  (∀ w, running s w = None) → executed s = [] → coupled (no_tasks σ, s).
Proof.
  intros Hr He. split_and!; cbn; [|by rewrite He|done]. intros w. by rewrite Hr, lookup_empty.
Qed.
End tasks.
