(* ===== verification/KernelConc.v ===== *)
(** * KernelConc: connections that workers process at the same time

    The task that [Kernel::Run] enters into the pool for a connection
    ([kernel/main/run.cpp], [fiberRouter->Process(request)]), as a program whose
    actions interleave with those of the other workers, for a kernel whose routes
    lead to the queue objects that the start-up made. *)
From Stdlib Require Import Ascii String.
From stdpp Require Import options relations gmap vector.
From S2P Require Import Prelude Findmatch Interleave Buffer HttpParse Numerals HttpReply Interfaces RequestImpl SyncQueue SyncQueueSpec.
From S2P Require Import QueueProg Server Router RouterProg EndToEnd ThreadPool ThreadPoolConc Kernel PoolProg.

#[local] Open Scope nat_scope.

(** ** Several queue objects *)
Section queues.
Context {Q W : Type} {n : nat}.

(** What is done with object [i]. *)
Definition on_queue {A} (i : fin n) (m : M (Q * W) A) : M (vec Q n * W) A := λ qw,
  let '(o, (q, w)) := m (qw.1 !!! i, qw.2) in (o, (vinsert i q qw.1, w)).

Fixpoint at_queue {A} (i : fin n) (p : prog (Q * W) A) : prog (vec Q n * W) A :=
  match p with
  | PDone o => PDone o
  | PAct m k => PAct (on_queue i m) (λ o, at_queue i (k o))
  end.

Lemma at_queue_within {A} k (i : fin n) (p : prog (Q * W) A) : within k p → within k (at_queue i p).
Proof.
  revert k. induction p as [o|X m f IH]; intros [|k] Hp; cbn in *; try done. intros o. by apply IH.
Qed.

(** What a handler keeps of its object and of the requests, it keeps of all
    objects. *)
Lemma at_queue_keeps {A} (leW : W → W → Prop) (I : fin n → Q * W → Prop) (J : W → Prop) qs q w (i : fin n) (p : prog (Q * W) A) :
  (∀ j q w w', leW w w' → I j (q, w) → I j (q, w')) →
  keeps_inv (λ a b, leW a.2 b.2) (λ a, I i a ∧ J a.2) (q, w) p →
  keeps_inv (λ a b, leW a.2 b.2) (λ a, (∀ j, I j (a.1 !!! j, a.2)) ∧ J a.2) (qs, w) (at_queue i p).
Proof.
  intros Hext. revert qs q w. induction p as [o|X m k IH]; intros qs q w Hp; [done|].
  intros [qs1 w1] Hle [HI HJ]. cbn in Hle, HI, HJ. unfold on_queue. cbn [fst snd].
  destruct (Hp (qs1 !!! i, w1) Hle (conj (HI i) HJ)) as (H1 & [H2 H3] & H4).
  destruct (m (qs1 !!! i, w1)) as [o [q2 w2]]. cbn in *. split_and!; [done| |done|by eapply IH].
  intros j. destruct (decide (j = i)) as [->|Hne]; [by rewrite vlookup_insert|].
  rewrite vlookup_insert_ne by done. by eapply Hext.
Qed.
End queues.

(** The module that leads to object [i] of [n]. *)
Definition module_at {Q : Type} {n : nat} (i : fin n) (m : queue_module Q) : queue_module (vec Q n) :=
  QueueModule (λ c, at_queue i (qm_code m c)).

(** ** A connection *)
Section connection.
Context {Q : Type} `{PAST : !PastEnd} (send_res : nat → nat → Z → bytes → Z) (now : nat → Z) (strerror : Z → bytes).
Context (recv : connection → nat → nat → recv_result) (ioctl : connection → nat → option nat) (block : connection → bytes).
Context (Routes : list (bytes * queue_module Q)).

(** The request object is made; it is known to this thread only. *)
Definition new_request (h : Conn) : M (Q * store) nat := λ σ,
  let this := fresh (dom σ.2) in (Ret this, (σ.1, RequestImpl_new this h σ.2)).

(** [fiberRouter->Process(request)] in a [packaged_task]. *)
Definition pprocess_connection (c : connection) : prog (Q * store) unit :=
  h ← PDone (handler_of now c);
  this ← act (new_request h);
  packaged (pRouter_Process send_res now strerror (recv c) (ioctl c) (block c) Routes this).

(** A route is found, or none is: the request costs a few actions more than the
    handler of the module. *)
Lemma pprocess_connection_within n c :
  Forall (λ r, ∀ call, within n (qm_code r.2 call)) Routes → within (n + 6) (pprocess_connection c).
Proof.
  intros Hn. unfold pprocess_connection. apply within_pure. intros h. replace (n + 6) with (S (n + 4 + 1)) by lia.
  apply within_step. intros this. apply within_packaged.
  assert (Hexn : ∀ msg what, within 1 (preply_exception (Q := Q) send_res now this msg what)).
  { intros. apply within_pure. intros. apply within_act. }
  apply within_catch_both; [|by intros..]. replace (n + 4) with (S (S (S (S n)))) by lia.
  apply within_step. intros _. apply within_step. intros uri.
  destruct (Routes_find uri Routes) as [route|e| |] eqn:Hr; [|done..]. cbn. destruct route as [m|].
  - apply Routes_find_In in Hr as (path & Hin & _). rewrite Forall_forall in Hn. specialize (Hn _ Hin). cbn in Hn.
    apply within_step. intros []; try (apply within_le with n; [lia|apply Hn]). apply within_le with 1; [lia|apply within_act].
  - apply within_pure. intros _. apply within_le with 1; [lia|apply within_act].
Qed.
End connection.

(** ** What the requests keep *)

(** Requests that exist keep their identifier and their descriptor. *)
Definition store_grows (w w' : store) : Prop :=
  (∀ r i, store_rid r w = Some i → store_rid r w' = Some i) ∧ holds_kept w w'.

#[export] Instance store_grows_preorder : PreOrder store_grows.
Proof.
  split; [by intros w|]. intros a b c [H1 H2] [H3 H4]. split; [intros r i Hr; by apply H3, H1|by transitivity b].
Qed.

(** A new request is nobody else's, and holds the descriptor of its connection. *)
Lemma new_request_grows (c : connection) (h : Conn) now (w : store) :
  (0 < cn_socket c)%Z → handler_of now c = Ret h →
  let this := fresh (dom w) in let w' := RequestImpl_new this h w in
  all_hold w → store_grows w w' ∧ all_hold w' ∧ holds_descriptor w' this (cn_socket c).
Proof.
  intros Hso Hh this w' Hw. assert (Hnew : w !! this = None) by apply not_elem_of_dom, is_fresh.
  assert (Hown : owns_once (cn_socket c) h).
  { unfold handler_of in Hh. destruct (CAddress_toString _); outcome_simpl; try done.
    destruct (or_undef _); outcome_simpl; try done. injection Hh as <-. left. by split. }
  unfold w', RequestImpl_new. split_and!.
  - split.
    + intros r i. unfold store_rid. destruct (decide (r = this)) as [->|Hne]; [by rewrite Hnew|by rewrite lookup_insert_ne].
    + intros r d (Hd & o & Ho & Hown'). split; [done|]. exists o. rewrite lookup_insert_ne; [done|]. congruence.
  - intros r o [[<- <-]|[_ Hr]]%lookup_insert_Some; [|by apply (Hw r)]. exists (cn_socket c). split; [lia|exact Hown].
  - split; [lia|]. exists (MkReq h []). by rewrite lookup_insert_eq.
Qed.

(** ** The service: the queue objects and the requests *)
Section service.
Context {n : nat} `{!StaleText, PAST : !PastEnd} (send_res : nat → nat → Z → bytes → Z) (now : nat → Z) (strerror : Z → bytes).
Context (recv : connection → nat → nat → recv_result) (ioctl : connection → nat → option nat) (block : connection → bytes).
Context (limits : fin n → mq_limits).

#[local] Instance requests : IRequest store nat := RequestImpl_IRequest send_res now.

(** The module that leads to queue object [i]. *)
Definition queue_object (i : fin n) : queue_module (vec (SyncQueue nat) n) := module_at i (sync_queue_module send_res now).

Definition lead_to_queues (Routes : list (bytes * queue_module (vec (SyncQueue nat) n))) : Prop :=
  Forall (λ r, ∃ i, r.2 = queue_object i) Routes.

(** Each object stores requests under their own identifiers, which are queued
    or locked, and is within its limit; each request has its descriptor or has
    closed it once. *)
Definition queue_ok (j : fin n) (sw : SyncQueue nat * store) : Prop :=
  stored_ok sw.1 (λ r, store_rid r sw.2) ∧ within_limit (limits j) sw.1.
Definition service_ok (σ : vec (SyncQueue nat) n * store) : Prop :=
  (∀ j, queue_ok j (σ.1 !!! j, σ.2)) ∧ all_hold σ.2.

Abbreviation grows := (λ a b : vec (SyncQueue nat) n * store, store_grows a.2 b.2).

Lemma stored_ok_ext (s : SyncQueue nat) f g : (∀ r i, f r = Some i → g r = Some i) → stored_ok s f → stored_ok s g.
Proof. intros Hfg [H1 H2]. split; [|done]. intros i r Hi. by apply Hfg, H1. Qed.

Lemma queue_ok_grows j q (w w' : store) : store_grows w w' → queue_ok j (q, w) → queue_ok j (q, w').
Proof. intros [Hr _] [H1 H2]. split; [|done]. eapply stored_ok_ext; [|exact H1]. exact Hr. Qed.

(** The handlers of a queue object. *)
Lemma queue_object_keeps σ i c : keeps_inv grows service_ok σ (qm_code (queue_object i) c).
Proof.
  destruct σ as [qs w]. apply (at_queue_keeps store_grows queue_ok all_hold qs (qs !!! i) w i); [exact queue_ok_grows|].
  change (keeps_inv (λ a b, rids_kept a b ∧ holds_kept a.2 b.2) (λ a, queue_ok i a ∧ all_hold a.2) (qs !!! i, w) (call_prog c)).
  apply keeps_inv_and.
  - set (P := λ (s : SyncQueue nat) (f : nat → option Z), stored_ok s f ∧ within_limit (limits i) s).
    change (keeps_inv rids_kept (state_ok P) (qs !!! i, w) (call_prog c)). apply (call_prog_safe P).
    + intros s f g Hfg [H1 H2]. split; [by eapply stored_ok_ext|done].
    + intros s f [H1 H2]. split; [by apply stored_ok_get|by apply within_limit_get].
    + intros xid s f [H1 H2]. split; [by apply stored_ok_erase|done].
    + intros mid r s f Hf [H1 H2]. split; [by apply stored_ok_put|by apply within_limit_put].
    + by intros g s f [].
  - apply (call_prog_guarded (IRequest0 := RequestImpl_IRequest send_res now) holds_kept all_hold).
Qed.

(** What only works on the requests. *)
Lemma on_requests_guards {A} (m : M store A) :
  (∀ w r', store_rid r' (m w).2 = store_rid r' w) → guards holds_kept all_hold m → guards grows service_ok (on_snd m).
Proof.
  intros Hrid Hm [qs w] [HI HJ]. cbn in HI, HJ. destruct (Hm w HJ) as [H1 H2]. specialize (Hrid w). unfold on_snd. cbn.
  destruct (m w) as [o w']. cbn in *. assert (Hg : store_grows w w') by (split; [intros r i; by rewrite Hrid|done]).
  split; [exact Hg|]. split; [|exact H2]. intros j. by eapply queue_ok_grows.
Qed.

(** The program of a connection keeps the service as it should be, and when it
    returns, the request that it made has the descriptor of the connection or
    has closed it once. *)
Definition descriptor_held (c : connection) (o : outcome unit) (σ : vec (SyncQueue nat) n * store) : Prop :=
  o = Ret tt → ∃ r, holds_descriptor σ.2 r (cn_socket c).

Lemma descriptor_held_stable c : stable grows (descriptor_held c).
Proof. intros o σ σ' [_ Hle] Hheld Ho. destruct (Hheld Ho) as [r Hr]. exists r. by apply Hle. Qed.

Lemma pprocess_connection_ends Routes σ c :
  lead_to_queues Routes → (0 < cn_socket c)%Z →
  ends_in grows service_ok (descriptor_held c) σ (pprocess_connection send_res now strerror recv ioctl block Routes c).
Proof.
  intros HR Hso. unfold pprocess_connection. destruct (handler_of now c) as [h|e| |] eqn:Hh; [|by intros ?..].
  intros [qs w] _ [HI HJ]. cbn [fst snd] in HI, HJ. set (this := fresh (dom w)). set (w' := RequestImpl_new this h w).
  change (store_grows w w' ∧ service_ok (qs, w') ∧ ends_in grows service_ok (descriptor_held c) (qs, w')
    (packaged (pRouter_Process send_res now strerror (recv c) (ioctl c) (block c) Routes this))).
  destruct (new_request_grows c h now w Hso Hh HJ) as (H1 & H2 & H3).
  split; [exact H1|]. split; [split; [|exact H2]; intros j; by eapply queue_ok_grows|].
  apply (keeps_inv_ends grows service_ok); [apply descriptor_held_stable|by intros o _; exists this|].
  apply keeps_inv_packaged, pRouter_Process_keeps; [typeclasses eauto|..].
  - intros. apply on_requests_guards; [intros; apply handler_Reply_rid|apply handler_Reply_holds].
  - intros. apply on_requests_guards; [intros; apply handler_Process_rid|apply handler_Process_holds].
  - intros. apply on_requests_guards; [intros; apply read_rid|apply read_holds].
  - eapply Forall_impl; [exact HR|]. intros r [i ->] σ' call. apply queue_object_keeps.
Qed.
(** *** The service in the kernel *)

Lemma connections_interleaved Routes (σ : vec (SyncQueue nat) n * store) k :
  lead_to_queues Routes → service_ok σ →
  star (pstep (pprocess_connection send_res now strerror recv ioctl block Routes) (starts_as_is (λ c, (0 < cn_socket c)%Z)))
    (MkThreads [] σ) k →
  service_ok (tc_shared k) ∧
  ∀ c, (c, PDone (Ret tt)) ∈ tc_threads k → ∃ r, holds_descriptor (tc_shared k).2 r (cn_socket c).
Proof.
  intros HR Hok Hs.
  apply (interleaving_ends _ _ grows service_ok descriptor_held) in Hs as (_ & H1 & H2);
    [|exact descriptor_held_stable| |exact Hok|by apply Forall_nil_2].
  - split; [done|]. intros c Hin. rewrite Forall_forall in H2. by apply (H2 _ Hin).
  - intros k1 c σ1 [-> Hso] HI. split; [done|]. split; [done|]. by apply pprocess_connection_ends.
Qed.

Lemma service_served (NDEBUG : bool) Routes (σ : vec (SyncQueue nat) n * store) (s0 s : sys connection) d :
  lead_to_queues Routes → service_ok σ → tasks_conserved s0 → (∀ w, running s0 w = None) → executed s0 = [] →
  star (kernel_step NDEBUG (conc_step NDEBUG (pprocess_connection send_res now strerror recv ioctl block Routes)))
    (no_tasks σ, s0) (d, s) →
  Forall (λ c, (0 < cn_socket c)%Z) (enqueued s) → threads s = ∅ →
  tc_threads (tk_conf d) ≡ₚ (λ c, (c, PDone (Ret tt))) <$> executed s ∧
  service_ok (tc_shared (tk_conf d)) ∧
  ∀ c, c ∈ executed s → ∃ r, holds_descriptor (tc_shared (tk_conf d)).2 r (cn_socket c).
Proof.
  intros HR Hok Hcons Hr He Hs Hso Hnone.
  apply (kernel_interleaves _ _ (λ c, (0 < cn_socket c)%Z)) in Hs as [Hp Hc]; [|done|by apply coupled_start|done].
  pose proof (coupled_all_done d s Hc Hnone) as Hdone. destruct (connections_interleaved _ _ _ HR Hok Hp) as [H1 H2].
  split_and!; [done..|]. intros c Hin. apply H2. rewrite Hdone. by apply (list_elem_of_fmap_2 (λ c, (c, PDone (Ret tt)))).
Qed.

(** Handlers of queue objects end, and so do the programs of connections. *)
Lemma connection_within Routes c :
  lead_to_queues Routes → within 21 (pprocess_connection send_res now strerror recv ioctl block Routes c).
Proof.
  intros HR. apply (pprocess_connection_within _ _ _ _ _ _ _ 15). eapply Forall_impl; [exact HR|].
  intros r [i ->] call. apply at_queue_within, call_prog_within.
Qed.

End service.

(** ** Two connections *)
Module Two.
#[local] Instance stale_live : StaleText := Live.
#[local] Existing Instance readable_past_end.
Definition service : Type := vec Relay.state 1 * store.
Definition Routes : list (bytes * queue_module (vec Relay.state 1)) := [(str "/sms/", queue_object Relay.send_res Relay.now 0%fin)].
Definition client (fd : Z) : connection := Connection (70 + fd) fd (sockaddr_in (127, 0, 0, 1)%Z (18, 103)%Z) (Listener 256 256).
Definition recv (c : connection) : nat → nat → recv_result := segment_recv [if decide (cn_socket c = 8%Z) then Relay.put_text else Relay.get_text].
Definition code : connection → prog service unit :=
  pprocess_connection Relay.send_res Relay.now Relay.strerror recv (λ _ _, Some 0) (λ _, replicate 256 NUL) Routes.
Definition begun : tconf service connection := MkThreads [(client 8, code (client 8)); (client 9, code (client 9))] ([# Relay.empty_queue], ∅).
End Two.
#[local] Existing Instance Two.stale_live.
