(* ===== verification/Delivery.v ===== *)
(** * Delivery: every connection is answered or waits in a queue

    What [NoLoss] shows of the handlers, for the request objects of
    [kernel/main/impl/requestimpl.cpp], any number of queue objects and the whole
    task of a connection ([RouterImpl::Process] in [kernel/main/run.cpp]): however
    the workers interleave, the request of a connection whose task has returned
    has closed its descriptor, or it is stored in a queue under the identifier of
    the connection. *)
From Stdlib Require Import Ascii String.
From stdpp Require Import options relations gmap vector.
From S2P Require Import Prelude Findmatch Interleave RelyGuarantee ZcString Buffer HttpParse Numerals HttpReply Interfaces RequestImpl.
From S2P Require Import SyncQueue SyncQueueSpec QueueProg Server Router RouterProg NoLoss ThreadPool ThreadPoolConc.
From S2P Require Import Kernel PoolProg KernelConc.

#[local] Open Scope nat_scope.

(** ** The request objects *)

(** Object [r] has closed its connection. *)
Definition closed (r : nat) (w : store) : Prop := ∃ o, w !! r = Some o ∧ is_closed (handler o).
Definition closed_kept (w w' : store) : Prop := ∀ r, closed r w → closed r w'.
Definition owned_kept (w w' : store) : Prop := holds_kept w w' ∧ closed_kept w w'.

#[export] Instance owned_kept_preorder : PreOrder owned_kept.
Proof.
  split; [intros w; split; [done|by intros r]|]. intros a b c [H1 H2] [H3 H4].
  split; [by transitivity b|]. intros r Hr. by apply H4, H2.
Qed.

Lemma with_obj_closed {A} r (m : M RequestObj A) w :
  preserves (λ o, is_closed (handler o)) m → closed_kept w (with_obj r m w).2.
Proof.
  intros Hm r' (o' & Ho' & Hc). unfold with_obj. destruct (w !! r) as [o|] eqn:Ho; [|by exists o'].
  destruct (m o) as [res o1] eqn:Hmo. cbn. destruct (decide (r = r')) as [->|Hne].
  - rewrite Ho in Ho'. injection Ho' as <-. exists o1. rewrite lookup_insert_eq. split; [done|]. specialize (Hm o Hc). by rewrite Hmo in Hm.
  - exists o'. by rewrite lookup_insert_ne.
Qed.

Lemma guards_owned {A} (m : M store A) :
  guards holds_kept all_hold m → (∀ w, closed_kept w (m w).2) → guards owned_kept all_hold m.
Proof. intros Hm Hc w Hw. destruct (Hm w Hw) as [H1 H2]. split; [split; [done|apply Hc]|done]. Qed.

Lemma Process_keeps_closed `{PAST : !PastEnd} send now recv ioctl block strerror : preserves is_closed (Process send now recv ioctl block strerror).
Proof.
  apply Process_keeps_invariant; [intros c Hc; exact Hc|intros t c Hc; exact Hc|intros q c Hc; exact Hc|].
  intros code. exact (Reply_keeps_closed send now code None None 0 [] true).
Qed.

Section objects.
Context `{PAST : !PastEnd} (send_res : nat → nat → Z → bytes → Z) (now : nat → Z) (strerror : Z → bytes).
Context (recv : nat → nat → recv_result) (ioctl : nat → option nat) (block : bytes).

Lemma read_owned A r (f : RequestObj → A) : guards owned_kept all_hold (with_obj r (gets f)).
Proof. apply guards_owned; [apply read_holds|]. intros w. apply with_obj_closed, preserves_gets. Qed.

Lemma handler_Reply_owned_kept r code msg content len hs close :
  guards owned_kept all_hold (handler_Reply send_res now r code msg content len hs close).
Proof. apply guards_owned; [apply handler_Reply_holds|]. intros w. apply with_obj_closed, obj_handler_keeps, Reply_keeps_closed. Qed.

Lemma handler_Process_owned_kept r : guards owned_kept all_hold (handler_Process send_res now strerror recv ioctl block r).
Proof. apply guards_owned; [apply handler_Process_holds|]. intros w. apply with_obj_closed, obj_handler_keeps, Process_keeps_closed. Qed.

#[export] Instance RequestImpl_owned : @IRequestGuards store nat (RequestImpl_IRequest send_res now) owned_kept all_hold.
Proof.
  pose proof (RequestImpl_guards send_res now) as HG. destruct HG as [H1 H2 H3 H4 H5]. cbn in *. split; cbn.
  - intros r. apply read_owned.
  - intros r o d. apply guards_owned; [apply H2|]. intros w. apply with_obj_closed, (GetHeaderOption_keeps_handler is_closed).
  - intros r. apply read_owned.
  - intros r code msg content len hs close w Hw. unfold RequestImpl_Reply, mbind, M_bind.
    pose proof (handler_Reply_owned_kept r code msg content len hs close w Hw) as Hr. by destruct (handler_Reply _ _ _ _ _ _ _ _ _ w) as [[]].
  - intros r o. apply guards_owned; [apply H5|]. intros w. apply with_obj_closed, obj_handler_keeps.
    apply preserves_bind; intros; intros c Hc; exact Hc.
Qed.

(** A reply that closes the connection answers the request. *)
Lemma handler_Reply_closes r code msg content len hs w :
  match handler_Reply send_res now r code msg content len hs true w with (Ret _, w') | (Throw _, w') => closed r w' | _ => True end.
Proof.
  unfold handler_Reply, with_obj. destruct (w !! r) as [o|] eqn:Ho; [|done]. unfold obj_handler.
  pose proof (Reply_closes (send_res r) now code msg content len hs (handler o)) as Hr.
  destruct (Reply _ _ _ _ _ _ _ _ _) as [[a|e| |] c]; [..|done|done]; eexists; by rewrite lookup_insert_eq.
Qed.

#[export] Program Instance RequestImpl_answers :
    @IAnswers store nat (RequestImpl_IRequest send_res now) owned_kept all_hold RequestImpl_owned := {
  answered := closed
}.
Next Obligation. intros r w w' [_ Hc]. apply Hc. Qed.
Next Obligation.
  intros r code msg content len hs w. cbn. unfold RequestImpl_Reply, mbind, M_bind.
  pose proof (handler_Reply_closes r code msg content len hs w) as Hr. by destruct (handler_Reply _ _ _ _ _ _ _ _ _ w) as [[]].
Qed.
End objects.

(** ** Many queues *)
Section queues.
Context {n : nat} `{!StaleText, PAST : !PastEnd} (send_res : nat → nat → Z → bytes → Z) (now : nat → Z).

Abbreviation service := (vec (SyncQueue nat) n * store)%type.
Abbreviation IR := (RequestImpl_IRequest send_res now).
Abbreviation settled_in := (settled (IRequest0 := IR) owned_kept all_hold).
Abbreviation kept := (requests_kept (IRequest0 := IR) owned_kept).

(** What everybody relies on, promises and keeps. *)
Definition all_rely (a b : service) : Prop :=
  kept a.2 b.2 ∧ ∀ j r, settled_in r (a.1 !!! j, a.2) → settled_in r (b.1 !!! j, b.2).
Definition all_promise (a b : service) : Prop := all_rely a b ∧ no_new (IRequest0 := IR) a.2 b.2.
Definition all_keep (a : service) : Prop :=
  (∀ j, stored_ok (a.1 !!! j) (λ r, store_rid r a.2)) ∧ one_each (IRequest0 := IR) a.2 ∧ all_hold a.2.

#[export] Instance all_rely_preorder : PreOrder all_rely.
Proof.
  split; [intros a; split; [reflexivity|done]|]. intros a b c [H1 H2] [H3 H4].
  split; [by transitivity b.2|]. intros j r Hr. by apply H4, H2.
Qed.

(** What is shown of a handler with its object is true of it with all objects. *)
Lemma at_queue_rg {A} (Φ : outcome A → SyncQueue nat * store → Prop) qs w (i : fin n) (p : prog (SyncQueue nat * store) A) :
  rg (relies (IRequest0 := IR) owned_kept all_hold) (promises (IRequest0 := IR) owned_kept all_hold)
    (inv (IRequest0 := IR) all_hold) Φ (qs !!! i, w) p →
  rg all_rely all_promise all_keep (λ o σ, Φ o (σ.1 !!! i, σ.2)) (qs, w) (at_queue i p).
Proof.
  revert qs w. induction p as [o|X m k IH]; intros qs w Hp; [done|].
  intros [qs1 w1] [Hk Hs] (HI & H1 & HJ). cbn in Hk, Hs, HI, H1, HJ. unfold on_queue. cbn [fst snd].
  destruct (Hp (qs1 !!! i, w1)) as ([[H2 H3] H4] & (H5 & H6 & H7) & H8).
  - split; [exact Hk|]. apply Hs.
  - split; [apply HI|by split].
  - destruct (m (qs1 !!! i, w1)) as [o [q2 w2]] eqn:Hm. cbn in H2, H3, H4, H5, H6, H7, H8 |- *.
    split; [split; [split; [exact H2|]|exact H4]|split; [split; [|by split]|]].
    + cbn. intros j r Hr. destruct (decide (j = i)) as [->|Hne]; [rewrite vlookup_insert; by apply H3|].
      rewrite vlookup_insert_ne by done. eapply settled_grows; [exact H2|exact Hr].
    + cbn. intros j. destruct (decide (j = i)) as [->|Hne]; [by rewrite vlookup_insert|]. rewrite vlookup_insert_ne by done.
      eapply stored_ok_ext; [|apply HI]. destruct H2 as [H2 _]. exact H2.
    + apply IH. by rewrite vlookup_insert.
Qed.

(** What is done with the requests only. *)
Lemma on_requests_respects {A} (m : M store A) :
  (∀ w r, store_rid r (m w).2 = store_rid r w) → guards owned_kept all_hold m → respects all_promise all_keep (on_snd m).
Proof.
  intros Hrid Hm [qs w] (HI & H1 & HJ). cbn in HI, H1, HJ. destruct (Hm w HJ) as [H2 H3]. specialize (Hrid w). unfold on_snd. cbn.
  destruct (m w) as [o w']. cbn in *. assert (Hk : kept w w') by (split; [intros r i; cbn; by rewrite Hrid|done]).
  split; [split; [split; [exact Hk|]|]|split_and!].
  - intros j r Hr. eapply settled_grows; [exact Hk|exact Hr].
  - intros r i. cbn. by rewrite Hrid.
  - intros j. eapply stored_ok_ext; [|apply HI]. intros r i. by rewrite Hrid.
  - intros r r' i. cbn. rewrite !Hrid. apply H1.
  - done.
Qed.

(** ** A connection *)
Context (strerror : Z → bytes) (recv : connection → nat → nat → recv_result) (ioctl : connection → nat → option nat) (block : connection → bytes).

(** The request has closed its connection, or it is stored in a queue under its
    identifier. *)
Definition done_with (r : nat) (σ : service) : Prop :=
  closed r σ.2 ∨ ∃ (j : fin n) i, store_rid r σ.2 = Some i ∧ mq_messages (σ.1 !!! j) !! i = Some r.

Lemma settled_done j r (σ : service) : settled_in r (σ.1 !!! j, σ.2) → done_with r σ.
Proof. intros [Hc|(i & Hi & Hm)]; [by left|right; by exists j, i]. Qed.

Lemma done_stays r (a b : service) : all_rely a b → done_with r a → done_with r b.
Proof.
  intros [[_ [_ Hc]] Hs] [Hr|(j & i & Hi & Hm)]; [left; by apply Hc|]. apply (settled_done j), Hs. right. by exists i.
Qed.

Abbreviation ends := (rg all_rely all_promise all_keep).
(** After a return or an exception. *)
Definition whatever {A} (Q : service → Prop) (o : outcome A) (σ : service) : Prop :=
  match o with Ret _ | Throw _ => Q σ | _ => True end.

Lemma reply_answers s0 r code msg content len hs :
  ends (whatever (done_with r)) s0 (act (on_snd (handler_Reply send_res now r code msg content len hs true))).
Proof.
  apply rg_act; [apply on_requests_respects; [intros; apply handler_Reply_rid|apply handler_Reply_owned_kept]|].
  intros [qs w] _ _. pose proof (handler_Reply_closes send_res now r code msg content len hs w) as Hc. unfold on_snd. cbn.
  destruct (handler_Reply _ _ _ _ _ _ _ _ _ w) as [[a|e| |] w']; cbn in *; [by left..|done|done].
Qed.

Lemma whatever_ret {A} Q s0 (p : prog service A) : ends (whatever Q) s0 p → ends (ret (λ _, Q)) s0 p.
Proof. apply rg_mono. by intros [a|e| |]. Qed.

Lemma process_done s0 r i :
  ends (ret (λ _, done_with r)) s0 (pRequestImpl_Process send_res now r (queue_object send_res now i)).
Proof.
  assert (Hcall : ∀ s c, call_request c = Some r → ends (ret (λ _, done_with r)) s (qm_code (queue_object send_res now i) c)).
  { intros [qs w] c Hc. eapply rg_mono; [|apply at_queue_rg, (call_prog_settles (IRequest0 := IR) owned_kept all_hold); exact Hc].
    intros [a|e| |] σ; cbn; [|done..]. apply (settled_done i). }
  apply rg_ret_act; [apply on_requests_respects; [intros; apply read_rid|apply read_owned]|].
  intros s [] s' _ _ _; try (by apply Hcall). apply whatever_ret, reply_answers.
Qed.

Lemma router_done s0 Routes r c :
  lead_to_queues send_res now Routes →
  ends (whatever (done_with r)) s0 (pRouter_Process send_res now strerror (recv c) (ioctl c) (block c) Routes r).
Proof.
  intros HR. eapply (rg_catch_both _ _ _ (ret (λ _, done_with r))).
  - apply rg_ret_act; [apply on_requests_respects; [intros; apply handler_Process_rid|apply handler_Process_owned_kept]|].
    intros s1 _ s2 _ _ _.
    apply rg_ret_act; [apply on_requests_respects; [intros; apply read_rid|apply read_owned]|]. intros s3 uri s4 _ _ _.
    apply rg_ret_pure. intros [mq|] Hroute.
    + apply Routes_find_In in Hroute as (path & Hin & _). unfold lead_to_queues in HR. rewrite Forall_forall in HR. destruct (HR _ Hin) as [i Hi].
      cbn in Hi. subst mq. apply process_done.
    + apply rg_ret_pure. intros _ _. apply whatever_ret, reply_answers.
  - assert (Hexn : ∀ s msg what, ends (whatever (done_with r)) s (preply_exception send_res now r msg what)).
    { intros s msg what. unfold preply_exception. destruct (strlen_terminated what) as (k & -> & _). apply reply_answers. }
    intros [a|[w|w]| |] s Hs; [exact Hs|apply Hexn..|done|done].
Qed.

(** *** Among the other connections *)

(** Others make no request with the identifier of connection [c], and [c] makes
    none with that of another. *)
Definition conn_rely (c : connection) (a b : service) : Prop :=
  all_rely a b ∧ ∀ r, store_rid r b.2 = Some (cn_mid c) → store_rid r a.2 = Some (cn_mid c).
Definition conn_promise (c : connection) (a b : service) : Prop :=
  all_rely a b ∧ ∀ r i, store_rid r b.2 = Some i → store_rid r a.2 = Some i ∨ i = cn_mid c.
Definition conn_apart (c c' : connection) : Prop := cn_mid c ≠ cn_mid c'.

(** Requests are those of connections that were started. *)
Definition rids_known (cs : list connection) (σ : service) : Prop :=
  ∀ r i, store_rid r σ.2 = Some i → i ∈ cn_mid <$> cs.

(** The connection [c] has a request with its identifier that owns its
    descriptor or has closed it, and has done so unless it waits in a queue. *)
Definition delivered (c : connection) (σ : service) : Prop :=
  ∃ r, store_rid r σ.2 = Some (cn_mid c) ∧ holds_descriptor σ.2 r (cn_socket c) ∧ done_with r σ.
Definition conn_end (c : connection) (o : outcome unit) (σ : service) : Prop := o = Ret tt → delivered c σ.

#[export] Instance conn_rely_preorder c : PreOrder (conn_rely c).
Proof.
  split; [intros a; split; [reflexivity|done]|]. intros a b d [H1 H2] [H3 H4].
  split; [by transitivity b|]. intros r Hr. by apply H2, H4.
Qed.

Lemma conn_end_stable c o a b : conn_rely c a b → conn_end c o a → conn_end c o b.
Proof.
  intros [Hr _] Hend Ho. destruct (Hend Ho) as (r & H1 & H2 & H3). exists r. pose proof Hr as [[Hid [Hh _]] _].
  split_and!; [by apply Hid|by apply Hh|by eapply done_stays].
Qed.

Lemma apart_promises c c' a b : conn_apart c c' → conn_promise c a b → conn_rely c' a b.
Proof. intros Hap [H1 H2]. split; [done|]. intros r Hr. destruct (H2 r _ Hr) as [|Heq]; [done|]. by destruct Hap. Qed.

Lemma rids_known_acts cs c a b : c ∈ cs → conn_promise c a b → rids_known cs a → rids_known cs b.
Proof.
  intros Hc [_ H2] Ha r i Hr. destruct (H2 r i Hr) as [Hold| ->]; [by eapply Ha|]. by apply list_elem_of_fmap_2.
Qed.

(** The new request of a connection. *)
Lemma handler_of_id c h : handler_of now c = Ret h → MsgId (http h) = cn_mid c.
Proof.
  unfold handler_of. destruct (CAddress_toString _); outcome_simpl; try done.
  destruct (or_undef _); outcome_simpl; try done. by intros [= <-].
Qed.

Lemma new_request_known c h qs w :
  (0 < cn_socket c)%Z → handler_of now c = Ret h → (∀ r, store_rid r w ≠ Some (cn_mid c)) → all_keep (qs, w) →
  let this := fresh (dom w) in let w' := RequestImpl_new this h w in
  conn_promise c (qs, w) (qs, w') ∧ all_keep (qs, w') ∧
  store_rid this w' = Some (cn_mid c) ∧ holds_descriptor w' this (cn_socket c).
Proof.
  intros Hso Hh Hnone (HI & H1 & HJ) this w'. cbn in HI, H1, HJ.
  destruct (new_request_grows c h now w Hso Hh HJ) as ([H2 H3] & H4 & H5). fold this w' in H2, H3, H4, H5.
  assert (Hnew : w !! this = None) by apply not_elem_of_dom, is_fresh.
  assert (Hthis : store_rid this w' = Some (cn_mid c)).
  { unfold store_rid, w', RequestImpl_new. rewrite lookup_insert_eq. cbn. by rewrite (handler_of_id c h Hh). }
  assert (Hold : ∀ r i, store_rid r w' = Some i → (r = this ∧ i = cn_mid c) ∨ store_rid r w = Some i).
  { intros r i Hr. destruct (decide (r = this)) as [->|Hne]; [rewrite Hthis in Hr; injection Hr as <-; by left|right].
    unfold store_rid, w', RequestImpl_new in Hr. by rewrite lookup_insert_ne in Hr. }
  assert (Hk : kept w w').
  { split; [exact H2|]. split; [exact H3|]. intros r (o & Ho & Hc). exists o. split; [|done].
    unfold w', RequestImpl_new. rewrite lookup_insert_ne; [done|]. congruence. }
  split; [|split; [|by split]].
  - split; [split; [exact Hk|]|].
    + intros j r Hr. eapply settled_grows; [exact Hk|exact Hr].
    + intros r i Hr. destruct (Hold r i Hr) as [[_ ->]|Hro]; [by right|by left].
  - split; [|split; [|done]]; cbn.
    + intros j. eapply stored_ok_ext; [exact H2|apply HI].
    + intros r r' i Hr Hr'. destruct (Hold r i Hr) as [[-> ->]|Hro], (Hold r' _ Hr') as [[-> Heq]|Hro']; [done| | |].
      * by destruct (Hnone r').
      * subst i. by destruct (Hnone r).
      * by eapply H1.
Qed.

Lemma connection_delivers Routes σ c :
  lead_to_queues send_res now Routes → (0 < cn_socket c)%Z → (∀ r, store_rid r σ.2 ≠ Some (cn_mid c)) →
  rg (conn_rely c) (conn_promise c) all_keep (conn_end c) σ
    (pprocess_connection send_res now strerror recv ioctl block Routes c).
Proof.
  intros HR Hso Hnone. unfold pprocess_connection. destruct (handler_of now c) as [h|e| |] eqn:Hh; [|done..].
  intros [qs w] [_ Hown] HI. cbn in Hown.
  assert (Hnone' : ∀ r, store_rid r w ≠ Some (cn_mid c)) by (intros r Hr; by apply (Hnone r), Hown).
  destruct (new_request_known c h qs w Hso Hh Hnone' HI) as (H1 & H2 & H3 & H4).
  set (this := fresh (dom w)) in *. set (w' := RequestImpl_new this h w) in *.
  change (conn_promise c (qs, w) (qs, w') ∧ all_keep (qs, w') ∧ rg (conn_rely c) (conn_promise c) all_keep (conn_end c) (qs, w')
    (packaged (pRouter_Process send_res now strerror (recv c) (ioctl c) (block c) Routes this))).
  split; [exact H1|]. split; [exact H2|].
  apply rg_packaged, (rg_weaken all_rely _ all_promise); [by intros s s' [Hs _]|intros s s' [Hs Hn]; split; [done|by left; apply Hn]|].
  eapply rg_mono; [|apply (rg_keeping _ _ _ (λ s, store_rid this s.2 = Some (cn_mid c) ∧ holds_descriptor s.2 this (cn_socket c)));
    [| |by split|by apply router_done]].
  - intros o s [Hdone [Hr Hd]] Ho. exists this. split_and!; [done..|]. destruct o; done.
  - intros s s' [[Hid [Hh' _]] _] [Hr Hd]. split; [by apply Hid|by apply Hh'].
  - by intros s s' [].
Qed.

(** *** All the connections *)

(** Connections with identifiers of their own. *)
Definition starts_apart (k : tconf service connection) (c : connection) (σ : service) : Prop :=
  starts_as_is (λ c, (0 < cn_socket c)%Z) k c σ ∧ cn_mid c ∉ cn_mid <$> calls_of k.

Lemma connections_delivered Routes (σ : service) k :
  lead_to_queues send_res now Routes → all_keep σ → (∀ r, store_rid r σ.2 = None) →
  star (pstep (pprocess_connection send_res now strerror recv ioctl block Routes) starts_apart) (MkThreads [] σ) k →
  all_keep (tc_shared k) ∧ ∀ c, (c, PDone (Ret tt)) ∈ tc_threads k → delivered c (tc_shared k).
Proof.
  intros HR Hok Hempty Hs.
  assert (Hsound : sound conn_rely conn_promise all_keep rids_known conn_end conn_apart (MkThreads [] σ)).
  { split_and!; [done| |by apply Forall_nil_2|done]. intros r i Hr. cbn in Hr. by rewrite Hempty in Hr. }
  apply (interleaving_sound _ _ conn_rely conn_promise all_keep rids_known conn_end conn_apart) in Hs;
    [|exact conn_end_stable|exact apart_promises|exact rids_known_acts| |exact Hsound].
  - destruct Hs as (Hk & _ & Hts & _). split; [done|]. intros c Hin. rewrite Forall_forall in Hts. by apply (Hts _ Hin).
  - intros k1 c σ1 [[-> Hso] Hnot] HI HJ. split; [done|]. split_and!.
    + intros r i Hr. rewrite fmap_app. apply elem_of_app. left. by eapply HJ.
    + apply connection_delivers; [done..|]. intros r Hr. by apply Hnot, (HJ r).
    + apply Forall_forall. intros c' Hc'. assert (Hne : cn_mid c' ≠ cn_mid c).
      { intros Heq. apply Hnot. rewrite <- Heq. by apply list_elem_of_fmap_2. }
      split_and!; [by intros Heq; apply Hne|done|reflexivity].
Qed.

(** *** The kernel *)

(** Request [r] has closed the descriptor [d], once. *)
Definition closed_once (w : store) (r : nat) (d : Z) : Prop :=
  ∃ o, w !! r = Some o ∧ is_closed (handler o) ∧ closes (net (handler o)) = [d].
(** It waits in queue [j] under the identifier [i]. *)
Definition waits_in (j : fin n) (σ : service) (r : nat) (i : Z) : Prop :=
  mq_messages (σ.1 !!! j) !! i = Some r ∧ (i ∈ mq_queue (σ.1 !!! j) ∨ i ∈ mq_locked (σ.1 !!! j)).

(** Request [r] has the descriptor [d] still open. *)
Definition still_open (w : store) (r : nat) (d : Z) : Prop :=
  ∃ o, w !! r = Some o ∧ Handle (http (handler o)) = d ∧ closes (net (handler o)) = [].

(** The connection was closed, or its request waits with the connection open. *)
Definition not_lost (σ : service) (c : connection) : Prop :=
  ∃ r, store_rid r σ.2 = Some (cn_mid c) ∧
    (closed_once σ.2 r (cn_socket c) ∨ still_open σ.2 r (cn_socket c) ∧ ∃ j, waits_in j σ r (cn_mid c)).

Lemma delivered_not_lost c σ : (0 < cn_socket c)%Z → all_keep σ → delivered c σ → not_lost σ c.
Proof.
  intros Hso (HI & _) (r & Hr & (_ & o & Ho & [[Hh Hcl]|[Hh Hcl]]) & Hdone); exists r; (split; [done|]); [right|left].
  - split; [by exists o|]. destruct Hdone as [(o' & Ho' & Hc)|(j & i & Hi & Hm)].
    + assert (o' = o) as -> by congruence. unfold is_closed in Hc. lia.
    + exists j. assert (i = cn_mid c) as -> by congruence. split; [done|]. destruct (HI j) as [_ Hq]. by apply Hq.
  - by exists o.
Qed.

Lemma service_loses_nothing (NDEBUG : bool) (limits : fin n → mq_limits) Routes (σ : service) (s0 s : sys connection) d :
  lead_to_queues send_res now Routes → service_ok limits σ → σ.2 = ∅ →
  tasks_conserved s0 → (∀ w, running s0 w = None) → executed s0 = [] →
  star (kernel_step NDEBUG (conc_step NDEBUG (pprocess_connection send_res now strerror recv ioctl block Routes)))
    (no_tasks σ, s0) (d, s) →
  Forall (λ c, (0 < cn_socket c)%Z) (enqueued s) → NoDup (cn_mid <$> enqueued s) → threads s = ∅ →
  enqueued s ≡ₚ executed s ++ PoolTasks (pool s) →
  Forall (not_lost (tc_shared (tk_conf d))) (executed s).
Proof.
  intros HR [Hok Hall] Hnil Hcons Hr He Hs Hso Hnd Hnone Henq.
  apply (kernel_interleaves _ _ (λ c, (0 < cn_socket c)%Z)) in Hs as [Hp Hc]; [|done|by apply coupled_start|done].
  pose proof (coupled_all_done d s Hc Hnone) as Hdone. rewrite Henq in Hnd, Hso.
  rewrite fmap_app in Hnd. apply NoDup_app in Hnd as [Hnd _]. apply Forall_app in Hso as [Hso _].
  assert (Hnone' : ∀ r, store_rid r σ.2 = None) by (intros r; by rewrite Hnil).
  apply (starts_distinct _ _ cn_mid) in Hp.
  - apply connections_delivered in Hp as [Hk Hp]; [|done| |done].
    + rewrite Forall_forall in Hso. apply Forall_forall. intros c Hin. apply delivered_not_lost; [by apply Hso|done|]. apply Hp.
      rewrite Hdone. by apply (list_elem_of_fmap_2 (λ c, (c, PDone (Ret tt)))).
    + split; [intros j; apply Hok|]. split; [|done]. intros r r' i Hri. cbn in Hri. by rewrite Hnone' in Hri.
  - unfold calls_of. rewrite Hdone. rewrite <- (list_fmap_compose _ fst).
    change (NoDup (cn_mid <$> (id <$> executed s))). by rewrite list_fmap_id.
Qed.
End queues.
