(* ===== verification/Safety.v ===== *)
(** * Safety: what a client sends cannot make the kernel misbehave

    The task of a connection ([RouterImpl::Process] in [kernel/main/run.cpp])
    with its queue objects, in any interleaving with others: whatever bytes arrive
    it returns, and neither ends the process nor has undefined behaviour other
    than a data race on a request, as long as its buffer has room for them, the
    texts of destroyed temporaries are still there, and the pointer after the
    table of methods can be loaded.  Without these it can go wrong. *)
From Stdlib Require Import Ascii String.
From stdpp Require Import options relations gmap vector.
From S2P Require Import Prelude Interleave RelyGuarantee Findmatch ZcString Buffer HttpParse Numerals HttpReply Interfaces RequestImpl.
From S2P Require Import SyncQueue SyncQueueSpec QueueProg Server Router RouterProg NoLoss Defined Wellformed EndToEnd.
From S2P Require Import ThreadPool ThreadPoolConc Kernel PoolProg KernelConc.

#[local] Open Scope nat_scope.

(** ** Routes *)
Lemma path_hash_loop_returns len z it h :
  (match zmem z with Some m => zend z ≤ length m | None => zend z = 0 end) → ∃ v, path_hash_loop len z it h = Ret v.
Proof.
  intros Hz. revert it h. induction len as [|len IH]; intros it h; cbn [path_hash_loop]; (case_decide; [|by eexists]);
    unfold zderef; (destruct (zmem z) as [m|]; [|lia]); rewrite decide_True by lia; rewrite Nat2Z.id;
    (destruct (lookup_lt_is_Some_2 m it) as [c Hc]; [lia|]); unfold deref; rewrite Hc; outcome_simpl;
    (case_decide; [by eexists|]); [by eexists|apply IH].
Qed.

Lemma path_hash_returns z :
  zc_wf z → (match zmem z with Some m => zbegin z < length m | None => True end) → ∃ v, path_hash z = Ret v.
Proof.
  intros Hz Hb. unfold path_hash, zc_wf in *. destruct (zmem z) as [m|] eqn:Hm.
  - unfold zderef. rewrite Hm, decide_True, Nat2Z.id by lia. unfold deref.
    destruct (lookup_lt_is_Some_2 m (zbegin z)) as [c ->]; [done|]. outcome_simpl. apply path_hash_loop_returns. rewrite Hm. lia.
  - apply path_hash_loop_returns. rewrite Hm. lia.
Qed.

Lemma route_path_fit path : path ≠ [] → ∃ v, path_hash (cpathstring path) = Ret v.
Proof.
  intros Hp. apply path_hash_returns; cbn; [lia|]. destruct path; [done|simpl; lia].
Qed.

Lemma Routes_find_returns {MQ} uri (Routes : list (bytes * MQ)) :
  uri_fit uri → Forall (λ r, r.1 ≠ []) Routes → ∃ r, Routes_find uri Routes = Ret r.
Proof.
  intros [[Hu _] Hb] HR. destruct (path_hash_returns uri Hu Hb) as [h Hh]. induction HR as [|[path mq] Routes Hp _ IH]; [by eexists|].
  cbn [Routes_find]. rewrite Hh. destruct (route_path_fit path Hp) as [h' ->]. outcome_simpl. case_decide; [by eexists|exact IH].
Qed.

Section service.
Context {n : nat} `{!StaleText, PAST : !PastEnd} (send_res : nat → nat → Z → bytes → Z) (now : nat → Z) (strerror : Z → bytes).
Context (recv : connection → nat → nat → recv_result) (ioctl : connection → nat → option nat) (block : connection → bytes).
Context (stale_text_lives : ∀ t, ∃ t', stale t = Live t') (pointer_loads : is_Some past_end).

Abbreviation service := (vec (SyncQueue nat) n * store)%type.
Abbreviation IR := (RequestImpl_IRequest send_res now).

(** Two handlers of one queue object worked on the same field of one request at
    once. *)
Definition service_raced (a : service) : Prop := ∃ j, mq_writing (a.1 !!! j) = None.

Definition fit_order (a b : service) : Prop :=
  ((∀ r i, store_rid r a.2 = Some i → store_rid r b.2 = Some i) ∧ limits_kept a.2 b.2) ∧
  ∀ j, mq_writing (a.1 !!! j) = None → mq_writing (b.1 !!! j) = None.
Definition fit_inv (a : service) : Prop := (∀ j, stored_ok (a.1 !!! j) (λ r, store_rid r a.2)) ∧ all_fit a.2.

#[export] Instance fit_order_preorder : PreOrder fit_order.
Proof.
  split; [intros a; split; [split; [done|reflexivity]|done]|]. intros a b c [[H1 H2] H3] [[H4 H5] H6].
  split; [split; [intros r i Hr; by apply H4, H1|by transitivity b.2]|intros j Hj; by apply H6, H3].
Qed.

Lemma service_raced_stays a b : fit_order a b → service_raced a → service_raced b.
Proof. intros [_ Hs] [j Hj]. exists j. by apply Hs. Qed.

Abbreviation no_undefined := (rg fit_order fit_order fit_inv (defined service_raced (λ _ _, True))).

(** What is true of a handler with its object is true of it with all of them. *)
Lemma at_queue_defined qs w (i : fin n) (p : prog (SyncQueue nat * store) unit) :
  rg (d_order (IRequest0 := IR) limits_kept) (d_order (IRequest0 := IR) limits_kept) (d_inv (IRequest0 := IR) all_fit)
    (defined raced (λ _ _, True)) (qs !!! i, w) p →
  no_undefined (qs, w) (at_queue i p).
Proof.
  revert qs w. induction p as [o|X m k IH]; intros qs w Hp; [destruct o; try done; by exists i|].
  intros [qs1 w1] [[H1 H2] Hrace] [HI HJ]. cbn in H1, H2, HI, HJ. unfold on_queue. cbn [fst snd].
  destruct (Hp (qs1 !!! i, w1)) as ([[H3 H4] Hrace'] & [H5 H6] & H7); [split; [by split|exact (Hrace i)]|split; [apply HI|done]|].
  destruct (m (qs1 !!! i, w1)) as [o [q2 w2]]. unfold state_ok in H5. unfold races_kept in Hrace'. cbn in H3, H4, H5, H6, H7, Hrace' |- *.
  split; [split; [by split|]|split; [split; [|done]|]].
  - intros j. cbn. destruct (decide (j = i)) as [->|Hne]; [by rewrite vlookup_insert|by rewrite vlookup_insert_ne].
  - intros j. cbn. destruct (decide (j = i)) as [->|Hne]; [by rewrite vlookup_insert|]. rewrite vlookup_insert_ne by done.
    eapply stored_ok_ext'; [|apply HI]. exact H3.
  - apply IH. by rewrite vlookup_insert.
Qed.

Lemma fit_requests {A} (m : M store A) :
  (∀ w r, store_rid r (m w).2 = store_rid r w) → guards limits_kept all_fit m → guards fit_order fit_inv (on_snd m).
Proof.
  intros Hrid Hm [qs w] [HI HJ]. cbn in HI, HJ. destruct (Hm w HJ) as [H1 H2]. specialize (Hrid w). unfold on_snd. cbn.
  destruct (m w) as [o w']. cbn in *. split; [split; [split; [|done]; intros r i; cbn; by rewrite Hrid|done]|split; [|done]].
  intros j. eapply stored_ok_ext'; [|apply HI]. intros r i. by rewrite Hrid.
Qed.

(** *** The router *)
Definition there (r : nat) (s : service) : Prop := is_Some (store_rid r s.2).
Definition reads_with (r : nat) (l : nat * nat) (s : service) : Prop := there r s ∧ read_limits r s.2 = Some l.

Lemma there_stays r a b : fit_order a b → there r a → there r b.
Proof. intros [[H1 _] _] [i Hi]. exists i. by apply H1. Qed.
Lemma reads_with_stays r l a b : fit_order a b → reads_with r l a → reads_with r l b.
Proof. intros Hs [H1 H2]. split; [by eapply there_stays|]. destruct Hs as [[_ Hs] _]. by apply Hs. Qed.

Lemma router_reply s r code msg content len :
  there r s → sendable content len → no_undefined s (act (on_snd (handler_Reply send_res now r code msg content len [] true))).
Proof.
  intros Hr Hc. apply defined_act; [apply fit_requests; [intros; apply handler_Reply_rid|apply handler_Reply_fit]|].
  intros s' Hle [_ HJ]. pose proof (there_stays r s s' Hle Hr) as Hr'. unfold on_snd.
  pose proof (handler_Reply_defined send_res now r code msg content len [] true s'.2 HJ Hr' ltac:(by constructor) Hc) as Hd.
  by destruct (handler_Reply _ _ _ _ _ _ _ _ _ s'.2) as [[] w].
Qed.

Lemma router_exception s r msg what : there r s → no_undefined s (preply_exception send_res now r msg what).
Proof.
  intros Hr. unfold preply_exception. destruct (strlen_terminated what) as (k & Hk & Hle). rewrite Hk.
  apply router_reply; [done|]. unfold sendable. case_decide; [by eexists|]. rewrite length_app, Nat2Z.id. lia.
Qed.

(** Something is read of an object. *)
Lemma router_read {A B} (f : RequestObj → A) (P : A → Prop) r s0 (g : A → prog service B) :
  there r s0 → (∀ o, obj_fit o → P (f o)) → (∀ a s, there r s → P a → no_undefined s (g a)) →
  no_undefined s0 (act (on_snd (with_obj r (gets f))) ≫= g).
Proof.
  intros H0 HP Hg. apply (defined_step _ _ _ service_raced_stays (there r) P); [intros s s'; apply there_stays| |done| |done].
  - apply fit_requests; [intros; apply read_rid|apply with_obj_fit, reading_keeps_fit].
  - intros s [i Hi] [_ HJ]. unfold on_snd. rewrite with_obj_read. unfold store_rid in Hi.
    destruct (s.2 !! r) as [o|] eqn:Ho; [|done]. cbn. by apply HP, (HJ r).
Qed.

Lemma process_defined s r i : there r s → no_undefined s (pRequestImpl_Process send_res now r (queue_object send_res now i)).
Proof using stale_text_lives.
  intros Hr. unfold pRequestImpl_Process, RequestImpl_GetMethod. apply (router_read _ (λ _, True)); [done|done|].
  assert (Hcall : ∀ s c, there r s → call_request c = Some r → no_undefined s (qm_code (queue_object send_res now i) c)).
  { intros [qs w] c Hr' Hc. apply at_queue_defined, (call_prog_defined (IRequest0 := IR) limits_kept all_fit) with r; done. }
  intros [] s' Hs _; try (by apply Hcall). by apply router_reply.
Qed.

Lemma handler_Process_outcome r c l w :
  all_fit w → read_limits r w = Some l → socket_fit (recv c) (ioctl c) (block c) l →
  let '(o, w') := handler_Process send_res now strerror (recv c) (ioctl c) (block c) r w in
  is_defined o ∧ limits_kept w w' ∧ all_fit w'.
Proof using pointer_loads.
  intros Hw Hl Hs. unfold handler_Process, with_obj. unfold read_limits in Hl. destruct (w !! r) as [o|] eqn:Ho; [|done].
  cbn in Hl. injection Hl as Hl. destruct (Hw r o Ho) as [Hfit Hmap]. unfold obj_handler.
  pose proof (Process_defined (send_res r) now pointer_loads (recv c) (ioctl c) (block c) strerror l _ (handler o) Hs Hfit (conj eq_refl Hl)) as Hp.
  destruct (Process _ _ _ _ _ _ (handler o)) as [res h]. destruct Hp as [Hd (q & Hq & [Hreq Hlim])]. split; [exact Hd|]. split.
  - intros r' l'. unfold read_limits. destruct (decide (r = r')) as [->|Hne]; [|by rewrite lookup_insert_ne].
    rewrite lookup_insert_eq, Ho. cbn. congruence.
  - intros r' o1 [[<- <-]|[_ Hr]]%lookup_insert_Some; [|by apply (Hw r')]. split; cbn; [by rewrite Hreq|exact Hmap].
Qed.

Lemma router_defined s0 Routes r c l :
  lead_to_queues send_res now Routes → Forall (λ x, x.1 ≠ []) Routes → reads_with r l s0 →
  socket_fit (recv c) (ioctl c) (block c) l →
  no_undefined s0 (pRouter_Process send_res now strerror (recv c) (ioctl c) (block c) Routes r).
Proof using stale_text_lives pointer_loads.
  intros HR Hpaths H0 Hs.
  apply (defined_catch_both _ _ _ (there r)); [intros s s'; apply there_stays|apply H0| |by intros; apply router_exception..].
  apply (defined_bind _ _ _ (λ _ s, there r s)).
  - intros [qs w] Hle [HI HJ]. cbn in HI, HJ. destruct (reads_with_stays r l _ _ Hle H0) as [H1 H2]. cbn in H2.
    pose proof (handler_Process_outcome r c l w HJ H2 Hs) as Hp.
    pose proof (handler_Process_rid send_res now strerror (recv c) (ioctl c) (block c) r w) as Hrid. unfold on_snd. cbn [fst snd].
    destruct (handler_Process _ _ _ _ _ _ r w) as [o w']. destruct Hp as (Hd & Hk & Hf). cbn in Hrid |- *.
    assert (Ho : fit_order (qs, w) (qs, w')) by (split; [split; [intros r' i; cbn; by rewrite Hrid|done]|done]).
    split; [exact Ho|]. split.
    + split; [|done]. intros j. eapply stored_ok_ext'; [|apply HI]. intros r' i. cbn. by rewrite Hrid.
    + pose proof (there_stays r _ _ Ho H1). by destruct o.
  - intros _ s1 H1. unfold RequestImpl_GetUri. apply (router_read _ uri_fit); [done|by intros o [[] _]|]. intros uri s2 H2 Hu.
    destruct (Routes_find_returns uri Routes Hu Hpaths) as [route Hroute]. rewrite Hroute.
    destruct route as [mq|].
    + apply Routes_find_In in Hroute as (path & Hin & _). unfold lead_to_queues in HR. rewrite Forall_forall in HR.
      destruct (HR _ Hin) as [i Hi]. cbn in Hi. subst mq. by apply process_defined.
    + change (no_undefined s2 (_ ← PDone (zstr uri);
        act (on_snd (handler_Reply send_res now r 404 (Some (str "Endpoint not found")) None 0 [] true)))).
      destruct Hu as [[Hu _] _]. rewrite (zstr_view uri Hu). by apply router_reply.
Qed.

(** *** A connection *)

(** The limits of its listener, and what its socket and its buffer have to be
    like. *)
Definition limits_of (c : connection) : nat * nat := (Z.to_nat (lst_query (cn_limits c)), Z.to_nat (lst_header (cn_limits c))).
Definition connection_fit (c : connection) : Prop :=
  (∃ h, handler_of now c = Ret h) ∧ socket_fit (recv c) (ioctl c) (block c) (limits_of c).

Lemma handler_of_fit c h : handler_of now c = Ret h → reads_as fresh_request (limits_of c) h.
Proof.
  unfold handler_of. destruct (CAddress_toString _); outcome_simpl; try done.
  destruct (or_undef _); outcome_simpl; try done. by intros [= <-].
Qed.

Lemma new_request_fit c h qs w :
  handler_of now c = Ret h → fit_inv (qs, w) →
  let this := fresh (dom w) in let w' := RequestImpl_new this h w in
  fit_order (qs, w) (qs, w') ∧ fit_inv (qs, w') ∧ reads_with this (limits_of c) (qs, w').
Proof.
  intros Hh [HI HJ] this w'. cbn in HI, HJ. destruct (handler_of_fit c h Hh) as [Hreq Hlim].
  assert (Hnew : w !! this = None) by apply not_elem_of_dom, is_fresh.
  assert (Hold : ∀ r o, w !! r = Some o → w' !! r = Some o).
  { intros r o Ho. unfold w', RequestImpl_new. rewrite lookup_insert_ne; [done|]. congruence. }
  assert (Hrid : ∀ r i, store_rid r w = Some i → store_rid r w' = Some i).
  { unfold store_rid. intros r i. destruct (w !! r) as [o|] eqn:Ho; [|done]. by rewrite (Hold r o Ho). }
  split; [split; [split|]|split; [split|split]].
  - exact Hrid.
  - intros r l. cbn. unfold read_limits. destruct (w !! r) as [o|] eqn:Ho; [|done]. by rewrite (Hold r o Ho).
  - done.
  - intros j. eapply stored_ok_ext'; [|apply HI]. exact Hrid.
  - intros r o. cbn. unfold w', RequestImpl_new. intros [[<- <-]|[_ Hr]]%lookup_insert_Some; [|by apply (HJ r)].
    split; [cbn; rewrite Hreq; apply fresh_request_fit|by constructor].
  - unfold there, store_rid, w', RequestImpl_new. cbn. rewrite lookup_insert_eq. by eexists.
  - cbn. unfold read_limits, w', RequestImpl_new. rewrite lookup_insert_eq. cbn. by rewrite Hlim.
Qed.

Lemma connection_returns Routes σ c :
  lead_to_queues send_res now Routes → Forall (λ x, x.1 ≠ []) Routes → connection_fit c →
  rg fit_order fit_order fit_inv (λ o s, o = Ret tt ∨ (o = Undef ∧ service_raced s)) σ (pprocess_connection send_res now strerror recv ioctl block Routes c).
Proof using stale_text_lives pointer_loads.
  intros HR Hpaths [[h Hh] Hs]. unfold pprocess_connection. rewrite Hh.
  intros [qs w] _ HI. destruct (new_request_fit c h qs w Hh HI) as (H1 & H2 & H3).
  set (this := fresh (dom w)) in *. set (w' := RequestImpl_new this h w) in *.
  change (fit_order (qs, w) (qs, w') ∧ fit_inv (qs, w') ∧ rg fit_order fit_order fit_inv (λ o s, o = Ret tt ∨ (o = Undef ∧ service_raced s)) (qs, w')
    (packaged (pRouter_Process send_res now strerror (recv c) (ioctl c) (block c) Routes this))).
  split; [exact H1|]. split; [exact H2|]. apply defined_packaged. by apply (router_defined _ _ _ _ (limits_of c)).
Qed.

(** C5: besides a data race on a request, what clients send cannot end the kernel
    or make it undefined: however many connections are processed at once and
    however they interleave, each task that has ended has returned, or two
    handlers of one queue object worked on the same field of one request at once
    (as two POSTs for one job can), and the queues and requests are as they should be; given
    sockets that keep the contract of recv, internet peers, head limits within
    the query limits, a zero byte in each receive buffer after what was received,
    routes with paths that are not empty, a byte after the table of methods that
    can be loaded (an unknown method loads it), and a compiler that leaves the
    texts of destroyed temporaries in place. *)
Theorem connections_never_fail (Routes : list (bytes * queue_module (vec (SyncQueue nat) n))) (σ : service)
    (k : tconf service connection) :
  lead_to_queues send_res now Routes → Forall (λ r, r.1 ≠ []) Routes → fit_inv σ →
  star (pstep (pprocess_connection send_res now strerror recv ioctl block Routes) (starts_as_is connection_fit)) (MkThreads [] σ) k →
  (∀ c o, (c, PDone o) ∈ tc_threads k → o = Ret tt ∨ (o = Undef ∧ service_raced (tc_shared k))) ∧ fit_inv (tc_shared k).
Proof using stale_text_lives pointer_loads.
  intros HR Hpaths Hok Hs.
  apply (interleaving_ends _ _ fit_order fit_inv (λ _ o s, o = Ret tt ∨ (o = Undef ∧ service_raced s))) in Hs as (_ & H1 & H2);
    [|intros c o s s' Hle [?|[? ?]]; [by left|right; split; [done|by eapply service_raced_stays]]| |exact Hok|by apply Forall_nil_2].
  - split; [|done]. intros c o Hin. rewrite Forall_forall in H2. by apply (H2 _ Hin).
  - intros k1 c σ1 [-> Hc] HI. split; [reflexivity|]. split; [done|]. apply rg_ends_in. by apply connection_returns.
Qed.
End service.

(** ** Two connections *)
#[local] Existing Instance Two.stale_live.
#[local] Existing Instance readable_past_end.
Module Done.
(** Both clients of [Two], turn by turn until their tasks have ended. *)
Definition ended : tconf Two.service connection := foldl (λ k i, thread_move i k) Two.begun (concat (replicate 20 [0; 1])).
End Done.

Lemma empty_service_fit : fit_inv (n := 1) ([# Relay.empty_queue], ∅).
Proof.
  split; [|intros r o Ho; cbn in Ho; by rewrite lookup_empty in Ho]. intros j. inv_fin j; [|intros j; inv_fin j].
  split; cbn; intros i; rewrite lookup_empty; [done|by intros []].
Qed.

(** The clients of [Two], on a listener with a buffer of 256 bytes. *)
Lemma plain_client_fit c :
  limits_of c = (256, 256) → (∃ h, handler_of Relay.now c = Ret h) →
  connection_fit Relay.now Two.recv (λ _ _, Some 0) (λ _, replicate 256 NUL) c.
Proof.
  intros Hl Hh. split; [exact Hh|]. rewrite Hl.
  split; [apply segment_recv_ok|]. split; [reflexivity|]. split; [cbn; lia|]. split; [vm_compute; reflexivity|].
  intros rc b Hr. unfold Two.recv in Hr. destruct (decide (cn_socket c = 8%Z)); vm_compute in Hr; injection Hr as <- <-;
    vm_compute; by repeat constructor.
Qed.

Lemma connections_never_fail_witness :
  (λ t, has_ended t.2) <$> tc_threads Done.ended = [true; true] ∧
  (∀ c o, (c, PDone o) ∈ tc_threads Done.ended → o = Ret tt) ∧ fit_inv (tc_shared Done.ended).
Proof.
  split; [vm_compute; reflexivity|].
  enough ((∀ c o, (c, PDone o) ∈ tc_threads Done.ended → o = Ret tt ∨ (o = Undef ∧ service_raced (tc_shared Done.ended))) ∧
    fit_inv (tc_shared Done.ended)) as [H1 H2].
  { split; [|exact H2]. intros c o Hin. destruct (H1 c o Hin) as [Ho|[_ [j Hj]]]; [exact Ho|exfalso]. revert Hj.
    inv_fin j; [vm_compute; discriminate|intros j; inv_fin j]. }
  apply (connections_never_fail Relay.send_res Relay.now Relay.strerror Two.recv (λ _ _, Some 0) (λ _, replicate 256 NUL)
    ltac:(by intros t; exists t) ltac:(by eexists) Two.Routes ([# Relay.empty_queue], ∅)).
  - apply Forall_singleton. by eexists.
  - by apply Forall_singleton.
  - exact empty_service_fit.
  - assert (Hfit : ∀ fd, connection_fit Relay.now Two.recv (λ _ _, Some 0) (λ _, replicate 256 NUL) (Two.client fd)).
    { intros fd. apply plain_client_fit; [vm_compute; reflexivity|eexists; vm_compute; reflexivity]. }
    assert (Hst : ∀ k fd, star (pstep Two.code (starts_as_is (connection_fit Relay.now Two.recv (λ _ _, Some 0) (λ _, replicate 256 NUL))))
      k (MkThreads (tc_threads k ++ [(Two.client fd, Two.code (Two.client fd))]) (tc_shared k))).
    { intros k fd. apply star_one, p_start. split; [done|apply Hfit]. }
    eapply star_trans; [exact (Hst (MkThreads [] ([# Relay.empty_queue], ∅)) 8%Z)|].
    eapply star_trans; [exact (Hst (MkThreads [(Two.client 8, Two.code (Two.client 8))] ([# Relay.empty_queue], ∅)) 9%Z)|].
    apply thread_moves_star.
Defined.

(** ** What it takes *)
Module Edge.
#[local] Instance stale_live : StaleText := Live.
(** A PUT without a body that fills its buffer of 256 bytes to the last one. *)
Definition full_text : bytes := str "PUT /sms/ HTTP/1.1" ++ CRLF ++ str "Host: " ++ replicate 226 "a"%char ++ CRLF ++ CRLF.
Definition recv (c : connection) : nat → nat → recv_result :=
  segment_recv [if decide (cn_socket c = 7%Z) then str "GET /" else if decide (cn_socket c = 8%Z) then full_text
    else if decide (cn_socket c = 9%Z) then Relay.put_text else Relay.get_text].
Definition block (c : connection) : bytes := replicate (limits_of c).1 NUL.
Definition code `{!StaleText} : connection → prog Two.service unit :=
  pprocess_connection Relay.send_res Relay.now Relay.strerror recv (λ _ _, Some 0) block
    [(str "/sms/", queue_object Relay.send_res Relay.now 0%fin)].
Definition start : Two.service := ([# Relay.empty_queue], ∅).
(** The outcomes of the tasks of clients, one after the other. *)
Fixpoint outcomes `{!StaleText} (clients : list connection) (σ : Two.service) : list (outcome unit) :=
  match clients with
  | [] => []
  | c :: clients => let '(o, σ') := run (code c) σ in o :: outcomes clients σ'
  end.
Definition full_put : connection := Two.client 8.
Definition put : connection := Two.client 9.
Definition get : connection := Two.client 10.
(** Accepted by a listener whose head limit is above its query limit. *)
Definition wide : connection := Connection 77 7 (cn_addr get) (Listener 64 128).
Definition dangling : StaleText := λ _, Dangling.
End Edge.

(** What it takes: a client can PUT a request without a body that fills its
    buffer; the GET that is answered with it announces the length that strlen
    finds from the end of the buffer on, and reads outside.  With room in the
    buffer the same requests are answered.  When the head limit of a listener
    is above its query limit, the parser reads outside.  And when the text of a
    destroyed temporary is gone, as the standard has it, every answer of a queue
    reads it: the first GET of an empty queue. *)
Theorem empty_body_read_past_its_buffer :
  length Edge.full_text = 256 ∧
  @Edge.outcomes Edge.stale_live [Edge.full_put; Edge.get] Edge.start = [Ret tt; Undef] ∧
  @Edge.outcomes Edge.stale_live [Edge.put; Edge.get] Edge.start = [Ret tt; Ret tt] ∧
  @Edge.outcomes Edge.stale_live [Edge.wide] Edge.start = [Undef] ∧
  @Edge.outcomes Edge.dangling [Edge.get] Edge.start = [Undef].
Proof. split_and!; vm_compute; reflexivity. Qed.
