(* ===== verification/Descriptors.v ===== *)
(** * Descriptors: who closes what when workers answer at the same time

    Elsewhere a call of a request object is one action.  Here the code below
    those calls ([HttpImpl::Process], [HttpImpl::Reply], [http_close_connection]
    of [kernel/net/impl/httpimpl.cpp] and [Socket::Close] of [socketimpl.h]) is a
    program whose actions are the reads and writes of [Handle] and the system
    calls, and the system hands descriptors out again.  As long as one thread at
    a time works on an object, it does what the calls of [HttpReply] do, and no
    call reaches the socket of another connection.  Two answers at once do. *)
From Stdlib Require Import Ascii String.
From stdpp Require Import options relations gmap.
From S2P Require Import Prelude Findmatch Interleave RelyGuarantee Numerals Buffer HttpParse HttpReply.

#[local] Open Scope Z_scope.

(** The connection objects by address, the connection that each open descriptor
    was accepted for, and the system calls on descriptors: the object that made
    the call and the connection that it reached. *)
Record fdworld := FdWorld { fw_conns : gmap nat Conn; fw_owner : gmap Z nat; fw_calls : list (nat * option nat) }.

Section fine.
Context `{PAST : !PastEnd} (send_res : nat → nat → Z → bytes → Z) (now : nat → Z) (strerror : Z → bytes).

(** ** Actions *)
Definition on_conn {A} (r : nat) (m : M Conn A) : M fdworld A := λ w,
  match fw_conns w !! r with
  | None => (Undef, w)
  | Some c => let '(o, c') := m c in (o, FdWorld (<[r := c']> (fw_conns w)) (fw_owner w) (fw_calls w))
  end.

Definition called (r : nat) (fd : Z) : M fdworld unit := λ w,
  (Ret tt, FdWorld (fw_conns w) (fw_owner w) (fw_calls w ++ [(r, fw_owner w !! fd)])).

Definition load_handle (r : nat) : M fdworld Z := on_conn r (gets (λ c, Handle (http c))).
Definition store_handle (r : nat) (h : Z) : M fdworld unit := on_conn r (modify (set_handle h)).

(** [setsockopt] and [shutdown] *)
Definition sys_on (r : nat) (fd : Z) : M fdworld unit := called r fd.

Definition sys_send (r : nat) (fd : Z) (data : option bytes) (len : Z) : M fdworld Z :=
  _ ← (if decide (len = 0) then mret tt else called r fd);
  on_conn r (WriteData (send_res r) fd data len).

Definition log_close (fd : Z) : M Conn unit :=
  modify (λ c, set_net (MkNet (sends (net c)) (closes (net c) ++ [fd]) (ticks (net c))) c).

(** A descriptor that is not open cannot be closed. *)
Definition release (fd : Z) : M fdworld Z := λ w,
  (Ret (match fw_owner w !! fd with Some _ => 0 | None => -1 end),
   FdWorld (fw_conns w) (delete fd (fw_owner w)) (fw_calls w)).
Definition sys_close (r : nat) (fd : Z) : M fdworld Z :=
  _ ← called r fd; _ ← on_conn r (log_close fd); release fd.

(** ** Programs *)

(** [Socket::Close] *)
Definition pClose (r : nat) : prog fdworld unit :=
  h ← act (load_handle r);
  if decide (h ≠ 0) then
    h ← act (load_handle r);
    rc ← act (sys_close r h);
    if decide (rc = 0) then act (store_handle r 0) else mret tt
  else mret tt.

(** [http_close_connection] *)
Definition phttp_close_connection (r : nat) : prog fdworld unit :=
  h ← act (load_handle r);
  if decide (h ≠ 0) then
    h ← act (load_handle r);
    _ ← act (sys_on r h);
    _ ← pClose r;
    act (store_handle r 0)
  else mret tt.

(** The text of the answer, with the time it is made. *)
Definition prepare (Code : Z) (Message Content : option bytes) (ContentLength : Z)
    (HttpHeaders : list (cptr * cptr)) (ConnectionClose : bool) : M Conn bytes :=
  c ← get;
  Answer ← lift (answer_head (MsgId (http c)) Code Message Content ContentLength HttpHeaders ConnectionClose);
  t ← timestamp now;
  let tm := Telemetry (http c) in
  let tm := MkTelemetry (tmCreatedAt tm) (tmReadingAt tm) t (tmEmplacedAt tm) (tmExtractedAt tm) in
  _ ← modify (set_telemetry tm);
  mret (Answer ++ answer_telemetry tm ++ CRLF).

(** [Socket::WriteData(Handle, ...)] *)
Definition pWriteData (r : nat) (data : option bytes) (len : Z) : prog fdworld Z :=
  h ← act (load_handle r);
  act (sys_send r h data len).

(** [HttpImpl::Reply] *)
Definition pReply (r : nat) (Code : Z) (Message Content : option bytes) (ContentLength : Z)
    (HttpHeaders : list (cptr * cptr)) (ConnectionClose : bool) : prog fdworld unit :=
  Answer ← act (on_conn r (prepare Code Message Content ContentLength HttpHeaders ConnectionClose));
  n1 ← pWriteData r (Some Answer) (Z.of_nat (length Answer));
  ok ← (if decide (n1 ≠ Z.of_nat (length Answer)) then mret false
        else n2 ← pWriteData r Content ContentLength; mret (bool_decide (n2 = ContentLength)));
  if ok : bool then
    if ConnectionClose then phttp_close_connection r else mret tt
  else
    _ ← phttp_close_connection r;
    c ← act (on_conn r get);
    PDone (Throw (send_error c)).

Definition pReply_code (r : nat) (Code : Z) : prog fdworld unit := pReply r Code None None 0 [] true.

(** [ReadData(Handle, ...)], and the time. *)
Definition receive (recv : nat → nat → recv_result) (ioctl : nat → option nat) (fresh : bytes) :
    M Conn (Z * ReadBufferImpl) :=
  c ← get;
  '(result, raw) ← lift (Read recv ioctl (ReadBufferImpl_new 0) fresh (MaxRequestLength (http c)) (MaxHeaderLength (http c)));
  t ← timestamp now;
  let tm := Telemetry (http c) in
  _ ← modify (set_telemetry (MkTelemetry (tmCreatedAt tm) t (tmFinishedAt tm) (tmEmplacedAt tm) (tmExtractedAt tm)));
  mret (result, raw).
Definition parse (raw : ReadBufferImpl) : M Conn Z :=
  c ← get;
  '(code, request) ← lift (http_parse_request raw (Request (http c)));
  _ ← modify (set_request request);
  mret code.

(** [setsockopt(Handle, ...)] and [recv(Handle, ...)] *)
Definition pcall (r : nat) : prog fdworld unit :=
  h ← act (load_handle r);
  act (sys_on r h).

(** [HttpImpl::Process] *)
Definition pProcess (r : nat) (recv : nat → nat → recv_result) (ioctl : nat → option nat) (fresh : bytes) :
    prog fdworld unit :=
  c ← act (on_conn r get);
  let at_ := AddressText (http c) ++ str ":" ++ to_string (AddressPort (http c)) in
  _ ← pcall r;
  _ ← pcall r;
  '(result, raw) ← act (on_conn r (receive recv ioctl fresh));
  if decide (result ≠ 0) then
    _ ← pReply_code r 408;
    PDone (Throw (RuntimeException (runtime_what (str "httpimpl.cpp") 94
      (str "Invalid receive data " ++ at_ ++ str ". Socket error " ++ strerror result ++ str "("
        ++ to_string result ++ str "). MsgId: " ++ to_string (MsgId (http c))))))
  else
    code ← act (on_conn r (parse raw));
    if decide (code ≠ 0) then
      _ ← pReply_code r code;
      PDone (Throw (RuntimeException (runtime_what (str "httpimpl.cpp") 99
        (str "Invalid HTTP request " ++ at_ ++ str ". HTTP error: " ++ to_string code
          ++ str ".  MsgId: " ++ to_string (MsgId (http c))))))
    else mret tt.

Definition pop (r : nat) (op : conn_op) : prog fdworld unit :=
  match op with
  | OpReply Code Message Content len hs close => pReply r Code Message Content len hs close
  | OpProcess recv ioctl fresh => pProcess r recv ioctl fresh
  end.

(** The operations on a connection, one after the other, each one's exception
    caught by its caller; then [~HttpImpl]. *)
Fixpoint pops (r : nat) (ops : list conn_op) : prog fdworld unit :=
  match ops with
  | [] => phttp_close_connection r
  | op :: ops => _ ← packaged (pop r op); pops r ops
  end.

(** A connection that is accepted, and what a thread will do with it. *)
Record accepted_conn := Accepted { ac_object : nat; ac_conn : Conn; ac_ops : list conn_op }.
Definition accepted_code (a : accepted_conn) : prog fdworld unit := pops (ac_object a) (ac_ops a).

(** [accept] returns a descriptor that is not open; the object is new. *)
Definition accepts (k : tconf fdworld accepted_conn) (a : accepted_conn) (w' : fdworld) : Prop :=
  let w := tc_shared k in
  let h := Handle (http (ac_conn a)) in
  fw_conns w !! ac_object a = None ∧ h ≠ 0 ∧ fw_owner w !! h = None ∧
  w' = FdWorld (<[ac_object a := ac_conn a]> (fw_conns w)) (<[h := ac_object a]> (fw_owner w)) (fw_calls w).

(** ** One thread for each object *)

(** The object of [r] is as [c] says, and has the descriptor of its handle. *)
Definition own (r : nat) (c : Conn) (w : fdworld) : Prop :=
  fw_conns w !! r = Some c ∧ ∀ fd, fw_owner w !! fd = Some r ↔ fd = Handle (http c) ∧ fd ≠ 0.

(** What the others leave alone, and what a thread leaves alone. *)
Definition mine_kept (r : nat) (w w' : fdworld) : Prop :=
  fw_conns w' !! r = fw_conns w !! r ∧ ∀ fd, fw_owner w' !! fd = Some r ↔ fw_owner w !! fd = Some r.
Definition others_kept (r : nat) (w w' : fdworld) : Prop :=
  (∀ r', r' ≠ r → mine_kept r' w w') ∧ (is_Some (fw_conns w !! r) → is_Some (fw_conns w' !! r)).

(** Descriptors belong to objects that exist; descriptor 0 is the standard
    input; and no call has reached the connection of another object. *)
Definition no_stranger (w : fdworld) : Prop :=
  fw_owner w !! 0 = None ∧ (∀ fd r, fw_owner w !! fd = Some r → is_Some (fw_conns w !! r)) ∧
  Forall (λ x, x.2 = None ∨ x.2 = Some x.1) (fw_calls w).

#[export] Instance mine_kept_preorder r : PreOrder (mine_kept r).
Proof.
  split; [by intros w|]. intros w1 w2 w3 [H1 H2] [H3 H4]. split; [congruence|]. intros fd. by rewrite H4.
Qed.

Lemma others_kept_trans r w1 w2 w3 : others_kept r w1 w2 → others_kept r w2 w3 → others_kept r w1 w3.
Proof.
  intros [H1 H2] [H3 H4]. split; [intros r' Hr; etrans; [by apply H1|by apply H3]|by auto].
Qed.

Lemma own_kept r c w w' : mine_kept r w w' → own r c w → own r c w'.
Proof. intros [H1 H2] [H3 H4]. split; [congruence|]. intros fd. by rewrite H2. Qed.

Abbreviation alone r := (rg (mine_kept r) (others_kept r) no_stranger).

(** The program does to its object what [m] does to the connection. *)
Definition tracks {A} (r : nat) (p : prog fdworld A) (m : M Conn A) : Prop :=
  ∀ c w, own r c w → alone r (λ o w', o = (m c).1 ∧ own r (m c).2 w') w p.

Lemma tracks_ext {A} r (p : prog fdworld A) (m m' : M Conn A) : (∀ c, m c = m' c) → tracks r p m → tracks r p m'.
Proof. intros Hm Hp c w Hw. specialize (Hp c w Hw). by rewrite Hm in Hp. Qed.

Lemma tracks_done {A} r (o : outcome A) : tracks r (PDone o) (lift o).
Proof. by intros c w Hw. Qed.
Lemma tracks_ret {A} r (a : A) : tracks r (mret a) (mret a).
Proof. by intros c w Hw. Qed.
Lemma tracks_throw {A} r e : tracks r (PDone (Throw e) : prog fdworld A) (throw e).
Proof. by intros c w Hw. Qed.

Lemma tracks_bind {A B} r (p : prog fdworld A) (f : A → prog fdworld B) m g :
  tracks r p m → (∀ a, tracks r (f a) (g a)) → tracks r (p ≫= f) (m ≫= g).
Proof.
  intros Hp Hf c w Hw. eapply rg_bind; [by apply Hp|]. intros o w' [-> Hw'].
  unfold mbind, M_bind. destruct (m c) as [[a|e| |] c']; [by apply (Hf a c' w')|done..].
Qed.

Lemma tracks_decide {A} r P `{!Decision P} (p q : prog fdworld A) m n :
  tracks r p m → tracks r q n → tracks r (if decide P then p else q) (if decide P then m else n).
Proof. by case_decide. Qed.
Lemma tracks_if {A} r (b : bool) (p q : prog fdworld A) m n :
  tracks r p m → tracks r q n → tracks r (if b then p else q) (if b then m else n).
Proof. by destruct b. Qed.

Lemma tracks_packaged r (p : prog fdworld unit) m :
  tracks r p m → tracks r (packaged p) (λ c, (match (m c).1 with Throw _ => Ret tt | o => o end, (m c).2)).
Proof.
  intros Hp c w Hw. apply rg_packaged. eapply rg_mono; [|by apply Hp]. intros o w' [-> Hw'].
  split; [by destruct (m c).1|exact Hw'].
Qed.

(** An action, where what it needs stays. *)
Lemma alone_act {A} r (P : fdworld → Prop) (Φ : outcome A → fdworld → Prop) (a : M fdworld A) w :
  (∀ w w', mine_kept r w w' → P w → P w') → P w →
  (∀ w, P w → no_stranger w → Φ (a w).1 (a w).2 ∧ others_kept r w (a w).2 ∧ no_stranger (a w).2) →
  alone r Φ w (act a).
Proof.
  intros HP H0 Ha w' Hk HI. destruct (Ha w' (HP _ _ Hk H0) HI) as (H1 & H2 & H3). split; [exact H2|]. by split.
Qed.

Lemma tracks_act {A} r (a : M fdworld A) (m : M Conn A) :
  (∀ c w, own r c w → no_stranger w →
    ((a w).1 = (m c).1 ∧ own r (m c).2 (a w).2) ∧ others_kept r w (a w).2 ∧ no_stranger (a w).2) →
  tracks r (act a) m.
Proof. intros Ha c w Hw. apply (alone_act r (own r c)); [intros; by eapply own_kept|done|]. intros w' Hw'. by apply Ha. Qed.

(** *** The actions *)

(** What changes an object but not its handle. *)
Definition keeps_handle {A} (m : M Conn A) : Prop := ∀ c, Handle (http (m c).2) = Handle (http c).

Lemma on_conn_own {A} r (m : M Conn A) c w :
  own r c w → on_conn r m w = ((m c).1, FdWorld (<[r := (m c).2]> (fw_conns w)) (fw_owner w) (fw_calls w)).
Proof. intros [Hc _]. unfold on_conn. rewrite Hc. by destruct (m c). Qed.

Lemma conn_changed r c' (w : fdworld) :
  is_Some (fw_conns w !! r) → no_stranger w →
  let w' := FdWorld (<[r := c']> (fw_conns w)) (fw_owner w) (fw_calls w) in others_kept r w w' ∧ no_stranger w'.
Proof.
  intros Hr (H1 & H2 & H3) w'. split; [split|split_and!]; cbn.
  - intros r' Hne. split; cbn; [by rewrite lookup_insert_ne|done].
  - intros _. by rewrite lookup_insert_eq.
  - done.
  - intros fd r' Hfd. destruct (decide (r' = r)) as [->|Hne]; [by rewrite lookup_insert_eq|]. rewrite lookup_insert_ne by done. by apply (H2 fd).
  - done.
Qed.

Lemma tracks_on_conn {A} r (m : M Conn A) : keeps_handle m → tracks r (act (on_conn r m)) m.
Proof.
  intros Hm. apply tracks_act. intros c w Hw HI. rewrite (on_conn_own r m c w Hw). cbn.
  destruct (conn_changed r (m c).2 w) as [H1 H2]; [by destruct Hw as [-> _]|done|]. split; [|by split]. split; [done|].
  split; cbn; [by rewrite lookup_insert_eq|]. rewrite Hm. apply Hw.
Qed.

(** A call on the own descriptor reaches the own connection, or nobody. *)
Lemma called_own r c w :
  own r c w → no_stranger w →
  let w' := (called r (Handle (http c)) w).2 in own r c w' ∧ others_kept r w w' ∧ no_stranger w'.
Proof.
  intros [H1 H2] (H3 & H4 & H5) w'. split; [by split|]. split; [by split|]. split_and!; [done|done|]. cbn.
  apply Forall_app. split; [done|]. apply Forall_singleton. cbn.
  destruct (decide (Handle (http c) = 0)) as [->|Hh]; [by left|]. right. by apply H2.
Qed.

Lemma tracks_load r : tracks r (act (load_handle r)) (gets (λ c, Handle (http c))).
Proof. by apply tracks_on_conn. Qed.

(** What is done with the handle that was read. *)
Lemma tracks_with_handle {A} r (f : Z → prog fdworld A) (m : M Conn A) :
  (∀ c w, own r c w → alone r (λ o w', o = (m c).1 ∧ own r (m c).2 w') w (f (Handle (http c)))) →
  tracks r (act (load_handle r) ≫= f) m.
Proof. intros Hf c w Hw. eapply rg_bind; [by apply tracks_load|]. intros o w' [-> Hw']. by apply Hf. Qed.

Lemma sys_on_alone r c w :
  own r c w → alone r (λ o w', o = Ret tt ∧ own r c w') w (act (sys_on r (Handle (http c)))).
Proof.
  intros Hw. apply (alone_act r (own r c)); [intros; by eapply own_kept|done|].
  intros w' Hw' HI. destruct (called_own r c w' Hw' HI) as (H1 & H2 & H3). split; [by split|]. by split.
Qed.

Lemma WriteData_http send h data len c : http (WriteData send h data len c).2 = http c.
Proof. unfold WriteData. case_decide; [done|]. destruct data; [|done]. by case_decide. Qed.
Lemma WriteData_keeps_handle send h data len : keeps_handle (WriteData send h data len).
Proof. intros c. by rewrite WriteData_http. Qed.

Lemma tracks_WriteData r data len :
  tracks r (pWriteData r data len) (λ c, WriteData (send_res r) (Handle (http c)) data len c).
Proof.
  apply tracks_with_handle. intros c w Hw. apply (alone_act r (own r c)); [intros; by eapply own_kept|done|].
  clear w Hw. intros w Hw HI. set (h := Handle (http c)). set (m := WriteData (send_res r) h data len). unfold sys_send. fold m.
  assert (Hcall : ∃ w1, (if decide (len = 0) then mret tt else called r h) w = (Ret tt, w1) ∧
    own r c w1 ∧ others_kept r w w1 ∧ no_stranger w1).
  { case_decide; [by exists w|]. exists (called r h w).2. split; [done|]. by apply called_own. }
  destruct Hcall as (w1 & Hrun & Hw1 & H1 & HI1). rewrite (bind_returns _ _ _ _ _ Hrun), (on_conn_own r m c w1 Hw1). cbn [fst snd].
  destruct (conn_changed r (m c).2 w1) as [H2 H3]; [by destruct Hw1 as [-> _]|done|].
  split; [|split; [by eapply others_kept_trans|done]]. split; [done|]. split; cbn; [by rewrite lookup_insert_eq|].
  unfold m. rewrite WriteData_keeps_handle. apply Hw1.
Qed.

(** *** Closing *)

(** The object of [r] is as [c] says, and has no descriptor any more. *)
Definition left_closed (r : nat) (c : Conn) (w : fdworld) : Prop :=
  fw_conns w !! r = Some c ∧ ∀ fd, fw_owner w !! fd ≠ Some r.

Lemma left_closed_kept r c w w' : mine_kept r w w' → left_closed r c w → left_closed r c w'.
Proof. intros [H1 H2] [H3 H4]. split; [congruence|]. intros fd Hfd. by apply (H4 fd), H2. Qed.

Lemma left_closed_own r c w : Handle (http c) = 0 → left_closed r c w → own r c w.
Proof. intros Hh [H1 H2]. split; [done|]. intros fd. split; [intros Hfd; by destruct (H2 fd)|]. intros [-> Hne]. by rewrite Hh in Hne. Qed.

Definition closed_conn (c : Conn) : Conn :=
  set_net (MkNet (sends (net c)) (closes (net c) ++ [Handle (http c)]) (ticks (net c))) c.

Lemma release_mine r h (w : fdworld) :
  fw_owner w !! h = Some r → no_stranger w →
  let w' := (release h w).2 in
  (∀ fd, fw_owner w' !! fd = Some r → fw_owner w !! fd = Some r ∧ fd ≠ h) ∧ others_kept r w w' ∧ no_stranger w'.
Proof.
  intros Hh (H1 & H2 & H3) w'. split; [|split; [split|split_and!]]; cbn.
  - intros fd [Hne Hfd]%lookup_delete_Some. by split.
  - intros r' Hne. split; [done|]. intros fd. cbn. destruct (decide (fd = h)) as [->|Hfd].
    + rewrite lookup_delete_eq, Hh. split; [done|congruence].
    + by rewrite lookup_delete_ne.
  - done.
  - destruct (decide (0 = h)) as [<-|Hne]; [by rewrite lookup_delete_eq|by rewrite lookup_delete_ne].
  - intros fd r' [_ Hfd]%lookup_delete_Some. by apply (H2 fd).
  - done.
Qed.

Lemma sys_close_own r c w :
  own r c w → no_stranger w → Handle (http c) ≠ 0 →
  let '(o, w') := sys_close r (Handle (http c)) w in
  o = Ret 0 ∧ left_closed r (closed_conn c) w' ∧ others_kept r w w' ∧ no_stranger w'.
Proof.
  intros Hw HI Hne. set (h := Handle (http c)). destruct (called_own r c w Hw HI) as (Hw1 & H1 & HI1). fold h in Hw1, H1, HI1.
  unfold sys_close. rewrite (bind_returns _ _ w tt (called r h w).2) by done. set (w1 := (called r h w).2) in *.
  rewrite (bind_returns _ _ w1 tt _ (on_conn_own r (log_close h) c w1 Hw1)).
  destruct (conn_changed r (closed_conn c) w1) as [H2 HI2]; [by destruct Hw1 as [-> _]|done|].
  change (log_close h c).2 with (closed_conn c). set (w2 := FdWorld _ _ _) in *.
  assert (Hown : fw_owner w2 !! h = Some r) by by apply Hw1.
  destruct (release_mine r h w2 Hown HI2) as (H3 & H4 & HI4). unfold release in *. rewrite Hown. cbn [snd] in *.
  split; [done|]. split; [|split; [|done]].
  - split; cbn; [by rewrite lookup_insert_eq|]. intros fd Hfd. destruct (H3 fd Hfd) as [Hin Hfdh]. apply Hw1 in Hin as [Hin _]. done.
  - eapply others_kept_trans; [exact H1|]. eapply others_kept_trans; [exact H2|exact H4].
Qed.

Lemma store_closed r c w :
  left_closed r c w → no_stranger w →
  let '(o, w') := store_handle r 0 w in
  o = Ret tt ∧ left_closed r (set_handle 0 c) w' ∧ others_kept r w w' ∧ no_stranger w'.
Proof.
  intros [H1 H2] HI. unfold store_handle, on_conn. rewrite H1. cbn.
  destruct (conn_changed r (set_handle 0 c) w) as [H3 H4]; [by rewrite H1|done|].
  split; [done|]. split; [|by split]. split; cbn; [by rewrite lookup_insert_eq|done].
Qed.

Lemma alone_store r c w :
  left_closed r c w → alone r (λ o w', o = Ret tt ∧ left_closed r (set_handle 0 c) w') w (act (store_handle r 0)).
Proof.
  intros Hw. apply (alone_act r (left_closed r c)); [intros; by eapply left_closed_kept|done|]. intros w' Hw' HI.
  pose proof (store_closed r c w' Hw' HI) as H. destruct (store_handle r 0 w') as [o w1]. destruct H as (-> & H1 & H2). done.
Qed.

Lemma pClose_alone r c w :
  own r c w → Handle (http c) ≠ 0 →
  alone r (λ o w', o = Ret tt ∧ left_closed r (set_handle 0 (closed_conn c)) w') w (pClose r).
Proof.
  intros Hw Hne. eapply rg_bind; [by apply tracks_load|]. intros o w1 [-> Hw1]. cbn [after fst gets].
  rewrite decide_True by done. eapply rg_bind; [by apply tracks_load|]. intros o w2 [-> Hw2]. cbn [after fst gets].
  eapply (rg_bind _ _ _ (λ o w', o = Ret 0 ∧ left_closed r (closed_conn c) w')).
  - apply (alone_act r (own r c)); [intros; by eapply own_kept|done|]. intros w' Hw' HI.
    pose proof (sys_close_own r c w' Hw' HI Hne) as H. destruct (sys_close _ _ w') as [o w3]. destruct H as (-> & H1 & H2). done.
  - intros o w3 [-> Hw3]. cbn [after]. rewrite decide_True by done. by apply alone_store.
Qed.

Lemma tracks_close r : tracks r (phttp_close_connection r) http_close_connection.
Proof.
  apply tracks_with_handle. intros c w Hw. unfold http_close_connection. case_decide as Hne; [|by split].
  eapply rg_bind; [by apply tracks_load|]. intros o w1 [-> Hw1]. cbn [after fst gets].
  eapply rg_bind; [by apply sys_on_alone|]. intros o w2 [-> Hw2]. cbn [after].
  eapply rg_bind; [by apply (pClose_alone r c)|]. intros o w3 [-> Hw3]. cbn [after].
  eapply rg_mono; [|by apply alone_store]. intros o w4 [-> Hw4]. split; [done|]. by apply left_closed_own.
Qed.

(** *** Answering and processing *)

Lemma prepare_keeps_handle code msg content len hs close : keeps_handle (prepare code msg content len hs close).
Proof. intros c. unfold prepare, mbind, M_bind, get, lift. cbn. by destruct (answer_head _ _ _ _ _ _ _). Qed.

(** [Reply] reads the handle again before each send, and the address for the
    exception at the end. *)
Lemma send_error_close c : send_error (http_close_connection c).2 = send_error c.
Proof. unfold http_close_connection. by case_decide. Qed.

Definition Reply_steps (r : nat) code msg content len hs (close : bool) : M Conn unit :=
  Answer ← prepare code msg content len hs close;
  n1 ← (λ c, WriteData (send_res r) (Handle (http c)) (Some Answer) (Z.of_nat (length Answer)) c);
  ok ← (if decide (n1 ≠ Z.of_nat (length Answer)) then mret false
        else n2 ← (λ c, WriteData (send_res r) (Handle (http c)) content len c); mret (bool_decide (n2 = len)));
  if ok : bool then if close then http_close_connection else mret tt
  else _ ← http_close_connection; c ← get; throw (send_error c).

Lemma Reply_steps_eq r code msg content len hs close c :
  Reply_steps r code msg content len hs close c = Reply (send_res r) now code msg content len hs close c.
Proof.
  unfold Reply_steps, Reply, prepare, mbind, M_bind, get, lift, modify, timestamp, mret, M_ret, throw.
  destruct (answer_head _ _ _ _ _ _ _) as [Answer|e| |]; [|done..]. cbn [http net set_telemetry set_net Handle].
  set (text := Answer ++ _). set (c1 := set_telemetry _ _). change (Handle (http c)) with (Handle (http c1)).
  pose proof (WriteData_http (send_res r) (Handle (http c1)) (Some text) (Z.of_nat (length text)) c1) as H1.
  destruct (WriteData _ _ _ _ c1) as [[n1|e| |] c2]; [|done..]. cbn [snd] in H1.
  assert (Hend : ∀ c', http c' = http c1 → (let '(o, c3) := http_close_connection c' in
      match o with Ret _ => (Throw (send_error c3), c3) | Throw e => (Throw e, c3) | Terminate => (Terminate, c3) | Undef => (Undef, c3) end) =
    (let '(o, c3) := http_close_connection c' in
      match o with Ret _ => (Throw (send_error c), c3) | Throw e => (Throw e, c3) | Terminate => (Terminate, c3) | Undef => (Undef, c3) end) :> outcome unit * Conn).
  { intros c' Hc'. pose proof (send_error_close c') as He. destruct (http_close_connection c') as [[[]|e| |] c3]; [|done..].
    cbn [snd] in He. rewrite He. unfold send_error. by rewrite Hc'. }
  case_decide; [by apply Hend|]. rewrite H1.
  pose proof (WriteData_http (send_res r) (Handle (http c1)) content len c2) as H2.
  destruct (WriteData _ _ _ _ c2) as [[n2|e| |] c3]; [|done..]. cbn [snd] in H2.
  case_bool_decide; [done|]. apply Hend. congruence.
Qed.

Lemma tracks_Reply r code msg content len hs close :
  tracks r (pReply r code msg content len hs close) (Reply (send_res r) now code msg content len hs close).
Proof.
  apply (tracks_ext r _ (Reply_steps r code msg content len hs close)); [intros c; apply Reply_steps_eq|].
  apply tracks_bind.
  - apply tracks_on_conn, prepare_keeps_handle.
  - intros Answer. apply tracks_bind; [apply tracks_WriteData|]. intros n1. apply tracks_bind.
    + apply tracks_decide; [apply tracks_ret|]. apply tracks_bind; [apply tracks_WriteData|]. intros n2. apply tracks_ret.
    + intros ok. apply tracks_if; [apply tracks_if; [apply tracks_close|apply tracks_ret]|].
      apply tracks_bind; [apply tracks_close|]. intros _. apply tracks_bind; [by apply tracks_on_conn|]. intros c. apply tracks_throw.
Qed.

Lemma tracks_call r : tracks r (pcall r) (mret tt).
Proof. apply tracks_with_handle. intros c w Hw. by apply sys_on_alone. Qed.

Lemma receive_keeps_handle recv ioctl fresh : keeps_handle (receive recv ioctl fresh).
Proof. intros c. unfold receive, mbind, M_bind, get, lift. by destruct (Read recv ioctl _ fresh _ _) as [[]|e| |]. Qed.
Lemma parse_keeps_handle raw : keeps_handle (parse raw).
Proof. intros c. unfold parse, mbind, M_bind, get, lift. by destruct (http_parse_request raw _) as [[]|e| |]. Qed.

Definition Process_steps (r : nat) recv ioctl fresh : M Conn unit :=
  c ← get;
  let at_ := AddressText (http c) ++ str ":" ++ to_string (AddressPort (http c)) in
  _ ← mret tt;
  _ ← mret tt;
  '(result, raw) ← receive recv ioctl fresh;
  if decide (result ≠ 0) then
    _ ← Reply_code (send_res r) now 408;
    throw (RuntimeException (runtime_what (str "httpimpl.cpp") 94
      (str "Invalid receive data " ++ at_ ++ str ". Socket error " ++ strerror result ++ str "("
        ++ to_string result ++ str "). MsgId: " ++ to_string (MsgId (http c)))))
  else
    code ← parse raw;
    if decide (code ≠ 0) then
      _ ← Reply_code (send_res r) now code;
      throw (RuntimeException (runtime_what (str "httpimpl.cpp") 99
        (str "Invalid HTTP request " ++ at_ ++ str ". HTTP error: " ++ to_string code
          ++ str ".  MsgId: " ++ to_string (MsgId (http c)))))
    else mret tt.

Lemma Process_steps_eq r recv ioctl fresh c :
  Process_steps r recv ioctl fresh c = Process (send_res r) now recv ioctl fresh strerror c.
Proof.
  unfold Process_steps, Process, receive, parse, mbind, M_bind, get, lift, modify, timestamp, mret, M_ret, throw.
  destruct (Read _ _ _ _ _ _) as [[result raw]|e| |]; [|done..]. cbn [http net set_telemetry set_net Request].
  case_decide; [done|]. set (c1 := set_telemetry _ _). change (Request (http c)) with (Request (http c1)).
  by destruct (http_parse_request raw (Request (http c1))) as [[code request]|e| |].
Qed.

Lemma tracks_Reply_code r code : tracks r (pReply_code r code) (Reply_code (send_res r) now code).
Proof. exact (tracks_Reply r code None None 0 [] true). Qed.

Lemma tracks_fail {A} r code e :
  tracks r (_ ← pReply_code r code; PDone (Throw e) : prog fdworld A) (_ ← Reply_code (send_res r) now code; throw e).
Proof. apply tracks_bind; [apply tracks_Reply_code|]. intros _. apply tracks_throw. Qed.

Lemma tracks_Process r recv ioctl fresh :
  tracks r (pProcess r recv ioctl fresh) (Process (send_res r) now recv ioctl fresh strerror).
Proof.
  apply (tracks_ext r (pProcess r recv ioctl fresh) (Process_steps r recv ioctl fresh) _ (Process_steps_eq r recv ioctl fresh)).
  apply tracks_bind; [by apply tracks_on_conn|]. intros c.
  apply tracks_bind; [apply tracks_call|]. intros _. apply tracks_bind; [apply tracks_call|]. intros _.
  apply tracks_bind; [apply tracks_on_conn, receive_keeps_handle|]. intros [result raw].
  apply tracks_decide; [exact (tracks_fail r _ _)|].
  apply tracks_bind; [apply tracks_on_conn, parse_keeps_handle|]. intros code.
  apply tracks_decide; [exact (tracks_fail r _ _)|apply tracks_ret].
Qed.

Lemma tracks_op r op : tracks r (pop r op) (run_op (send_res r) now strerror op).
Proof. destruct op; [apply tracks_Reply|apply tracks_Process]. Qed.

(** ** What exclusive use gives *)

(** The calls of a thread, each one's exception caught, and the destructor. *)
Fixpoint ops_run (r : nat) (ops : list conn_op) : M Conn unit :=
  match ops with
  | [] => http_close_connection
  | op :: ops => _ ← (λ c, (match (run_op (send_res r) now strerror op c).1 with Throw _ => Ret tt | o => o end,
                            (run_op (send_res r) now strerror op c).2)); ops_run r ops
  end.

Lemma tracks_ops r ops : tracks r (pops r ops) (ops_run r ops).
Proof.
  induction ops as [|op ops IH]; [apply tracks_close|]. apply tracks_bind; [apply tracks_packaged, tracks_op|]. intros _. exact IH.
Qed.

Lemma ops_run_end r ops c :
  (ops_run r ops c).1 = Ret tt → (ops_run r ops c).2 = (HttpImpl_destroy (run_ops (send_res r) now strerror ops c)).2.
Proof.
  revert c. induction ops as [|op ops IH]; intros c; [done|]. cbn [ops_run run_ops]. unfold mbind, M_bind.
  destruct (run_op (send_res r) now strerror op c) as [[[]|e| |] c1]; cbn [fst snd]; [apply IH..|done|done].
Qed.

Definition handled (a : accepted_conn) (o : outcome unit) (w : fdworld) : Prop :=
  o = (ops_run (ac_object a) (ac_ops a) (ac_conn a)).1 ∧ own (ac_object a) (ops_run (ac_object a) (ac_ops a) (ac_conn a)).2 w.

(** The objects that threads have exist. *)
Definition objects_exist (as_ : list accepted_conn) (w : fdworld) : Prop :=
  ∀ a, a ∈ as_ → is_Some (fw_conns w !! ac_object a).

Lemma accepted_own k a w' :
  accepts k a w' → no_stranger (tc_shared k) →
  no_stranger w' ∧ own (ac_object a) (ac_conn a) w' ∧
  ∀ r, r ≠ ac_object a → is_Some (fw_conns (tc_shared k) !! r) → mine_kept r (tc_shared k) w'.
Proof.
  intros (Hnew & Hh & Hfree & ->) (H1 & H2 & H3). set (h := Handle (http (ac_conn a))) in *.
  assert (Hnone : ∀ fd, fw_owner (tc_shared k) !! fd ≠ Some (ac_object a)).
  { intros fd Hfd. destruct (H2 _ _ Hfd) as [c Hc]. congruence. }
  split; [split_and!|split; [split|]]; cbn.
  - by rewrite lookup_insert_ne.
  - intros fd r [[<- <-]|[_ Hfd]]%lookup_insert_Some; [by rewrite lookup_insert_eq|].
    destruct (H2 _ _ Hfd) as [c Hc]. rewrite lookup_insert_ne by congruence. by exists c.
  - done.
  - by rewrite lookup_insert_eq.
  - intros fd. fold h. rewrite lookup_insert_Some. split; [intros [[<- _]|[_ Hfd]]; [done|by destruct (Hnone fd)]|]. intros [-> _]. by left.
  - intros r Hr _. split; cbn; [by rewrite lookup_insert_ne|]. intros fd. rewrite lookup_insert_Some.
    split; [by intros [[_ Heq]|[_ Hfd]]; [destruct Hr|]|]. intros Hfd. right. split; [congruence|done].
Qed.

Lemma accepted_sound k :
  star (pstep accepted_code accepts) (MkThreads [] (FdWorld ∅ ∅ [])) k →
  no_stranger (tc_shared k) ∧
  Forall (λ t, alone (ac_object t.1) (handled t.1) (tc_shared k) t.2) (tc_threads k).
Proof.
  intros Hs.
  apply (interleaving_sound _ _ (λ a, mine_kept (ac_object a)) (λ a, others_kept (ac_object a)) no_stranger objects_exist
    handled (λ a b, ac_object a ≠ ac_object b)) in Hs as (H1 & _ & H2 & _); [by split|..].
  - intros a o w w' Hk [-> Hw]. split; [done|]. by eapply own_kept.
  - intros a b w w' Hab [Hg _]. by apply Hg.
  - intros as_ a w w' Ha [Hg Hex] HJ b Hb. destruct (decide (ac_object b = ac_object a)) as [->|Hne]; [by apply Hex, HJ|].
    destruct (Hg _ Hne) as [-> _]. by apply HJ.
  - intros k1 a w' Hacc HI HJ. destruct (accepted_own k1 a w' Hacc HI) as (H1 & H2 & H3).
    destruct Hacc as (Hnew & _ & _ & ->). split; [exact H1|]. split; [|split].
    + intros b [Hb|Hb]%elem_of_app; cbn; [|apply list_elem_of_singleton in Hb as ->; by rewrite lookup_insert_eq].
      rewrite lookup_insert_ne; [by apply HJ|]. intros Heq. destruct (HJ b Hb) as [c Hc]. congruence.
    + eapply rg_mono; [|exact (tracks_ops _ (ac_ops a) _ _ H2)]. done.
    + apply Forall_forall. intros b Hb. destruct (HJ b Hb) as [c Hc].
      assert (Hne : ac_object b ≠ ac_object a) by congruence. split_and!; [done|done|]. apply H3; [done|by exists c].
  - split_and!; [split_and!|..]; try done. intros a Ha. by apply not_elem_of_nil in Ha.
Qed.

(** C7: request objects may be taken for atomic: however the reads and writes of
    handles and the system calls of threads interleave with each other and with
    new connections that are given the descriptors of old ones, as long as each
    object is used by one thread, a thread that ends has done to its object what
    the replies and the processing of [HttpReply] do one after the other, its
    descriptor is open no more, and no call of any thread has reached the
    connection of another. *)
Theorem exclusive_use_is_atomic (k : tconf fdworld accepted_conn) :
  star (pstep accepted_code accepts) (MkThreads [] (FdWorld ∅ ∅ [])) k →
  (∀ a, (a, PDone (Ret tt)) ∈ tc_threads k →
    fw_conns (tc_shared k) !! ac_object a =
      Some (HttpImpl_destroy (run_ops (send_res (ac_object a)) now strerror (ac_ops a) (ac_conn a))).2 ∧
    ∀ fd, fw_owner (tc_shared k) !! fd ≠ Some (ac_object a)) ∧
  Forall (λ x, x.2 = None ∨ x.2 = Some x.1) (fw_calls (tc_shared k)).
Proof.
  intros Hs. destruct (accepted_sound k Hs) as ((_ & _ & H1) & H2). split; [|exact H1].
  intros a Ha. rewrite Forall_forall in H2. destruct (H2 _ Ha) as [Ho [Hc Hown]]. cbn [fst] in *.
  rewrite (ops_run_end _ _ _ (eq_sym Ho)) in Hc, Hown. split; [done|]. intros fd Hfd. apply Hown in Hfd as [-> Hne].
  unfold HttpImpl_destroy in Hne. rewrite close_run in Hne. done.
Qed.
End fine.

(** ** Two answers at once *)
Module Race.
Definition send (r n : nat) (fd : Z) (data : bytes) : Z := Z.of_nat (length data).
Definition now (n : nat) : Z := Z.of_nat n.

(** A thread answers on an object that is there, whoever works on it, or on one
    whose connection is accepted for it. *)
Definition code (x : nat * bytes) : prog fdworld unit := pReply send now x.1 200 None (Some x.2) (Z.of_nat (length x.2)) [] true.
Definition may_answer (k : tconf fdworld (nat * bytes)) (x : nat * bytes) (w' : fdworld) : Prop :=
  (is_Some (fw_conns (tc_shared k) !! x.1) ∧ w' = tc_shared k) ∨
  ∃ c, accepts (MkThreads [] (tc_shared k)) (Accepted x.1 c []) w'.

(** The producer's connection, and two POSTs that answer it. *)
Definition producer : fdworld := FdWorld {[0%nat := demo_conn]} {[5 := 0%nat]} [].
Definition two_posts : tconf fdworld (nat * bytes) :=
  MkThreads [((0%nat, str "a"), code (0%nat, str "a")); ((0%nat, str "b"), code (0%nat, str "b"))] producer.

(** A new client is accepted, and its connection answered. *)
Definition accept_client (k : tconf fdworld (nat * bytes)) : tconf fdworld (nat * bytes) :=
  let w := tc_shared k in
  MkThreads (tc_threads k ++ [((1%nat, str "c"), code (1%nat, str "c"))])
    (FdWorld (<[1%nat := demo_conn]> (fw_conns w)) (<[5 := 1%nat]> (fw_owner w)) (fw_calls w)).
Definition turns (tids : list nat) (k : tconf fdworld (nat * bytes)) : tconf fdworld (nat * bytes) :=
  foldl (λ k i, thread_move i k) k tids.

(** Both have answered and tested the handle; the first closes it; the client
    comes; the second closes. *)
Definition before_close : list nat := replicate 6 0%nat ++ replicate 6 1%nat ++ replicate 5 0%nat.
Definition closed_twice : tconf fdworld (nat * bytes) := turns (replicate 5 1%nat) (accept_client (turns before_close two_posts)).
(** The second has read the handle when the first closes it; the client comes;
    the second answers. *)
Definition before_send : list nat := replicate 2 1%nat ++ replicate 11 0%nat.
Definition answered_twice : tconf fdworld (nat * bytes) := turns [1%nat] (accept_client (turns before_send two_posts)).
End Race.

Lemma two_posts_reached : star (pstep Race.code Race.may_answer) (MkThreads [] Race.producer) Race.two_posts.
Proof.
  eapply star_step; [apply (p_start _ _ _ (0%nat, str "a") Race.producer); left; split; [by eexists|done]|].
  eapply star_one, (p_start _ _ (MkThreads [_] Race.producer) (0%nat, str "b") Race.producer). left. split; [by eexists|done].
Qed.

Lemma turns_reached tids k : star (pstep Race.code Race.may_answer) k (Race.turns tids k).
Proof. apply thread_moves_star. Qed.

Lemma accept_reached k :
  fw_conns (tc_shared k) !! 1%nat = None → fw_owner (tc_shared k) !! 5 = None →
  star (pstep Race.code Race.may_answer) k (Race.accept_client k).
Proof.
  intros H1 H2. eapply star_one, (p_start _ _ _ (1%nat, str "c")). right. exists demo_conn. by split_and!.
Qed.

Lemma race_reached before after :
  let k := Race.turns before Race.two_posts in
  fw_conns (tc_shared k) !! 1%nat = None → fw_owner (tc_shared k) !! 5 = None →
  star (pstep Race.code Race.may_answer) (MkThreads [] Race.producer) (Race.turns after (Race.accept_client k)).
Proof.
  intros k H1 H2. eapply star_trans; [apply two_posts_reached|]. eapply star_trans; [apply (turns_reached before)|].
  eapply star_trans; [by apply accept_reached|]. apply turns_reached.
Qed.

(** When two threads answer the same request, the calls of one can reach the connection of a client that has come in
    between: in one run it shuts down and closes the descriptor of that client,
    whose object goes on using the number, and in another it sends the client the
    answer that was meant for the producer. *)
Theorem two_answers_reach_a_stranger :
  (star (pstep Race.code Race.may_answer) (MkThreads [] Race.producer) Race.closed_twice ∧
   drop 6 (fw_calls (tc_shared Race.closed_twice)) = [(0%nat, Some 1%nat); (0%nat, Some 1%nat)] ∧
   fw_owner (tc_shared Race.closed_twice) !! 5 = None ∧
   fw_conns (tc_shared Race.closed_twice) !! 1%nat = Some demo_conn ∧ Handle (http demo_conn) = 5) ∧
  (star (pstep Race.code Race.may_answer) (MkThreads [] Race.producer) Race.answered_twice ∧
   last (fw_calls (tc_shared Race.answered_twice)) = Some (0%nat, Some 1%nat) ∧
   fw_owner (tc_shared Race.answered_twice) !! 5 = Some 1%nat).
Proof. split; (split; [apply race_reached; vm_compute; reflexivity|split_and!; vm_compute; reflexivity]). Qed.

(** ** Three connections, a thread each *)
#[local] Existing Instance readable_past_end.

Module Apart.
Definition code : accepted_conn → prog fdworld unit := accepted_code Race.send Race.now (λ _, []).
Definition reply (text : string) : conn_op := OpReply 200 None (Some (str text)) (Z.of_nat (String.length text)) [] true.
Definition first : accepted_conn := Accepted 0 demo_conn [reply "a"; reply "b"].
Definition second : accepted_conn := Accepted 1 (set_handle 6 demo_conn) [].
(** The descriptor of the first connection, again. *)
Definition third : accepted_conn := Accepted 2 demo_conn [reply "c"].

Definition accept (a : accepted_conn) (k : tconf fdworld accepted_conn) : tconf fdworld accepted_conn :=
  let w := tc_shared k in
  MkThreads (tc_threads k ++ [(a, code a)])
    (FdWorld (<[ac_object a := ac_conn a]> (fw_conns w)) (<[Handle (http (ac_conn a)) := ac_object a]> (fw_owner w)) (fw_calls w)).
Definition turns (tids : list nat) (k : tconf fdworld accepted_conn) : tconf fdworld accepted_conn :=
  foldl (λ k i, thread_move i k) k tids.

Definition empty : tconf fdworld accepted_conn := MkThreads [] (FdWorld ∅ ∅ []).
Definition two : tconf fdworld accepted_conn := turns (concat (replicate 30 [0%nat; 1%nat])) (accept second (accept first empty)).
Definition ended : tconf fdworld accepted_conn := turns (replicate 20 2%nat) (accept third two).
End Apart.

Lemma accept_apart (k : tconf fdworld accepted_conn) a :
  fw_conns (tc_shared k) !! ac_object a = None → Handle (http (ac_conn a)) ≠ 0 →
  fw_owner (tc_shared k) !! Handle (http (ac_conn a)) = None →
  star (pstep Apart.code accepts) k (Apart.accept a k).
Proof. intros H1 H2 H3. eapply star_one, p_start. by split_and!. Qed.

Lemma apart_turns tids k : star (pstep Apart.code accepts) k (Apart.turns tids k).
Proof. apply thread_moves_star. Qed.

Lemma apart_reached : star (pstep Apart.code accepts) Apart.empty Apart.ended.
Proof.
  eapply (star_trans _ _ Apart.two); [|eapply (star_trans _ _ (Apart.accept Apart.third Apart.two))].
  - eapply (star_trans _ _ (Apart.accept Apart.first Apart.empty)); [by apply accept_apart|].
    eapply (star_trans _ _ (Apart.accept Apart.second (Apart.accept Apart.first Apart.empty))); [by apply accept_apart|].
    unfold Apart.two. apply apart_turns.
  - apply accept_apart; [vm_compute; reflexivity|discriminate|vm_compute; reflexivity].
  - unfold Apart.ended. apply apart_turns.
Qed.

Lemma exclusive_use_is_atomic_witness :
  (λ t, has_ended t.2) <$> tc_threads Apart.ended = [true; true; true] ∧
  (∀ a, (a, PDone (Ret tt)) ∈ tc_threads Apart.ended →
    fw_conns (tc_shared Apart.ended) !! ac_object a =
      Some (HttpImpl_destroy (run_ops (Race.send (ac_object a)) Race.now (λ _, []) (ac_ops a) (ac_conn a))).2 ∧
    ∀ fd, fw_owner (tc_shared Apart.ended) !! fd ≠ Some (ac_object a)) ∧
  Forall (λ x, x.2 = None ∨ x.2 = Some x.1) (fw_calls (tc_shared Apart.ended)).
Proof.
  split; [vm_compute; reflexivity|]. apply (exclusive_use_is_atomic Race.send Race.now (λ _, []) Apart.ended).
  exact apart_reached.
Defined.
