(* ===== verification/KernelRun.v ===== *)
(** * KernelRun: [Kernel::Run] from the command line to its return

    [main] of [kernel/bus.cpp] calls [Kernel::Run] ([kernel/main/run.cpp]) and
    nothing else.  [Run] is the start-up of [CmdLine] and [StartUp] followed by
    the main loop of [Kernel], whose workers process connections with the
    routes that the start-up made, action by action and at the same time. *)
From Stdlib Require Import Ascii String.
From stdpp Require Import options relations.
From stdpp Require Import vector.
From S2P Require Import Prelude Findmatch Interleave Config Interfaces Buffer Server HttpReply RequestImpl SyncQueue SyncQueueSpec Router RouterProg.
From S2P Require Import EndToEnd ThreadPool ThreadPoolConc PoolJoin CmdLine StartUp Kernel PoolProg KernelConc Delivery.

#[local] Open Scope Z_scope.

(** How [Run] ends: [exit(-2)] after a failed start-up, or its return, with
    the routes, the server and the process as they are then. *)
Inductive run_end (MQ D K : Type) :=
  | RunExit
  | RunReturned (Routes : list (bytes * MQ)) (tids : list nat) (pool : ThreadPool connection) (sv : Server) (w : kworld K D).
Arguments RunExit {MQ D K}. Arguments RunReturned {MQ D K}.

(** The argument of [exit], or what [main] returns. *)
Definition exit_status {MQ D K} (e : run_end MQ D K) : Z := match e with RunExit => -2 | RunReturned _ _ _ _ _ => 0 end.

Section run.
Context {K MQ D : Type} `{!SocketOS K, !GetOpt K, PAST : !PastEnd} (NDEBUG : bool).
(** What the workers do, given the routes that the start-up made. *)
Context (serve : list (bytes * MQ) → D * sys connection → D * sys connection → Prop).
Context `{!∀ Routes, Scheduling K D (serve Routes)} {WORKS : ∀ Routes, WorkerSteps NDEBUG (serve Routes)}.
(** Start-up: the directory, the files, the registry, the machine. *)
Context (getcwd : Z → option bytes) (files : bytes → option bytes).
Context (EmplaceServer : bytes → bytes → outcome bool) (CreateInstance : nat → bytes → bytes → option MQ)
  (MQ_Initialize : MQ → bytes → ConfigImpl → bool) (hardware_concurrency : Z) (tids : list nat)
  (channel_order : gmap bytes channel → list (bytes * channel)) (worker_order : list nat → list nat).

(** The [try] block of [Run] with its handler.  The [int] that a command line
    can throw is no [std::exception]. *)
Definition Run_start (fuel : nat) (argv : list bytes) : M (Server * K) (option (startup MQ connection)) :=
  catch_std
    (r ← on_snd (initCmdLine getcwd fuel argv);
     match r with
     | None => mret None
     | Some (ThrownInt _, _) => lift Terminate
     | Some (Parsed cmd, paths) =>
         name ← lift (call cmd (str "config") (str "fiber.config"));
         s ← startup_try EmplaceServer (Kernel_CreateMQ CreateInstance) MQ_Initialize hardware_concurrency tids channel_order
               (files name) (programDir paths) (programWorkDir paths) (programName paths);
         mret (Some s)
     end)
    (λ _, mret (Some Exited)).

(** [Run(argc, argv)], given the state [σ] of the queue objects that were made.
    An exception that leaves [Run] leaves [main]; nothing when the fuel is
    spent. *)
Definition Run (fuel : nat) (argv : list bytes) (σ : D) (sk : Server * K) : outcome (option (run_end MQ D K)) :=
  match Run_start fuel argv sk with
  | (Ret None, _) => Ret None
  | (Ret (Some Exited), _) => Ret (Some RunExit)
  | (Ret (Some (Running Routes p)), (sv, k)) =>
      match Run_main (serve Routes) fuel fuel worker_order (sv, KWorld k σ (start_sys p tids) [] 0%nat) with
      | (Ret None, _) => Ret None
      | (Ret (Some _), (sv, w)) => Ret (Some (RunReturned Routes tids p sv w))
      | (Undef, _) => Undef
      | _ => Terminate
      end
  | (Undef, _) => Undef
  | _ => Terminate
  end.

(** [main]: [Fiber::Kernel().Run(argc, argv); return 0] *)
Definition main (fuel : nat) (argv : list bytes) (σ : D) (sk : Server * K) : outcome (option Z) :=
  (λ r : option (run_end MQ D K), exit_status <$> r) <$> Run fuel argv σ sk.

(** The run of the main thread and the pool. *)
Lemma Run_steps (fuel : nat) (argv : list bytes) (σ : D) (sv0 sv : Server) (k0 : K)
    (Routes : list (bytes * MQ)) (tids' : list nat) (p : ThreadPool connection) (w : kworld K D) :
  (∀ m, channel_order m ≡ₚ map_to_list m) → (∀ l, worker_order l ≡ₚ l) → msgIndex sv0 = 0 →
  Run fuel argv σ (sv0, k0) = Ret (Some (RunReturned Routes tids' p sv w)) →
  Z.of_nat (length tids') = PoolInitWorkers p → PoolMaxWorkers p < 2 ^ 61 →
  (Routes ≠ [] ∧ routes_made (Kernel_CreateMQ CreateInstance) Routes) ∧
  tasks_conserved (start_sys p tids') ∧
  let s := kw_sys w in
  star (kernel_step NDEBUG (serve Routes)) (σ, start_sys p tids') (kw_service w, s) ∧
  threads s = ∅ ∧
  enqueued s ≡ₚ executed s ++ PoolTasks (pool s) ∧
  Forall (λ c, 0 < cn_socket c) (enqueued s) ∧
  (Z.of_nat (length (enqueued s)) < 2 ^ 32 → NoDup (cn_mid <$> enqueued s)) ∧
  Z.of_nat (size (PoolWorkers (pool s))) ≤ PoolMaxWorkers p.
Proof using WORKS.
  intros Hch Hwo Hidx Hrun Hlen Hmax. unfold Run in Hrun.
  destruct (Run_start fuel argv (sv0, k0)) as [[[[Rs pool|]|]|e| |] [sv1 k1]] eqn:Hst; try done.
  destruct (Run_main _ _ _ _ _) as [[[[]|]|e| |] [sv2 w2]] eqn:Hmain; try done. injection Hrun as -> <- -> -> ->.
  assert (Hst' : (Routes ≠ [] ∧ routes_made (Kernel_CreateMQ CreateInstance) Routes) ∧
    (∃ o, initThreadPool hardware_concurrency o tids = Ret p) ∧ msgIndex sv1 = 0).
  { unfold Run_start, catch_std in Hst.
    destruct (((r ← on_snd _; _) : M _ _) (sv0, k0)) as [[a|[]| |] s1] eqn:Htry; try done. injection Hst as -> ->.
    apply bind_ret_inv in Htry as ([[[cmd|n] paths]|] & [sva ka] & Hcmd & Htry); [|done..].
    unfold on_snd in Hcmd. cbn [fst snd] in Hcmd. destruct (initCmdLine _ _ _ _) as [rc kc]. injection Hcmd as -> <- <-.
    apply bind_ret_inv in Htry as (name & s2 & Hn & Htry). apply lift_ret_inv in Hn as [_ ->].
    apply bind_ret_inv in Htry as (s & s3 & Hs & Htry). injection Htry as -> ->.
    apply startup_try_running in Hs as (H1 & H2 & H3); [|done]. cbn in H3. split_and!; [apply H1|apply H1|done|congruence]. }
  destruct Hst' as (HR & [o Hp] & Hidx1). split; [exact HR|]. destruct (start_sys_ok _ _ _ _ _ _ _ Hp Hlen) as (_ & Hc0 & _).
  split; [exact Hc0|].
  exact (kernel_run_steps NDEBUG (serve Routes) _ _ _ _ _ _ _ _ _ _ sv1 sv
    (KWorld k1 σ (start_sys p tids) [] 0%nat) w Hwo Hp Hlen Hmax Hidx1 eq_refl Hmain).
Qed.
End run.

(** ** Workers that come between each other *)
Section at_once.
Context {K : Type} {n : nat} `{!SocketOS K, !GetOpt K, !StaleText, PAST : !PastEnd} (NDEBUG : bool).
Context (send_res : nat → nat → Z → bytes → Z) (now : nat → Z) (strerror : Z → bytes).
Context (recv : connection → nat → nat → recv_result) (ioctl : connection → nat → option nat) (block : connection → bytes).

Abbreviation service := (vec (SyncQueue nat) n * store)%type.

Definition serve_at_once (Routes : list (bytes * queue_module (vec (SyncQueue nat) n))) :
    tasks service * sys connection → tasks service * sys connection → Prop :=
  conc_step NDEBUG (pprocess_connection send_res now strerror recv ioctl block Routes).

#[export] Instance at_once_WorkerSteps Routes : WorkerSteps NDEBUG (serve_at_once Routes).
Proof. apply conc_step_WorkerSteps. Qed.

Context `{!∀ Routes, Scheduling K (tasks service) (serve_at_once Routes)}.
Context (getcwd : Z → option bytes) (files : bytes → option bytes).
Context (EmplaceServer : bytes → bytes → outcome bool)
  (CreateInstance : nat → bytes → bytes → option (queue_module (vec (SyncQueue nat) n)))
  (MQ_Initialize : queue_module (vec (SyncQueue nat) n) → bytes → ConfigImpl → bool) (hardware_concurrency : Z) (tids : list nat)
  (channel_order : gmap bytes channel → list (bytes * channel)) (worker_order : list nat → list nat).

(** C3: [Run] with workers that interleave inside the requests, for any number
    of queue objects and a pool that starts the workers it was told to: when it
    returns, there is a route, each leads to a queue object of its own, no thread
    is left, the pool is within its limit, every accepted
    connection waits unprocessed or its program has run to its end, once; the
    request of each processed connection still owns the descriptor of its
    connection or has closed it exactly once; and in every queue object each
    stored request is under its own identifier, which is queued or locked, and
    the queue is within its limit.  A run that returns had no data race: a worker
    whose handler works on a field of a request while another one does
    ([start_writing]) is undefined behaviour, from which it never gets to the end of
    its task.
    Without one each reply has its object for itself, and may be taken for one
    action ([Descriptors.exclusive_use_is_atomic]). *)
Theorem Run_serves_at_once (limits : fin n → mq_limits) (fuel : nat) (argv : list bytes) (σ : service)
    (sv0 sv : Server) (k0 : K) (Routes : list (bytes * queue_module (vec (SyncQueue nat) n))) (tids' : list nat)
    (p : ThreadPool connection) (w : kworld K (tasks service)) :
  (∀ m, channel_order m ≡ₚ map_to_list m) → (∀ l, worker_order l ≡ₚ l) → msgIndex sv0 = 0 →
  (∀ i c m, CreateInstance i c (str "MQ") = Some m → ∃ j, fin_to_nat j = i ∧ m = queue_object send_res now j) →
  service_ok limits σ →
  Run serve_at_once getcwd files EmplaceServer CreateInstance MQ_Initialize hardware_concurrency tids channel_order worker_order
    fuel argv (no_tasks σ) (sv0, k0) = Ret (Some (RunReturned Routes tids' p sv w)) →
  Z.of_nat (length tids') = PoolInitWorkers p → PoolMaxWorkers p < 2 ^ 61 →
  let s := kw_sys w in
  let k := tk_conf (kw_service w) in
  (Routes ≠ [] ∧ routes_made (Kernel_CreateMQ CreateInstance) Routes) ∧
  (∀ i r, Routes !! i = Some r → ∃ j, fin_to_nat j = i ∧ r.2 = queue_object send_res now j) ∧
  threads s = ∅ ∧ Z.of_nat (size (PoolWorkers (pool s))) ≤ PoolMaxWorkers p ∧
  enqueued s ≡ₚ executed s ++ PoolTasks (pool s) ∧
  (Z.of_nat (length (enqueued s)) < 2 ^ 32 → NoDup (cn_mid <$> enqueued s)) ∧
  tc_threads k ≡ₚ (λ c, (c, PDone (Ret tt))) <$> executed s ∧
  (∀ c, c ∈ executed s → ∃ r, holds_descriptor (tc_shared k).2 r (cn_socket c)) ∧
  service_ok limits (tc_shared k).
Proof.
  intros Hch Hwo Hidx Hreg Hok Hrun Hlen Hmax s k.
  apply (Run_steps NDEBUG) in Hrun as ((HR0 & HR) & Hcons & Hs & H1 & H2 & H3 & H7 & H8); [|first [done|apply _]..].
  assert (HRs : ∀ i r, Routes !! i = Some r → ∃ j, fin_to_nat j = i ∧ r.2 = queue_object send_res now j).
  { intros i r Hi. destruct (HR i r Hi) as (_ & c & Hc). by eapply Hreg. }
  apply (service_served _ _ _ _ _ _ limits) in Hs as (H4 & H5 & H6); [| |done|done|apply start_running|done|done|done].
  { exact (conj (conj HR0 HR) (conj HRs (conj H1 (conj H8 (conj H2 (conj H7 (conj H4 (conj H6 H5)))))))). }
  apply Forall_forall. intros r (i & Hi)%list_elem_of_lookup. destruct (HRs i r Hi) as (j & _ & Hj). by exists j.
Qed.

(** C4: no connection is lost: after a run with workers that interleave inside
    the requests, started with no requests and with fewer than 2^32 accepted
    connections, every connection that was taken from the pool has a request
    object of its own identifier that either has closed the descriptor of the
    connection, exactly once, or has it open and is stored in one of the queue
    objects under that identifier, which is queued or locked; every other
    accepted connection waits unprocessed.  As for [Run_serves_at_once], a run
    that returns is one in which no two handlers worked on the same field of
    one request at once. *)
Theorem Run_loses_nothing (limits : fin n → mq_limits) (fuel : nat) (argv : list bytes) (σ : service)
    (sv0 sv : Server) (k0 : K) (Routes : list (bytes * queue_module (vec (SyncQueue nat) n))) (tids' : list nat)
    (p : ThreadPool connection) (w : kworld K (tasks service)) :
  (∀ m, channel_order m ≡ₚ map_to_list m) → (∀ l, worker_order l ≡ₚ l) → msgIndex sv0 = 0 →
  (∀ i c m, CreateInstance i c (str "MQ") = Some m → ∃ j, m = queue_object send_res now j) →
  service_ok limits σ → σ.2 = ∅ →
  Run serve_at_once getcwd files EmplaceServer CreateInstance MQ_Initialize hardware_concurrency tids channel_order worker_order
    fuel argv (no_tasks σ) (sv0, k0) = Ret (Some (RunReturned Routes tids' p sv w)) →
  Z.of_nat (length tids') = PoolInitWorkers p → PoolMaxWorkers p < 2 ^ 61 →
  Z.of_nat (length (enqueued (kw_sys w))) < 2 ^ 32 →
  enqueued (kw_sys w) ≡ₚ executed (kw_sys w) ++ PoolTasks (pool (kw_sys w)) ∧
  Forall (not_lost (tc_shared (tk_conf (kw_service w)))) (executed (kw_sys w)).
Proof.
  intros Hch Hwo Hidx Hreg Hok Hnil Hrun Hlen Hmax Hfew.
  apply (Run_steps NDEBUG) in Hrun as ((_ & HR) & Hcons & Hs & H1 & H2 & H3 & H4 & _); [|first [done|apply _]..].
  split; [exact H2|].
  apply (service_loses_nothing send_res now strerror recv ioctl block NDEBUG limits Routes σ (start_sys p tids'));
    [|done|done|done|apply start_running|done|by destruct (kw_service w)|done|by apply H4|done|done].
  apply Forall_forall. intros r (i & Hi)%list_elem_of_lookup. destruct (HR i r Hi) as (_ & c & Hc). by eapply Hreg.
Qed.
End at_once.

(** ** A machine

    Two clients wait on the first listening socket, a PUT on descriptor 8 and a
    GET on descriptor 9; whenever the main thread does something the workers
    take their turns, and the signals come as planned. *)
Module Machine.
#[local] Instance stale_live : StaleText := Live.
#[local] Existing Instance readable_past_end.
#[local] Instance requests : IRequest store nat := RequestImpl_IRequest Relay.send_res Relay.now.

Record machine := MkMachine { m_os : Demo.os; m_argv : list bytes; m_turns : list nat; m_signals : list (list nat) }.

Definition on_sockets {A} (m : M Demo.os A) : M machine A := λ k,
  let '(r, o) := m (m_os k) in (r, MkMachine o (m_argv k) (m_turns k) (m_signals k)).

Definition clients : list Z := [8; 9].
Definition listening (fd : Z) : M Demo.os Z := λ o,
  (Ret 0, Demo.MkOs (Demo.os_next o) (Demo.os_pending o ++ [(fd, clients)]) (Demo.os_served o) (Demo.os_closed o)).

#[global] Instance machine_os : SocketOS machine := {
  sys_errno := on_sockets sys_errno;
  sys_socket := on_sockets sys_socket;
  sys_setsockopt fd o := on_sockets (sys_setsockopt fd o);
  sys_bind fd p := on_sockets (sys_bind fd p);
  sys_listen fd n := on_sockets (listening fd);
  sys_close fd := on_sockets (sys_close fd);
  sys_poll fds t := on_sockets (sys_poll fds t);
  sys_accept fd := on_sockets (sys_accept fd);
  sys_time := on_sockets sys_time
}.

#[global] Instance machine_getopt : GetOpt machine := λ argv short longs index k,
  let '(r, rest) := GetOptDemo.demo_getopt argv short longs index (m_argv k) in
  (r, MkMachine (m_os k) rest (m_turns k) (m_signals k)).

Definition recv (c : connection) : nat → nat → recv_result :=
  segment_recv [if decide (cn_socket c = 8) then Relay.put_text else Relay.get_text].

Section schedule.
Context {D : Type} (serve : D * sys connection → D * sys connection → Prop) (moves : list nat → D * sys connection → D * sys connection).

Definition machine_workers (k : machine) (x : D * sys connection) : machine * (D * sys connection) := (k, moves (m_turns k) x).
Definition machine_threads (k : machine) (s : sys connection) (n : nat) : machine * list nat :=
  (k, fresh_list n (dom (threads s) ∪ dom (PoolWorkers (pool s)))).
Definition machine_arrived (k : machine) : machine * list nat :=
  match m_signals k with
  | [] => (k, [])
  | signals :: rest => (MkMachine (m_os k) (m_argv k) (m_turns k) rest, signals)
  end.

Lemma machine_threads_fresh k s n :
  NoDup (machine_threads k s n).2 ∧ length (machine_threads k s n).2 = n ∧ Forall (fresh_id s) (machine_threads k s n).2.
Proof.
  cbn. split_and!; [apply NoDup_fresh_list|apply length_fresh_list|]. apply Forall_forall. intros tid Hin.
  apply fresh_list_is_fresh, not_elem_of_union in Hin as [H1 H2]. split; [by apply not_elem_of_dom|].
  apply not_elem_of_dom in H2. by rewrite H2.
Qed.

Definition machine_schedule (moves_steps : ∀ ws x, star serve x (moves ws x)) : Scheduling machine D serve := {|
  workers := machine_workers;
  new_threads := machine_threads;
  arrived := machine_arrived;
  workers_steps k x := moves_steps (m_turns k) x;
  new_threads_fresh := machine_threads_fresh
|}.
End schedule.

#[global] Instance at_once {W} (code : connection → prog W unit) : Scheduling machine (tasks W) (conc_step false code) :=
  machine_schedule _ (conc_moves false code) (conc_moves_steps false code).

Definition config_file (workers : bytes) : bytes := str "[fiber]
[[server]]
[[[http]]]
listen = :8080
query-limit = 256
header-limit = 256
[[pool]]
core-bind = 0-1
thread-limit = 2
thread-workers = " ++ workers ++ str "
[[mq]]
modules-dir = /lib/
[[[sync-queue]]]
class = SyncQueue
module = queue.so
[channel]
[[sms]]
channel-endpoint = sync-queue://sms
[[mms]]
channel-endpoint = sync-queue://mms
".

Definition files (name : bytes) : option bytes :=
  if decide (name = str "a.conf") then Some (config_file (str "1"))
  else if decide (name = str "b.conf") then Some (config_file (str "2")) else None.
(** The third look at [procSignal] finds a [SIGINT]. *)
Definition interrupted : list (list nat) := [[]; []; [SIGINT]].

(** Two workers, and a queue object for each channel. *)
Definition service : Type := vec Relay.state 2 * store.
Definition end_at_once : Type := run_end (queue_module (vec Relay.state 2)) (tasks service) machine.
Definition no_limits : mq_limits := MkLimits 0 0 0.
Definition objects : vec Relay.state 2 := [# Relay.empty_queue; Relay.empty_queue].

Definition create_object (made : nat) (class_ kind : bytes) : option (queue_module (vec Relay.state 2)) :=
  if decide (class_ = str "SyncQueue" ∧ kind = str "MQ") then
    match decide (made < 2)%nat with
    | left Hmade => Some (queue_object Relay.send_res Relay.now (nat_to_fin Hmade))
    | right _ => None
    end
  else None.

Definition boot_at_once (turns : list nat) (signals : list (list nat)) : outcome (option end_at_once) :=
  Run (serve_at_once false Relay.send_res Relay.now Relay.strerror recv (λ _ _, Some 0%nat) (λ _, replicate 256 NUL))
    (λ _, Some (str "/")) files Boot.loads create_object (λ _ _ _, true) 4 [1%nat; 2%nat] map_to_list (λ l, l)
    20 [str "/opt/fiber/fiber"; str "-c"; str "b.conf"] (no_tasks (objects, ∅))
    (Server_new, MkMachine (Demo.MkOs 3 [] [] []) [str "-c"; str "b.conf"] turns signals).

Definition booted_at_once : outcome (option end_at_once) := boot_at_once [1; 2]%nat interrupted.

Definition two_as_made (r : outcome (option end_at_once)) : bool :=
  match r with
  | Ret (Some (RunReturned _ tids p _ _)) => bool_decide (Z.of_nat (length tids) = PoolInitWorkers p ∧ PoolMaxWorkers p < 2 ^ 61)
  | _ => false
  end.

(** Both connections were processed, in the order of their arrival. *)
Definition few (r : outcome (option end_at_once)) : bool :=
  match r with
  | Ret (Some (RunReturned _ _ _ _ w)) =>
      bool_decide (cn_socket <$> executed (kw_sys w) = [8; 9] ∧ Z.of_nat (length (enqueued (kw_sys w))) < 2 ^ 32)
  | _ => false
  end.

Lemma objects_ok : service_ok (λ _, no_limits) (objects, ∅).
Proof.
  assert (Hq : queue_ok (λ _ : fin 2, no_limits) 0%fin (Relay.empty_queue, ∅)).
  { split; [|by split]. split; cbn; intros i; rewrite lookup_empty; [done|by intros []]. }
  split; [|intros r o Ho; cbn in Ho; by rewrite lookup_empty in Ho].
  intros j. do 2 (inv_fin j; [exact Hq|intros j]). inv_fin j.
Qed.

Lemma objects_made i c m :
  create_object i c (str "MQ") = Some m → ∃ j, fin_to_nat j = i ∧ m = queue_object Relay.send_res Relay.now j.
Proof.
  unfold create_object. case_decide; [|done]. destruct (decide (i < 2)%nat) as [Hi|]; [|done]. intros [= <-].
  exists (nat_to_fin Hi). split; [apply fin_to_nat_to_fin|done].
Qed.
End Machine.

Lemma Run_serves_at_once_witness :
  match Machine.booted_at_once with
  | Ret (Some (RunReturned Routes tids p sv w)) =>
      threads (kw_sys w) = ∅ ∧
      tc_threads (tk_conf (kw_service w)) ≡ₚ (λ c, (c, PDone (Ret tt))) <$> executed (kw_sys w) ∧
      (∀ c, c ∈ executed (kw_sys w) → ∃ r, holds_descriptor (tc_shared (tk_conf (kw_service w))).2 r (cn_socket c)) ∧
      service_ok (λ _, Machine.no_limits) (tc_shared (tk_conf (kw_service w)))
  | _ => False
  end.
Proof.
  assert (H : Machine.two_as_made Machine.booted_at_once = true) by (vm_compute; reflexivity).
  remember Machine.booted_at_once as r eqn:Hrun. symmetry in Hrun.
  destruct r as [[[|Routes tids p sv w]|]|e| |]; [discriminate H| |discriminate H..].
  unfold Machine.booted_at_once, Machine.boot_at_once in Hrun.
  apply bool_decide_eq_true_1 in H as [Hlen Hmax].
  eapply (Run_serves_at_once) with (limits := λ _, Machine.no_limits) in Hrun as (_ & _ & H1 & _ & _ & _ & H2 & H3 & H4);
    [by split_and!|done|done|done|exact Machine.objects_made|exact Machine.objects_ok|exact Hlen|exact Hmax].
Defined.

(** The job of the PUT was handed out, but its client waits for the answer. *)
Lemma Run_loses_nothing_witness :
  match Machine.booted_at_once with
  | Ret (Some (RunReturned Routes tids p sv w)) =>
      cn_socket <$> executed (kw_sys w) = [8; 9] ∧
      Forall (not_lost (tc_shared (tk_conf (kw_service w)))) (executed (kw_sys w))
  | _ => False
  end.
Proof.
  assert (H : Machine.two_as_made Machine.booted_at_once = true) by (vm_compute; reflexivity).
  assert (Hfew : Machine.few Machine.booted_at_once = true) by (vm_compute; reflexivity).
  remember Machine.booted_at_once as r eqn:Hrun. symmetry in Hrun.
  destruct r as [[[|Routes tids p sv w]|]|e| |]; [discriminate H| |discriminate H..].
  unfold Machine.booted_at_once, Machine.boot_at_once in Hrun.
  apply bool_decide_eq_true_1 in H as [Hlen Hmax]. apply bool_decide_eq_true_1 in Hfew as [Hex Hfew]. split; [exact Hex|].
  eapply (Run_loses_nothing) with (limits := λ _, Machine.no_limits) in Hrun as (_ & H1);
    [exact H1|done|done|done| |exact Machine.objects_ok|done|exact Hlen|exact Hmax|exact Hfew].
  intros i c m Hm. destruct (Machine.objects_made i c m Hm) as (j & _ & Hj). by exists j.
Defined.

Module Interrupted.
Definition server : Server := MkServer 0 {[3 := Listener 256 256]} [3].
Definition system (signals : list (list nat)) : Machine.machine := Machine.MkMachine (Demo.MkOs 4 [(3, [])] [] []) [] (replicate 8 1%nat) signals.
Definition code (c : connection) : prog (list Z) unit := act (modify (λ σ, σ ++ [cn_socket c])).
Definition serve : tasks (list Z) * sys connection → tasks (list Z) * sys connection → Prop := conc_step false code.
#[global] Instance turns : Scheduling Machine.machine (tasks (list Z)) serve := Machine.at_once code.
#[global] Instance sockets : SocketOS (kworld Machine.machine (tasks (list Z))) := kworld_os serve.
Definition idle : sys connection := start_sys (MkPool true 1 2 1 0 {[1%nat := true]} [] [0]) [1%nat].
Definition world (signals : list (list nat)) : kworld Machine.machine (tasks (list Z)) := KWorld (system signals) (no_tasks []) idle Run_handlers 0%nat.
End Interrupted.

Lemma main_loop_signals_witness :
  main_loop Interrupted.serve 5 1 (Interrupted.server, Interrupted.world [[SIGINT]]) =
    (Ret (Some tt), (Interrupted.server, with_signal (Interrupted.system []) SIGINT (Interrupted.world [[SIGINT]]))) ∧
  main_loop Interrupted.serve 5 1 (Interrupted.server, Interrupted.world [[SIGQUIT]]) =
    (Ret (Some tt), (Interrupted.server, with_signal (Interrupted.system []) SIGQUIT (Interrupted.world [[SIGQUIT]]))) ∧
  main_loop Interrupted.serve 5 1 (Interrupted.server, Interrupted.world [[SIGTERM]]) =
    (Terminate, (Interrupted.server, Interrupted.world [[SIGTERM]])).
Proof.
  assert (HL : ∀ n, Listen (Enqueue Interrupted.serve) 5 3000 (Interrupted.server, Interrupted.world [[n]]) =
    (Ret (Some true), (Interrupted.server, Interrupted.world [[n]]))) by (intros n; vm_compute; reflexivity).
  pose (H n := main_loop_signals Interrupted.serve 5 0 Interrupted.server Interrupted.server (Interrupted.world [[n]])
      (Interrupted.world [[n]]) (Interrupted.system []) (Interrupted.system []) (Interrupted.system []) (Interrupted.system [])
      n (HL n) eq_refl eq_refl eq_refl eq_refl eq_refl).
  split; [|split].
  - destruct (H SIGINT) as (H1 & _). exact (H1 eq_refl).
  - destruct (H SIGQUIT) as (_ & H1 & _). exact (H1 eq_refl eq_refl).
  - destruct (H SIGTERM) as (_ & _ & H1 & _). exact (H1 (or_introl eq_refl)).
Defined.
