(* ===== verification/Shutdown.v ===== *)
(** * Shutdown: the process ends when it is told to

    [~ThreadPool] at the end of [Kernel::Run] ([kernel/main/run.cpp],
    [kernel/mt/threadpool.cpp]) stops the pool and joins its threads, while the
    workers go on with what they have begun.  With a scheduler that lets somebody work when somebody can, it returns, unless
    two handlers have come to a data race on a request. *)
From Stdlib Require Import Ascii String.
From stdpp Require Import options relations gmap vector.
From S2P Require Import Prelude Findmatch Interleave RelyGuarantee Buffer HttpReply Interfaces RequestImpl SyncQueue EndToEnd.
From S2P Require Import QueueProg Server Router RouterProg Wellformed ThreadPool ThreadPoolConc PoolJoin.
From S2P Require Import Kernel PoolProg KernelConc Safety KernelRun.

#[local] Open Scope nat_scope.

(** While a worker has a step to make, some worker makes one before the main
    thread goes on. *)
Class Fair (K D : Type) (serve : D * sys connection → D * sys connection → Prop) `{!Scheduling K D serve} : Prop :=
  workers_go_on : ∀ (k : K) x, (∃ x', serve x x') → ∃ x1, serve x x1 ∧ star serve x1 (workers k x).2.

(** ** [Join], given a bound on the steps that are left

    Workers can go on, unless something has happened ([hazard]) that stays. *)
Section join.
Context {K D : Type} `{!SocketOS K} (serve : D * sys connection → D * sys connection → Prop) `{!Scheduling K D serve, FAIR : !Fair K D serve}.
Context (left : nat → D * sys connection → Prop) (hazard : D * sys connection → Prop).
Context (left_step : ∀ n x x', left n x → serve x x' → ∃ n', n' < n ∧ left n' x' ∧ (hazard x → hazard x')).
Context (left_moves : ∀ n x, left n x → threads x.2 ≠ ∅ → hazard x ∨ ∃ x', serve x x').

Lemma left_star n x x' : left n x → star serve x x' → ∃ n', n' ≤ n ∧ left n' x' ∧ (hazard x → hazard x').
Proof using left_step.
  intros Hn Hs. revert n Hn. induction Hs as [x|x x1 x2 Hs _ IH]; intros n Hn; [by exists n|].
  destruct (left_step n x x1 Hn Hs) as (n1 & Hlt & Hn1 & H1). destruct (IH n1 Hn1) as (n2 & Hle & Hn2 & H2).
  exists n2. split; [lia|]. split; [done|]. auto.
Qed.

(** What a step of the main thread leaves. *)
Definition leaves (n : nat) (w w' : kworld K D) : Prop :=
  ∃ n', n' ≤ n ∧ left n' (served w') ∧ (hazard (served w) → hazard (served w')).

Lemma leaves_trans n w w1 n1 w2 :
  n1 ≤ n → (hazard (served w) → hazard (served w1)) → leaves n1 w1 w2 → leaves n w w2.
Proof. intros Hle H1 (n2 & Hle2 & Hn2 & H2). exists n2. split; [lia|]. split; [done|]. auto. Qed.

Lemma yield_leaves n w : left n (served w) → ∃ w', yield serve w = (Ret tt, w') ∧ leaves n w w'.
Proof using left_step.
  intros Hn. unfold yield. pose proof (workers_steps (kw_os w) (served w)) as Hs.
  destruct (workers (kw_os w) (served w)) as [k [σ s]]. eexists. split; [done|]. exact (left_star n _ _ Hn Hs).
Qed.

Lemma yield_left n w :
  left n (served w) → (∃ x', serve (served w) x') → ∃ w' n', yield serve w = (Ret tt, w') ∧ n' < n ∧ left n' (served w') ∧
    (hazard (served w) → hazard (served w')).
Proof using left_step FAIR.
  intros Hn Hmove. destruct (workers_go_on (kw_os w) (served w) Hmove) as (x1 & H1 & H2).
  unfold yield. destruct (workers (kw_os w) (served w)) as [k [σ s]]. cbn in H2.
  destruct (left_step n _ _ Hn H1) as (n1 & Hlt & Hn1 & Hz1). destruct (left_star n1 _ _ Hn1 H2) as (n2 & Hle & Hn2 & Hz2).
  eexists _, n2. split; [done|]. split; [lia|]. split; [exact Hn2|]. cbn. auto.
Qed.

(** With fuel for the steps that are left, a call returns unless there is a
    hazard. *)
Definition joins (fuel n : nat) (m : M (kworld K D) (option unit)) : Prop :=
  ∀ w, left n (served w) → n < fuel ∨ hazard (served w) →
    ∃ r w', m w = (Ret r, w') ∧ leaves n w w' ∧ (r = Some tt ∨ hazard (served w')).

Lemma join_worker_joins fuel tid : ∀ n, joins fuel n (join_worker serve fuel tid).
Proof using left_step left_moves FAIR.
  induction fuel as [|fuel IH]; intros n w Hn Hfuel; cbn [join_worker].
  { destruct Hfuel as [Hfuel|Hz]; [lia|]. exists None, w. split; [done|]. split; [by exists n|by right]. }
  rewrite (bind_returns (gets (λ w, threads (kw_sys w) !! tid)) _ w (threads (kw_sys w) !! tid) w) by done.
  destruct (threads (kw_sys w) !! tid) as [x|] eqn:Hx; [|exists (Some tt), w; split; [done|]; split; [by exists n|by left]].
  destruct (left_moves n (served w) Hn) as [Hz|Hmove]; [intros Hnone; cbn in Hnone; by rewrite Hnone, lookup_empty in Hx|..].
  - destruct (yield_leaves n w Hn) as (w1 & Hy & n1 & Hle & Hn1 & Hz1). rewrite (bind_returns _ _ _ _ _ Hy).
    destruct (IH n1 w1 Hn1 (or_intror (Hz1 Hz))) as (r & w2 & Hr & Hl & He). exists r, w2.
    split; [exact Hr|]. split; [by eapply leaves_trans|exact He].
  - destruct (yield_left n w Hn Hmove) as (w1 & n1 & Hy & Hlt & Hn1 & Hz1). rewrite (bind_returns _ _ _ _ _ Hy).
    destruct (IH n1 w1 Hn1) as (r & w2 & Hr & Hl & He); [destruct Hfuel; [left; lia|by right; auto]|]. exists r, w2.
    split; [exact Hr|]. split; [eapply leaves_trans; [|exact Hz1|exact Hl]; lia|exact He].
Qed.

Lemma join_workers_join fuel tids : ∀ n, joins fuel n (join_workers serve fuel tids).
Proof using left_step left_moves FAIR.
  induction tids as [|tid tids IH]; intros n w Hn Hfuel; cbn [join_workers].
  { exists (Some tt), w. split; [done|]. split; [by exists n|by left]. }
  destruct (join_worker_joins fuel tid n w Hn Hfuel) as (r & w1 & Hr & (n1 & Hle & Hn1 & Hz1) & He).
  rewrite (bind_returns _ _ _ _ _ Hr). destruct r as [[]|].
  - destruct (IH n1 w1 Hn1) as (r & w2 & Hr2 & Hl & He2); [destruct Hfuel; [left; lia|by right; auto]|]. exists r, w2.
    split; [exact Hr2|]. split; [by eapply leaves_trans|exact He2].
  - exists None, w1. split; [done|]. split; [by exists n1|exact He].
Qed.

(** The pool that [Join] has stopped. *)
Definition stop_sys (s : sys connection) : sys connection :=
  MkSys (with_yet false (pool s)) (threads s) (callers s) (enqueued s) (taken s) (executed s).

Lemma Join_returns_when fuel hash_order n w w1 :
  yield serve w = (Ret tt, w1) → PoolYet (pool (kw_sys w1)) = true →
  left n (kw_service w1, stop_sys (kw_sys w1)) → n < fuel →
  ∃ r w', Join serve fuel hash_order w = (Ret r, w') ∧ (r = Some tt ∨ hazard (served w')).
Proof using left_step left_moves FAIR.
  intros Hy Hyet Hn Hfuel. unfold Join. rewrite (bind_returns _ _ _ _ _ Hy).
  assert (Hst : stop_pool w1 = (Ret true, with_sys (stop_sys (kw_sys w1)) w1)) by (unfold stop_pool; by rewrite Hyet).
  rewrite (bind_returns _ _ _ _ _ Hst).
  rewrite (bind_returns (gets (λ w, joinable_workers hash_order (pool (kw_sys w)))) _ _
    (joinable_workers hash_order (pool (stop_sys (kw_sys w1)))) (with_sys (stop_sys (kw_sys w1)) w1)) by done.
  destruct (join_workers_join fuel (joinable_workers hash_order (pool (stop_sys (kw_sys w1)))) n
    (with_sys (stop_sys (kw_sys w1)) w1) Hn (or_introl Hfuel)) as (r & w' & Hr & _ & He). by exists r, w'.
Qed.
End join.

(** ** The steps that workers have left *)
Section pool.
(** Tasks have at most [bound] actions. *)
Context (NDEBUG : bool) (bound : nat).

(** A worker that has taken a connection still has its task before it. *)
Definition work_of (x : nat * (WorkerType * worker_state connection)) : nat :=
  match x.2.2 with WWait => 1 | WDone => 2 | WRun _ => 3 | WGot _ => 4 + bound end.
Definition work_left (m : gmap nat (WorkerType * worker_state connection)) : nat := sum_list (work_of <$> map_to_list m).

Lemma work_left_update m w a b :
  m !! w = Some a →
  ∃ rest, work_left m = work_of (w, a) + rest ∧ work_left (<[w := b]> m) = work_of (w, b) + rest ∧
    work_left (delete w m) = rest.
Proof.
  intros Hw. destruct (threads_update m w a b Hw) as (rest & H1 & H2 & H3).
  exists (sum_list (work_of <$> rest)). unfold work_left. split_and!.
  - by rewrite H1. - by rewrite H2. - by rewrite H3.
Qed.

Lemma work_left_bound m : work_left m ≤ (4 + bound) * size m.
Proof.
  unfold work_left. rewrite <- length_map_to_list. induction (map_to_list m) as [|x l IH]; [apply Nat.le_0_l|].
  rewrite fmap_cons. cbn [length]. rewrite Nat.mul_succ_r. change (work_of x + sum_list (work_of <$> l) ≤ (4 + bound) * length l + (4 + bound)).
  assert (work_of x ≤ 4 + bound) by (unfold work_of; destruct x.2.2; lia). lia.
Qed.

(** A worker of a stopped pool calls the task it has taken, or goes on. *)
Lemma stopped_worker (s s' : sys connection) :
  PoolYet (pool s) = false → worker_step NDEBUG s s' →
  PoolYet (pool s') = false ∧ (∀ w ty t, threads s' !! w = Some (ty, WGot t) → threads s !! w = Some (ty, WGot t)) ∧
  ((∃ w ty t, threads s !! w = Some (ty, WGot t) ∧ running s' w = Some t ∧
      (∀ v, v ≠ w → running s' v = running s v) ∧ work_left (threads s') + S bound = work_left (threads s)) ∨
   ((∀ w t, running s' w = Some t → running s w = Some t) ∧ work_left (threads s') < work_left (threads s))).
Proof.
  intros Hy Hs.
  assert (Hgot : ∀ (m : gmap nat (WorkerType * worker_state connection)) v x, (∀ ty t, x ≠ (ty, WGot t)) →
    ∀ w ty t, <[v := x]> m !! w = Some (ty, WGot t) → m !! w = Some (ty, WGot t)).
  { intros m v x Hx w ty t [[<- Heq]|[_ Hw]]%lookup_insert_Some; [by destruct (Hx ty t)|done]. }
  assert (Hrun : ∀ (x : WorkerType * worker_state connection) p p' m cs e tk ex ex' w, (∀ t, x.2 ≠ WRun t) →
    ∀ v t, running (MkSys p' (<[w := x]> m) cs e tk ex') v = Some t → running (MkSys p m cs e tk ex) v = Some t).
  { intros x p p' m cs e tk ex ex' w Hx v t. destruct (running_update p p' m cs cs e e tk tk ex ex' w x) as [H1 H2].
    destruct (decide (v = w)) as [->|Hv]; [rewrite H1|by rewrite H2]. destruct x as [ty []]; try done. by destruct (Hx t0). }
  destruct Hs as [p m cs e tk ex w ty t ts Hw Hy' Hts|p m cs e tk ex w ty t Hw|p m cs e tk ex w ty t Hw
                 |p m cs e tk ex w ty Hw|p m cs e tk ex w ty Hw Hy' Hts Hty|p m cs e tk ex w ty Hw Hy']; cbn in *;
    try congruence; (split; [done|]); (split; [first [by apply Hgot|by intros v ty' t' [_ Hv]%lookup_delete_Some]|]).
  - left. exists w, ty, t. destruct (work_left_update m w _ (ty, WRun t) Hw) as (rest & -> & -> & _).
    destruct (running_update p p m cs cs e e tk tk ex ex w (ty, WRun t)) as [H1 H2].
    split; [done|]. split; [exact H1|]. split; [exact H2|]. cbn. lia.
  - right. destruct (work_left_update m w _ (ty, WDone) Hw) as (rest & -> & -> & _). split; [|cbn; lia].
    by apply (Hrun (ty, WDone)).
  - right. destruct (work_left_update m w _ (ty, WWait) Hw) as (rest & -> & -> & _). split; [|cbn; lia].
    by apply (Hrun (ty, WWait)).
  - right. destruct (work_left_update m w _ (ty, WWait) Hw) as (rest & -> & _ & ->). split; [|cbn; lia].
    intros v t'. by rewrite (running_delete p p m cs cs e e tk tk ex ex w ty Hw).
Qed.

(** Workers hire nobody. *)
Lemma worker_steps_threads (s s' : sys connection) :
  star (worker_step NDEBUG) s s' → size (threads s') ≤ size (threads s).
Proof.
  induction 1 as [|s s1 s2 Hs _ IH]; [done|]. etrans; [exact IH|].
  destruct Hs; cbn; (rewrite map_size_insert_Some by (by eexists)) || (rewrite map_size_delete_Some by (by eexists)); lia.
Qed.
End pool.

(** What workers hold was entered into the pool. *)
Lemma got_enqueued (s : sys connection) w ty t :
  tasks_conserved s → threads s !! w = Some (ty, WGot t) → t ∈ enqueued s.
Proof.
  intros [He Ht] Hw. rewrite He. apply elem_of_app. left. rewrite Ht. apply elem_of_app. right.
  apply list_elem_of_omap. exists (w, (ty, WGot t)). split; [by apply elem_of_map_to_list|done].
Qed.

Lemma length_filter_omap {A B} (f : A → option B) (l : list A) :
  length (filter (λ x, is_Some (f x)) l) = length (omap f l).
Proof.
  induction l as [|x l IH]; [done|]. rewrite filter_cons. cbn [omap list_omap]. destruct (f x) as [y|]; cbn.
  - rewrite decide_True by (by eexists). cbn. by rewrite IH.
  - rewrite decide_False by (by intros []). exact IH.
Qed.

(** There are no more tasks than connections. *)
Lemma tasks_few {W} (d : tasks W) (s : sys connection) :
  coupled (d, s) → tasks_conserved s → length (tc_threads (tk_conf d)) ≤ length (enqueued s).
Proof.
  intros Hc [He Ht]. pose proof Hc as (_ & H2 & H3). apply Permutation_length in H3, Ht.
  rewrite length_seq, length_app, length_fmap in H3. rewrite He, length_app, Ht, <- H3, length_app.
  rewrite (Forall2_length _ _ _ H2). enough (length (map_to_list (tk_of d)) ≤ length (in_hand (threads s))) by lia.
  unfold in_hand. rewrite <- length_filter_omap, <- (length_fmap fst), <- (length_fmap fst (filter _ _)).
  apply submseteq_length, NoDup_submseteq; [apply NoDup_fst_map_to_list|]. intros w Hw.
  apply list_elem_of_fmap in Hw as ([w' i] & -> & Hi%elem_of_map_to_list). cbn.
  destruct (coupled_running d s w' i Hc Hi) as (t & pr & Hrun & _). unfold running in Hrun.
  destruct (threads s !! w') as [[ty st]|] eqn:Hx; [|done]. apply list_elem_of_fmap. exists (w', (ty, st)). split; [done|].
  apply list_elem_of_filter. split; [|by apply elem_of_map_to_list]. destruct st; [done|done| |done]. by eexists.
Qed.

(** ** Tasks that return, or meet a hazard *)
Section tasks.
Context {W : Type} (NDEBUG : bool) (code : connection → prog W unit) (le : W → W → Prop) `{!PreOrder le} (I X : W → Prop).
Context (X_stays : ∀ s s', le s s' → X s → X s').
Definition returned (o : outcome unit) (s : W) : Prop := o = Ret tt ∨ (o = Undef ∧ X s).
Context (fit : connection → Prop) (bound : nat).
Context (code_within : ∀ c, within bound (code c)).
Context (code_returns : ∀ c σ, fit c → I σ → ends_in le I returned σ (code c)).

Definition tasks_sound (k : tconf W connection) : Prop :=
  I (tc_shared k) ∧ Forall (λ t, ends_in le I returned (tc_shared k) t.2) (tc_threads k).

Lemma pstep_sound k k' :
  star (pstep code (starts_as_is fit)) k k' → tasks_sound k → tasks_sound k' ∧ (X (tc_shared k) → X (tc_shared k')).
Proof using code_returns PreOrder0 X_stays.
  intros Hs [H1 H2]. apply (interleaving_ends _ _ le I (λ _, returned)) in Hs as (H0 & H3 & H4); [by split; [|apply X_stays]| | |done|done].
  - intros c o s s' Hle [?|[? ?]]; [by left|right; split; [done|by eapply X_stays]].
  - intros k1 c σ [-> Hc] HI. split; [reflexivity|]. split; [done|]. by apply code_returns.
Qed.

(** At most [n] steps of the workers are left. *)
Definition steps_left (n : nat) (x : tasks W * sys connection) : Prop :=
  coupled x ∧ PoolYet (pool x.2) = false ∧ tasks_sound (tk_conf x.1) ∧
  (∀ w ty t, threads x.2 !! w = Some (ty, WGot t) → fit t) ∧
  ∃ ns, Forall2 (λ n t, within n t.2) ns (tc_threads (tk_conf x.1)) ∧ n = work_left bound (threads x.2) + sum_list ns.

(** Two threads met. *)
Definition hazard (x : tasks W * sys connection) : Prop := X (tc_shared (tk_conf x.1)).

Lemma steps_left_step n x x' : steps_left n x → conc_step NDEBUG code x x' →
  ∃ n', n' < n ∧ steps_left n' x' ∧ (hazard x → hazard x').
Proof using code_within code_returns PreOrder0 X_stays.
  intros (Hc & Hy & Hsound & Hfit & ns & Hns & ->) Hs.
  assert (Hc' : coupled x') by (eapply (kstep_coupled NDEBUG code); [exact Hc|by apply kernel_serve]).
  destruct Hs as [d s s' Hs _ Hr|d s s' w t Hs _ (Hn & Ht & Ho)|d s w i c Y m f _ _ Hi|d s s' w t i Hs _ (Ht & Hn & Ho) _ _]; cbn in *.
  - destruct (stopped_worker NDEBUG bound s s' Hy Hs) as (Hy' & Hgot & [(w & ty & t & Hw & Hrun & _)|[_ Hlt]]).
    { rewrite Hr in Hrun. unfold running in Hrun. by rewrite Hw in Hrun. }
    eexists. split; [|split; [split; [exact Hc'|split; [exact Hy'|split; [done|split; [by eauto|by exists ns]]]]|done]]. cbn. lia.
  - destruct (stopped_worker NDEBUG bound s s' Hy Hs) as (Hy' & Hgot & [(w' & ty & t' & Hw & Hrun & _ & Heq)|[Hr _]]);
      [|by rewrite (Hr _ _ Ht) in Hn].
    destruct (decide (w' = w)) as [->|Hne]; [|rewrite (Ho _ Hne) in Hrun; unfold running in Hrun; by rewrite Hw in Hrun].
    rewrite Ht in Hrun. injection Hrun as ->. pose proof (Hfit _ _ _ Hw) as Hft.
    exists (work_left bound (threads s') + sum_list (ns ++ [bound])). split; [rewrite sum_list_with_app; simpl; lia|].
    assert (Hs1 : star (pstep code (starts_as_is fit)) (tk_conf d) (tk_conf (begin_task code w t' d))) by by apply star_one, p_start.
    destruct (pstep_sound _ _ Hs1 Hsound) as [Hsound1 HX]. split; [|exact HX].
    split; [exact Hc'|]. split; [exact Hy'|]. split; [exact Hsound1|split; [by eauto|]].
    exists (ns ++ [bound]). split; [|done]. apply Forall2_app; [done|]. by constructor; [apply code_within|].
  - pose proof (thread_move_acts code (starts_as_is fit) i (tk_conf d) c Y m f Hi) as Hact.
    destruct (acts_within _ _ ns _ _ Hns Hact) as (ns' & Hns' & Heq).
    exists (work_left bound (threads s) + sum_list ns'). split; [lia|].
    destruct (pstep_sound _ _ (star_one _ _ _ (proj1 Hact)) Hsound) as [Hsound1 HX]. split; [|exact HX].
    split; [exact Hc'|]. split; [exact Hy|]. split; [exact Hsound1|split; [done|by exists ns']].
  - destruct (stopped_worker NDEBUG bound s s' Hy Hs) as (Hy' & Hgot & [(w' & ty & t' & Hw & Hrun & _)|[_ Hlt]]).
    { destruct (decide (w' = w)) as [->|Hne]; [congruence|]. rewrite (Ho _ Hne) in Hrun. unfold running in Hrun. by rewrite Hw in Hrun. }
    eexists. split; [|split; [split; [exact Hc'|split; [exact Hy'|split; [done|split; [by eauto|by exists ns]]]]|done]]. cbn. lia.
Qed.

(** Whoever is left can go on. *)
Lemma steps_left_moves n x : steps_left n x → threads x.2 ≠ ∅ → hazard x ∨ ∃ x', conc_step NDEBUG code x x'.
Proof.
  destruct x as [d s]. intros (Hc & Hy & [_ Hsound] & _) Hth. cbn in Hth, Hy, Hsound.
  destruct (map_choose _ Hth) as (w & [ty st] & Hw). pose proof Hc as (Hr & _). specialize (Hr w).
  destruct s as [p m cs e tk ex]. cbn in Hy, Hw. unfold running at 1 in Hr. cbn in Hr. rewrite Hw in Hr.
  destruct st as [|t|t|]; [right|right| |right].
  - eexists (d, _). apply c_quiet; [by eapply w_stop|done|]. by eapply running_delete.
  - eexists (begin_task code w t d, _). apply c_begin; [by eapply w_busy|done|]. split; [unfold running; cbn; by rewrite Hw|].
    apply running_update.
  - destruct (tk_of d !! w) as [i|] eqn:Hi; [|done]. cbn in Hr. destruct (task_at d i) as [[t' pr]|] eqn:Ht; [|done].
    injection Hr as <-. pose proof (Forall_lookup_1 _ _ _ _ Hsound Ht) as Hret. destruct pr as [o|Y mm f].
    + cbn in Hret. destruct Hret as [->|[_ HX]]; [right|by left]. eexists (end_task w i d, _). eapply c_end; [by eapply w_run|done| |done|exact Ht].
      split; [unfold running; cbn; by rewrite Hw|]. apply running_update.
    + right. eexists. eapply c_act; [|exact Hi|exact Ht]. unfold running. cbn. rewrite Hw. by eexists.
  - eexists (d, _). apply c_quiet; [by eapply w_idle|done|]. intros v. destruct (decide (v = w)) as [->|Hv].
    + unfold running. cbn. by rewrite lookup_insert_eq, Hw.
    + by apply running_update.
Qed.
End tasks.

(** ** The process *)
Section process.
Context {K : Type} {n : nat} `{!SocketOS K, !StaleText, PAST : !PastEnd} (NDEBUG : bool).
Context (send_res : nat → nat → Z → bytes → Z) (now : nat → Z) (strerror : Z → bytes).
Context (recv : connection → nat → nat → recv_result) (ioctl : connection → nat → option nat) (block : connection → bytes).
Context (stale_text_lives : ∀ t, ∃ t', stale t = Live t') (pointer_loads : is_Some past_end).
Context (Routes : list (bytes * queue_module (vec (SyncQueue nat) n))).

Abbreviation code := (pprocess_connection send_res now strerror recv ioctl block Routes).
Abbreviation serve := (conc_step NDEBUG code).
Abbreviation fit := (connection_fit now recv ioctl block).

Context `{!Scheduling K _ serve, FAIR : !Fair K _ serve}.

(** A stopped kernel has few steps left. *)
Lemma stopped_kernel σ (s0 : sys connection) d (s : sys connection) :
  lead_to_queues send_res now Routes → Forall (λ r, r.1 ≠ []) Routes → fit_inv σ →
  tasks_conserved s0 → (∀ w, running s0 w = None) → executed s0 = [] →
  star (kernel_step NDEBUG serve) (no_tasks σ, s0) (d, s) → Forall fit (enqueued s) →
  ∃ m, m ≤ 25 * size (threads s) + 21 * length (enqueued s) ∧ steps_left fit_order fit_inv service_raced fit 21 m (d, stop_sys s).
Proof using stale_text_lives pointer_loads.
  intros HR Hpaths Hok Hcons Hr He Hs Hfit.
  assert (Hc : tasks_conserved s).
  { eapply (star_invariant _ tasks_conserved); [|exact (kernel_sys _ _ _ _ Hs)|exact Hcons]. intros. by eapply sys_step_conserves. }
  apply (kernel_interleaves _ _ fit) in Hs as [Hp Hcpl]; [|done|by apply coupled_start|done]. cbn in Hp.
  exists (work_left 21 (threads s) + 21 * length (tc_threads (tk_conf d))).
  pose proof (work_left_bound 21 (threads s)). pose proof (tasks_few d s Hcpl Hc). split; [lia|].
  split; [by eapply coupled_sys|]. split; [done|]. split; [|split].
  - eapply (pstep_sound code fit_order fit_inv service_raced service_raced_stays fit); [|exact Hp|split; [exact Hok|by apply Forall_nil_2]].
    intros c σ1 Hft HI. apply rg_ends_in. by apply connection_returns.
  - intros w ty t Hw. rewrite Forall_forall in Hfit. by eapply Hfit, got_enqueued.
  - exists (replicate (length (tc_threads (tk_conf d))) 21). split.
    + apply (Forall2_replicate_l (λ n (t : connection * prog _ unit), within n t.2)); [done|].
      eapply reachable_within; [|exact Hp|by apply Forall_nil_2]. intros c. by apply connection_within.
    + by rewrite sum_list_replicate, Nat.mul_comm.
Qed.

(** Two handlers of one queue object worked on the same field of one request at
    once. *)
Definition race_recorded (w : kworld K (tasks (vec (SyncQueue nat) n * store))) : Prop :=
  service_raced (tc_shared (tk_conf (kw_service w))).

Lemma Join_returns hash_order σ (s0 : sys connection) w fuel :
  lead_to_queues send_res now Routes → Forall (λ r, r.1 ≠ []) Routes → fit_inv σ →
  tasks_conserved s0 → (∀ v, running s0 v = None) → executed s0 = [] →
  star (kernel_step NDEBUG serve) (no_tasks σ, s0) (served w) → PoolYet (pool (kw_sys w)) = true →
  Forall fit (enqueued (kw_sys w)) → 25 * size (threads (kw_sys w)) + 21 * length (enqueued (kw_sys w)) < fuel →
  ∃ r w', Join serve fuel hash_order w = (Ret r, w') ∧ (r = Some tt ∨ race_recorded w').
Proof using stale_text_lives FAIR pointer_loads.
  intros HR Hpaths Hok Hcons Hr He Hs Hyet Hfit Hfuel.
  destruct (yield serve w) as [o w1] eqn:Hy. assert (o = Ret tt) as ->.
  { unfold yield in Hy. destruct (workers _ _) as [? [? ?]]. by injection Hy. }
  pose proof (yield_quiet serve _ _ _ Hy) as Hq. destruct (serve_keeps NDEBUG serve _ _ Hq) as (_ & He1 & Hy1).
  pose proof (worker_steps_threads NDEBUG _ _ (serve_workers NDEBUG serve _ _ Hq)) as Hth.
  cbn [served snd] in He1, Hy1, Hth. destruct (stopped_kernel σ s0 (kw_service w1) (kw_sys w1)) as (m & Hm & Hleft); try done.
  - eapply star_trans; [exact Hs|]. by apply serve_kernel.
  - by rewrite He1.
  - eapply (Join_returns_when serve (steps_left fit_order fit_inv service_raced fit 21) (hazard service_raced)); [|..|exact Hy|by rewrite Hy1|exact Hleft|rewrite He1 in Hm; lia].
    + apply steps_left_step; [typeclasses eauto|exact service_raced_stays|..].
      * intros c. by apply connection_within.
      * intros c σ1 Hft HI. apply rg_ends_in. by apply connection_returns.
    + apply steps_left_moves.
Qed.

(** The steps that the workers of a stopped pool have left, at most. *)
Definition steps_bound (s : sys connection) : nat := 25 * size (threads s) + 21 * length (enqueued s).

(** C6: the process ends when it is told to, unless two handlers have worked on the same
    field of one request at once: once the main loop has seen its signal, the
    destructor of the pool stops the workers, joins them and returns, and no
    thread is left, for connections that are fit (their sockets keep the contract
    of recv, their buffers have room for a zero byte after what arrives, the head
    limit is within the query limit), routes with paths that are not empty, any
    order of joining, and any scheduler that lets some worker go on before the
    main thread does: each worker finishes the connection that it has taken, in
    at most 25 steps for each thread and 21 for each connection. *)
Theorem Run_main_returns (listen_fuel fuel : nat) (hash_order : list nat → list nat) (σ : vec (SyncQueue nat) n * store)
    (hw : Z) (iw mw cb eb : bytes) (tids : list nat) (p : ThreadPool connection) (sv sv1 : Server)
    (w w1 : kworld K (tasks (vec (SyncQueue nat) n * store))) :
  lead_to_queues send_res now Routes → Forall (λ r, r.1 ≠ []) Routes → fit_inv σ → (∀ l, hash_order l ≡ₚ l) →
  ThreadPool_new hw iw mw cb eb tids = Ret p → Z.of_nat (length tids) = PoolInitWorkers p → msgIndex sv = 0%Z →
  kw_service w = no_tasks σ → kw_sys w = start_sys p tids →
  main_loop serve listen_fuel fuel (sv, KWorld (kw_os w) (kw_service w) (kw_sys w) Run_handlers (kw_procSignal w)) =
    (Ret (Some tt), (sv1, w1)) →
  Forall fit (enqueued (kw_sys w1)) → steps_bound (kw_sys w1) < fuel →
  ∃ r w', Run_main serve listen_fuel fuel hash_order (sv, w) = (Ret r, (sv1, w')) ∧
    (r = Some tt ∧ threads (kw_sys w') = ∅ ∧ enqueued (kw_sys w') = enqueued (kw_sys w1) ∨ race_recorded w').
Proof using stale_text_lives FAIR pointer_loads.
  intros HR Hpaths Hok Hord Hnew Hlen Hidx Hσ Hsys Hloop Hfit Hfuel.
  destruct (start_sys_ok _ _ _ _ _ _ _ Hnew Hlen) as (Hj0 & Hc0 & _).
  pose proof (ThreadPool_new_start _ _ _ _ _ _ _ Hnew) as (_ & _ & Hyet0 & _).
  pose proof Hloop as Hloop'. apply (main_loop_keeps NDEBUG serve (served w)) in Hloop' as (Hs1 & _ & Hyet1 & _).
  2:{ split_and!; cbn; [apply star_refl|by rewrite Hsys|by rewrite Hsys|]. unfold numbered. rewrite Hsys. cbn. by rewrite Hidx. }
  cbn [fst snd] in Hs1, Hyet1. unfold served at 1 in Hs1. rewrite Hσ, Hsys in Hs1.
  assert (Hidle : ∀ v, running (start_sys p tids) v = None) by apply start_running.
  destruct (Join_returns hash_order σ (start_sys p tids) w1 fuel HR Hpaths Hok Hc0 Hidle eq_refl Hs1 Hyet1 Hfit Hfuel)
    as (r & w' & Hjoin & Hend).
  assert (Hsys1 : star (sys_step NDEBUG) (start_sys p tids) (kw_sys w1)) by exact (kernel_sys _ _ _ _ Hs1).
  assert (Hj1 : all_joinable (kw_sys w1)).
  { eapply (star_invariant _ all_joinable); [|exact Hsys1|exact Hj0]. intros. by eapply sys_step_joinable. }
  assert (Hc1 : tasks_conserved (kw_sys w1)).
  { eapply (star_invariant _ tasks_conserved); [|exact Hsys1|exact Hc0]. intros. by eapply sys_step_conserves. }
  assert (Hmain : Run_main serve listen_fuel fuel hash_order (sv, w) = (Ret r, (sv1, w'))).
  { unfold Run_main. rewrite (bind_returns _ _ _ _ _ (eq_refl : on_snd (modify _) (sv, w) = (Ret tt, (sv, _)))).
    rewrite (bind_returns _ _ _ _ _ Hloop). unfold on_snd. cbn. by rewrite Hjoin. }
  exists r, w'. split; [exact Hmain|]. destruct Hend as [->|Hrace]; [left|by right]. split; [done|].
  by destruct (Join_spec NDEBUG serve fuel hash_order w1 w' Hord Hjoin Hj1 Hc1 Hyet1) as (_ & H1 & H2 & _).
Qed.
End process.

(** ** A kernel that is told to stop

    Two clients wait; between any two actions of the main thread every worker
    makes one step. *)
#[local] Existing Instance Two.stale_live.
#[local] Existing Instance readable_past_end.
Module Stopped.
Definition each_moves (turns : list nat) (x : tasks Two.service * sys connection) : tasks Two.service * sys connection :=
  conc_moves false Two.code (elements (dom (threads x.2)) ++ turns) x.

#[global] Instance turns : Scheduling Machine.machine (tasks Two.service) (conc_step false Two.code) :=
  Machine.machine_schedule _ each_moves (λ ws x, conc_moves_steps false Two.code (elements (dom (threads x.2)) ++ ws) x).

#[global] Instance turns_fair : Fair Machine.machine (tasks Two.service) (conc_step false Two.code).
Proof.
  intros k [d s] [x' Hx]. destruct (conc_move_exists false Two.code d s x' Hx) as (w & Hw & Hm).
  apply (conc_moves_one false Two.code (elements (dom s.(threads)) ++ Machine.m_turns k) w); [|exact Hm].
  apply elem_of_app. left. by apply elem_of_elements.
Qed.

Definition pool : ThreadPool connection :=
  match ThreadPool_new 4 (str "1") (str "2") (str "0-1") [] [1] with Ret p => p | _ => MkPool false 0 0 0 0 ∅ [] [] end.
Definition os : Machine.machine := Machine.MkMachine (Demo.MkOs 4 [(3%Z, Machine.clients)] [] []) [] [] Machine.interrupted.
Definition world : kworld Machine.machine (tasks Two.service) := KWorld os (no_tasks Edge.start) (start_sys pool [1]) [] 0.
Abbreviation told := (main_loop (conc_step false Two.code) 20 200
  (Interrupted.server, KWorld (kw_os world) (kw_service world) (kw_sys world) Run_handlers (kw_procSignal world))).

(** The limits of the listener, and a peer address that can be written. *)
Definition plain (c : connection) : bool :=
  bool_decide (limits_of c = (256, 256)) && match handler_of Relay.now c with Ret _ => true | _ => false end.

(** Both clients were accepted, and a worker is at work when the signal comes. *)
Definition in_time (r : outcome (option unit) * (Server * kworld Machine.machine (tasks Two.service))) : bool :=
  match r with
  | (Ret (Some tt), (_, w)) =>
      bool_decide (cn_socket <$> enqueued (kw_sys w) = Machine.clients ∧ threads (kw_sys w) ≠ ∅ ∧
        25 * size (threads (kw_sys w)) + 21 * length (enqueued (kw_sys w)) < 200) && forallb plain (enqueued (kw_sys w))
  | _ => false
  end.
(** No two handlers have met on a request of the only queue. *)
Definition no_race (r : outcome (option unit) * (Server * kworld Machine.machine (tasks Two.service))) : bool :=
  bool_decide (is_Some (mq_writing ((tc_shared (tk_conf (kw_service r.2.2))).1 !!! 0%fin))).
End Stopped.

Lemma Run_main_returns_witness :
  match Stopped.told with
  | (Ret (Some tt), (sv, w)) =>
      threads (kw_sys w) ≠ ∅ ∧
      ∃ w', Run_main (conc_step false Two.code) 20 200 (λ l, l) (Interrupted.server, Stopped.world) = (Ret (Some tt), (sv, w')) ∧
        threads (kw_sys w') = ∅ ∧ enqueued (kw_sys w') = enqueued (kw_sys w)
  | _ => False
  end.
Proof.
  assert (H : Stopped.in_time Stopped.told = true) by (vm_compute; reflexivity).
  remember Stopped.told as r eqn:Htold. symmetry in Htold. destruct r as [[[[]|]|e| |] [sv w]]; try discriminate H.
  apply andb_prop in H as [(_ & Hth & Hfuel)%bool_decide_eq_true_1 Hplain]. split; [exact Hth|].
  destruct (Run_main_returns (K := Machine.machine) false Relay.send_res Relay.now Relay.strerror Two.recv (λ _ _, Some 0) (λ _, replicate 256 NUL)
    ltac:(by intros t; exists t) ltac:(by eexists) Two.Routes 20 200 (λ l, l) Edge.start 4 (str "1") (str "2") (str "0-1") [] [1] Stopped.pool
    Interrupted.server sv Stopped.world w)
    as (r & w' & Hmain & [(-> & Hend)|[j Hrace]]);
    [| |exact empty_service_fit|done|vm_compute; reflexivity|vm_compute; reflexivity|reflexivity|reflexivity|reflexivity
    |exact Htold| |exact Hfuel|exists w'; by split|].
  - apply Forall_singleton. by eexists.
  - by apply Forall_singleton.
  - apply Forall_forall. intros c Hc. rewrite forallb_forall in Hplain.
    specialize (Hplain c (proj1 (list_elem_of_In _ _) Hc)). apply andb_prop in Hplain as [Hl%bool_decide_eq_true_1 Hh].
    apply plain_client_fit; [exact Hl|]. destruct (handler_of Relay.now c) as [h| | |]; [by exists h|done..].
  - exfalso. change (Run_main (conc_step false Two.code) 20 200 (λ l, l) (Interrupted.server, Stopped.world) = (Ret r, (sv, w'))) in Hmain.
    assert (Hno : Stopped.no_race (Run_main (conc_step false Two.code) 20 200 (λ l, l) (Interrupted.server, Stopped.world)) = true)
      by (vm_compute; reflexivity).
    rewrite Hmain in Hno. apply bool_decide_eq_true_1 in Hno as [g Hg]. cbn in Hg.
    revert Hrace. inv_fin j; [|intros j; inv_fin j]. intros Hrace. discriminate (eq_trans (eq_sym Hg) Hrace).
Defined.
